(** * StFlow: discretised one-dimensional reacting flow

    A shallow embedding of [StFlow.cpp] (Cantera's one-dimensional flow
    domain) and the properties of its residual assembly.

    Conventions of the embedding.
    - [double] is idealised as the exact rationals [Q]: the properties
      below are algebraic or structural, and rounding is not modelled.
    - [size_t] is [nat]; the sentinel [npos] is [None] of [option nat].
      Subtractions [m_points - 1], [jmax - 1] are truncated, which agrees
      with the unsigned arithmetic of the source whenever the domain has
      at least two points.
    - Raw pointers ([double* x], [double* rsd], [int* diag]) are total
      maps from offsets to values; a store is [<[i:=v]> buf].
    - [std::vector] members are lists, read with [l !!! i] and written
      with [<[i:=v]> l].  An access beyond the size is undefined in the
      source; the model reads the default and ignores the write.
    - A C++ exception is the [Thrown] outcome, returned together with
      the state the object is left in. *)

From Stdlib Require Import ZArith QArith Lia String.
From stdpp Require Import base list strings functions.

Close Scope Q_scope.
Local Open Scope nat_scope.

(** ** Numbers *)

Definition double : Type := Q.

#[global] Instance double_inhabited : Inhabited Q := populate 0%Q.

(** [a < b] on doubles, as a boolean. *)
Definition Qlt_bool (a b : Q) : bool := negb (Qle_bool b a).

(** [pow(a, (double) n)] for an unsigned [n]. *)
Definition pow (a : Q) (n : nat) : Q := Qpower a (Z.of_nat n).

(** ** Loops *)

(** [for (j = lo; j < hi; j++) s = body j s]. *)
Definition for_range {St : Type} (lo hi : nat) (body : nat -> St -> St) (s : St) : St :=
  fold_left (fun acc j => body j acc) (seq lo (hi - lo)) s.

(** [for (j = lo; j <= hi; j++) s = body j s]. *)
Definition for_upto {St : Type} (lo hi : nat) (body : nat -> St -> St) (s : St) : St :=
  for_range lo (S hi) body s.

(** ** Exceptions *)

Inductive exn : Type :=
| CanteraError (procedure : string) (msg : string)
| NotImplementedError (procedure : string) (msg : string).

Inductive outcome (A : Type) : Type :=
| Normal (a : A)
| Thrown (e : exn).
Arguments Normal {A} a.
Arguments Thrown {A} e.

Definition is_CanteraError (e : exn) : bool :=
  match e with CanteraError _ _ => true | NotImplementedError _ _ => false end.

Definition is_NotImplementedError (e : exn) : bool :=
  match e with NotImplementedError _ _ => true | CanteraError _ _ => false end.

(** ** Buffers *)

(** [std::vector<T>::resize(n, v)]: keep the first [n] entries, fill up
    with [v]. *)
Definition vresize {A : Type} (n : nat) (v : A) (l : list A) : list A :=
  take n l ++ replicate (n - length l) v.

(** [Array2D]: a column-major matrix, [a(i,j) = data[nrows*j + i]]. *)
Record Array2D : Type := mkArray2D {
  nRows : nat;
  nColumns : nat;
  a2d_data : list Q
}.

Definition a2d_resize (n m : nat) (v : Q) (a : Array2D) : Array2D :=
  mkArray2D n m (vresize (n * m) v (a2d_data a)).

Definition a2d_get (a : Array2D) (i j : nat) : Q :=
  a2d_data a !!! (nRows a * j + i).

Definition a2d_set (a : Array2D) (i j : nat) (v : Q) : Array2D :=
  mkArray2D (nRows a) (nColumns a) (<[nRows a * j + i := v]> (a2d_data a)).

(** ** The thermodynamic state held by the phase object *)

Record ThermoPhase : Type := mkThermoPhase {
  tp_temperature : Q;
  tp_massFractions : list Q;
  tp_pressure : Q;
  tp_speciesNames : list string
}.

(** ** The flow domain *)

Record StFlow : Type := mkStFlow {
  m_nsp : nat;  (* number of species *)
  m_nv : nat;  (* components per point *)
  m_points : nat;  (* number of grid points *)
  m_iloc : nat;  (* Domain1D::loc(): offset of the domain in the global arrays *)
  m_jstart : nat;  (* Domain1D::firstPoint(): global index of the first point *)
  m_thermo : ThermoPhase;  (* the externally owned phase object *)
  m_wt : list Q;  (* species molecular weights *)
  m_press : Q;  (* pressure *)
  m_z : list Q;  (* grid *)
  m_dz : list Q;  (* interval widths *)
  m_rho : list Q;  (* density per point *)
  m_wtm : list Q;  (* mean molecular weight per point *)
  m_cp : list Q;  (* specific heat per point *)
  m_hk : Array2D;  (* species enthalpies *)
  m_wdot : Array2D;  (* species production rates *)
  m_visc : list Q;  (* viscosity per interval *)
  m_tcon : list Q;  (* thermal conductivity per interval *)
  m_diff : list Q;  (* diffusion coefficients, species-major per interval *)
  m_multidiff : list Q;  (* multicomponent diffusion matrices *)
  m_dthermal : Array2D;  (* thermal diffusion coefficients *)
  m_flux : Array2D;  (* diffusive mass fluxes *)
  m_dhk_dz : Array2D;  (* enthalpy gradients *)
  m_ybar : list Q;  (* midpoint mass fractions (scratch) *)
  m_qdotRadiation : list Q;  (* radiative heat loss per point *)
  m_kRadiating : list (option nat);  (* indices of CO2 and H2O, None for npos *)
  m_epsilon_left : Q;  (* left boundary emissivity *)
  m_epsilon_right : Q;  (* right boundary emissivity *)
  m_do_radiation : bool;
  m_do_energy : list bool;  (* energy equation enabled, per point *)
  m_fixedtemp : list Q;  (* captured fixed temperature profile *)
  m_zfix : list Q;  (* relative positions of the stored reference profile *)
  m_tfix : list Q;  (* temperatures of the stored reference profile *)
  m_do_multicomponent : bool;
  m_do_soret : bool;
  m_usesLambda : bool;
  m_isFree : bool;
  m_dovisc : bool;
  m_force_full_update : bool;
  m_zfixed : Q;  (* location of the fixed point *)
  m_tfixed : Q;  (* temperature of the fixed point *)
  m_kExcessLeft : nat;
  m_kExcessRight : nat;
  m_refiner_active : nat -> bool;  (* Refiner::setActive flags, per component *)
  m_jacUpdates : nat  (* number of needJacUpdate() signals raised so far *)
}.

(** Field assignments [this->m_f = v]. *)
Definition set_m_nv (v : nat) (st : StFlow) : StFlow :=
  mkStFlow (m_nsp st) v (m_points st) (m_iloc st) (m_jstart st) (m_thermo st)
    (m_wt st) (m_press st) (m_z st) (m_dz st) (m_rho st) (m_wtm st)
    (m_cp st) (m_hk st) (m_wdot st) (m_visc st) (m_tcon st) (m_diff st)
    (m_multidiff st) (m_dthermal st) (m_flux st) (m_dhk_dz st) (m_ybar st)
    (m_qdotRadiation st) (m_kRadiating st) (m_epsilon_left st)
    (m_epsilon_right st) (m_do_radiation st) (m_do_energy st)
    (m_fixedtemp st) (m_zfix st) (m_tfix st) (m_do_multicomponent st)
    (m_do_soret st) (m_usesLambda st) (m_isFree st) (m_dovisc st)
    (m_force_full_update st) (m_zfixed st) (m_tfixed st) (m_kExcessLeft st)
    (m_kExcessRight st) (m_refiner_active st) (m_jacUpdates st).
Definition set_m_points (v : nat) (st : StFlow) : StFlow :=
  mkStFlow (m_nsp st) (m_nv st) v (m_iloc st) (m_jstart st) (m_thermo st) (m_wt st)
    (m_press st) (m_z st) (m_dz st) (m_rho st) (m_wtm st) (m_cp st)
    (m_hk st) (m_wdot st) (m_visc st) (m_tcon st) (m_diff st)
    (m_multidiff st) (m_dthermal st) (m_flux st) (m_dhk_dz st) (m_ybar st)
    (m_qdotRadiation st) (m_kRadiating st) (m_epsilon_left st)
    (m_epsilon_right st) (m_do_radiation st) (m_do_energy st)
    (m_fixedtemp st) (m_zfix st) (m_tfix st) (m_do_multicomponent st)
    (m_do_soret st) (m_usesLambda st) (m_isFree st) (m_dovisc st)
    (m_force_full_update st) (m_zfixed st) (m_tfixed st) (m_kExcessLeft st)
    (m_kExcessRight st) (m_refiner_active st) (m_jacUpdates st).
Definition set_m_thermo (v : ThermoPhase) (st : StFlow) : StFlow :=
  mkStFlow (m_nsp st) (m_nv st) (m_points st) (m_iloc st) (m_jstart st) v (m_wt st)
    (m_press st) (m_z st) (m_dz st) (m_rho st) (m_wtm st) (m_cp st)
    (m_hk st) (m_wdot st) (m_visc st) (m_tcon st) (m_diff st)
    (m_multidiff st) (m_dthermal st) (m_flux st) (m_dhk_dz st) (m_ybar st)
    (m_qdotRadiation st) (m_kRadiating st) (m_epsilon_left st)
    (m_epsilon_right st) (m_do_radiation st) (m_do_energy st)
    (m_fixedtemp st) (m_zfix st) (m_tfix st) (m_do_multicomponent st)
    (m_do_soret st) (m_usesLambda st) (m_isFree st) (m_dovisc st)
    (m_force_full_update st) (m_zfixed st) (m_tfixed st) (m_kExcessLeft st)
    (m_kExcessRight st) (m_refiner_active st) (m_jacUpdates st).
Definition set_m_z (v : list Q) (st : StFlow) : StFlow :=
  mkStFlow (m_nsp st) (m_nv st) (m_points st) (m_iloc st) (m_jstart st)
    (m_thermo st) (m_wt st) (m_press st) v (m_dz st) (m_rho st) (m_wtm st)
    (m_cp st) (m_hk st) (m_wdot st) (m_visc st) (m_tcon st) (m_diff st)
    (m_multidiff st) (m_dthermal st) (m_flux st) (m_dhk_dz st) (m_ybar st)
    (m_qdotRadiation st) (m_kRadiating st) (m_epsilon_left st)
    (m_epsilon_right st) (m_do_radiation st) (m_do_energy st)
    (m_fixedtemp st) (m_zfix st) (m_tfix st) (m_do_multicomponent st)
    (m_do_soret st) (m_usesLambda st) (m_isFree st) (m_dovisc st)
    (m_force_full_update st) (m_zfixed st) (m_tfixed st) (m_kExcessLeft st)
    (m_kExcessRight st) (m_refiner_active st) (m_jacUpdates st).
Definition set_m_dz (v : list Q) (st : StFlow) : StFlow :=
  mkStFlow (m_nsp st) (m_nv st) (m_points st) (m_iloc st) (m_jstart st)
    (m_thermo st) (m_wt st) (m_press st) (m_z st) v (m_rho st) (m_wtm st)
    (m_cp st) (m_hk st) (m_wdot st) (m_visc st) (m_tcon st) (m_diff st)
    (m_multidiff st) (m_dthermal st) (m_flux st) (m_dhk_dz st) (m_ybar st)
    (m_qdotRadiation st) (m_kRadiating st) (m_epsilon_left st)
    (m_epsilon_right st) (m_do_radiation st) (m_do_energy st)
    (m_fixedtemp st) (m_zfix st) (m_tfix st) (m_do_multicomponent st)
    (m_do_soret st) (m_usesLambda st) (m_isFree st) (m_dovisc st)
    (m_force_full_update st) (m_zfixed st) (m_tfixed st) (m_kExcessLeft st)
    (m_kExcessRight st) (m_refiner_active st) (m_jacUpdates st).
Definition set_m_rho (v : list Q) (st : StFlow) : StFlow :=
  mkStFlow (m_nsp st) (m_nv st) (m_points st) (m_iloc st) (m_jstart st)
    (m_thermo st) (m_wt st) (m_press st) (m_z st) (m_dz st) v (m_wtm st)
    (m_cp st) (m_hk st) (m_wdot st) (m_visc st) (m_tcon st) (m_diff st)
    (m_multidiff st) (m_dthermal st) (m_flux st) (m_dhk_dz st) (m_ybar st)
    (m_qdotRadiation st) (m_kRadiating st) (m_epsilon_left st)
    (m_epsilon_right st) (m_do_radiation st) (m_do_energy st)
    (m_fixedtemp st) (m_zfix st) (m_tfix st) (m_do_multicomponent st)
    (m_do_soret st) (m_usesLambda st) (m_isFree st) (m_dovisc st)
    (m_force_full_update st) (m_zfixed st) (m_tfixed st) (m_kExcessLeft st)
    (m_kExcessRight st) (m_refiner_active st) (m_jacUpdates st).
Definition set_m_wtm (v : list Q) (st : StFlow) : StFlow :=
  mkStFlow (m_nsp st) (m_nv st) (m_points st) (m_iloc st) (m_jstart st)
    (m_thermo st) (m_wt st) (m_press st) (m_z st) (m_dz st) (m_rho st) v
    (m_cp st) (m_hk st) (m_wdot st) (m_visc st) (m_tcon st) (m_diff st)
    (m_multidiff st) (m_dthermal st) (m_flux st) (m_dhk_dz st) (m_ybar st)
    (m_qdotRadiation st) (m_kRadiating st) (m_epsilon_left st)
    (m_epsilon_right st) (m_do_radiation st) (m_do_energy st)
    (m_fixedtemp st) (m_zfix st) (m_tfix st) (m_do_multicomponent st)
    (m_do_soret st) (m_usesLambda st) (m_isFree st) (m_dovisc st)
    (m_force_full_update st) (m_zfixed st) (m_tfixed st) (m_kExcessLeft st)
    (m_kExcessRight st) (m_refiner_active st) (m_jacUpdates st).
Definition set_m_cp (v : list Q) (st : StFlow) : StFlow :=
  mkStFlow (m_nsp st) (m_nv st) (m_points st) (m_iloc st) (m_jstart st)
    (m_thermo st) (m_wt st) (m_press st) (m_z st) (m_dz st) (m_rho st)
    (m_wtm st) v (m_hk st) (m_wdot st) (m_visc st) (m_tcon st) (m_diff st)
    (m_multidiff st) (m_dthermal st) (m_flux st) (m_dhk_dz st) (m_ybar st)
    (m_qdotRadiation st) (m_kRadiating st) (m_epsilon_left st)
    (m_epsilon_right st) (m_do_radiation st) (m_do_energy st)
    (m_fixedtemp st) (m_zfix st) (m_tfix st) (m_do_multicomponent st)
    (m_do_soret st) (m_usesLambda st) (m_isFree st) (m_dovisc st)
    (m_force_full_update st) (m_zfixed st) (m_tfixed st) (m_kExcessLeft st)
    (m_kExcessRight st) (m_refiner_active st) (m_jacUpdates st).
Definition set_m_hk (v : Array2D) (st : StFlow) : StFlow :=
  mkStFlow (m_nsp st) (m_nv st) (m_points st) (m_iloc st) (m_jstart st)
    (m_thermo st) (m_wt st) (m_press st) (m_z st) (m_dz st) (m_rho st)
    (m_wtm st) (m_cp st) v (m_wdot st) (m_visc st) (m_tcon st) (m_diff st)
    (m_multidiff st) (m_dthermal st) (m_flux st) (m_dhk_dz st) (m_ybar st)
    (m_qdotRadiation st) (m_kRadiating st) (m_epsilon_left st)
    (m_epsilon_right st) (m_do_radiation st) (m_do_energy st)
    (m_fixedtemp st) (m_zfix st) (m_tfix st) (m_do_multicomponent st)
    (m_do_soret st) (m_usesLambda st) (m_isFree st) (m_dovisc st)
    (m_force_full_update st) (m_zfixed st) (m_tfixed st) (m_kExcessLeft st)
    (m_kExcessRight st) (m_refiner_active st) (m_jacUpdates st).
Definition set_m_wdot (v : Array2D) (st : StFlow) : StFlow :=
  mkStFlow (m_nsp st) (m_nv st) (m_points st) (m_iloc st) (m_jstart st)
    (m_thermo st) (m_wt st) (m_press st) (m_z st) (m_dz st) (m_rho st)
    (m_wtm st) (m_cp st) (m_hk st) v (m_visc st) (m_tcon st) (m_diff st)
    (m_multidiff st) (m_dthermal st) (m_flux st) (m_dhk_dz st) (m_ybar st)
    (m_qdotRadiation st) (m_kRadiating st) (m_epsilon_left st)
    (m_epsilon_right st) (m_do_radiation st) (m_do_energy st)
    (m_fixedtemp st) (m_zfix st) (m_tfix st) (m_do_multicomponent st)
    (m_do_soret st) (m_usesLambda st) (m_isFree st) (m_dovisc st)
    (m_force_full_update st) (m_zfixed st) (m_tfixed st) (m_kExcessLeft st)
    (m_kExcessRight st) (m_refiner_active st) (m_jacUpdates st).
Definition set_m_visc (v : list Q) (st : StFlow) : StFlow :=
  mkStFlow (m_nsp st) (m_nv st) (m_points st) (m_iloc st) (m_jstart st)
    (m_thermo st) (m_wt st) (m_press st) (m_z st) (m_dz st) (m_rho st)
    (m_wtm st) (m_cp st) (m_hk st) (m_wdot st) v (m_tcon st) (m_diff st)
    (m_multidiff st) (m_dthermal st) (m_flux st) (m_dhk_dz st) (m_ybar st)
    (m_qdotRadiation st) (m_kRadiating st) (m_epsilon_left st)
    (m_epsilon_right st) (m_do_radiation st) (m_do_energy st)
    (m_fixedtemp st) (m_zfix st) (m_tfix st) (m_do_multicomponent st)
    (m_do_soret st) (m_usesLambda st) (m_isFree st) (m_dovisc st)
    (m_force_full_update st) (m_zfixed st) (m_tfixed st) (m_kExcessLeft st)
    (m_kExcessRight st) (m_refiner_active st) (m_jacUpdates st).
Definition set_m_tcon (v : list Q) (st : StFlow) : StFlow :=
  mkStFlow (m_nsp st) (m_nv st) (m_points st) (m_iloc st) (m_jstart st)
    (m_thermo st) (m_wt st) (m_press st) (m_z st) (m_dz st) (m_rho st)
    (m_wtm st) (m_cp st) (m_hk st) (m_wdot st) (m_visc st) v (m_diff st)
    (m_multidiff st) (m_dthermal st) (m_flux st) (m_dhk_dz st) (m_ybar st)
    (m_qdotRadiation st) (m_kRadiating st) (m_epsilon_left st)
    (m_epsilon_right st) (m_do_radiation st) (m_do_energy st)
    (m_fixedtemp st) (m_zfix st) (m_tfix st) (m_do_multicomponent st)
    (m_do_soret st) (m_usesLambda st) (m_isFree st) (m_dovisc st)
    (m_force_full_update st) (m_zfixed st) (m_tfixed st) (m_kExcessLeft st)
    (m_kExcessRight st) (m_refiner_active st) (m_jacUpdates st).
Definition set_m_diff (v : list Q) (st : StFlow) : StFlow :=
  mkStFlow (m_nsp st) (m_nv st) (m_points st) (m_iloc st) (m_jstart st)
    (m_thermo st) (m_wt st) (m_press st) (m_z st) (m_dz st) (m_rho st)
    (m_wtm st) (m_cp st) (m_hk st) (m_wdot st) (m_visc st) (m_tcon st) v
    (m_multidiff st) (m_dthermal st) (m_flux st) (m_dhk_dz st) (m_ybar st)
    (m_qdotRadiation st) (m_kRadiating st) (m_epsilon_left st)
    (m_epsilon_right st) (m_do_radiation st) (m_do_energy st)
    (m_fixedtemp st) (m_zfix st) (m_tfix st) (m_do_multicomponent st)
    (m_do_soret st) (m_usesLambda st) (m_isFree st) (m_dovisc st)
    (m_force_full_update st) (m_zfixed st) (m_tfixed st) (m_kExcessLeft st)
    (m_kExcessRight st) (m_refiner_active st) (m_jacUpdates st).
Definition set_m_multidiff (v : list Q) (st : StFlow) : StFlow :=
  mkStFlow (m_nsp st) (m_nv st) (m_points st) (m_iloc st) (m_jstart st)
    (m_thermo st) (m_wt st) (m_press st) (m_z st) (m_dz st) (m_rho st)
    (m_wtm st) (m_cp st) (m_hk st) (m_wdot st) (m_visc st) (m_tcon st)
    (m_diff st) v (m_dthermal st) (m_flux st) (m_dhk_dz st) (m_ybar st)
    (m_qdotRadiation st) (m_kRadiating st) (m_epsilon_left st)
    (m_epsilon_right st) (m_do_radiation st) (m_do_energy st)
    (m_fixedtemp st) (m_zfix st) (m_tfix st) (m_do_multicomponent st)
    (m_do_soret st) (m_usesLambda st) (m_isFree st) (m_dovisc st)
    (m_force_full_update st) (m_zfixed st) (m_tfixed st) (m_kExcessLeft st)
    (m_kExcessRight st) (m_refiner_active st) (m_jacUpdates st).
Definition set_m_dthermal (v : Array2D) (st : StFlow) : StFlow :=
  mkStFlow (m_nsp st) (m_nv st) (m_points st) (m_iloc st) (m_jstart st)
    (m_thermo st) (m_wt st) (m_press st) (m_z st) (m_dz st) (m_rho st)
    (m_wtm st) (m_cp st) (m_hk st) (m_wdot st) (m_visc st) (m_tcon st)
    (m_diff st) (m_multidiff st) v (m_flux st) (m_dhk_dz st) (m_ybar st)
    (m_qdotRadiation st) (m_kRadiating st) (m_epsilon_left st)
    (m_epsilon_right st) (m_do_radiation st) (m_do_energy st)
    (m_fixedtemp st) (m_zfix st) (m_tfix st) (m_do_multicomponent st)
    (m_do_soret st) (m_usesLambda st) (m_isFree st) (m_dovisc st)
    (m_force_full_update st) (m_zfixed st) (m_tfixed st) (m_kExcessLeft st)
    (m_kExcessRight st) (m_refiner_active st) (m_jacUpdates st).
Definition set_m_flux (v : Array2D) (st : StFlow) : StFlow :=
  mkStFlow (m_nsp st) (m_nv st) (m_points st) (m_iloc st) (m_jstart st)
    (m_thermo st) (m_wt st) (m_press st) (m_z st) (m_dz st) (m_rho st)
    (m_wtm st) (m_cp st) (m_hk st) (m_wdot st) (m_visc st) (m_tcon st)
    (m_diff st) (m_multidiff st) (m_dthermal st) v (m_dhk_dz st) (m_ybar st)
    (m_qdotRadiation st) (m_kRadiating st) (m_epsilon_left st)
    (m_epsilon_right st) (m_do_radiation st) (m_do_energy st)
    (m_fixedtemp st) (m_zfix st) (m_tfix st) (m_do_multicomponent st)
    (m_do_soret st) (m_usesLambda st) (m_isFree st) (m_dovisc st)
    (m_force_full_update st) (m_zfixed st) (m_tfixed st) (m_kExcessLeft st)
    (m_kExcessRight st) (m_refiner_active st) (m_jacUpdates st).
Definition set_m_dhk_dz (v : Array2D) (st : StFlow) : StFlow :=
  mkStFlow (m_nsp st) (m_nv st) (m_points st) (m_iloc st) (m_jstart st)
    (m_thermo st) (m_wt st) (m_press st) (m_z st) (m_dz st) (m_rho st)
    (m_wtm st) (m_cp st) (m_hk st) (m_wdot st) (m_visc st) (m_tcon st)
    (m_diff st) (m_multidiff st) (m_dthermal st) (m_flux st) v (m_ybar st)
    (m_qdotRadiation st) (m_kRadiating st) (m_epsilon_left st)
    (m_epsilon_right st) (m_do_radiation st) (m_do_energy st)
    (m_fixedtemp st) (m_zfix st) (m_tfix st) (m_do_multicomponent st)
    (m_do_soret st) (m_usesLambda st) (m_isFree st) (m_dovisc st)
    (m_force_full_update st) (m_zfixed st) (m_tfixed st) (m_kExcessLeft st)
    (m_kExcessRight st) (m_refiner_active st) (m_jacUpdates st).
Definition set_m_ybar (v : list Q) (st : StFlow) : StFlow :=
  mkStFlow (m_nsp st) (m_nv st) (m_points st) (m_iloc st) (m_jstart st)
    (m_thermo st) (m_wt st) (m_press st) (m_z st) (m_dz st) (m_rho st)
    (m_wtm st) (m_cp st) (m_hk st) (m_wdot st) (m_visc st) (m_tcon st)
    (m_diff st) (m_multidiff st) (m_dthermal st) (m_flux st) (m_dhk_dz st) v
    (m_qdotRadiation st) (m_kRadiating st) (m_epsilon_left st)
    (m_epsilon_right st) (m_do_radiation st) (m_do_energy st)
    (m_fixedtemp st) (m_zfix st) (m_tfix st) (m_do_multicomponent st)
    (m_do_soret st) (m_usesLambda st) (m_isFree st) (m_dovisc st)
    (m_force_full_update st) (m_zfixed st) (m_tfixed st) (m_kExcessLeft st)
    (m_kExcessRight st) (m_refiner_active st) (m_jacUpdates st).
Definition set_m_qdotRadiation (v : list Q) (st : StFlow) : StFlow :=
  mkStFlow (m_nsp st) (m_nv st) (m_points st) (m_iloc st) (m_jstart st)
    (m_thermo st) (m_wt st) (m_press st) (m_z st) (m_dz st) (m_rho st)
    (m_wtm st) (m_cp st) (m_hk st) (m_wdot st) (m_visc st) (m_tcon st)
    (m_diff st) (m_multidiff st) (m_dthermal st) (m_flux st) (m_dhk_dz st)
    (m_ybar st) v (m_kRadiating st) (m_epsilon_left st) (m_epsilon_right st)
    (m_do_radiation st) (m_do_energy st) (m_fixedtemp st) (m_zfix st)
    (m_tfix st) (m_do_multicomponent st) (m_do_soret st) (m_usesLambda st)
    (m_isFree st) (m_dovisc st) (m_force_full_update st) (m_zfixed st)
    (m_tfixed st) (m_kExcessLeft st) (m_kExcessRight st)
    (m_refiner_active st) (m_jacUpdates st).
Definition set_m_do_energy (v : list bool) (st : StFlow) : StFlow :=
  mkStFlow (m_nsp st) (m_nv st) (m_points st) (m_iloc st) (m_jstart st)
    (m_thermo st) (m_wt st) (m_press st) (m_z st) (m_dz st) (m_rho st)
    (m_wtm st) (m_cp st) (m_hk st) (m_wdot st) (m_visc st) (m_tcon st)
    (m_diff st) (m_multidiff st) (m_dthermal st) (m_flux st) (m_dhk_dz st)
    (m_ybar st) (m_qdotRadiation st) (m_kRadiating st) (m_epsilon_left st)
    (m_epsilon_right st) (m_do_radiation st) v (m_fixedtemp st) (m_zfix st)
    (m_tfix st) (m_do_multicomponent st) (m_do_soret st) (m_usesLambda st)
    (m_isFree st) (m_dovisc st) (m_force_full_update st) (m_zfixed st)
    (m_tfixed st) (m_kExcessLeft st) (m_kExcessRight st)
    (m_refiner_active st) (m_jacUpdates st).
Definition set_m_fixedtemp (v : list Q) (st : StFlow) : StFlow :=
  mkStFlow (m_nsp st) (m_nv st) (m_points st) (m_iloc st) (m_jstart st)
    (m_thermo st) (m_wt st) (m_press st) (m_z st) (m_dz st) (m_rho st)
    (m_wtm st) (m_cp st) (m_hk st) (m_wdot st) (m_visc st) (m_tcon st)
    (m_diff st) (m_multidiff st) (m_dthermal st) (m_flux st) (m_dhk_dz st)
    (m_ybar st) (m_qdotRadiation st) (m_kRadiating st) (m_epsilon_left st)
    (m_epsilon_right st) (m_do_radiation st) (m_do_energy st) v (m_zfix st)
    (m_tfix st) (m_do_multicomponent st) (m_do_soret st) (m_usesLambda st)
    (m_isFree st) (m_dovisc st) (m_force_full_update st) (m_zfixed st)
    (m_tfixed st) (m_kExcessLeft st) (m_kExcessRight st)
    (m_refiner_active st) (m_jacUpdates st).
Definition set_m_zfixed (v : Q) (st : StFlow) : StFlow :=
  mkStFlow (m_nsp st) (m_nv st) (m_points st) (m_iloc st) (m_jstart st)
    (m_thermo st) (m_wt st) (m_press st) (m_z st) (m_dz st) (m_rho st)
    (m_wtm st) (m_cp st) (m_hk st) (m_wdot st) (m_visc st) (m_tcon st)
    (m_diff st) (m_multidiff st) (m_dthermal st) (m_flux st) (m_dhk_dz st)
    (m_ybar st) (m_qdotRadiation st) (m_kRadiating st) (m_epsilon_left st)
    (m_epsilon_right st) (m_do_radiation st) (m_do_energy st)
    (m_fixedtemp st) (m_zfix st) (m_tfix st) (m_do_multicomponent st)
    (m_do_soret st) (m_usesLambda st) (m_isFree st) (m_dovisc st)
    (m_force_full_update st) v (m_tfixed st) (m_kExcessLeft st)
    (m_kExcessRight st) (m_refiner_active st) (m_jacUpdates st).
Definition set_m_tfixed (v : Q) (st : StFlow) : StFlow :=
  mkStFlow (m_nsp st) (m_nv st) (m_points st) (m_iloc st) (m_jstart st)
    (m_thermo st) (m_wt st) (m_press st) (m_z st) (m_dz st) (m_rho st)
    (m_wtm st) (m_cp st) (m_hk st) (m_wdot st) (m_visc st) (m_tcon st)
    (m_diff st) (m_multidiff st) (m_dthermal st) (m_flux st) (m_dhk_dz st)
    (m_ybar st) (m_qdotRadiation st) (m_kRadiating st) (m_epsilon_left st)
    (m_epsilon_right st) (m_do_radiation st) (m_do_energy st)
    (m_fixedtemp st) (m_zfix st) (m_tfix st) (m_do_multicomponent st)
    (m_do_soret st) (m_usesLambda st) (m_isFree st) (m_dovisc st)
    (m_force_full_update st) (m_zfixed st) v (m_kExcessLeft st)
    (m_kExcessRight st) (m_refiner_active st) (m_jacUpdates st).
Definition set_m_kExcessLeft (v : nat) (st : StFlow) : StFlow :=
  mkStFlow (m_nsp st) (m_nv st) (m_points st) (m_iloc st) (m_jstart st)
    (m_thermo st) (m_wt st) (m_press st) (m_z st) (m_dz st) (m_rho st)
    (m_wtm st) (m_cp st) (m_hk st) (m_wdot st) (m_visc st) (m_tcon st)
    (m_diff st) (m_multidiff st) (m_dthermal st) (m_flux st) (m_dhk_dz st)
    (m_ybar st) (m_qdotRadiation st) (m_kRadiating st) (m_epsilon_left st)
    (m_epsilon_right st) (m_do_radiation st) (m_do_energy st)
    (m_fixedtemp st) (m_zfix st) (m_tfix st) (m_do_multicomponent st)
    (m_do_soret st) (m_usesLambda st) (m_isFree st) (m_dovisc st)
    (m_force_full_update st) (m_zfixed st) (m_tfixed st) v
    (m_kExcessRight st) (m_refiner_active st) (m_jacUpdates st).
Definition set_m_kExcessRight (v : nat) (st : StFlow) : StFlow :=
  mkStFlow (m_nsp st) (m_nv st) (m_points st) (m_iloc st) (m_jstart st)
    (m_thermo st) (m_wt st) (m_press st) (m_z st) (m_dz st) (m_rho st)
    (m_wtm st) (m_cp st) (m_hk st) (m_wdot st) (m_visc st) (m_tcon st)
    (m_diff st) (m_multidiff st) (m_dthermal st) (m_flux st) (m_dhk_dz st)
    (m_ybar st) (m_qdotRadiation st) (m_kRadiating st) (m_epsilon_left st)
    (m_epsilon_right st) (m_do_radiation st) (m_do_energy st)
    (m_fixedtemp st) (m_zfix st) (m_tfix st) (m_do_multicomponent st)
    (m_do_soret st) (m_usesLambda st) (m_isFree st) (m_dovisc st)
    (m_force_full_update st) (m_zfixed st) (m_tfixed st) (m_kExcessLeft st)
    v (m_refiner_active st) (m_jacUpdates st).
Definition set_m_refiner_active (v : nat -> bool) (st : StFlow) : StFlow :=
  mkStFlow (m_nsp st) (m_nv st) (m_points st) (m_iloc st) (m_jstart st)
    (m_thermo st) (m_wt st) (m_press st) (m_z st) (m_dz st) (m_rho st)
    (m_wtm st) (m_cp st) (m_hk st) (m_wdot st) (m_visc st) (m_tcon st)
    (m_diff st) (m_multidiff st) (m_dthermal st) (m_flux st) (m_dhk_dz st)
    (m_ybar st) (m_qdotRadiation st) (m_kRadiating st) (m_epsilon_left st)
    (m_epsilon_right st) (m_do_radiation st) (m_do_energy st)
    (m_fixedtemp st) (m_zfix st) (m_tfix st) (m_do_multicomponent st)
    (m_do_soret st) (m_usesLambda st) (m_isFree st) (m_dovisc st)
    (m_force_full_update st) (m_zfixed st) (m_tfixed st) (m_kExcessLeft st)
    (m_kExcessRight st) v (m_jacUpdates st).
Definition set_m_jacUpdates (v : nat) (st : StFlow) : StFlow :=
  mkStFlow (m_nsp st) (m_nv st) (m_points st) (m_iloc st) (m_jstart st)
    (m_thermo st) (m_wt st) (m_press st) (m_z st) (m_dz st) (m_rho st)
    (m_wtm st) (m_cp st) (m_hk st) (m_wdot st) (m_visc st) (m_tcon st)
    (m_diff st) (m_multidiff st) (m_dthermal st) (m_flux st) (m_dhk_dz st)
    (m_ybar st) (m_qdotRadiation st) (m_kRadiating st) (m_epsilon_left st)
    (m_epsilon_right st) (m_do_radiation st) (m_do_energy st)
    (m_fixedtemp st) (m_zfix st) (m_tfix st) (m_do_multicomponent st)
    (m_do_soret st) (m_usesLambda st) (m_isFree st) (m_dovisc st)
    (m_force_full_update st) (m_zfixed st) (m_tfixed st) (m_kExcessLeft st)
    (m_kExcessRight st) (m_refiner_active st) v.

(** Offsets of the solution components at a point. *)
(** Modelled from the spec: the constants [c_offset_U] ... [c_offset_Y]
    are declared in [StFlow.h], which is not among the sources.  The spec
    orders the components of a point as velocity, spread rate,
    temperature, lambda, electric field, then the species, with the
    species block starting at offset 5. *)
Definition c_offset_U : nat := 0.
Definition c_offset_V : nat := 1.
Definition c_offset_T : nat := 2.
Definition c_offset_L : nat := 3.
Definition c_offset_E : nat := 4.
Definition c_offset_Y : nat := 5.

Abbreviation buffer := (nat -> Q) (only parsing).      (* double* *)
Abbreviation ibuffer := (nat -> Z) (only parsing).     (* integer* *)
(** The residual and diag buffers an assembler stores into. *)
Abbreviation outputs := ((nat -> Q) * (nat -> Z))%type (only parsing).

(** *** Accessors of the header *)

(** Modelled from the spec: [Domain1D::index], [loc], [firstPoint] and
    [lastPoint] are declared in [Domain1D.h], which is not among the
    sources.  Component indexing is a function of component and point
    with [m_nv] components per point, as in the pointer arithmetic
    [x + m_nv*j + c_offset_Y] of [setGas]. *)
Definition index (st : StFlow) (n j : nat) : nat := m_nv st * j + n.
Definition loc (st : StFlow) : nat := m_iloc st.
Definition firstPoint (st : StFlow) : nat := m_jstart st.
Definition lastPoint (st : StFlow) : nat := m_jstart st + m_points st - 1.

(** Modelled from the spec: the inline accessors [u], [V], [T],
    [lambda], [Y], [density], [rho_u], [z], [grid], [T_fixed] and the
    excess-species getters are declared in [StFlow.h], which is not among
    the sources.  Each reads the named component of the state vector at a
    point, or the named per-point buffer; the mass flux is density times
    velocity. *)
Definition u (st : StFlow) (x : buffer) (j : nat) : Q := x (index st c_offset_U j).
Definition V (st : StFlow) (x : buffer) (j : nat) : Q := x (index st c_offset_V j).
Definition T (st : StFlow) (x : buffer) (j : nat) : Q := x (index st c_offset_T j).
Definition lambda (st : StFlow) (x : buffer) (j : nat) : Q := x (index st c_offset_L j).
Definition Y (st : StFlow) (x : buffer) (k j : nat) : Q := x (index st (c_offset_Y + k) j).
Definition density (st : StFlow) (j : nat) : Q := m_rho st !!! j.
Definition rho_u (st : StFlow) (x : buffer) (j : nat) : Q := (m_rho st !!! j * u st x j)%Q.
Definition z (st : StFlow) (j : nat) : Q := m_z st !!! j.
Definition grid (st : StFlow) (j : nat) : Q := m_z st !!! j.
Definition T_fixed (st : StFlow) (j : nat) : Q := m_fixedtemp st !!! j.
Definition leftExcessSpecies (st : StFlow) : nat := m_kExcessLeft st.
Definition rightExcessSpecies (st : StFlow) : nat := m_kExcessRight st.

(** Modelled from the spec: [mindex] is declared in [StFlow.h]; the
    multicomponent cache holds one species-by-species matrix per
    interval. *)
Definition mindex (st : StFlow) (k m j : nat) : nat :=
  j * m_nsp st * m_nsp st + m_nsp st * m + k.

(** Modelled from the spec: [Domain1D::needJacUpdate] is not among the
    sources; it is the signal that invalidates the cached Jacobian.  The
    model counts the signals raised. *)
Definition needJacUpdate (st : StFlow) : StFlow :=
  set_m_jacUpdates (S (m_jacUpdates st)) st.

(** [m_refiner->setActive(comp, state)]. *)
Definition refiner_setActive (comp : nat) (state : bool) (st : StFlow) : StFlow :=
  set_m_refiner_active (<[comp := state]> (m_refiner_active st)) st.

(** *** domainType *)

Definition domainType (st : StFlow) : string :=
  if m_isFree st then "free-flow"
  else if m_usesLambda st then "axisymmetric-flow"
  else "unstrained-flow".

(** *** resize and setupGrid *)

(** Modelled from the spec: [Domain1D::resize] is not among the sources;
    it binds the domain to the given component and point counts. *)
Definition Domain1D_resize (nv points : nat) (st : StFlow) : StFlow :=
  set_m_points points (set_m_nv nv st).

Definition resize (ncomponents points : nat) (st : StFlow) : StFlow :=
  let st := Domain1D_resize ncomponents points st in
  let st := set_m_rho (vresize (m_points st) 0%Q (m_rho st)) st in
  let st := set_m_wtm (vresize (m_points st) 0%Q (m_wtm st)) st in
  let st := set_m_cp (vresize (m_points st) 0%Q (m_cp st)) st in
  let st := set_m_visc (vresize (m_points st) 0%Q (m_visc st)) st in
  let st := set_m_tcon (vresize (m_points st) 0%Q (m_tcon st)) st in
  let st := set_m_diff (vresize (m_nsp st * m_points st) 0%Q (m_diff st)) st in
  let st :=
    if m_do_multicomponent st then
      let st := set_m_multidiff
                  (vresize (m_nsp st * m_nsp st * m_points st) 0%Q (m_multidiff st)) st in
      set_m_dthermal (a2d_resize (m_nsp st) (m_points st) 0%Q (m_dthermal st)) st
    else st in
  let st := set_m_flux (a2d_resize (m_nsp st) (m_points st) 0%Q (m_flux st)) st in
  let st := set_m_wdot (a2d_resize (m_nsp st) (m_points st) 0%Q (m_wdot st)) st in
  let st := set_m_hk (a2d_resize (m_nsp st) (m_points st) 0%Q (m_hk st)) st in
  let st := set_m_dhk_dz (a2d_resize (m_nsp st) (m_points st - 1) 0%Q (m_dhk_dz st)) st in
  let st := set_m_do_energy (vresize (m_points st) false (m_do_energy st)) st in
  let st := set_m_qdotRadiation (vresize (m_points st) 0%Q (m_qdotRadiation st)) st in
  let st := set_m_fixedtemp (vresize (m_points st) 0%Q (m_fixedtemp st)) st in
  let st := set_m_dz (vresize (m_points st - 1) 0%Q (m_dz st)) st in
  set_m_z (vresize (m_points st) 0%Q (m_z st)) st.

(** A loop whose body may throw: the first exception ends it, and the
    state reached so far stays. *)
Fixpoint for_each_throwing {St : Type} (js : list nat)
    (body : nat -> St -> outcome unit * St) (s : St) : outcome unit * St :=
  match js with
  | [] => (Normal tt, s)
  | j :: js' =>
      match body j s with
      | (Normal _, s') => for_each_throwing js' body s'
      | (Thrown e, s') => (Thrown e, s')
      end
  end.

Definition setupGrid_step (zin : buffer) (j : nat) (st : StFlow) : outcome unit * StFlow :=
  if Qle_bool (zin j) (zin (j - 1)) then
    (Thrown (CanteraError "StFlow::setupGrid"
                          "grid points must be monotonically increasing"), st)
  else
    let st := set_m_z (<[j := zin j]> (m_z st)) st in
    let st := set_m_dz (<[j - 1 := Qminus (m_z st !!! j) (m_z st !!! (j - 1))]> (m_dz st)) st in
    (Normal tt, st).

Definition setupGrid (n : nat) (zin : buffer) (st : StFlow) : outcome unit * StFlow :=
  let st := resize (m_nv st) n st in
  let st := set_m_z (<[0 := zin 0]> (m_z st)) st in
  for_each_throwing (seq 1 (m_points st - 1)) (setupGrid_step zin) st.

(** *** Component names *)

(** [m_thermo->speciesName(k)]. *)
Definition speciesName (st : StFlow) (k : nat) : string :=
  tp_speciesNames (m_thermo st) !!! k.

Definition componentName (st : StFlow) (n : nat) : string :=
  if n =? c_offset_U then "velocity"
  else if n =? c_offset_V then "spread_rate"
  else if n =? c_offset_T then "T"
  else if n =? c_offset_L then "lambda"
  else if n =? c_offset_E then "eField"
  else if (c_offset_Y <=? n) && (n <? c_offset_Y + m_nsp st)
       then speciesName st (n - c_offset_Y)
       else "<unknown>".

Definition componentIndex (st : StFlow) (name : string) : outcome nat :=
  if String.eqb name "velocity" then Normal c_offset_U
  else if String.eqb name "spread_rate" then Normal c_offset_V
  else if String.eqb name "T" then Normal c_offset_T
  else if String.eqb name "lambda" then Normal c_offset_L
  else if String.eqb name "eField" then Normal c_offset_E
  else
    match find (fun n => String.eqb (componentName st n) name)
               (seq c_offset_Y (m_nsp st)) with
    | Some n => Normal n
    | None => Thrown (CanteraError "StFlow1D::componentIndex"
                                   ("no component named " ++ name))
    end.

Definition componentActive (st : StFlow) (n : nat) : bool :=
  if n =? c_offset_V then m_usesLambda st
  else if n =? c_offset_L then m_usesLambda st
  else if n =? c_offset_E then false
  else true.

(** *** Energy-equation switches *)

Definition solveEnergyEqn (j : option nat) (st : StFlow) : StFlow :=
  let '(changed, st) :=
    match j with
    | None =>
        for_range 0 (m_points st)
          (fun i '(changed, st) =>
             let changed := if negb (m_do_energy st !!! i) then true else changed in
             (changed, set_m_do_energy (<[i := true]> (m_do_energy st)) st))
          (false, st)
    | Some j =>
        let changed := if negb (m_do_energy st !!! j) then true else false in
        (changed, set_m_do_energy (<[j := true]> (m_do_energy st)) st)
    end in
  let st := refiner_setActive c_offset_U true st in
  let st := refiner_setActive c_offset_V true st in
  let st := refiner_setActive c_offset_T true st in
  if changed then needJacUpdate st else st.

Definition fixTemperature (j : option nat) (st : StFlow) : StFlow :=
  let '(changed, st) :=
    match j with
    | None =>
        for_range 0 (m_points st)
          (fun i '(changed, st) =>
             let changed := if (m_do_energy st !!! i : bool) then true else changed in
             (changed, set_m_do_energy (<[i := false]> (m_do_energy st)) st))
          (false, st)
    | Some j =>
        let changed := if (m_do_energy st !!! j : bool) then true else false in
        (changed, set_m_do_energy (<[j := false]> (m_do_energy st)) st)
    end in
  let st := refiner_setActive c_offset_U false st in
  let st := refiner_setActive c_offset_V false st in
  let st := refiner_setActive c_offset_T false st in
  if changed then needJacUpdate st else st.

(** *** Electric-field operations *)

(** Modelled from the spec: [Domain1D::type] is not among the sources;
    the message names the kind of domain. *)
Definition type (st : StFlow) : string := domainType st.

Definition not_used_by (st : StFlow) : string :=
  "Not used by '" ++ type st ++ "' objects.".

Definition getSolvingStage (st : StFlow) : outcome nat * StFlow :=
  (Thrown (NotImplementedError "StFlow::getSolvingStage" (not_used_by st)), st).

Definition setSolvingStage (stage : nat) (st : StFlow) : outcome unit * StFlow :=
  (Thrown (NotImplementedError "StFlow::setSolvingStage" (not_used_by st)), st).

Definition solveElectricField (j : option nat) (st : StFlow) : outcome unit * StFlow :=
  (Thrown (NotImplementedError "StFlow::solveElectricField" (not_used_by st)), st).

Definition fixElectricField (j : option nat) (st : StFlow) : outcome unit * StFlow :=
  (Thrown (NotImplementedError "StFlow::fixElectricField" (not_used_by st)), st).

Definition doElectricField (j : option nat) (st : StFlow) : outcome bool * StFlow :=
  (Thrown (NotImplementedError "StFlow::doElectricField" (not_used_by st)), st).

(** ** External collaborators and header-level helpers *)

(** The chemical-state, kinetics and transport objects are owned outside
    the domain.  Each query is a function of the state last set on the
    phase object. *)
Record Collaborators : Type := mkCollaborators {
  thermo_density : ThermoPhase -> Q;
  thermo_meanMolecularWeight : ThermoPhase -> Q;
  thermo_cp_mass : ThermoPhase -> Q;
  thermo_partialMolarEnthalpy : ThermoPhase -> nat -> Q;
  kin_netProductionRate : ThermoPhase -> nat -> Q;
  trans_viscosity : ThermoPhase -> Q;
  trans_thermalConductivity : ThermoPhase -> Q;
  trans_mixDiffCoeff : ThermoPhase -> nat -> Q;
  trans_multiDiffCoeff : ThermoPhase -> nat -> nat -> Q;
  trans_thermalDiffCoeff : ThermoPhase -> nat -> Q
}.

(** Member functions and constants that [StFlow.cpp] uses and that are
    declared elsewhere ([StFlow.h], [ct_defs.h], [funcs.h]).  They are
    parameters of the development. *)
Record Header : Type := mkHeader {
  X : StFlow -> buffer -> nat -> nat -> Q;         (* mole fraction of species k at point j *)
  shear : StFlow -> buffer -> nat -> Q;
  dVdz : StFlow -> buffer -> nat -> Q;
  dTdz : StFlow -> buffer -> nat -> Q;
  dYdz : StFlow -> buffer -> nat -> nat -> Q;
  divHeatFlux : StFlow -> buffer -> nat -> Q;
  wdot : StFlow -> nat -> nat -> Q;
  T_prev : nat -> Q;
  V_prev : nat -> Q;
  Y_prev : nat -> nat -> Q;
  linearInterp : Q -> list Q -> list Q -> Q;
  Undef : Q;
  StefanBoltz : Q;
  OneAtm : Q
}.

(** [distance(first, max_element(first, first + n))]: the offset of the
    first largest entry. *)
Definition max_element (x : buffer) (first n : nat) : nat :=
  for_range 1 n
    (fun k best => if Qlt_bool (x (first + best)) (x (first + k)) then k else best) 0.

Section Flow.

Variable ext : Collaborators.
Variable hdr : Header.

(** *** Setting the phase state *)

Definition setGas (x : buffer) (j : nat) (st : StFlow) : StFlow :=
  let yy := fun k => x (m_nv st * j + c_offset_Y + k) in
  set_m_thermo
    (mkThermoPhase (T st x j) (map yy (seq 0 (m_nsp st))) (m_press st)
                   (tp_speciesNames (m_thermo st))) st.

Definition setGasAtMidpoint (x : buffer) (j : nat) (st : StFlow) : StFlow :=
  let yyj := fun k => x (m_nv st * j + c_offset_Y + k) in
  let yyjp := fun k => x (m_nv st * (j + 1) + c_offset_Y + k) in
  let st :=
    for_range 0 (m_nsp st)
      (fun k st => set_m_ybar (<[k := ((1#2) * (yyj k + yyjp k))%Q]> (m_ybar st)) st) st in
  set_m_thermo
    (mkThermoPhase ((1#2) * (T st x j + T st x (j + 1)))%Q
                   (map (fun k => m_ybar st !!! k) (seq 0 (m_nsp st)))
                   (m_press st) (tp_speciesNames (m_thermo st))) st.

(** *** Property refresh *)

(** Modelled from the spec: [StFlow::updateThermo] is defined in
    [StFlow.h], which is not among the sources.  For every point of the
    window the chemical-state collaborator is set to the composition and
    temperature of the point and queried for density, mean molecular
    weight, specific heat and species enthalpies, and the kinetics
    collaborator for the species production rates. *)
Definition updateThermo_point (x : buffer) (j : nat) (st : StFlow) : StFlow :=
  let st := setGas x j st in
  let st := set_m_rho (<[j := thermo_density ext (m_thermo st)]> (m_rho st)) st in
  let st := set_m_wtm (<[j := thermo_meanMolecularWeight ext (m_thermo st)]> (m_wtm st)) st in
  let st := set_m_cp (<[j := thermo_cp_mass ext (m_thermo st)]> (m_cp st)) st in
  let st := for_range 0 (m_nsp st)
              (fun k st => set_m_hk (a2d_set (m_hk st) k j
                             (thermo_partialMolarEnthalpy ext (m_thermo st) k)) st) st in
  for_range 0 (m_nsp st)
    (fun k st => set_m_wdot (a2d_set (m_wdot st) k j
                   (kin_netProductionRate ext (m_thermo st) k)) st) st.

Definition updateThermo (x : buffer) (j0 j1 : nat) (st : StFlow) : StFlow :=
  for_upto j0 j1 (updateThermo_point x) st.

(** The body of the multicomponent loop of [updateTransport]. *)
Definition updateTransport_multi (x : buffer) (j : nat) (st : StFlow) : StFlow :=
  let st := setGasAtMidpoint x j st in
  let wtm := thermo_meanMolecularWeight ext (m_thermo st) in
  let rho := thermo_density ext (m_thermo st) in
  let st := set_m_visc
              (<[j := if m_dovisc st then trans_viscosity ext (m_thermo st) else 0%Q]>
                 (m_visc st)) st in
  (* getMultiDiffCoeffs(m_nsp, &m_multidiff[mindex(0,0,j)]) *)
  let st := for_range 0 (m_nsp st)
              (fun m st =>
                 for_range 0 (m_nsp st)
                   (fun k st =>
                      set_m_multidiff
                        (<[mindex st 0 0 j + (m_nsp st * m + k)
                           := trans_multiDiffCoeff ext (m_thermo st) k m]>
                           (m_multidiff st)) st) st) st in
  (* m_diff holds the factor outside the summation *)
  let st := for_range 0 (m_nsp st)
              (fun k st =>
                 set_m_diff (<[k + j * m_nsp st
                               := (m_wt st !!! k * rho / (wtm * wtm))%Q]> (m_diff st)) st)
              st in
  let st := set_m_tcon (<[j := trans_thermalConductivity ext (m_thermo st)]> (m_tcon st)) st in
  if m_do_soret st then
    (* getThermalDiffCoeffs(m_dthermal.ptrColumn(0) + j*m_nsp) *)
    for_range 0 (m_nsp st)
      (fun k st =>
         set_m_dthermal
           (mkArray2D (nRows (m_dthermal st)) (nColumns (m_dthermal st))
              (<[j * m_nsp st + k := trans_thermalDiffCoeff ext (m_thermo st) k]>
                 (a2d_data (m_dthermal st)))) st) st
  else st.

(** The body of the mixture-averaged loop of [updateTransport]. *)
Definition updateTransport_mixavg (x : buffer) (j : nat) (st : StFlow) : StFlow :=
  let st := setGasAtMidpoint x j st in
  let st := set_m_visc
              (<[j := if m_dovisc st then trans_viscosity ext (m_thermo st) else 0%Q]>
                 (m_visc st)) st in
  (* getMixDiffCoeffs(&m_diff[j*m_nsp]) *)
  let st := for_range 0 (m_nsp st)
              (fun k st =>
                 set_m_diff (<[j * m_nsp st + k := trans_mixDiffCoeff ext (m_thermo st) k]>
                               (m_diff st)) st) st in
  let rho := thermo_density ext (m_thermo st) in
  let wtm := thermo_meanMolecularWeight ext (m_thermo st) in
  let st := for_range 0 (m_nsp st)
              (fun k st =>
                 set_m_diff (<[k + j * m_nsp st
                               := (m_diff st !!! (k + j * m_nsp st)%nat
                                   * (m_wt st !!! k * rho / wtm))%Q]> (m_diff st)) st)
              st in
  set_m_tcon (<[j := trans_thermalConductivity ext (m_thermo st)]> (m_tcon st)) st.

Definition updateTransport (x : buffer) (j0 j1 : nat) (st : StFlow) : StFlow :=
  if m_do_multicomponent st
  then for_range j0 j1 (updateTransport_multi x) st
  else for_range j0 j1 (updateTransport_mixavg x) st.

(** [m_flux(k,j) = v]. *)
Definition set_flux (k j : nat) (v : Q) (st : StFlow) : StFlow :=
  set_m_flux (a2d_set (m_flux st) k j v) st.

Definition flux (st : StFlow) (k j : nat) : Q := a2d_get (m_flux st) k j.

(** The mixture-averaged flux of one interval. *)
Definition updateDiffFluxes_mixavg (x : buffer) (j : nat) (st : StFlow) : StFlow :=
  let dz := (z st (j + 1) - z st j)%Q in
  let '(sum, st) :=
    for_range 0 (m_nsp st)
      (fun k '(sum, st) =>
         let st := set_flux k j (m_diff st !!! (k + m_nsp st * j)) st in
         let st := set_flux k j
                     (flux st k j * ((X hdr st x k j - X hdr st x k (j + 1)%nat) / dz))%Q st in
         ((sum - flux st k j)%Q, st))
      (0%Q, st) in
  (* correction flux to insure that \sum_k Y_k V_k = 0. *)
  for_range 0 (m_nsp st)
    (fun k st => set_flux k j (flux st k j + sum * Y st x k j)%Q st) st.

Definition updateDiffFluxes_multi (x : buffer) (j : nat) (st : StFlow) : StFlow :=
  let dz := (z st (j + 1) - z st j)%Q in
  for_range 0 (m_nsp st)
    (fun k st =>
       let sum :=
         for_range 0 (m_nsp st)
           (fun m sum =>
              (sum + m_wt st !!! m * m_multidiff st !!! (mindex st k m j)
                     * (X hdr st x m (j + 1)%nat - X hdr st x m j))%Q) 0%Q in
       set_flux k j (sum * m_diff st !!! (k + j * m_nsp st)%nat / dz)%Q st) st.

Definition updateDiffFluxes_soret (x : buffer) (m : nat) (st : StFlow) : StFlow :=
  let gradlogT := (2 * (T st x (m + 1) - T st x m)
                   / ((T st x (m + 1) + T st x m) * (z st (m + 1) - z st m)))%Q in
  for_range 0 (m_nsp st)
    (fun k st => set_flux k m (flux st k m - a2d_get (m_dthermal st) k m * gradlogT)%Q st) st.

Definition updateDiffFluxes (x : buffer) (j0 j1 : nat) (st : StFlow) : StFlow :=
  let st :=
    if m_do_multicomponent st
    then for_range j0 j1 (updateDiffFluxes_multi x) st
    else for_range j0 j1 (updateDiffFluxes_mixavg x) st in
  if m_do_soret st then for_range j0 j1 (updateDiffFluxes_soret x) st else st.

Definition updateProperties (jg : option nat) (x : buffer) (jmin jmax : nat)
    (st : StFlow) : StFlow :=
  (* properties are computed for grid points from j0 to j1 *)
  let j0 := Nat.max jmin 1 - 1 in
  let j1 := Nat.min (jmax + 1) (m_points st - 1) in
  let st := updateThermo x j0 j1 st in
  let st :=
    if match jg with None => true | Some _ => false end || m_force_full_update st
    then updateTransport x j0 j1 st else st in
  let st :=
    match jg with
    | None =>
        let st := set_m_kExcessLeft
                    (max_element x (index st c_offset_Y jmin) (m_nsp st)) st in
        set_m_kExcessRight (max_element x (index st c_offset_Y jmax) (m_nsp st)) st
    | Some _ => st
    end in
  updateDiffFluxes x j0 j1 st.

(** *** Radiation *)

Definition c_H2O : list Q :=
  [(-0.23093)%Q; (-1.12390)%Q; 9.41530%Q; (-2.99880)%Q; 0.51382%Q; (-0.0000186840)%Q].
Definition c_CO2 : list Q :=
  [18.741%Q; (-121.310)%Q; 273.500%Q; (-194.050)%Q; 56.310%Q; (-5.8169)%Q].

(** The polynomial in [1000/T] of one radiating species. *)
Definition planck_poly (c : list Q) (Tj : Q) : Q :=
  for_upto 0 5 (fun n acc => (acc + c !!! n * pow (1000 / Tj) n)%Q) 0%Q.

Definition radiative_heat_loss (x : buffer) (j : nat) (st : StFlow) : Q :=
  let k_P_ref := (1 * OneAtm hdr)%Q in
  let boundary_Rad_left :=
    (m_epsilon_left st * StefanBoltz hdr * pow (T st x 0) 4)%Q in
  let boundary_Rad_right :=
    (m_epsilon_right st * StefanBoltz hdr * pow (T st x (m_points st - 1)) 4)%Q in
  let k_P := 0%Q in
  let k_P :=
    match m_kRadiating st !!! 1%nat with
    | Some kH2O =>
        let k_P_H2O := (planck_poly c_H2O (T st x j) / k_P_ref)%Q in
        (k_P + m_press st * X hdr st x kH2O j * k_P_H2O)%Q
    | None => k_P
    end in
  let k_P :=
    match m_kRadiating st !!! 0%nat with
    | Some kCO2 =>
        let k_P_CO2 := (planck_poly c_CO2 (T st x j) / k_P_ref)%Q in
        (k_P + m_press st * X hdr st x kCO2 j * k_P_CO2)%Q
    | None => k_P
    end in
  (2 * k_P * (2 * StefanBoltz hdr * pow (T st x j) 4
              - boundary_Rad_left - boundary_Rad_right))%Q.

Definition computeRadiation (x : buffer) (jmin jmax : nat) (st : StFlow) : StFlow :=
  for_range jmin jmax
    (fun j st =>
       set_m_qdotRadiation (<[j := radiative_heat_loss x j st]> (m_qdotRadiation st)) st)
    st.

(** *** Equation assemblers

    Each assembler stores into the residual and diag buffers. *)

Definition set_rsd (i : nat) (v : Q) (o : outputs) : outputs := (<[i := v]> (fst o), snd o).
Definition set_diag (i : nat) (v : Z) (o : outputs) : outputs := (fst o, <[i := v]> (snd o)).

Definition evalContinuity (st : StFlow) (x : buffer) (o : outputs) (rdt : Q)
    (jmin jmax : nat) : outputs :=
  (* The left boundary has the same form for all cases. *)
  let o :=
    if jmin =? 0 then
      let o := set_rsd (index st c_offset_U jmin)
                 (- (rho_u st x (jmin + 1) - rho_u st x jmin) / m_dz st !!! jmin
                  - (density st (jmin + 1) * V st x (jmin + 1)
                     + density st jmin * V st x jmin))%Q o in
      set_diag (index st c_offset_U jmin) 0%Z o
    else o in
  let o :=
    if jmax =? m_points st - 1 then
      let o :=
        if m_usesLambda st
        then set_rsd (index st c_offset_U jmax) (rho_u st x jmax) o
        else set_rsd (index st c_offset_U jmax)
               (rho_u st x jmax - rho_u st x (jmax - 1))%Q o in
      set_diag (index st c_offset_U jmax) 0%Z o
    else o in
  (* j0 and j1 are constrained to only interior points *)
  let j0 := Nat.max jmin 1 in
  let j1 := Nat.min jmax (m_points st - 2) in
  if m_usesLambda st then
    for_upto j0 j1
      (fun j o =>
         let o := set_rsd (index st c_offset_U j)
                    (- (rho_u st x (j + 1) - rho_u st x j) / m_dz st !!! j
                     - (density st (j + 1) * V st x (j + 1) + density st j * V st x j))%Q o in
         set_diag (index st c_offset_U j) 0%Z o) o
  else if m_isFree st then
    for_upto j0 j1
      (fun j o =>
         let o :=
           if Qlt_bool (m_zfixed st) (grid st j) then
             set_rsd (index st c_offset_U j)
               (- (rho_u st x j - rho_u st x (j - 1)) / m_dz st !!! (j - 1)%nat)%Q o
           else if Qeq_bool (grid st j) (m_zfixed st) then
             if (m_do_energy st !!! j : bool) then
               set_rsd (index st c_offset_U j) (T st x j - m_tfixed st)%Q o
             else
               set_rsd (index st c_offset_U j)
                 (rho_u st x j - m_rho st !!! 0%nat * 0.3)%Q o
           else
             set_rsd (index st c_offset_U j)
               (- (rho_u st x (j + 1) - rho_u st x j) / m_dz st !!! j)%Q o in
         set_diag (index st c_offset_U j) 0%Z o) o
  else
    for_upto j0 j1
      (fun j o =>
         let o := set_rsd (index st c_offset_U j)
                    (rho_u st x j - rho_u st x (j - 1))%Q o in
         set_diag (index st c_offset_U j) 0%Z o) o.

Definition evalMomentum (st : StFlow) (x : buffer) (o : outputs) (rdt : Q)
    (jmin jmax : nat) : outputs :=
  if negb (m_usesLambda st) then
    for_upto jmin jmax
      (fun j o =>
         let o := set_rsd (index st c_offset_V j) (V st x j) o in
         set_diag (index st c_offset_V j) 0%Z o) o
  else
    let o := if jmin =? 0 then set_rsd (index st c_offset_V jmin) (V st x jmin) o else o in
    let o :=
      if jmax =? m_points st - 1 then
        let o := set_rsd (index st c_offset_V jmax) (V st x jmax) o in
        set_diag (index st c_offset_V jmax) 0%Z o
      else o in
    let j0 := Nat.max jmin 1 in
    let j1 := Nat.min jmax (m_points st - 2) in
    for_upto j0 j1
      (fun j o =>
         let o := set_rsd (index st c_offset_V j)
                    ((shear hdr st x j - lambda st x j
                      - rho_u st x j * dVdz hdr st x j
                      - m_rho st !!! j * V st x j * V st x j) / m_rho st !!! j
                     - rdt * (V st x j - V_prev hdr j))%Q o in
         set_diag (index st c_offset_V j) 1%Z o) o.

Definition evalLambda (st : StFlow) (x : buffer) (o : outputs) (rdt : Q)
    (jmin jmax : nat) : outputs :=
  if negb (m_usesLambda st) then
    for_upto jmin jmax
      (fun j o =>
         let o := set_rsd (index st c_offset_L j) (lambda st x j) o in
         set_diag (index st c_offset_L j) 0%Z o) o
  else
    let o :=
      if jmin =? 0 then set_rsd (index st c_offset_L jmin) (- rho_u st x jmin)%Q o else o in
    let o :=
      if jmax =? m_points st - 1 then
        let o := set_rsd (index st c_offset_L jmax)
                   (lambda st x jmax - lambda st x (jmax - 1))%Q o in
        set_diag (index st c_offset_L jmax) 0%Z o
      else o in
    let j0 := Nat.max jmin 1 in
    let j1 := Nat.min jmax (m_points st - 2) in
    for_upto j0 j1
      (fun j o =>
         set_rsd (index st c_offset_L j) (lambda st x j - lambda st x (j - 1))%Q o) o.

Definition grad_hk (x : buffer) (j : nat) (st : StFlow) : StFlow :=
  for_range 0 (m_nsp st)
    (fun k st =>
       if Qlt_bool 0 (u st x j) then
         set_m_dhk_dz (a2d_set (m_dhk_dz st) k j
           ((a2d_get (m_hk st) k j - a2d_get (m_hk st) k (j - 1)) / m_dz st !!! (j - 1)%nat)%Q) st
       else
         set_m_dhk_dz (a2d_set (m_dhk_dz st) k j
           ((a2d_get (m_hk st) k (j + 1) - a2d_get (m_hk st) k j) / m_dz st !!! j)%Q) st) st.

(** The sum over species in the enabled energy equation at point [j]. *)
Definition energy_sum (st : StFlow) (j : nat) : Q :=
  for_range 0 (m_nsp st)
    (fun k sum =>
       let flxk := ((1#2) * (flux st k (j - 1) + flux st k j))%Q in
       let sum := (sum + wdot hdr st k j * a2d_get (m_hk st) k j)%Q in
       (sum + flxk * a2d_get (m_dhk_dz st) k j / m_wt st !!! k)%Q) 0%Q.

(** The value left in [rsd[index(c_offset_T, j)]] by the four assignments
    of the enabled branch, in a state where [grad_hk] has run. *)
Definition energy_balance (st : StFlow) (x : buffer) (rdt : Q) (j : nat) : Q :=
  ((- m_cp st !!! j * rho_u st x j * dTdz hdr st x j - divHeatFlux hdr st x j
    - energy_sum st j) / (m_rho st !!! j * m_cp st !!! j)
   - rdt * (T st x j - T_prev hdr j)
   - m_qdotRadiation st !!! j / (m_rho st !!! j * m_cp st !!! j))%Q.

Definition evalEnergy (st : StFlow) (x : buffer) (o : outputs) (rdt : Q)
    (jmin jmax : nat) : StFlow * outputs :=
  let o := if jmin =? 0 then set_rsd (index st c_offset_T jmin) (T st x jmin) o else o in
  let o :=
    if jmax =? m_points st - 1
    then set_rsd (index st c_offset_T jmax) (T st x jmax) o else o in
  let j0 := Nat.max jmin 1 in
  let j1 := Nat.min jmax (m_points st - 2) in
  for_upto j0 j1
    (fun j '(st, o) =>
       if (m_do_energy st !!! j : bool) then
         let st := grad_hk x j st in
         let sum := energy_sum st j in
         let i := index st c_offset_T j in
         let o := set_rsd i (- m_cp st !!! j * rho_u st x j * dTdz hdr st x j
                             - divHeatFlux hdr st x j - sum)%Q o in
         let o := set_rsd i (fst o i / (m_rho st !!! j * m_cp st !!! j))%Q o in
         let o := set_rsd i (fst o i - rdt * (T st x j - T_prev hdr j))%Q o in
         let o := set_rsd i (fst o i - m_qdotRadiation st !!! j
                                       / (m_rho st !!! j * m_cp st !!! j))%Q o in
         (st, set_diag i 1%Z o)
       else
         (* residual equations if the energy equation is disabled *)
         let o := set_rsd (index st c_offset_T j) (T st x j - T_fixed st j)%Q o in
         (st, set_diag (index st c_offset_T j) 0%Z o))
    (st, o).

(** The sum of the mass fractions at point [j]. *)
Definition sum_Y (st : StFlow) (x : buffer) (j : nat) : Q :=
  for_range 0 (m_nsp st) (fun k sum => (sum + Y st x k j)%Q) 0%Q.

Definition evalSpecies (st : StFlow) (x : buffer) (o : outputs) (rdt : Q)
    (jmin jmax : nat) : outputs :=
  let o :=
    if jmin =? 0 then
      let '(sum, o) :=
        for_range 0 (m_nsp st)
          (fun k '(sum, o) =>
             let sum := (sum + Y st x k jmin)%Q in
             (sum, set_rsd (index st (c_offset_Y + k) jmin)
                     (- (flux st k jmin + rho_u st x jmin * Y st x k jmin))%Q o))
          (0%Q, o) in
      set_rsd (index st (c_offset_Y + leftExcessSpecies st) jmin) (1 - sum)%Q o
    else o in
  let o :=
    if jmax =? m_points st - 1 then
      let '(sum, o) :=
        for_range 0 (m_nsp st)
          (fun k '(sum, o) =>
             let sum := (sum + Y st x k jmax)%Q in
             (sum, set_rsd (index st (k + c_offset_Y) jmax)
                     (flux st k (jmax - 1) + rho_u st x jmax * Y st x k jmax)%Q o))
          (0%Q, o) in
      let o := set_rsd (index st (c_offset_Y + rightExcessSpecies st) jmax) (1 - sum)%Q o in
      set_diag (index st (c_offset_Y + rightExcessSpecies st) jmax) 0%Z o
    else o in
  let j0 := Nat.max jmin 1 in
  let j1 := Nat.min jmax (m_points st - 2) in
  for_upto j0 j1
    (fun j o =>
       for_range 0 (m_nsp st)
         (fun k o =>
            let convec := (rho_u st x j * dYdz hdr st x k j)%Q in
            let diffus := (2 * (flux st k j - flux st k (j - 1))
                           / (z st (j + 1) - z st (j - 1)))%Q in
            let o := set_rsd (index st (c_offset_Y + k) j)
                       ((m_wt st !!! k * wdot hdr st k j - convec - diffus) / m_rho st !!! j
                        - rdt * (Y st x k j - Y_prev hdr k j))%Q o in
            set_diag (index st (c_offset_Y + k) j) 1%Z o) o) o.

Definition evalElectricField (st : StFlow) (x : buffer) (o : outputs) (rdt : Q)
    (jmin jmax : nat) : outputs :=
  for_upto jmin jmax
    (fun j o =>
       (* The same value is used for left/right/interior points *)
       set_rsd (index st c_offset_E j) (x (index st c_offset_E j)) o) o.

(** *** The residual orchestrator *)

(** [xGlobal + loc()]: the local part of a global array, and the global
    array after stores into its local part. *)
Definition local_part {A : Type} (g : nat -> A) (off : nat) : nat -> A :=
  fun i => g (off + i).
Definition global_of {A : Type} (g : nat -> A) (off : nat) (l : nat -> A) : nat -> A :=
  fun n => if n <? off then g n else l (n - off).

(** The body of [eval] once the window is known. *)
Definition eval_window (jGlobal : option nat) (x : buffer) (o : outputs) (rdt : Q)
    (jmin jmax : nat) (st : StFlow) : StFlow * outputs :=
  let st := updateProperties jGlobal x jmin jmax st in
  let st := if m_do_radiation st then computeRadiation x jmin jmax st else st in
  let o := evalContinuity st x o rdt jmin jmax in
  let o := evalMomentum st x o rdt jmin jmax in
  let '(st, o) := evalEnergy st x o rdt jmin jmax in
  let o := evalLambda st x o rdt jmin jmax in
  let o := evalElectricField st x o rdt jmin jmax in
  let o := evalSpecies st x o rdt jmin jmax in
  (st, o).

Definition eval (jGlobal : option nat) (xGlobal rsdGlobal : buffer) (diagGlobal : ibuffer)
    (rdt : Q) (st : StFlow) : StFlow * outputs :=
  let x := local_part xGlobal (loc st) in
  let o := (local_part rsdGlobal (loc st), local_part diagGlobal (loc st)) in
  let finish := fun '(st, o) =>
    (st, (global_of rsdGlobal (loc st) (fst o), global_of diagGlobal (loc st) (snd o))) in
  match jGlobal with
  | None => finish (eval_window None x o rdt 0 (m_points st - 1) st)
  | Some g =>
      (* outside the domain of influence *)
      if (g + 1 <? firstPoint st) || (lastPoint st + 1 <? g) then
        (st, (rsdGlobal, diagGlobal))
      else if (g =? 0) || (firstPoint st <=? g) then
        let jpt := if g =? 0 then 0 else g - firstPoint st in
        let jmin := Nat.max jpt 1 - 1 in
        let jmax := Nat.min (jpt + 1) (m_points st - 1) in
        finish (eval_window jGlobal x o rdt jmin jmax st)
      else
        (* g + 1 = firstPoint(): the unsigned [jGlobal - firstPoint()] wraps
           to the largest size_t, [jpt + 1] wraps to 0, so jmax = 0 while
           jmin lies beyond every index.  With two or more points no
           boundary test succeeds and every loop is empty. *)
        (st, (rsdGlobal, diagGlobal))
  end.

(** *** _finalize *)

Definition _finalize (x : buffer) (st : StFlow) : outcome unit * StFlow :=
  if negb (m_do_multicomponent st) && m_do_soret st then
    (Thrown (CanteraError "StFlow::_finalize"
       ("Thermal diffusion (the Soret effect) is enabled, and requires "
        ++ "using a multicomponent transport model.")), st)
  else
    let nz := length (m_zfix st) in
    let e : bool := m_do_energy st !!! 0 in
    let st :=
      for_range 0 (m_points st)
        (fun j st =>
           if e || (nz =? 0) then
             set_m_fixedtemp (<[j := T st x j]> (m_fixedtemp st)) st
           else
             let zz := ((z st j - z st 0) / (z st (m_points st - 1) - z st 0))%Q in
             let tt := linearInterp hdr zz (m_zfix st) (m_tfix st) in
             set_m_fixedtemp (<[j := tt]> (m_fixedtemp st)) st) st in
    let st := if e then solveEnergyEqn None st else st in
    if m_isFree st && negb (Qeq_bool (m_tfixed st) (Undef hdr)) then
      (* the fixed point is already on the grid *)
      if existsb (fun j => Qeq_bool (z st j) (m_zfixed st)) (seq 0 (m_points st)) then
        (Normal tt, st)
      else
        (* where the temperature profile crosses the fixed temperature *)
        match find (fun j => Qle_bool ((T st x j - m_tfixed st)
                                       * (T st x (j + 1) - m_tfixed st)) 0)
                   (seq 0 (m_points st - 1)) with
        | Some j =>
            let st := set_m_tfixed (T st x (j + 1)) st in
            (Normal tt, set_m_zfixed (z st (j + 1)) st)
        | None => (Normal tt, st)
        end
    else (Normal tt, st).

End Flow.

(** ** Operations outside the residual evaluation *)

Definition set_m_epsilon_left (v : Q) (st : StFlow) : StFlow :=
  mkStFlow (m_nsp st) (m_nv st) (m_points st) (m_iloc st) (m_jstart st)
    (m_thermo st) (m_wt st) (m_press st) (m_z st) (m_dz st) (m_rho st)
    (m_wtm st) (m_cp st) (m_hk st) (m_wdot st) (m_visc st) (m_tcon st)
    (m_diff st) (m_multidiff st) (m_dthermal st) (m_flux st) (m_dhk_dz st)
    (m_ybar st) (m_qdotRadiation st) (m_kRadiating st) v
    (m_epsilon_right st) (m_do_radiation st) (m_do_energy st)
    (m_fixedtemp st) (m_zfix st) (m_tfix st) (m_do_multicomponent st)
    (m_do_soret st) (m_usesLambda st) (m_isFree st) (m_dovisc st)
    (m_force_full_update st) (m_zfixed st) (m_tfixed st) (m_kExcessLeft st)
    (m_kExcessRight st) (m_refiner_active st) (m_jacUpdates st).
Definition set_m_epsilon_right (v : Q) (st : StFlow) : StFlow :=
  mkStFlow (m_nsp st) (m_nv st) (m_points st) (m_iloc st) (m_jstart st)
    (m_thermo st) (m_wt st) (m_press st) (m_z st) (m_dz st) (m_rho st)
    (m_wtm st) (m_cp st) (m_hk st) (m_wdot st) (m_visc st) (m_tcon st)
    (m_diff st) (m_multidiff st) (m_dthermal st) (m_flux st) (m_dhk_dz st)
    (m_ybar st) (m_qdotRadiation st) (m_kRadiating st) (m_epsilon_left st)
    v (m_do_radiation st) (m_do_energy st)
    (m_fixedtemp st) (m_zfix st) (m_tfix st) (m_do_multicomponent st)
    (m_do_soret st) (m_usesLambda st) (m_isFree st) (m_dovisc st)
    (m_force_full_update st) (m_zfixed st) (m_tfixed st) (m_kExcessLeft st)
    (m_kExcessRight st) (m_refiner_active st) (m_jacUpdates st).

(** *** setBoundaryEmissivities *)

Definition setBoundaryEmissivities (e_left e_right : Q) (st : StFlow)
    : outcome unit * StFlow :=
  if Qlt_bool e_left 0 || Qlt_bool 1 e_left then
    (Thrown (CanteraError "StFlow::setBoundaryEmissivities"
       "The left boundary emissivity must be between 0.0 and 1.0!"), st)
  else if Qlt_bool e_right 0 || Qlt_bool 1 e_right then
    (Thrown (CanteraError "StFlow::setBoundaryEmissivities"
       "The right boundary emissivity must be between 0.0 and 1.0!"), st)
  else
    let st := set_m_epsilon_left e_left st in
    (Normal tt, set_m_epsilon_right e_right st).

(** *** _getInitialSoln *)

(** Modelled from the spec: [Phase::getMassFractions] is not among the
    sources; the phase copies its mass fractions, one per species of the
    phase, to [y]. *)
Definition getMassFractions (th : ThermoPhase) (x : buffer) (first : nat) : buffer :=
  for_range 0 (length (tp_massFractions th))
    (fun k x => <[first + k := tp_massFractions th !!! k]> x) x.

Definition _getInitialSoln (ext : Collaborators) (x : buffer) (st : StFlow)
    : buffer * StFlow :=
  for_range 0 (m_points st)
    (fun j '(x, st) =>
       let x := <[index st c_offset_T j := tp_temperature (m_thermo st)]> x in
       let x := getMassFractions (m_thermo st) x (index st (c_offset_Y + 0) j) in
       let st := set_m_rho (<[j := thermo_density ext (m_thermo st)]> (m_rho st)) st in
       (x, st))
    (x, st).

(** ** A sample domain

    A two-species, three-point domain, one instance of the header and of
    the collaborators, and a state vector, used to run the definitions on
    concrete inputs. *)

Definition sample_thermo : ThermoPhase :=
  mkThermoPhase 300%Q [(1#2)%Q; (1#2)%Q] 101325%Q ["H2"; "O2"]%string.

Definition zeros2D (n m : nat) : Array2D := mkArray2D n m (replicate (n * m) 0%Q).

Definition sample_flow (usesLambda isFree multi soret radiation : bool)
    (do_energy : list bool) : StFlow :=
  mkStFlow 2 7 3 0 0 sample_thermo [2%Q; 32%Q] 101325%Q
    [0%Q; 1%Q; 2%Q] [1%Q; 1%Q]
    [1%Q; 1%Q; 1%Q] [4%Q; 4%Q; 4%Q] [1%Q; 1%Q; 1%Q]
    (zeros2D 2 3) (zeros2D 2 3)
    [1%Q; 1%Q; 1%Q] [1%Q; 1%Q; 1%Q] (replicate 6 1%Q) (replicate 12 0%Q)
    (zeros2D 2 3) (zeros2D 2 3) (zeros2D 2 2) [0%Q; 0%Q]
    [0%Q; 0%Q; 0%Q] [None; Some 1] 0%Q 0%Q radiation
    do_energy [300%Q; 300%Q; 300%Q] [] []
    multi soret usesLambda isFree true false
    0%Q 0%Q 0 0 (fun _ => false) 0.

(** An axisymmetric, mixture-averaged domain with the energy equation off. *)
Definition sample_axi : StFlow :=
  sample_flow true false false false false [false; false; false].

(** The state vector: seven components at each of three points. *)
Definition sample_x : nat -> Q :=
  fun i => [ 1%Q; 0%Q; 300%Q; 0%Q; 0%Q; (1#2)%Q; (1#4)%Q;
             1%Q; 0%Q; 400%Q; 0%Q; 0%Q; (1#4)%Q; (3#4)%Q;
             1%Q; 0%Q; 500%Q; 0%Q; 0%Q; (1#4)%Q; (3#4)%Q ] !!! i.

Definition sample_outputs : (nat -> Q) * (nat -> Z) := (fun _ => 0%Q, fun _ => 1%Z).

(** Upwind difference of component [c] at point [j]. *)
Definition upwind (st : StFlow) (x : nat -> Q) (c j : nat) : Q :=
  let jloc := if Qlt_bool 0 (u st x j) then j else j + 1 in
  ((x (index st c jloc) - x (index st c (jloc - 1))) / m_dz st !!! (jloc - 1)%nat)%Q.

(** Centred second difference of component [c] with the interval
    coefficients [coef]. *)
Definition centred (coef : list Q) (st : StFlow) (x : nat -> Q) (c j : nat) : Q :=
  let c1 := (coef !!! (j - 1)%nat * (x (index st c j) - x (index st c (j - 1))))%Q in
  let c2 := (coef !!! j * (x (index st c (j + 1)) - x (index st c j)))%Q in
  (2 * (c2 / (z st (j + 1) - z st j) - c1 / (z st j - z st (j - 1)))
   / (z st (j + 1) - z st (j - 1)))%Q.

Definition sample_header : Header :=
  mkHeader
    (fun st x k j => (m_wtm st !!! j * Y st x k j / m_wt st !!! k)%Q)
    (fun st x j => centred (m_visc st) st x c_offset_V j)
    (fun st x j => upwind st x c_offset_V j)
    (fun st x j => upwind st x c_offset_T j)
    (fun st x k j => upwind st x (c_offset_Y + k) j)
    (fun st x j => (- centred (m_tcon st) st x c_offset_T j)%Q)
    (fun st k j => a2d_get (m_wdot st) k j)
    (fun _ => 0%Q) (fun _ => 0%Q) (fun _ _ => 0%Q)
    (fun _ _ ys => ys !!! 0)
    (-999)%Q (1 # 10000000)%Q 101325%Q.

Definition sample_ext : Collaborators :=
  mkCollaborators
    (fun g => 1%Q) (fun g => 4%Q) (fun g => 1%Q) (fun g k => 0%Q)
    (fun g k => 0%Q)
    (fun g => 1%Q) (fun g => 1%Q) (fun g k => 1%Q) (fun g k m => 0%Q) (fun g k => 0%Q).

(** * Vocabulary of the properties

    The predicates, relations and sample inputs in which the properties
    below are stated. *)

(** The names of the five components that every flow domain has. *)
Definition fixed_names : list string :=
  ["velocity"; "spread_rate"; "T"; "lambda"; "eField"]%string.

(** The first [n] coordinates of [zin] increase strictly. *)
Definition strictly_increasing (n : nat) (zin : nat -> Q) : Prop :=
  forall j, 1 <= j < n -> Qlt (zin (j - 1)) (zin j).

(** The state [st] is [st0] with another grid and other widths. *)
Definition grid_only (st0 st : StFlow) : Prop :=
  exists zs dzs, st = set_m_z zs (set_m_dz dzs st0).

(** What [setupGrid] has done when its loop reaches index [j]. *)
Definition grid_written (zin : nat -> Q) (st0 : StFlow) (j : nat) (st : StFlow) : Prop :=
  grid_only st0 st
  /\ length (m_z st) = length (m_z st0)
  /\ length (m_dz st) = length (m_dz st0)
  /\ (forall i, i < j -> i < length (m_z st0) -> m_z st !!! i = zin i)
  /\ (forall i, j <= i -> m_z st !! i = m_z st0 !! i)
  /\ (forall i, 1 <= i < j -> i - 1 < length (m_dz st0) ->
                m_dz st !!! (i - 1) = Qminus (zin i) (zin (i - 1)))
  /\ (forall i, j - 1 <= i -> m_dz st !! i = m_dz st0 !! i).

(** Three increasing coordinates. *)
Definition increasing_grid : nat -> Q := fun i => [0%Q; (1#2)%Q; 1%Q] !!! i.

(** Three coordinates of which the last two are equal. *)
Definition stalling_grid : nat -> Q := fun i => [5%Q; 6%Q; 6%Q] !!! i.

(** The upwind enthalpy gradient that [grad_hk] stores for species [k]
    at point [j]. *)
Definition enthalpy_gradient (st : StFlow) (x : nat -> Q) (k j : nat) : Q :=
  if Qlt_bool 0 (u st x j) then
    ((a2d_get (m_hk st) k j - a2d_get (m_hk st) k (j - 1)) / m_dz st !!! (j - 1)%nat)%Q
  else
    ((a2d_get (m_hk st) k (j + 1) - a2d_get (m_hk st) k j) / m_dz st !!! j)%Q.

(** Column [j] of the gradient table lies within its storage. *)
Definition dhk_column_in_range (st : StFlow) (d : Array2D) (j : nat) : Prop :=
  nRows d * j + m_nsp st <= length (a2d_data d).

(** What the loop of [evalEnergy] has established when it reaches [n]. *)
Definition energy_done (hdr : Header) (st : StFlow) (x : nat -> Q) (rdt : Q)
    (lo n : nat) (a : StFlow * ((nat -> Q) * (nat -> Z))) : Prop :=
  (exists d, fst a = set_m_dhk_dz d st
             /\ nRows d = nRows (m_dhk_dz st)
             /\ length (a2d_data d) = length (a2d_data (m_dhk_dz st)))
  /\ (forall j, lo <= j < n -> m_do_energy st !!! j = false ->
                fst (snd a) (index st c_offset_T j) = (T st x j - T_fixed st j)%Q
                /\ snd (snd a) (index st c_offset_T j) = 0%Z)
  /\ (forall j, lo <= j < n -> m_do_energy st !!! j = true ->
                exists d,
                  fst (snd a) (index st c_offset_T j)
                  = energy_balance hdr (set_m_dhk_dz d st) x rdt j
                  /\ snd (snd a) (index st c_offset_T j) = 1%Z
                  /\ (dhk_column_in_range st (m_dhk_dz st) j ->
                      forall k, k < m_nsp st ->
                                a2d_get d k j = enthalpy_gradient st x k j)).

(** An operation on the output buffers that leaves residual entry [i]
    as it was. *)
Definition rsd_untouched (i : nat)
    (F : (nat -> Q) * (nat -> Z) -> (nat -> Q) * (nat -> Z)) : Prop :=
  forall o, fst (F o) i = fst o i.

(** [sum_{k < n} f k], accumulated as the loops of the source do. *)
Definition sumQ (f : nat -> Q) (n : nat) : Q :=
  for_range 0 n (fun k acc => (acc + f k)%Q) 0%Q.

(** The sum over the species of the diffusive fluxes of interval [j]. *)
Definition sum_flux (st : StFlow) (j : nat) : Q :=
  sumQ (fun k => flux st k j) (m_nsp st).

(** The flux table [fl'] has the shape of [fl] and agrees with it on
    every interval but [j]. *)
Definition flux_step (nsp j : nat) (fl fl' : Array2D) : Prop :=
  nRows fl' = nRows fl
  /\ length (a2d_data fl') = length (a2d_data fl)
  /\ forall k j', j' <> j -> k < nsp -> a2d_get fl' k j' = a2d_get fl k j'.

(** A member of the domain with its assignment. *)
Record field (A : Type) : Type := mkField {
  fget : StFlow -> A;
  fset : A -> StFlow -> StFlow;
  fget_fset : forall v s, fget (fset v s) = v;
  fset_fset : forall v w s, fset v (fset w s) = fset v s;
  fset_fget : forall s, fset (fget s) s = s
}.
Arguments fget {A} _ _.
Arguments fset {A} _ _ _.

(** The members that the refresh assigns in loops over the species. *)
Definition F_hk : field Array2D.
Proof.
  refine (mkField _ m_hk set_m_hk _ _ _); [reflexivity|reflexivity|].
  intros s. destruct s; reflexivity.
Defined.

Definition F_wdot : field Array2D.
Proof.
  refine (mkField _ m_wdot set_m_wdot _ _ _); [reflexivity|reflexivity|].
  intros s. destruct s; reflexivity.
Defined.

Definition F_ybar : field (list Q).
Proof.
  refine (mkField _ m_ybar set_m_ybar _ _ _); [reflexivity|reflexivity|].
  intros s. destruct s; reflexivity.
Defined.

Definition F_diff : field (list Q).
Proof.
  refine (mkField _ m_diff set_m_diff _ _ _); [reflexivity|reflexivity|].
  intros s. destruct s; reflexivity.
Defined.

Definition F_multidiff : field (list Q).
Proof.
  refine (mkField _ m_multidiff set_m_multidiff _ _ _); [reflexivity|reflexivity|].
  intros s. destruct s; reflexivity.
Defined.

Definition F_dthermal : field Array2D.
Proof.
  refine (mkField _ m_dthermal set_m_dthermal _ _ _); [reflexivity|reflexivity|].
  intros s. destruct s; reflexivity.
Defined.

(** The members that a residual evaluation reads and never writes. *)
Definition configuration (st : StFlow) :=
  (m_nsp st, m_nv st, m_points st, m_iloc st, m_jstart st,
   tp_speciesNames (m_thermo st), m_wt st, m_press st, m_z st, m_dz st,
   m_kRadiating st, m_epsilon_left st, m_epsilon_right st, m_do_radiation st,
   m_do_energy st, m_fixedtemp st, m_do_multicomponent st, m_do_soret st,
   m_usesLambda st, m_isFree st, m_dovisc st, m_force_full_update st,
   m_zfixed st, m_tfixed st).

(** Two domains have one configuration. *)
Definition same_config (s1 s2 : StFlow) : Prop := configuration s1 = configuration s2.

(** The state [setGas] puts the phase object in at point [j]. *)
Definition gas_at (st : StFlow) (x : nat -> Q) (j : nat) : ThermoPhase :=
  mkThermoPhase (T st x j)
    (map (fun k => x (m_nv st * j + c_offset_Y + k)) (seq 0 (m_nsp st)))
    (m_press st) (tp_speciesNames (m_thermo st)).

(** The per-point buffers are large enough for the grid. *)
Definition thermo_sized (s : StFlow) : Prop :=
  m_points s <= length (m_rho s)
  /\ m_points s <= length (m_wtm s)
  /\ m_points s <= length (m_cp s)
  /\ nRows (m_hk s) = m_nsp s
  /\ m_nsp s * m_points s <= length (a2d_data (m_hk s))
  /\ nRows (m_wdot s) = m_nsp s
  /\ m_nsp s * m_points s <= length (a2d_data (m_wdot s)).

(** The state [a] is [s] with other per-point properties, of the same
    sizes, and another state of the phase object. *)
Definition thermo_nf (s a : StFlow) : Prop :=
  exists t ys p R M C H W,
    a = set_m_wdot W (set_m_hk H (set_m_cp C (set_m_wtm M (set_m_rho R
          (set_m_thermo (mkThermoPhase t ys p (tp_speciesNames (m_thermo s))) s)))))
    /\ length R = length (m_rho s)
    /\ length M = length (m_wtm s)
    /\ length C = length (m_cp s)
    /\ nRows H = nRows (m_hk s)
    /\ length (a2d_data H) = length (a2d_data (m_hk s))
    /\ nRows W = nRows (m_wdot s)
    /\ length (a2d_data W) = length (a2d_data (m_wdot s)).

(** The properties cached for point [j] are those of the phase at the
    composition and temperature of that point. *)
Definition point_is (ext : Collaborators) (s : StFlow) (x : nat -> Q) (j : nat)
    (a : StFlow) : Prop :=
  m_rho a !!! j = thermo_density ext (gas_at s x j)
  /\ m_wtm a !!! j = thermo_meanMolecularWeight ext (gas_at s x j)
  /\ m_cp a !!! j = thermo_cp_mass ext (gas_at s x j)
  /\ forall k, k < m_nsp s ->
       a2d_get (m_hk a) k j = thermo_partialMolarEnthalpy ext (gas_at s x j) k
       /\ a2d_get (m_wdot a) k j = kin_netProductionRate ext (gas_at s x j) k.

(** The state [setGasAtMidpoint] puts the phase object in at interval [j]. *)
Definition gas_mid (st : StFlow) (x : nat -> Q) (j : nat) : ThermoPhase :=
  let yyj := fun k => x (m_nv st * j + c_offset_Y + k) in
  let yyjp := fun k => x (m_nv st * (j + 1) + c_offset_Y + k) in
  mkThermoPhase ((1#2) * (T st x j + T st x (j + 1)))%Q
    (map (fun k => ((1#2) * (yyj k + yyjp k))%Q) (seq 0 (m_nsp st)))
    (m_press st) (tp_speciesNames (m_thermo st)).

(** The mixture-averaged coefficients of the species at one interval,
    stored by the two loops over [m_diff]. *)
Definition mix_diff_stored (ext : Collaborators) (j : nat) (st1 : StFlow) : list Q :=
  for_range 0 (m_nsp st1)
    (fun k l => <[k + j * m_nsp st1
                  := (l !!! (k + j * m_nsp st1)%nat
                      * (m_wt st1 !!! k * thermo_density ext (m_thermo st1)
                         / thermo_meanMolecularWeight ext (m_thermo st1)))%Q]> l)
    (for_range 0 (m_nsp st1)
       (fun k l => <[j * m_nsp st1 + k := trans_mixDiffCoeff ext (m_thermo st1) k]> l)
       (m_diff st1)).

(** The per-interval buffers are large enough for the grid. *)
Definition transport_sized (s : StFlow) : Prop :=
  m_nsp s <= length (m_ybar s)
  /\ m_points s - 1 <= length (m_visc s)
  /\ m_points s - 1 <= length (m_tcon s)
  /\ m_nsp s * (m_points s - 1) <= length (m_diff s)
  /\ (m_do_multicomponent s = true ->
      m_nsp s * m_nsp s * (m_points s - 1) <= length (m_multidiff s))
  /\ (m_do_soret s = true ->
      nRows (m_dthermal s) = m_nsp s
      /\ m_nsp s * (m_points s - 1) <= length (a2d_data (m_dthermal s))).

(** The state [a] is [s] with other transport coefficients, of the same
    sizes, another scratch vector and another state of the phase object. *)
Definition transport_nf (s a : StFlow) : Prop :=
  exists t ys p yb V TC D MD DT,
    a = set_m_dthermal DT (set_m_multidiff MD (set_m_tcon TC (set_m_diff D
          (set_m_visc V (set_m_ybar yb
             (set_m_thermo (mkThermoPhase t ys p (tp_speciesNames (m_thermo s))) s))))))
    /\ length yb = length (m_ybar s)
    /\ length V = length (m_visc s)
    /\ length TC = length (m_tcon s)
    /\ length D = length (m_diff s)
    /\ length MD = length (m_multidiff s)
    /\ nRows DT = nRows (m_dthermal s)
    /\ length (a2d_data DT) = length (a2d_data (m_dthermal s)).

(** The coefficients cached for interval [j] are those of the phase at
    the midpoint of that interval. *)
Definition interval_is (ext : Collaborators) (s : StFlow) (x : nat -> Q) (j : nat)
    (a : StFlow) : Prop :=
  m_visc a !!! j
  = (if m_dovisc s then trans_viscosity ext (gas_mid s x j) else 0%Q)
  /\ m_tcon a !!! j = trans_thermalConductivity ext (gas_mid s x j)
  /\ (forall k, k < m_nsp s ->
        m_diff a !!! (k + j * m_nsp s)
        = if m_do_multicomponent s
          then (m_wt s !!! k * thermo_density ext (gas_mid s x j)
                / (thermo_meanMolecularWeight ext (gas_mid s x j)
                   * thermo_meanMolecularWeight ext (gas_mid s x j)))%Q
          else (trans_mixDiffCoeff ext (gas_mid s x j) k
                * (m_wt s !!! k * thermo_density ext (gas_mid s x j)
                   / thermo_meanMolecularWeight ext (gas_mid s x j)))%Q)
  /\ (m_do_multicomponent s = true ->
      forall k m, k < m_nsp s -> m < m_nsp s ->
        m_multidiff a !!! (mindex s k m j) = trans_multiDiffCoeff ext (gas_mid s x j) k m)
  /\ (m_do_multicomponent s = true -> m_do_soret s = true ->
      forall k, k < m_nsp s ->
        a2d_get (m_dthermal a) k j = trans_thermalDiffCoeff ext (gas_mid s x j) k).

(** The multicomponent matrix of one interval, as stored by
    [getMultiDiffCoeffs]. *)
Definition multidiff_stored (ext : Collaborators) (j : nat) (st1 : StFlow) : list Q :=
  for_range 0 (m_nsp st1)
    (fun m a =>
       for_range 0 (m_nsp st1)
         (fun k l => <[mindex st1 0 0 j + (m_nsp st1 * m + k)
                       := trans_multiDiffCoeff ext (m_thermo st1) k m]> l) a)
    (m_multidiff st1).

(** The thermal diffusion coefficients of one interval, as stored by
    [getThermalDiffCoeffs]. *)
Definition dthermal_stored (ext : Collaborators) (j : nat) (st1 : StFlow) : Array2D :=
  mkArray2D (nRows (m_dthermal st1)) (nColumns (m_dthermal st1))
    (for_range 0 (m_nsp st1)
       (fun k l => <[j * m_nsp st1 + k := trans_thermalDiffCoeff ext (m_thermo st1) k]> l)
       (a2d_data (m_dthermal st1))).

(** The properties cached for point [j] agree. *)
Definition point_eq (j : nat) (s1 s2 : StFlow) : Prop :=
  m_rho s1 !!! j = m_rho s2 !!! j
  /\ m_wtm s1 !!! j = m_wtm s2 !!! j
  /\ m_cp s1 !!! j = m_cp s2 !!! j
  /\ forall k, k < m_nsp s1 ->
       a2d_get (m_hk s1) k j = a2d_get (m_hk s2) k j
       /\ a2d_get (m_wdot s1) k j = a2d_get (m_wdot s2) k j.

(** Two domains agree on the configuration, on the per-point properties
    at the grid points, and on viscosity and conductivity at the grid
    intervals. *)
Definition header_view_eq (s1 s2 : StFlow) : Prop :=
  same_config s1 s2
  /\ (forall j, j < m_points s1 -> point_eq j s1 s2)
  /\ (forall j, j < m_points s1 - 1 ->
        m_visc s1 !!! j = m_visc s2 !!! j /\ m_tcon s1 !!! j = m_tcon s2 !!! j).

(** The helpers declared in the header read the state vector, the
    configuration, the per-point properties and the viscosity and
    conductivity of the intervals, at grid points and intervals only. *)
Definition header_reads (hdr : Header) : Prop :=
  forall (s1 s2 : StFlow) (x : nat -> Q),
    header_view_eq s1 s2 ->
    (forall k j, j < m_points s1 -> X hdr s1 x k j = X hdr s2 x k j)
    /\ (forall j, 1 <= j <= m_points s1 - 2 ->
          shear hdr s1 x j = shear hdr s2 x j
          /\ dVdz hdr s1 x j = dVdz hdr s2 x j
          /\ dTdz hdr s1 x j = dTdz hdr s2 x j
          /\ divHeatFlux hdr s1 x j = divHeatFlux hdr s2 x j)
    /\ (forall k j, 1 <= j <= m_points s1 - 2 -> k < m_nsp s1 ->
          dYdz hdr s1 x k j = dYdz hdr s2 x k j)
    /\ (forall k j, j < m_points s1 -> k < m_nsp s1 ->
          wdot hdr s1 k j = wdot hdr s2 k j).

(** [a1] and [a2] are [b1] and [b2] with other flux tables, which agree
    on the cells [E]. *)
Definition flux_rel (b1 b2 : StFlow) (E : nat -> nat -> Prop) (a1 a2 : StFlow) : Prop :=
  exists fl1 fl2,
    a1 = set_m_flux fl1 b1 /\ a2 = set_m_flux fl2 b2
    /\ nRows fl1 = nRows (m_flux b1) /\ nRows fl2 = nRows (m_flux b2)
    /\ length (a2d_data fl1) = length (a2d_data (m_flux b1))
    /\ length (a2d_data fl2) = length (a2d_data (m_flux b2))
    /\ forall k j, E k j -> a2d_get fl1 k j = a2d_get fl2 k j.

(** The tables have the rows of the species and room for the intervals. *)
Definition flux_sized (s : StFlow) : Prop :=
  nRows (m_flux s) = m_nsp s
  /\ m_nsp s * (m_points s - 1) <= length (a2d_data (m_flux s)).

(** The cells [E] and the first [n] rows of column [j]. *)
Definition with_column (n : nat) (E : nat -> nat -> Prop) (j : nat) : nat -> nat -> Prop :=
  fun k' j' => E k' j' \/ (k' < n /\ j' = j).

(** The cells of the intervals before [n]. *)
Definition columns_before (nsp n : nat) : nat -> nat -> Prop :=
  fun k j => k < nsp /\ j < n.

(** Two refreshed domains agree on everything the equation assemblers
    read: what the header helpers read, the diffusive fluxes of the
    intervals, the radiative loss at the interior points where the energy
    equation is solved, and the excess species. *)
Definition assembly_eq (f1 f2 : StFlow) : Prop :=
  header_view_eq f1 f2
  /\ (forall k j, k < m_nsp f1 -> j < m_points f1 - 1 -> flux f1 k j = flux f2 k j)
  /\ (forall j, 1 <= j <= m_points f1 - 2 -> m_do_energy f1 !!! j = true ->
        m_qdotRadiation f1 !!! j = m_qdotRadiation f2 !!! j)
  /\ m_kExcessLeft f1 = m_kExcessLeft f2
  /\ m_kExcessRight f1 = m_kExcessRight f2.

(** The table of enthalpy gradients has the rows of the species and room
    for the intervals. *)
Definition dhk_sized (s : StFlow) : Prop :=
  nRows (m_dhk_dz s) = m_nsp s
  /\ m_nsp s * (m_points s - 1) <= length (a2d_data (m_dhk_dz s)).

(** The transport properties cached for interval [j] agree; [s] supplies
    the configuration. *)
Definition interval_eq (s : StFlow) (j : nat) (b1 b2 : StFlow) : Prop :=
  m_visc b1 !!! j = m_visc b2 !!! j
  /\ m_tcon b1 !!! j = m_tcon b2 !!! j
  /\ (forall k, k < m_nsp s ->
        m_diff b1 !!! (k + j * m_nsp s) = m_diff b2 !!! (k + j * m_nsp s))
  /\ (m_do_multicomponent s = true ->
      forall k m, k < m_nsp s -> m < m_nsp s ->
        m_multidiff b1 !!! (mindex s k m j) = m_multidiff b2 !!! (mindex s k m j))
  /\ (m_do_multicomponent s = true -> m_do_soret s = true ->
      forall k, k < m_nsp s ->
        a2d_get (m_dthermal b1) k j = a2d_get (m_dthermal b2) k j).

(** The radiative-loss buffer has room for the intervals. *)
Definition qdot_sized (s : StFlow) : Prop :=
  m_points s - 1 <= length (m_qdotRadiation s).

(** The buffers of the domain have the sizes [resize] gives them, or
    larger. *)
Definition buffers_sized (s : StFlow) : Prop :=
  thermo_sized s /\ transport_sized s /\ flux_sized s /\ dhk_sized s
  /\ (m_do_radiation s = true -> qdot_sized s).

(** What a full refresh of two domains of one configuration achieves. *)
Definition refreshed (s1 s2 p1 p2 : StFlow) : Prop :=
  same_config s1 p1 /\ same_config s2 p2
  /\ header_view_eq p1 p2
  /\ (forall k j, k < m_nsp s1 -> j < m_points s1 - 1 -> flux p1 k j = flux p2 k j)
  /\ m_kExcessLeft p1 = m_kExcessLeft p2
  /\ m_kExcessRight p1 = m_kExcessRight p2
  /\ m_qdotRadiation p1 = m_qdotRadiation s1
  /\ m_qdotRadiation p2 = m_qdotRadiation s2
  /\ m_dhk_dz p1 = m_dhk_dz s1
  /\ m_dhk_dz p2 = m_dhk_dz s2.

(** A radiating domain with the energy equation solved at every point. *)
Definition sample_radiating : StFlow :=
  sample_flow true false false false true [true; true; true].

(** A second state vector: at the left boundary the second species has
    the largest mass fraction. *)
Definition other_x : nat -> Q :=
  fun i => [ 1%Q; 0%Q; 350%Q; 0%Q; 0%Q; (1#4)%Q; (3#4)%Q;
             1%Q; 0%Q; 450%Q; 0%Q; 0%Q; (1#2)%Q; (1#2)%Q;
             1%Q; 0%Q; 550%Q; 0%Q; 0%Q; (3#4)%Q; (1#4)%Q ] !!! i.

(** The domain [st] after a full evaluation at the state vector [x]. *)
Definition after_full_eval (ext : Collaborators) (x : nat -> Q) (st : StFlow) : StFlow :=
  fst (eval ext sample_header None x (fst sample_outputs) (snd sample_outputs) 0%Q st).

(** Collaborators whose mixture-averaged diffusion coefficients grow with
    the temperature. *)
Definition warm_ext : Collaborators :=
  mkCollaborators
    (fun g => 1%Q) (fun g => 4%Q) (fun g => 1%Q) (fun g k => 0%Q)
    (fun g k => 0%Q)
    (fun g => 1%Q) (fun g => 1%Q) (fun g k => (tp_temperature g / 100)%Q)
    (fun g k m => 0%Q) (fun g k => 0%Q).

(** The sample state vector at twice the temperatures. *)
Definition hot_x : nat -> Q :=
  fun i => [ 1%Q; 0%Q; 600%Q; 0%Q; 0%Q; (1#2)%Q; (1#4)%Q;
             1%Q; 0%Q; 800%Q; 0%Q; 0%Q; (1#4)%Q; (3#4)%Q;
             1%Q; 0%Q; 1000%Q; 0%Q; 0%Q; (1#4)%Q; (3#4)%Q ] !!! i.

(** A domain without radiation that solves the energy equation. *)
Definition sample_energy : StFlow :=
  sample_flow true false false false false [true; true; true].

(** ** Vocabulary of the further properties *)

(** The loop of [_finalize] that captures the fixed temperatures. *)
Definition finalize_temps (hdr : Header) (x : buffer) (st : StFlow) : StFlow :=
  let nz := length (m_zfix st) in
  let e : bool := m_do_energy st !!! 0 in
  for_range 0 (m_points st)
    (fun j st =>
       if e || (nz =? 0) then
         set_m_fixedtemp (<[j := T st x j]> (m_fixedtemp st)) st
       else
         let zz := ((z st j - z st 0) / (z st (m_points st - 1) - z st 0))%Q in
         let tt := linearInterp hdr zz (m_zfix st) (m_tfix st) in
         set_m_fixedtemp (<[j := tt]> (m_fixedtemp st)) st) st.

(** The part of [_finalize] that re-anchors the fixed point of a free
    flow. *)
Definition finalize_fixed_point (hdr : Header) (x : buffer) (st : StFlow)
    : outcome unit * StFlow :=
  if m_isFree st && negb (Qeq_bool (m_tfixed st) (Undef hdr)) then
    if existsb (fun j => Qeq_bool (z st j) (m_zfixed st)) (seq 0 (m_points st)) then
      (Normal tt, st)
    else
      match find (fun j => Qle_bool ((T st x j - m_tfixed st)
                                     * (T st x (j + 1) - m_tfixed st)) 0)
                 (seq 0 (m_points st - 1)) with
      | Some j =>
          let st := set_m_tfixed (T st x (j + 1)) st in
          (Normal tt, set_m_zfixed (z st (j + 1)) st)
      | None => (Normal tt, st)
      end
  else (Normal tt, st).

(** The fixed point of the domain lies on its grid. *)
Definition fixed_point_on_grid (st : StFlow) : Prop :=
  exists j, j < m_points st /\ Qeq (z st j) (m_zfixed st).

(** The temperature profile crosses the fixed temperature between the
    points [j] and [j + 1]. *)
Definition crosses_fixed_temperature (st : StFlow) (x : buffer) (j : nat) : Prop :=
  Qle ((T st x j - m_tfixed st) * (T st x (j + 1) - m_tfixed st)) 0.

(** A free flow whose fixed point, at [z = 1/2] and temperature 450, lies
    between the first two points of the sample grid. *)
Definition sample_free : StFlow :=
  set_m_zfixed (1#2) (set_m_tfixed 450
    (sample_flow false true false false false [false; false; false])).

(** What a residual evaluation has no business changing: the
    configuration, the stored reference profile, the refinement flags and
    the count of Jacobian signals. *)
Definition settings (st : StFlow) :=
  (configuration st, m_zfix st, m_tfix st, m_refiner_active st, m_jacUpdates st).

Definition same_settings (s a : StFlow) : Prop := settings s = settings a.

(** The settings together with the excess species, which only a full
    evaluation recomputes. *)
Definition frame (st : StFlow) := (settings st, m_kExcessLeft st, m_kExcessRight st).

Definition same_frame (s a : StFlow) : Prop := frame s = frame a.

(** The points a call of [eval] evaluates: all of them for a full
    evaluation, the point [jGlobal] and its neighbours for a banded
    one. *)
Definition eval_points (jGlobal : option nat) (st : StFlow) : nat * nat :=
  match jGlobal with
  | None => (0, m_points st - 1)
  | Some g =>
      let jpt := if g =? 0 then 0 else g - firstPoint st in
      (Nat.max jpt 1 - 1, Nat.min (jpt + 1) (m_points st - 1))
  end.

(** The local index [i] lies in the block of no point of the window. *)
Definition outside_window (nv jmin jmax i : nat) : Prop :=
  forall j, jmin <= j <= jmax -> ~ (nv * j <= i < nv * (j + 1)).

(** The buffers [o'] hold at index [i] what [o] holds there. *)
Definition agree_at (i : nat) (o o' : (nat -> Q) * (nat -> Z)) : Prop :=
  fst o' i = fst o i /\ snd o' i = snd o i.

(** The components of a point fit into its block, the excess species
    included. *)
Definition components_fit (st : StFlow) : Prop :=
  c_offset_Y + m_nsp st <= m_nv st
  /\ c_offset_Y + m_kExcessLeft st < m_nv st
  /\ c_offset_Y + m_kExcessRight st < m_nv st.

(** The sample domain with a phase that holds no radiating species. *)
Definition sample_inert : StFlow :=
  mkStFlow 2 7 3 0 0 sample_thermo [2%Q; 32%Q] 101325%Q
    [0%Q; 1%Q; 2%Q] [1%Q; 1%Q]
    [1%Q; 1%Q; 1%Q] [4%Q; 4%Q; 4%Q] [1%Q; 1%Q; 1%Q]
    (zeros2D 2 3) (zeros2D 2 3)
    [1%Q; 1%Q; 1%Q] [1%Q; 1%Q; 1%Q] (replicate 6 1%Q) (replicate 12 0%Q)
    (zeros2D 2 3) (zeros2D 2 3) (zeros2D 2 2) [0%Q; 0%Q]
    [7%Q; 7%Q; 7%Q] [None; None] 1%Q 1%Q true
    [true; true; true] [300%Q; 300%Q; 300%Q] [] []
    false false true false true false
    0%Q 0%Q 0 0 (fun _ => false) 0.

(** The mole fractions that the header helper [X] reports are the same at
    the two ends of interval [j], whatever the flux table holds. *)
Definition uniform_composition (hdr : Header) (x : nat -> Q) (st : StFlow) (j : nat) : Prop :=
  forall fl k, k < m_nsp st ->
    Qeq (X hdr (set_m_flux fl st) x k j) (X hdr (set_m_flux fl st) x k (j + 1)).

(** What [solveEnergyEqn] and [fixTemperature] do once the flags are
    written: [e] are the new flags and [changed] tells whether the
    Jacobian signal is raised. *)
Definition switched (b : bool) (changed : bool) (e : list bool) (st : StFlow) : StFlow :=
  let st := set_m_do_energy e st in
  let st := refiner_setActive c_offset_U b st in
  let st := refiner_setActive c_offset_V b st in
  let st := refiner_setActive c_offset_T b st in
  if changed then needJacUpdate st else st.

(** * Properties *)

(** ** Loops *)

Lemma for_range_empty {St : Type} (lo hi : nat) (body : nat -> St -> St) (s : St) :
  hi <= lo -> for_range lo hi body s = s.
Proof.
  intros H. unfold for_range. replace (hi - lo) with 0 by lia. reflexivity.
Qed.

Lemma for_range_snoc {St : Type} (lo hi : nat) (body : nat -> St -> St) (s : St) :
  lo <= hi -> for_range lo (S hi) body s = body hi (for_range lo hi body s).
Proof.
  intros H. unfold for_range.
  replace (S hi - lo) with (S (hi - lo)) by lia.
  rewrite seq_S, fold_left_app. simpl.
  replace (lo + (hi - lo)) with hi by lia. reflexivity.
Qed.

(** Loop invariants: [P j s] holds of the state [s] before iteration [j]. *)
Lemma for_range_ind {St : Type} (P : nat -> St -> Prop) (lo hi : nat)
    (body : nat -> St -> St) (s : St) :
  lo <= hi ->
  P lo s ->
  (forall j a, lo <= j < hi -> P j a -> P (S j) (body j a)) ->
  P hi (for_range lo hi body s).
Proof.
  intros Hle H0 Hstep. induction hi as [|hi IH].
  - assert (lo = 0) by lia. subst. rewrite for_range_empty by lia. exact H0.
  - destruct (Nat.eq_dec lo (S hi)) as [->|Hne].
    + rewrite for_range_empty by lia. exact H0.
    + rewrite for_range_snoc by lia. apply Hstep; [lia|].
      apply IH; [lia|]. intros j a Hj. apply Hstep. lia.
Qed.

(** Two runs of one loop from related states stay related. *)
Lemma for_range_rel {S1 S2 : Type} (R : nat -> S1 -> S2 -> Prop) (lo hi : nat)
    (body1 : nat -> S1 -> S1) (body2 : nat -> S2 -> S2) (s1 : S1) (s2 : S2) :
  lo <= hi ->
  R lo s1 s2 ->
  (forall j a b, lo <= j < hi -> R j a b -> R (S j) (body1 j a) (body2 j b)) ->
  R hi (for_range lo hi body1 s1) (for_range lo hi body2 s2).
Proof.
  intros Hle H0 Hstep. induction hi as [|hi IH].
  - assert (lo = 0) by lia. subst. rewrite !for_range_empty by lia. exact H0.
  - destruct (Nat.eq_dec lo (S hi)) as [->|Hne].
    + rewrite !for_range_empty by lia. exact H0.
    + rewrite !for_range_snoc by lia. apply Hstep; [lia|].
      apply IH; [lia|]. intros j a b Hj. apply Hstep. lia.
Qed.

Lemma for_range_ext {St : Type} (lo hi : nat) (body1 body2 : nat -> St -> St) (s : St) :
  (forall j a, lo <= j < hi -> body1 j a = body2 j a) ->
  for_range lo hi body1 s = for_range lo hi body2 s.
Proof.
  intros Hb. destruct (Nat.le_gt_cases lo hi) as [Hle|Hgt].
  - apply (for_range_rel (fun _ a b => a = b)); [exact Hle|reflexivity|].
    intros j a b Hj ->. apply Hb, Hj.
  - rewrite !for_range_empty by lia. reflexivity.
Qed.

(** ** Soret needs multicomponent transport *)

(** C6.  With Soret enabled and mixture-averaged transport, [_finalize]
    throws a [CanteraError] and leaves the domain as it was; with
    multicomponent transport, or with Soret disabled, it returns
    normally. *)
Theorem finalize_soret_requires_multicomponent :
  forall (hdr : Header) (x : buffer) (st : StFlow),
    if negb (m_do_multicomponent st) && m_do_soret st
    then exists msg,
           _finalize hdr x st = (Thrown (CanteraError "StFlow::_finalize" msg), st)
    else fst (_finalize hdr x st) = Normal tt.
Proof.
  intros hdr x st. unfold _finalize.
  destruct (negb (m_do_multicomponent st) && m_do_soret st) eqn:E.
  - eexists. reflexivity.
  - repeat match goal with
           | |- context [if ?c then _ else _] => destruct c
           | |- context [match ?c with Some _ => _ | None => _ end] => destruct c
           end; reflexivity.
Qed.

(** ** The electric-field placeholder *)

Lemma evalElectricField_rsd (st : StFlow) (x : buffer) (o : outputs) (rdt : Q)
    (jmin jmax j : nat) :
  jmin <= j <= jmax ->
  fst (evalElectricField st x o rdt jmin jmax) (index st c_offset_E j)
  = x (index st c_offset_E j).
Proof.
  intros Hj. unfold evalElectricField, for_upto.
  pose (P := fun (n : nat) (a : outputs) =>
               forall i, jmin <= i < n ->
                         fst a (index st c_offset_E i) = x (index st c_offset_E i)).
  assert (HP : P (S jmax) (for_range jmin (S jmax)
                 (fun j o => set_rsd (index st c_offset_E j) (x (index st c_offset_E j)) o) o)).
  { apply for_range_ind; [lia| |].
    - intros i Hi. lia.
    - intros n a Hn IH i Hi. unfold set_rsd. cbn [fst].
      destruct (Nat.eq_dec (index st c_offset_E n) (index st c_offset_E i)) as [E|E].
      + rewrite E. apply fn_lookup_insert.
      + rewrite fn_lookup_insert_ne by exact E. apply IH. 
        assert (i <> n) by (intros ->; apply E; reflexivity). lia. }
  apply HP. lia.
Qed.

(** C8.  The electric-field residual is the raw electric-field entry of
    the state at every evaluated point, and the operations that solve,
    fix or query the electric field throw [NotImplementedError], leaving
    the domain as it was. *)
Theorem electric_field_placeholder :
  (forall (st : StFlow) (x : buffer) (o : outputs) (rdt : Q) (jmin jmax j : nat),
      jmin <= j <= jmax ->
      fst (evalElectricField st x o rdt jmin jmax) (index st c_offset_E j)
      = x (index st c_offset_E j))
  /\ (forall (j : option nat) (st : StFlow),
         exists msg, solveElectricField j st
                     = (Thrown (NotImplementedError "StFlow::solveElectricField" msg), st))
  /\ (forall (j : option nat) (st : StFlow),
         exists msg, fixElectricField j st
                     = (Thrown (NotImplementedError "StFlow::fixElectricField" msg), st))
  /\ (forall (j : option nat) (st : StFlow),
         exists msg, doElectricField j st
                     = (Thrown (NotImplementedError "StFlow::doElectricField" msg), st)).
Proof.
  split; [exact evalElectricField_rsd|].
  repeat split; intros j st; eexists; reflexivity.
Qed.

Lemma electric_field_placeholder_witness :
  fst (evalElectricField sample_axi sample_x sample_outputs 0 0 2)
      (index sample_axi c_offset_E 1)
  = sample_x (index sample_axi c_offset_E 1).
Proof. apply (proj1 electric_field_placeholder). lia. Defined.

(** ** Component names and indices *)

Lemma find_seq_first (P : nat -> bool) (lo len n : nat) :
  lo <= n < lo + len ->
  P n = true ->
  (forall i, lo <= i < n -> P i = false) ->
  find P (seq lo len) = Some n.
Proof.
  revert lo. induction len as [|len IH]; intros lo Hn Hp Hbefore; [lia|].
  simpl. destruct (Nat.eq_dec lo n) as [->|Hne].
  - rewrite Hp. reflexivity.
  - rewrite (Hbefore lo) by lia. apply IH; [lia|exact Hp|].
    intros i Hi. apply Hbefore. lia.
Qed.

Lemma find_seq_none (P : nat -> bool) (lo len : nat) :
  (forall i, lo <= i < lo + len -> P i = false) ->
  find P (seq lo len) = None.
Proof.
  revert lo. induction len as [|len IH]; intros lo H; [reflexivity|].
  simpl. rewrite (H lo) by lia. apply IH. intros i Hi. apply H. lia.
Qed.

Lemma componentName_species (st : StFlow) (k : nat) :
  k < m_nsp st ->
  componentName st (c_offset_Y + k) = speciesName st k.
Proof.
  intros Hk. unfold componentName.
  rewrite !(proj2 (Nat.eqb_neq (c_offset_Y + k) _))
    by (unfold c_offset_Y, c_offset_U, c_offset_V, c_offset_T, c_offset_L, c_offset_E; lia).
  rewrite (proj2 (Nat.leb_le _ _)) by lia.
  rewrite (proj2 (Nat.ltb_lt _ _)) by lia.
  replace (c_offset_Y + k - c_offset_Y) with k by lia. reflexivity.
Qed.

Lemma not_fixed_name (name : string) :
  name ∉ fixed_names ->
  String.eqb name "velocity" = false /\ String.eqb name "spread_rate" = false
  /\ String.eqb name "T" = false /\ String.eqb name "lambda" = false
  /\ String.eqb name "eField" = false.
Proof.
  intros H. unfold fixed_names in H.
  repeat split; apply String.eqb_neq; intros ->; apply H;
    apply list_elem_of_In; simpl; tauto.
Qed.

(** C9.  With pairwise distinct species names, none of them a fixed
    component name, [componentIndex] inverts [componentName] on
    every component index, and throws on every name that is neither a
    fixed component name nor a species name. *)
Theorem componentIndex_componentName :
  forall (st : StFlow),
    length (tp_speciesNames (m_thermo st)) = m_nsp st ->
    NoDup (tp_speciesNames (m_thermo st)) ->
    (forall s, s ∈ fixed_names -> s ∉ tp_speciesNames (m_thermo st)) ->
    (forall n, n < c_offset_Y + m_nsp st ->
               componentIndex st (componentName st n) = Normal n)
    /\ (forall name, name ∉ fixed_names -> name ∉ tp_speciesNames (m_thermo st) ->
                     exists msg, componentIndex st name
                                 = Thrown (CanteraError "StFlow1D::componentIndex" msg)).
Proof.
  intros st Hlen Hnd Hfix. split.
  - intros n Hn. destruct (Nat.lt_ge_cases n c_offset_Y) as [Hlt|Hge].
    + unfold c_offset_Y in Hlt.
      do 5 (destruct n as [|n]; [reflexivity|]). lia.
    + replace n with (c_offset_Y + (n - c_offset_Y)) at 1 by lia.
      assert (Hk : n - c_offset_Y < m_nsp st) by lia.
      rewrite componentName_species by exact Hk.
      set (k := n - c_offset_Y) in *.
      assert (Hlk : tp_speciesNames (m_thermo st) !! k = Some (speciesName st k)).
      { unfold speciesName. apply list_lookup_lookup_total_lt. lia. }
      assert (Hnf : speciesName st k ∉ fixed_names).
      { intros Hin. apply (Hfix _ Hin). eapply list_elem_of_lookup_2. exact Hlk. }
      destruct (not_fixed_name _ Hnf) as (E1 & E2 & E3 & E4 & E5).
      unfold componentIndex. rewrite E1, E2, E3, E4, E5.
      rewrite (find_seq_first _ c_offset_Y (m_nsp st) n); [reflexivity|lia| |].
      * replace n with (c_offset_Y + k) by lia.
        rewrite componentName_species by exact Hk. apply String.eqb_refl.
      * intros i Hi. apply String.eqb_neq. intros Heq.
        replace i with (c_offset_Y + (i - c_offset_Y)) in Heq by lia.
        rewrite componentName_species in Heq by lia.
        assert (Hli : tp_speciesNames (m_thermo st) !! (i - c_offset_Y)
                      = Some (speciesName st k)).
        { rewrite <- Heq. unfold speciesName. apply list_lookup_lookup_total_lt. lia. }
        pose proof (NoDup_lookup _ _ _ _ Hnd Hli Hlk). lia.
  - intros name Hnf Hns.
    destruct (not_fixed_name _ Hnf) as (E1 & E2 & E3 & E4 & E5).
    unfold componentIndex. rewrite E1, E2, E3, E4, E5.
    rewrite find_seq_none; [eexists; reflexivity|].
    intros i Hi. apply String.eqb_neq. intros Heq.
    replace i with (c_offset_Y + (i - c_offset_Y)) in Heq by lia.
    rewrite componentName_species in Heq by lia.
    apply Hns. rewrite <- Heq. unfold speciesName.
    eapply list_elem_of_lookup_2. apply list_lookup_lookup_total_lt. lia.
Qed.

Lemma componentIndex_componentName_witness :
  componentIndex sample_axi (componentName sample_axi 6) = Normal 6
  /\ exists msg, componentIndex sample_axi "N2"
                 = Thrown (CanteraError "StFlow1D::componentIndex" msg).
Proof.
  assert (H1 : length (tp_speciesNames (m_thermo sample_axi)) = m_nsp sample_axi)
    by reflexivity.
  assert (H2 : NoDup (tp_speciesNames (m_thermo sample_axi))).
  { apply (bool_decide_unpack _). vm_compute. exact I. }
  assert (H3 : forall s, s ∈ fixed_names -> s ∉ tp_speciesNames (m_thermo sample_axi)).
  { intros s Hin Hs. apply list_elem_of_In in Hin. apply list_elem_of_In in Hs.
    simpl in Hin, Hs. intuition (subst; discriminate). }
  destruct (componentIndex_componentName sample_axi H1 H2 H3) as [Ha Hb].
  split.
  - apply Ha. vm_compute. lia.
  - apply Hb.
    + intros Hin. apply list_elem_of_In in Hin. simpl in Hin. intuition discriminate.
    + intros Hin. apply list_elem_of_In in Hin. simpl in Hin. intuition discriminate.
Defined.

(** ** The grid *)

Lemma length_vresize {A : Type} (n : nat) (v : A) (l : list A) :
  length (vresize n v l) = n.
Proof. unfold vresize. rewrite length_app, length_take, length_replicate. lia. Qed.

Lemma vresize_same_length {A : Type} (n : nat) (v : A) (l : list A) :
  length l = n -> vresize n v l = l.
Proof.
  intros H. unfold vresize. rewrite take_ge by lia.
  replace (n - length l) with 0 by lia. apply app_nil_r.
Qed.

Lemma resize_m_z (nv n : nat) (st : StFlow) :
  m_z (resize nv n st) = vresize n 0%Q (m_z st).
Proof.
  destruct (m_do_multicomponent st) eqn:E; destruct st;
    cbn [m_do_multicomponent] in E; subst; reflexivity.
Qed.

Lemma resize_m_dz (nv n : nat) (st : StFlow) :
  m_dz (resize nv n st) = vresize (n - 1) 0%Q (m_dz st).
Proof.
  destruct (m_do_multicomponent st) eqn:E; destruct st;
    cbn [m_do_multicomponent] in E; subst; reflexivity.
Qed.

Lemma resize_m_points (nv n : nat) (st : StFlow) : m_points (resize nv n st) = n.
Proof.
  destruct (m_do_multicomponent st) eqn:E; destruct st;
    cbn [m_do_multicomponent] in E; subst; reflexivity.
Qed.

Lemma setupGrid_step_throws (zin : nat -> Q) (j : nat) (st : StFlow) :
  Qle (zin j) (zin (j - 1)) ->
  setupGrid_step zin j st
  = (Thrown (CanteraError "StFlow::setupGrid"
                          "grid points must be monotonically increasing"), st).
Proof.
  intros H. unfold setupGrid_step.
  rewrite (proj2 (Qle_bool_iff _ _) H). reflexivity.
Qed.

Lemma setupGrid_step_stores (zin : nat -> Q) (st0 : StFlow) (j : nat) (st : StFlow) :
  1 <= j -> j < length (m_z st0) -> length (m_dz st0) = length (m_z st0) - 1 ->
  Qlt (zin (j - 1)) (zin j) ->
  grid_written zin st0 j st ->
  exists st', setupGrid_step zin j st = (Normal tt, st')
              /\ grid_written zin st0 (S j) st'.
Proof.
  intros Hj Hlen Hdz Hlt (Hgo & Lz & Ldz & Hz & Hzfr & Hd & Hdfr).
  unfold setupGrid_step.
  destruct (Qle_bool (zin j) (zin (j - 1))) eqn:E.
  { apply Qle_bool_iff in E. exfalso. apply (Qlt_not_le _ _ Hlt E). }
  eexists. split; [reflexivity|].
  destruct Hgo as (zs & dzs & Hgo).
  unfold grid_written. cbn [m_z m_dz set_m_z set_m_dz].
  assert (Ej : <[j:=zin j]> (m_z st) !!! j = zin j)
    by (apply list_lookup_total_insert_eq; lia).
  assert (Ep : <[j:=zin j]> (m_z st) !!! (j - 1) = zin (j - 1)).
  { rewrite list_lookup_total_insert_ne by lia. apply Hz; lia. }
  rewrite Ej, Ep.
  repeat split.
  - subst st. eexists _, _. reflexivity.
  - rewrite length_insert. exact Lz.
  - rewrite length_insert. exact Ldz.
  - intros i Hi Hin. destruct (Nat.eq_dec i j) as [->|Hne]; [exact Ej|].
    rewrite list_lookup_total_insert_ne by lia. apply Hz; lia.
  - intros i Hi. rewrite list_lookup_insert_ne by lia. apply Hzfr. lia.
  - intros i Hi Hin. destruct (Nat.eq_dec i j) as [->|Hne].
    + apply list_lookup_total_insert_eq. lia.
    + rewrite list_lookup_total_insert_ne by lia. apply Hd; [lia|exact Hin].
  - intros i Hi. rewrite list_lookup_insert_ne by lia. apply Hdfr. lia.
Qed.

Lemma setupGrid_loop_succeeds (zin : nat -> Q) (st0 : StFlow) (len lo : nat) (st : StFlow) :
  1 <= lo -> lo + len <= length (m_z st0) ->
  length (m_dz st0) = length (m_z st0) - 1 ->
  (forall j, lo <= j < lo + len -> Qlt (zin (j - 1)) (zin j)) ->
  grid_written zin st0 lo st ->
  exists st', for_each_throwing (seq lo len) (setupGrid_step zin) st = (Normal tt, st')
              /\ grid_written zin st0 (lo + len) st'.
Proof.
  revert lo st. induction len as [|len IH]; intros lo st Hlo Hlen Hdz Hinc Hw.
  - exists st. split; [reflexivity|]. replace (lo + 0) with lo by lia. exact Hw.
  - destruct (setupGrid_step_stores zin st0 lo st) as (st1 & E1 & W1);
      [lia|lia|exact Hdz|apply Hinc; lia|exact Hw|].
    destruct (IH (S lo) st1) as (st2 & E2 & W2); [lia|lia|exact Hdz| |exact W1|].
    { intros j Hj. apply Hinc. lia. }
    exists st2. split.
    + cbn [seq for_each_throwing]. rewrite E1. exact E2.
    + replace (lo + S len) with (S lo + len) by lia. exact W2.
Qed.

Lemma setupGrid_loop_throws (zin : nat -> Q) (st0 : StFlow) (len lo j0 : nat) (st : StFlow) :
  1 <= lo -> lo + len <= length (m_z st0) ->
  length (m_dz st0) = length (m_z st0) - 1 ->
  lo <= j0 < lo + len ->
  Qle (zin j0) (zin (j0 - 1)) ->
  (forall j, lo <= j < j0 -> Qlt (zin (j - 1)) (zin j)) ->
  grid_written zin st0 lo st ->
  exists st', for_each_throwing (seq lo len) (setupGrid_step zin) st
              = (Thrown (CanteraError "StFlow::setupGrid"
                           "grid points must be monotonically increasing"), st')
              /\ grid_written zin st0 j0 st'.
Proof.
  revert lo st. induction len as [|len IH]; intros lo st Hlo Hlen Hdz Hj0 Hbad Hinc Hw; [lia|].
  destruct (Nat.eq_dec lo j0) as [->|Hne].
  - exists st. split; [|exact Hw].
    cbn [seq for_each_throwing]. rewrite setupGrid_step_throws by exact Hbad. reflexivity.
  - destruct (setupGrid_step_stores zin st0 lo st) as (st1 & E1 & W1);
      [lia|lia|exact Hdz|apply Hinc; lia|exact Hw|].
    destruct (IH (S lo) st1) as (st2 & E2 & W2);
      [lia|lia|exact Hdz|lia|exact Hbad| |exact W1|].
    { intros j Hj. apply Hinc. lia. }
    exists st2. split; [|exact W2].
    cbn [seq for_each_throwing]. rewrite E1. exact E2.
Qed.

(** A sequence that is not strictly increasing has a first offending
    index. *)
Lemma first_offender (n : nat) (zin : nat -> Q) :
  strictly_increasing n zin
  \/ exists j0, 1 <= j0 < n /\ Qle (zin j0) (zin (j0 - 1))
                /\ forall j, 1 <= j < j0 -> Qlt (zin (j - 1)) (zin j).
Proof.
  induction n as [|n IH].
  - left. intros j Hj. lia.
  - destruct IH as [Hinc|(j0 & Hj0 & Hbad & Hpre)].
    + destruct (Nat.eq_dec n 0) as [->|Hn].
      { left. intros j Hj. lia. }
      destruct (Qlt_le_dec (zin (n - 1)) (zin n)) as [Hlt|Hle].
      * left. intros j Hj. destruct (Nat.eq_dec j n) as [->|Hne]; [exact Hlt|].
        apply Hinc. lia.
      * right. exists n. split; [lia|]. split; [exact Hle|].
        intros j Hj. apply Hinc. lia.
    + right. exists j0. split; [lia|]. split; [exact Hbad|exact Hpre].
Qed.

Lemma setupGrid_start (zin : nat -> Q) (st0 : StFlow) :
  grid_written zin st0 1 (set_m_z (<[0 := zin 0]> (m_z st0)) st0).
Proof.
  unfold grid_written. cbn [m_z m_dz set_m_z set_m_dz]. repeat split.
  - exists (<[0 := zin 0]> (m_z st0)), (m_dz st0). destruct st0; reflexivity.
  - apply length_insert.
  - intros i Hi Hin. assert (i = 0) by lia. subst i.
    apply list_lookup_total_insert_eq. exact Hin.
  - intros i Hi. apply list_lookup_insert_ne. lia.
  - intros i Hi. lia.
Qed.

Lemma setupGrid_unfold (n : nat) (zin : nat -> Q) (st : StFlow) :
  setupGrid n zin st
  = for_each_throwing (seq 1 (n - 1)) (setupGrid_step zin)
      (set_m_z (<[0 := zin 0]> (m_z (resize (m_nv st) n st))) (resize (m_nv st) n st)).
Proof.
  unfold setupGrid. cbv zeta.
  generalize (resize_m_points (m_nv st) n st).
  generalize (resize (m_nv st) n st). intros R HR.
  cbn [m_points set_m_z]. rewrite HR. reflexivity.
Qed.




(** ** Radiation *)

Lemma computeRadiation_inv (hdr : Header) (x : nat -> Q) (jmin jmax : nat) (st : StFlow) :
  let st' := computeRadiation hdr x jmin jmax st in
  (exists q, st' = set_m_qdotRadiation q st)
  /\ length (m_qdotRadiation st') = length (m_qdotRadiation st)
  /\ (forall i, i < jmin \/ jmax <= i ->
                m_qdotRadiation st' !! i = m_qdotRadiation st !! i)
  /\ (forall i, jmin <= i < jmax -> i < length (m_qdotRadiation st) ->
                exists q, m_qdotRadiation st' !!! i
                          = radiative_heat_loss hdr x i (set_m_qdotRadiation q st)).
Proof.
  intros st'. subst st'. unfold computeRadiation.
  destruct (Nat.le_gt_cases jmin jmax) as [Hle|Hgt].
  2:{ rewrite for_range_empty by lia.
      split; [exists (m_qdotRadiation st); destruct st; reflexivity|].
      split; [reflexivity|]. split; [reflexivity|]. intros i Hi. lia. }
  apply (for_range_ind
           (fun n a =>
              (exists q, a = set_m_qdotRadiation q st)
              /\ length (m_qdotRadiation a) = length (m_qdotRadiation st)
              /\ (forall i, i < jmin \/ n <= i ->
                            m_qdotRadiation a !! i = m_qdotRadiation st !! i)
              /\ (forall i, jmin <= i < n -> i < length (m_qdotRadiation st) ->
                            exists q, m_qdotRadiation a !!! i
                                      = radiative_heat_loss hdr x i
                                          (set_m_qdotRadiation q st)))).
  - exact Hle.
  - split; [exists (m_qdotRadiation st); destruct st; reflexivity|].
    split; [reflexivity|]. split; [reflexivity|]. intros i Hi. lia.
  - intros n a Hn ((q & ->) & Hlen & Hfr & Hw).
    cbn [m_qdotRadiation set_m_qdotRadiation] in *.
    split; [eexists; reflexivity|].
    split; [rewrite length_insert; exact Hlen|].
    split.
    + intros i Hi. rewrite list_lookup_insert_ne by lia. apply Hfr. lia.
    + intros i Hi Hin. destruct (Nat.eq_dec i n) as [->|Hne].
      * exists q. apply list_lookup_total_insert_eq. lia.
      * rewrite list_lookup_total_insert_ne by lia. apply Hw; [lia|exact Hin].
Qed.

(** C10.  [computeRadiation] writes the radiative-loss buffer at the
    indices [jmin] to [jmax - 1] only: the entry at [jmax], the entries
    outside the window and every other member of the domain keep their
    values.  In a full-domain evaluation the entry of the last grid point
    is the one left as it was. *)
Theorem computeRadiation_leaves_jmax :
  forall (hdr : Header) (x : nat -> Q) (jmin jmax : nat) (st : StFlow),
    let st' := computeRadiation hdr x jmin jmax st in
    (exists q, st' = set_m_qdotRadiation q st)
    /\ length (m_qdotRadiation st') = length (m_qdotRadiation st)
    /\ m_qdotRadiation st' !! jmax = m_qdotRadiation st !! jmax
    /\ (forall i, i < jmin \/ jmax < i ->
                  m_qdotRadiation st' !! i = m_qdotRadiation st !! i)
    /\ (forall i, jmin <= i < jmax -> i < length (m_qdotRadiation st) ->
                  exists q, m_qdotRadiation st' !!! i
                            = radiative_heat_loss hdr x i (set_m_qdotRadiation q st))
    /\ m_qdotRadiation (computeRadiation hdr x 0 (m_points st - 1) st) !! (m_points st - 1)
       = m_qdotRadiation st !! (m_points st - 1).
Proof.
  intros hdr x jmin jmax st st'.
  destruct (computeRadiation_inv hdr x jmin jmax st) as (H1 & H2 & H3 & H4).
  split; [exact H1|]. split; [exact H2|].
  split; [apply H3; lia|]. split; [intros i Hi; apply H3; lia|].
  split; [exact H4|].
  destruct (computeRadiation_inv hdr x 0 (m_points st - 1) st) as (_ & _ & H5 & _).
  apply H5. lia.
Qed.

Lemma computeRadiation_leaves_jmax_witness :
  m_qdotRadiation
    (computeRadiation sample_header sample_x 0 2
       (sample_flow true false false false true [false; false; false])) !! 0
  <> Some 0%Q
  /\ m_qdotRadiation
       (computeRadiation sample_header sample_x 0 2
          (sample_flow true false false false true [false; false; false])) !! 2
     = Some 0%Q.
Proof.
  split.
  - vm_compute. discriminate.
  - destruct (computeRadiation_leaves_jmax sample_header sample_x 0 2
                (sample_flow true false false false true [false; false; false]))
      as (_ & _ & H & _).
    rewrite H. reflexivity.
Defined.

(** ** Stores into the output buffers *)

Lemma index_inj (st : StFlow) (c c' j j' : nat) :
  c < m_nv st -> c' < m_nv st -> index st c j = index st c' j' -> c = c' /\ j = j'.
Proof.
  unfold index. intros Hc Hc' H.
  destruct (Nat.lt_trichotomy j j') as [Hlt|[->|Hlt]].
  - pose proof (Nat.mul_le_mono_l (S j) j' (m_nv st) Hlt) as Hm.
    rewrite Nat.mul_succ_r in Hm. lia.
  - split; [lia|reflexivity].
  - pose proof (Nat.mul_le_mono_l (S j') j (m_nv st) Hlt) as Hm.
    rewrite Nat.mul_succ_r in Hm. lia.
Qed.

Lemma index_inj_point (st : StFlow) (c j j' : nat) :
  0 < m_nv st -> index st c j = index st c j' -> j = j'.
Proof.
  unfold index. intros Hnv H.
  assert (E : m_nv st * j = m_nv st * j') by lia.
  apply Nat.mul_cancel_l in E; [exact E|lia].
Qed.

(** A loop that stores [g j] at offset [f j]. *)
Lemma store_loop {A : Type} (f : nat -> nat) (g : nat -> A) (lo hi : nat) (b : nat -> A) :
  (forall j j', lo <= j < hi -> lo <= j' < hi -> f j = f j' -> j = j') ->
  let b' := for_range lo hi (fun j b => <[f j := g j]> b) b in
  (forall j, lo <= j < hi -> b' (f j) = g j)
  /\ (forall i, (forall j, lo <= j < hi -> i <> f j) -> b' i = b i).
Proof.
  intros Hinj b'. subst b'.
  destruct (Nat.le_gt_cases lo hi) as [Hle|Hgt].
  2:{ rewrite for_range_empty by lia. split; [intros j Hj; lia|reflexivity]. }
  apply (for_range_ind
           (fun n a => (forall j, lo <= j < n -> a (f j) = g j)
                       /\ (forall i, (forall j, lo <= j < n -> i <> f j) -> a i = b i))).
  - exact Hle.
  - split; [intros j Hj; lia|reflexivity].
  - intros n a Hn [Hw Hfr]. split.
    + intros j Hj. destruct (Nat.eq_dec j n) as [->|Hne].
      * apply fn_lookup_insert.
      * rewrite fn_lookup_insert_ne; [apply Hw; lia|].
        intros E. apply Hne. symmetry. apply Hinj; [lia|lia|exact E].
    + intros i Hi. rewrite fn_lookup_insert_ne.
      * apply Hfr. intros j Hj. apply Hi. lia.
      * intros E. apply (Hi n); [lia|]. symmetry. exact E.
Qed.

(** The residual part of a loop that only stores residuals. *)
Lemma rsd_loop_fst (f : nat -> nat) (g : nat -> Q) (lo hi : nat)
    (o : (nat -> Q) * (nat -> Z)) :
  for_range lo hi (fun j o => set_rsd (f j) (g j) o) o
  = (for_range lo hi (fun j b => <[f j := g j]> b) (fst o), snd o).
Proof.
  destruct (Nat.le_gt_cases lo hi) as [Hle|Hgt].
  2:{ rewrite !for_range_empty by lia. destruct o; reflexivity. }
  apply (for_range_rel (fun _ (a : (nat -> Q) * (nat -> Z)) (b : nat -> Q) => a = (b, snd o))).
  - exact Hle.
  - destruct o; reflexivity.
  - intros j a b Hj ->. reflexivity.
Qed.

(** ** The lambda equation *)

(** What [evalLambda] leaves in the buffers in axisymmetric mode. *)
Lemma evalLambda_axisymmetric (st : StFlow) (x : nat -> Q) (o : (nat -> Q) * (nat -> Z))
    (rdt : Q) (jmin jmax : nat) :
  m_usesLambda st = true -> 0 < m_nv st -> 2 <= m_points st ->
  jmin <= jmax <= m_points st - 1 ->
  let o' := evalLambda st x o rdt jmin jmax in
  (jmin = 0 -> fst o' (index st c_offset_L 0) = (- rho_u st x 0)%Q)
  /\ (forall j, jmin <= j <= jmax -> 1 <= j ->
                fst o' (index st c_offset_L j) = (lambda st x j - lambda st x (j - 1))%Q)
  /\ (jmax = m_points st - 1 -> snd o' (index st c_offset_L jmax) = 0%Z)
  /\ (forall i, jmax <> m_points st - 1 \/ i <> index st c_offset_L jmax ->
                snd o' i = snd o i).
Proof.
  intros Hl Hnv Hp Hw o'. subst o'. unfold evalLambda. rewrite Hl. cbn [negb].
  set (o1 := if jmin =? 0 then _ else o).
  set (o2 := if jmax =? m_points st - 1 then _ else o1).
  unfold for_upto. rewrite rsd_loop_fst. cbn [fst snd].
  set (j0 := Nat.max jmin 1). set (j1 := Nat.min jmax (m_points st - 2)).
  destruct (store_loop (fun j => index st c_offset_L j)
              (fun j => (lambda st x j - lambda st x (j - 1))%Q) j0 (S j1) (fst o2))
    as [Hin Hout].
  { intros j j' _ _ E. eapply index_inj_point; eauto. }
  cbv zeta in Hin, Hout.
  assert (S1 : snd o1 = snd o) by (unfold o1; destruct (jmin =? 0); reflexivity).
  split; [|split; [|split]].
  - intros ->. rewrite Hout.
    + unfold o2. destruct (jmax =? m_points st - 1) eqn:E.
      * apply Nat.eqb_eq in E. unfold set_diag, set_rsd. cbn [fst snd].
        rewrite fn_lookup_insert_ne.
        -- unfold o1. cbn [Nat.eqb fst set_rsd]. apply fn_lookup_insert.
        -- intros E'. apply index_inj_point in E'; [lia|exact Hnv].
      * unfold o1. cbn [Nat.eqb fst set_rsd]. apply fn_lookup_insert.
    + intros j Hj E. apply index_inj_point in E; [|exact Hnv]. unfold j0 in Hj. lia.
  - intros j Hj Hj1. destruct (Nat.eq_dec j (m_points st - 1)) as [Hr|Hr].
    + assert (Ejm : jmax = j) by lia.
      rewrite Hout.
      * unfold o2. rewrite Ejm, Hr, Nat.eqb_refl. unfold set_diag, set_rsd. cbn [fst snd].
        apply fn_lookup_insert.
      * intros j' Hj' E. apply index_inj_point in E; [|exact Hnv]. unfold j1 in Hj'. lia.
    + apply Hin. unfold j0, j1. lia.
  - intros E. unfold o2. rewrite E, Nat.eqb_refl. unfold set_diag. cbn [snd].
    apply fn_lookup_insert.
  - intros i Hi. unfold o2. destruct (jmax =? m_points st - 1) eqn:E.
    + apply Nat.eqb_eq in E. unfold set_diag, set_rsd. cbn [snd].
      rewrite fn_lookup_insert_ne; [rewrite S1; reflexivity|].
      intros E'. destruct Hi as [Hi|Hi]; [lia|]. apply Hi. symmetry. exact E'.
    + rewrite S1. reflexivity.
Qed.

(** C7, amended.  In axisymmetric mode the lambda residual at the left
    boundary is minus the mass flux there, and at every other evaluated
    point [j] it is [lambda(j) - lambda(j-1)].  The diag entry of lambda is
    set to 0 at the right boundary only; at the left boundary and at
    interior points [evalLambda] leaves the entry supplied by the caller,
    so these points are classified algebraic exactly when the caller's
    diag buffer holds 0 there. *)
Theorem evalLambda_constancy_and_diag :
  forall (st : StFlow) (x : nat -> Q) (o : (nat -> Q) * (nat -> Z)) (rdt : Q)
         (jmin jmax : nat),
    m_usesLambda st = true -> 0 < m_nv st -> 2 <= m_points st ->
    jmin <= jmax <= m_points st - 1 ->
    let o' := evalLambda st x o rdt jmin jmax in
    (jmin = 0 -> fst o' (index st c_offset_L 0) = (- rho_u st x 0)%Q)
    /\ (forall j, jmin <= j <= jmax -> 1 <= j ->
                  fst o' (index st c_offset_L j) = (lambda st x j - lambda st x (j - 1))%Q)
    /\ (jmax = m_points st - 1 -> snd o' (index st c_offset_L jmax) = 0%Z)
    /\ (forall j, jmin <= j <= jmax -> j < m_points st - 1 ->
                  snd o' (index st c_offset_L j) = snd o (index st c_offset_L j)).
Proof.
  intros st x o rdt jmin jmax Hl Hnv Hp Hw o'.
  destruct (evalLambda_axisymmetric st x o rdt jmin jmax Hl Hnv Hp Hw)
    as (H1 & H2 & H3 & H4).
  split; [exact H1|]. split; [exact H2|]. split; [exact H3|].
  intros j Hj Hlt. apply H4.
  destruct (Nat.eq_dec jmax (m_points st - 1)) as [E|E]; [right|left; exact E].
  intros E'. apply index_inj_point in E'; [lia|exact Hnv].
Qed.

Lemma evalLambda_constancy_and_diag_witness :
  fst (evalLambda sample_axi sample_x sample_outputs 0 0 2) (index sample_axi c_offset_L 1)
  = (lambda sample_axi sample_x 1 - lambda sample_axi sample_x 0)%Q
  /\ snd (evalLambda sample_axi sample_x sample_outputs 0 0 2) (index sample_axi c_offset_L 2)
     = 0%Z.
Proof.
  destruct (evalLambda_constancy_and_diag sample_axi sample_x sample_outputs 0 0 2)
    as (_ & H2 & H3 & _).
  - reflexivity.
  - vm_compute. lia.
  - vm_compute. lia.
  - vm_compute. lia.
  - split; [apply H2; lia|apply H3; reflexivity].
Defined.

(** With a diag buffer holding 1, the interior lambda entry still holds 1
    after the evaluation of the whole domain. *)
Lemma evalLambda_interior_diag_not_set :
  ~ (forall j, 0 <= j <= 2 ->
               snd (evalLambda sample_axi sample_x sample_outputs 0 0 2)
                   (index sample_axi c_offset_L j) = 0%Z).
Proof.
  intros H. specialize (H 1 ltac:(lia)). vm_compute in H. discriminate.
Qed.

(** ** The energy equation *)

Lemma grad_hk_spec (x : nat -> Q) (j : nat) (st : StFlow) (d : Array2D) :
  exists d',
    grad_hk x j (set_m_dhk_dz d st) = set_m_dhk_dz d' st
    /\ nRows d' = nRows d
    /\ length (a2d_data d') = length (a2d_data d)
    /\ (dhk_column_in_range st d j ->
        forall k, k < m_nsp st -> a2d_get d' k j = enthalpy_gradient st x k j).
Proof.
  unfold grad_hk. cbn [m_nsp set_m_dhk_dz].
  apply (for_range_ind
           (fun n a => exists d',
                a = set_m_dhk_dz d' st
                /\ nRows d' = nRows d
                /\ length (a2d_data d') = length (a2d_data d)
                /\ (dhk_column_in_range st d j ->
                    forall k, k < n -> a2d_get d' k j = enthalpy_gradient st x k j))).
  - lia.
  - exists d. repeat split. intros _ k Hk. lia.
  - intros n a Hn (d' & -> & Hr & Hl & Hc).
    exists (a2d_set d' n j (enthalpy_gradient st x n j)).
    split; [|split; [|split]].
    + unfold enthalpy_gradient. destruct (Qlt_bool 0 (u st x j)) eqn:E.
      * change (u (set_m_dhk_dz d' st) x j) with (u st x j). rewrite E. reflexivity.
      * change (u (set_m_dhk_dz d' st) x j) with (u st x j). rewrite E. reflexivity.
    + exact Hr.
    + unfold a2d_set. cbn [a2d_data]. rewrite length_insert. exact Hl.
    + intros Hin k Hk. unfold a2d_get, a2d_set. cbn [a2d_data nRows].
      destruct (Nat.eq_dec k n) as [->|Hne].
      * apply list_lookup_total_insert_eq. unfold dhk_column_in_range in Hin. lia.
      * rewrite list_lookup_total_insert_ne by lia. apply Hc; [exact Hin|lia].
Qed.

Lemma evalEnergy_interior (hdr : Header) (st : StFlow) (x : nat -> Q)
    (o : (nat -> Q) * (nat -> Z)) (rdt : Q) (jmin jmax : nat) :
  0 < m_nv st ->
  energy_done hdr st x rdt (Nat.max jmin 1) (S (Nat.min jmax (m_points st - 2)))
              (evalEnergy hdr st x o rdt jmin jmax).
Proof.
  intros Hnv. unfold evalEnergy, for_upto.
  set (o1 := if jmin =? 0 then _ else o).
  set (o2 := if jmax =? m_points st - 1 then _ else o1).
  set (j0 := Nat.max jmin 1). set (j1 := Nat.min jmax (m_points st - 2)).
  destruct (Nat.le_gt_cases j0 (S j1)) as [Hle|Hgt].
  2:{ rewrite for_range_empty by lia. split; [|split].
      - exists (m_dhk_dz st). repeat split. destruct st; reflexivity.
      - intros j Hj. lia.
      - intros j Hj. lia. }
  apply (for_range_ind (energy_done hdr st x rdt j0)).
  - exact Hle.
  - split; [|split].
    + exists (m_dhk_dz st). repeat split. destruct st; reflexivity.
    + intros j Hj. lia.
    + intros j Hj. lia.
  - intros n [a_st a_o] Hn ((d & Ha & Hr & Hl) & Hoff & Hon).
    cbn [fst snd] in Ha, Hoff, Hon. subst a_st.
    change (m_do_energy (set_m_dhk_dz d st)) with (m_do_energy st).
    destruct (m_do_energy st !!! n) eqn:En.
    + destruct (grad_hk_spec x n st d) as (d' & Eg & Hr' & Hl' & Hc').
      rewrite Eg.
      change (index (set_m_dhk_dz d' st) c_offset_T n) with (index st c_offset_T n).
      split; [|split]; cbn [fst snd].
      * exists d'. split; [reflexivity|]. split; congruence.
      * intros j Hj Ej. unfold set_diag, set_rsd. cbn [fst snd].
        destruct (Nat.eq_dec j n) as [->|Hne]; [congruence|].
        assert (Hi : index st c_offset_T n <> index st c_offset_T j).
        { intros E. apply index_inj_point in E; [lia|exact Hnv]. }
        rewrite !fn_lookup_insert_ne by exact Hi. apply Hoff; [lia|exact Ej].
      * intros j Hj Ej. unfold set_diag, set_rsd. cbn [fst snd].
        destruct (Nat.eq_dec j n) as [->|Hne].
        -- exists d'. rewrite !fn_lookup_insert.
           split; [reflexivity|]. split; [reflexivity|].
           intros Hin. apply Hc'. unfold dhk_column_in_range in *. rewrite Hr, Hl. exact Hin.
        -- assert (Hi : index st c_offset_T n <> index st c_offset_T j).
           { intros E. apply index_inj_point in E; [lia|exact Hnv]. }
           rewrite !fn_lookup_insert_ne by exact Hi. apply Hon; [lia|exact Ej].
    + change (index (set_m_dhk_dz d st) c_offset_T n) with (index st c_offset_T n).
      change (T (set_m_dhk_dz d st) x n) with (T st x n).
      change (T_fixed (set_m_dhk_dz d st) n) with (T_fixed st n).
      split; [|split]; cbn [fst snd].
      * exists d. repeat split; assumption.
      * intros j Hj Ej. unfold set_diag, set_rsd. cbn [fst snd].
        destruct (Nat.eq_dec j n) as [->|Hne].
        -- rewrite !fn_lookup_insert. split; reflexivity.
        -- assert (Hi : index st c_offset_T n <> index st c_offset_T j).
           { intros E. apply index_inj_point in E; [lia|exact Hnv]. }
           rewrite !fn_lookup_insert_ne by exact Hi. apply Hoff; [lia|exact Ej].
      * intros j Hj Ej. unfold set_diag, set_rsd. cbn [fst snd].
        destruct (Nat.eq_dec j n) as [->|Hne]; [congruence|].
        assert (Hi : index st c_offset_T n <> index st c_offset_T j).
        { intros E. apply index_inj_point in E; [lia|exact Hnv]. }
        rewrite !fn_lookup_insert_ne by exact Hi. apply Hon; [lia|exact Ej].
Qed.

Lemma solveEnergyEqn_point (j : nat) (st : StFlow) :
  m_do_energy st !!! j = false ->
  m_jacUpdates (solveEnergyEqn (Some j) st) = S (m_jacUpdates st)
  /\ (j < length (m_do_energy st) -> m_do_energy (solveEnergyEqn (Some j) st) !!! j = true).
Proof.
  intros H. unfold solveEnergyEqn. rewrite H. cbn [negb]. split; [reflexivity|].
  intros Hj. cbn. apply list_lookup_total_insert_eq. exact Hj.
Qed.

Lemma solveEnergyEqn_all (st : StFlow) :
  (exists i, i < m_points st /\ m_do_energy st !!! i = false) ->
  m_jacUpdates (solveEnergyEqn None st) = S (m_jacUpdates st).
Proof.
  intros Hex. unfold solveEnergyEqn.
  set (body := fun (i : nat) '(changed, st0) =>
                 (if negb (m_do_energy st0 !!! i) then true else changed : bool,
                  set_m_do_energy (<[i:=true]> (m_do_energy st0)) st0)).
  assert (Hinv : forall n, n <= m_points st ->
            let r := for_range 0 n body (false, st) in
            (exists e, snd r = set_m_do_energy e st
                       /\ forall i, n <= i -> e !!! i = m_do_energy st !!! i)
            /\ ((exists i, i < n /\ m_do_energy st !!! i = false) -> fst r = true)).
  { intros n Hn. cbv zeta.
    apply (for_range_ind
             (fun n (r : bool * StFlow) =>
                (exists e, snd r = set_m_do_energy e st
                           /\ forall i, n <= i -> e !!! i = m_do_energy st !!! i)
                /\ ((exists i, i < n /\ m_do_energy st !!! i = false) -> fst r = true))).
    - lia.
    - split.
      + exists (m_do_energy st). split; [destruct st; reflexivity|reflexivity].
      + intros (i & Hi & _). lia.
    - intros k [c a] Hk ((e & Ha & He) & Hc). cbn [fst snd] in *. subst a.
      unfold body. cbn [m_do_energy set_m_do_energy fst snd]. split.
      + eexists. split; [reflexivity|]. intros i Hi.
        rewrite list_lookup_total_insert_ne by lia. apply He. lia.
      + intros (i & Hi & Ei). destruct (Nat.eq_dec i k) as [->|Hne].
        * rewrite He by lia. rewrite Ei. reflexivity.
        * rewrite (Hc ltac:(exists i; split; [lia|exact Ei])).
          destruct (negb (e !!! k)); reflexivity. }
  destruct (Hinv (m_points st) (Nat.le_refl _)) as ((e & He & _) & Hc).
  specialize (Hc Hex).
  destruct (for_range 0 (m_points st) body (false, st)) as [c a].
  cbn [fst snd] in *. subst c a. reflexivity.
Qed.



(** ** The species equations at the boundaries *)

Lemma set_rsd_untouched (i i' : nat) (v : Q) :
  i <> i' -> rsd_untouched i (set_rsd i' v).
Proof. intros H o. unfold set_rsd. cbn [fst]. apply fn_lookup_insert_ne. congruence. Qed.

Lemma set_diag_untouched (i i' : nat) (v : Z) : rsd_untouched i (set_diag i' v).
Proof. intros o. reflexivity. Qed.

Lemma for_range_untouched (i lo hi : nat)
    (body : nat -> (nat -> Q) * (nat -> Z) -> (nat -> Q) * (nat -> Z)) :
  (forall j, lo <= j < hi -> rsd_untouched i (body j)) ->
  rsd_untouched i (for_range lo hi body).
Proof.
  intros Hb o. destruct (Nat.le_gt_cases lo hi) as [Hle|Hgt].
  - apply (for_range_ind (fun _ a => fst a i = fst o i)); [exact Hle|reflexivity|].
    intros j a Hj IH. rewrite (Hb j Hj). exact IH.
  - rewrite for_range_empty by lia. reflexivity.
Qed.

(** The loop over the species at a boundary point [jb]: it sums the mass
    fractions and stores [g k] for species [k]. *)
Lemma species_boundary_loop (st : StFlow) (x : nat -> Q) (jb : nat)
    (f : nat -> nat) (g : nat -> Q) (o : (nat -> Q) * (nat -> Z)) :
  for_range 0 (m_nsp st)
    (fun k '(sum, o) => ((sum + Y st x k jb)%Q, set_rsd (f k) (g k) o)) (0%Q, o)
  = (sum_Y st x jb,
     (for_range 0 (m_nsp st) (fun k b => <[f k := g k]> b) (fst o), snd o)).
Proof.
  unfold sum_Y.
  apply (for_range_ind
           (fun n (a : Q * ((nat -> Q) * (nat -> Z))) =>
              a = (for_range 0 n (fun k sum => (sum + Y st x k jb)%Q) 0%Q,
                   (for_range 0 n (fun k b => <[f k := g k]> b) (fst o), snd o)))).
  - lia.
  - rewrite !for_range_empty by lia. destruct o; reflexivity.
  - intros n a Hn ->. rewrite !for_range_snoc by lia. reflexivity.
Qed.

Lemma species_index_ne (st : StFlow) (k k' j j' : nat) :
  m_nv st = c_offset_Y + m_nsp st -> k < m_nsp st -> k' < m_nsp st -> j <> j' ->
  index st (c_offset_Y + k) j <> index st (c_offset_Y + k') j'.
Proof.
  intros Hnv Hk Hk' Hj E. apply index_inj in E; [lia|lia|lia].
Qed.

Lemma species_index_point0 (st : StFlow) (k c j : nat) :
  m_nv st = c_offset_Y + m_nsp st -> k < m_nsp st -> 1 <= j ->
  index st (c_offset_Y + k) 0 <> index st c j.
Proof.
  intros Hnv Hk Hj. unfold index.
  pose proof (Nat.mul_le_mono_l 1 j (m_nv st) Hj). lia.
Qed.

(** The interior loop of [evalSpecies] does not store at the points
    outside [j0 .. j1]. *)
Lemma species_interior_untouched (hdr : Header) (st : StFlow) (x : nat -> Q) (rdt : Q)
    (j0 j1 jb k : nat) :
  m_nv st = c_offset_Y + m_nsp st -> k < m_nsp st -> jb < j0 \/ j1 < jb ->
  rsd_untouched (index st (c_offset_Y + k) jb)
    (for_upto j0 j1
       (fun j o =>
          for_range 0 (m_nsp st)
            (fun k o =>
               let convec := (rho_u st x j * dYdz hdr st x k j)%Q in
               let diffus := (2 * (flux st k j - flux st k (j - 1))
                              / (z st (j + 1) - z st (j - 1)))%Q in
               let o := set_rsd (index st (c_offset_Y + k) j)
                          ((m_wt st !!! k * wdot hdr st k j - convec - diffus) / m_rho st !!! j
                           - rdt * (Y st x k j - Y_prev hdr k j))%Q o in
               set_diag (index st (c_offset_Y + k) j) 1%Z o) o)).
Proof.
  intros Hnv Hk Hjb. unfold for_upto.
  apply for_range_untouched. intros j Hj.
  apply for_range_untouched. intros k' Hk'. cbv zeta.
  intros o. rewrite set_diag_untouched. apply set_rsd_untouched.
  apply species_index_ne; [exact Hnv|exact Hk|lia|lia].
Qed.

(** C3.  In a window that contains the left boundary, the species
    residuals at point 0 are the flux balance for every species but the
    left excess species, whose residual is one minus the sum of the mass
    fractions at that point; likewise at the right boundary with the right
    excess species. *)
Theorem species_boundary_residuals :
  forall (hdr : Header) (st : StFlow) (x : nat -> Q) (o : (nat -> Q) * (nat -> Z))
         (rdt : Q) (jmin jmax : nat),
    2 <= m_points st -> m_nv st = c_offset_Y + m_nsp st ->
    let o' := evalSpecies hdr st x o rdt jmin jmax in
    (jmin = 0 -> leftExcessSpecies st < m_nsp st ->
     forall k, k < m_nsp st ->
       fst o' (index st (c_offset_Y + k) 0)
       = if k =? leftExcessSpecies st
         then (1 - sum_Y st x 0)%Q
         else (- (flux st k 0 + rho_u st x 0 * Y st x k 0))%Q)
    /\ (jmax = m_points st - 1 -> rightExcessSpecies st < m_nsp st ->
        forall k, k < m_nsp st ->
          fst o' (index st (c_offset_Y + k) jmax)
          = if k =? rightExcessSpecies st
            then (1 - sum_Y st x jmax)%Q
            else (flux st k (jmax - 1) + rho_u st x jmax * Y st x k jmax)%Q).
Proof.
  intros hdr st x o rdt jmin jmax Hp Hnv o'. subst o'. unfold evalSpecies.
  set (oL := if jmin =? 0 then _ else o).
  set (oR := if jmax =? m_points st - 1 then _ else oL).
  split.
  - intros -> HkL k Hk.
    rewrite species_interior_untouched; [|exact Hnv|exact Hk|lia].
    assert (ER : fst oR (index st (c_offset_Y + k) 0) = fst oL (index st (c_offset_Y + k) 0)).
    { unfold oR. destruct (jmax =? m_points st - 1) eqn:E; [|reflexivity].
      apply Nat.eqb_eq in E. rewrite species_boundary_loop.
      rewrite set_diag_untouched.
      rewrite set_rsd_untouched
        by (apply species_index_point0; [exact Hnv|exact Hk|lia]).
      cbn [fst].
      destruct (store_loop (fun k => index st (k + c_offset_Y) jmax)
                  (fun k => (flux st k (jmax - 1) + rho_u st x jmax * Y st x k jmax)%Q)
                  0 (m_nsp st) (fst oL)) as [_ Hout].
      { intros a b _ _ E'. unfold index in E'. lia. }
      apply Hout. intros k' Hk'. rewrite (Nat.add_comm k').
      apply species_index_ne; [exact Hnv|exact Hk|lia|lia]. }
    rewrite ER. unfold oL. cbn [Nat.eqb]. rewrite species_boundary_loop.
    destruct (store_loop (fun k => index st (c_offset_Y + k) 0)
                (fun k => (- (flux st k 0 + rho_u st x 0 * Y st x k 0))%Q)
                0 (m_nsp st) (fst o)) as [Hin _].
    { intros a b _ _ E'. unfold index in E'. lia. }
    unfold set_rsd. cbn [fst].
    destruct (k =? leftExcessSpecies st) eqn:Ek.
    + apply Nat.eqb_eq in Ek. subst k. apply fn_lookup_insert.
    + apply Nat.eqb_neq in Ek. rewrite fn_lookup_insert_ne.
      * apply Hin. lia.
      * unfold index. lia.
  - intros Ejm HkR k Hk.
    rewrite species_interior_untouched; [|exact Hnv|exact Hk|lia].
    unfold oR. rewrite Ejm at 1. rewrite Nat.eqb_refl. rewrite species_boundary_loop.
    destruct (store_loop (fun k => index st (k + c_offset_Y) jmax)
                (fun k => (flux st k (jmax - 1) + rho_u st x jmax * Y st x k jmax)%Q)
                0 (m_nsp st) (fst oL)) as [Hin _].
    { intros a b _ _ E'. unfold index in E'. lia. }
    unfold set_diag, set_rsd. cbn [fst snd].
    destruct (k =? rightExcessSpecies st) eqn:Ek.
    + apply Nat.eqb_eq in Ek. subst k. apply fn_lookup_insert.
    + apply Nat.eqb_neq in Ek. rewrite fn_lookup_insert_ne.
      * rewrite (Nat.add_comm c_offset_Y k). apply Hin. lia.
      * unfold index. lia.
Qed.

Lemma species_boundary_residuals_witness :
  fst (evalSpecies sample_header sample_axi sample_x sample_outputs 0 0 2)
      (index sample_axi (c_offset_Y + 0) 0)
  = (1 - sum_Y sample_axi sample_x 0)%Q
  /\ fst (evalSpecies sample_header sample_axi sample_x sample_outputs 0 0 2)
         (index sample_axi (c_offset_Y + 1) 2)
     = (flux sample_axi 1 (2 - 1) + rho_u sample_axi sample_x 2 * Y sample_axi sample_x 1 2)%Q.
Proof.
  destruct (species_boundary_residuals sample_header sample_axi sample_x sample_outputs
              0 0 2) as [HL HR].
  - vm_compute. lia.
  - reflexivity.
  - split.
    + apply (HL eq_refl ltac:(vm_compute; lia) 0). vm_compute. lia.
    + apply (HR eq_refl ltac:(vm_compute; lia) 1). vm_compute. lia.
Defined.

(** ** Mixture-averaged diffusive fluxes *)

Lemma sumQ_0 (f : nat -> Q) : sumQ f 0 = 0%Q.
Proof. reflexivity. Qed.

Lemma sumQ_S (f : nat -> Q) (n : nat) : sumQ f (S n) = (sumQ f n + f n)%Q.
Proof. unfold sumQ. rewrite for_range_snoc by lia. reflexivity. Qed.

Lemma sumQ_ext (f g : nat -> Q) (n : nat) :
  (forall k, k < n -> (f k == g k)%Q) -> (sumQ f n == sumQ g n)%Q.
Proof.
  induction n as [|n IH]; intros H; [reflexivity|].
  rewrite !sumQ_S. rewrite IH by (intros k Hk; apply H; lia).
  rewrite (H n) by lia. reflexivity.
Qed.

Lemma sumQ_plus_scaled (f g : nat -> Q) (c : Q) (n : nat) :
  (sumQ (fun k => f k + c * g k) n == sumQ f n + c * sumQ g n)%Q.
Proof.
  induction n as [|n IH]; [rewrite !sumQ_0; ring|].
  rewrite !sumQ_S, IH. ring.
Qed.

Lemma sum_Y_sumQ (st : StFlow) (x : nat -> Q) (j : nat) :
  sum_Y st x j = sumQ (fun k => Y st x k j) (m_nsp st).
Proof. reflexivity. Qed.

(** Cells of an [Array2D]. *)
Lemma a2d_get_set_eq (a : Array2D) (i j : nat) (v : Q) :
  nRows a * j + i < length (a2d_data a) -> a2d_get (a2d_set a i j v) i j = v.
Proof.
  intros H. unfold a2d_get, a2d_set. cbn [a2d_data nRows].
  apply list_lookup_total_insert_eq. exact H.
Qed.

Lemma a2d_get_set_ne (a : Array2D) (i j i' j' : nat) (v : Q) :
  nRows a * j + i <> nRows a * j' + i' ->
  a2d_get (a2d_set a i j v) i' j' = a2d_get a i' j'.
Proof.
  intros H. unfold a2d_get, a2d_set. cbn [a2d_data nRows].
  apply list_lookup_total_insert_ne. exact H.
Qed.

Lemma cell_inj (n i j i' j' : nat) :
  i < n -> i' < n -> n * j + i = n * j' + i' -> i = i' /\ j = j'.
Proof.
  intros Hi Hi' H.
  destruct (Nat.lt_trichotomy j j') as [Hlt|[->|Hlt]].
  - pose proof (Nat.mul_le_mono_l (S j) j' n Hlt) as Hm.
    rewrite Nat.mul_succ_r in Hm. lia.
  - split; [lia|reflexivity].
  - pose proof (Nat.mul_le_mono_l (S j') j n Hlt) as Hm.
    rewrite Nat.mul_succ_r in Hm. lia.
Qed.

Lemma flux_step_refl (nsp j : nat) (fl : Array2D) : flux_step nsp j fl fl.
Proof. repeat split. Qed.

Lemma flux_step_set (nsp j k : nat) (v : Q) (fl fl' : Array2D) :
  nRows fl = nsp -> k < nsp ->
  flux_step nsp j fl fl' -> flux_step nsp j fl (a2d_set fl' k j v).
Proof.
  intros Hn Hk (Hr & Hl & Hf). split; [exact Hr|]. split.
  - unfold a2d_set. cbn [a2d_data]. rewrite length_insert. exact Hl.
  - intros k' j' Hj Hk'. rewrite a2d_get_set_ne; [apply Hf; assumption|].
    rewrite Hr, Hn. intros E. apply cell_inj in E; [lia|lia|lia].
Qed.

(** One interval of the mixture-averaged construction. *)
Lemma updateDiffFluxes_mixavg_spec (hdr : Header) (x : nat -> Q) (j : nat)
    (st : StFlow) (fl : Array2D) :
  nRows fl = m_nsp st -> m_nsp st * S j <= length (a2d_data fl) ->
  exists fl',
    updateDiffFluxes_mixavg hdr x j (set_m_flux fl st) = set_m_flux fl' st
    /\ flux_step (m_nsp st) j fl fl'
    /\ ((sum_Y st x j == 1)%Q -> (sumQ (fun k => a2d_get fl' k j) (m_nsp st) == 0)%Q).
Proof.
  intros Hn Hlen. unfold updateDiffFluxes_mixavg.
  change (m_nsp (set_m_flux fl st)) with (m_nsp st).
  set (dz := (z (set_m_flux fl st) (j + 1) - z (set_m_flux fl st) j)%Q). clearbody dz.
  set (loop1 := for_range 0 (m_nsp st) _ (0%Q, set_m_flux fl st)).
  assert (H1 : exists fl1,
             snd loop1 = set_m_flux fl1 st
             /\ flux_step (m_nsp st) j fl fl1
             /\ (fst loop1 == - sumQ (fun k => a2d_get fl1 k j) (m_nsp st))%Q).
  { unfold loop1.
    apply (for_range_ind
             (fun n (a : Q * StFlow) =>
                exists fl1,
                  snd a = set_m_flux fl1 st
                  /\ flux_step (m_nsp st) j fl fl1
                  /\ (fst a == - sumQ (fun k => a2d_get fl1 k j) n)%Q)).
    - lia.
    - exists fl. split; [reflexivity|]. split; [apply flux_step_refl|].
      rewrite sumQ_0. reflexivity.
    - intros n [s a] Hk (fl1 & Ha & Hst & Hs). cbn [fst snd] in Ha, Hs. subst a.
      unfold set_flux, flux. cbn [m_flux set_m_flux m_nsp m_diff fst snd].
      eexists. split; [reflexivity|]. split.
      + apply flux_step_set; [exact Hn|lia|]. apply flux_step_set; [exact Hn|lia|exact Hst].
      + destruct Hst as (Hr & Hl & _).
        rewrite sumQ_S.
        rewrite (sumQ_ext _ (fun k => a2d_get fl1 k j)).
        * rewrite Hs. ring.
        * intros k Hk'. rewrite !a2d_get_set_ne; [reflexivity| |];
            cbn [nRows a2d_set]; lia. }
  destruct loop1 as [sum st1]. cbn [fst snd] in H1.
  destruct H1 as (fl1 & -> & Hst1 & Hsum).
  change (m_nsp (set_m_flux fl1 st)) with (m_nsp st).
  assert (H2 : forall n, n <= m_nsp st ->
             exists fl2,
               for_range 0 n
                 (fun k st0 => set_flux k j (flux st0 k j + sum * Y st0 x k j)%Q st0)
                 (set_m_flux fl1 st) = set_m_flux fl2 st
               /\ flux_step (m_nsp st) j fl fl2
               /\ (forall k, k < n ->
                     a2d_get fl2 k j = (a2d_get fl1 k j + sum * Y st x k j)%Q)
               /\ (forall k, n <= k -> a2d_get fl2 k j = a2d_get fl1 k j)).
  { intros n Hle.
    apply (for_range_ind
             (fun n a =>
                exists fl2,
                  a = set_m_flux fl2 st
                  /\ flux_step (m_nsp st) j fl fl2
                  /\ (forall k, k < n ->
                        a2d_get fl2 k j = (a2d_get fl1 k j + sum * Y st x k j)%Q)
                  /\ (forall k, n <= k -> a2d_get fl2 k j = a2d_get fl1 k j))).
    - lia.
    - exists fl1. repeat split; try apply Hst1. intros k Hk. lia.
    - intros k a Hk (fl2 & -> & Hst2 & Hdone & Hrest).
      unfold set_flux, flux. cbn [m_flux set_m_flux].
      change (Y (set_m_flux fl2 st) x k j) with (Y st x k j).
      eexists. split; [reflexivity|]. split; [|split].
      + apply flux_step_set; [exact Hn|lia|exact Hst2].
      + intros k' Hk'. destruct Hst2 as (Hr & Hl & _).
        destruct (Nat.eq_dec k' k) as [->|Hne].
        * rewrite a2d_get_set_eq by (rewrite Hr, Hl, Hn; lia).
          rewrite Hrest by lia. reflexivity.
        * rewrite a2d_get_set_ne by lia. apply Hdone. lia.
      + intros k' Hk'. rewrite a2d_get_set_ne by lia. apply Hrest. lia. }
  destruct (H2 (m_nsp st) (Nat.le_refl _)) as (fl2 & E2 & Hst2 & Hdone & _).
  exists fl2. split; [exact E2|]. split; [exact Hst2|].
  intros HY.
  rewrite (sumQ_ext _ (fun k => a2d_get fl1 k j + sum * Y st x k j)%Q)
    by (intros k Hk; rewrite Hdone by exact Hk; reflexivity).
  rewrite sumQ_plus_scaled. rewrite <- sum_Y_sumQ, HY, Hsum. ring.
Qed.

Lemma updateDiffFluxes_mixavg_range (hdr : Header) (x : nat -> Q) (j0 j1 : nat)
    (st : StFlow) :
  nRows (m_flux st) = m_nsp st -> m_nsp st * j1 <= length (a2d_data (m_flux st)) ->
  exists fl,
    for_range j0 j1 (updateDiffFluxes_mixavg hdr x) st = set_m_flux fl st
    /\ forall j, j0 <= j < j1 -> (sum_Y st x j == 1)%Q ->
                 (sumQ (fun k => a2d_get fl k j) (m_nsp st) == 0)%Q.
Proof.
  intros Hn Hlen.
  destruct (Nat.le_gt_cases j0 j1) as [Hle|Hgt].
  2:{ rewrite for_range_empty by lia. exists (m_flux st).
      split; [destruct st; reflexivity|]. intros j Hj. lia. }
  assert (H : exists fl,
             for_range j0 j1 (updateDiffFluxes_mixavg hdr x) st = set_m_flux fl st
             /\ nRows fl = m_nsp st
             /\ length (a2d_data fl) = length (a2d_data (m_flux st))
             /\ forall j, j0 <= j < j1 -> (sum_Y st x j == 1)%Q ->
                          (sumQ (fun k => a2d_get fl k j) (m_nsp st) == 0)%Q).
  { apply (for_range_ind
             (fun m a =>
                exists fl,
                  a = set_m_flux fl st
                  /\ nRows fl = m_nsp st
                  /\ length (a2d_data fl) = length (a2d_data (m_flux st))
                  /\ forall j, j0 <= j < m -> (sum_Y st x j == 1)%Q ->
                               (sumQ (fun k => a2d_get fl k j) (m_nsp st) == 0)%Q)).
    - exact Hle.
    - exists (m_flux st). split; [destruct st; reflexivity|].
      split; [exact Hn|]. split; [reflexivity|]. intros j Hj. lia.
    - intros m a Hm (fl & -> & Hr & Hl & Hz).
      destruct (updateDiffFluxes_mixavg_spec hdr x m st fl Hr)
        as (fl' & E & (Hr' & Hl' & Hfr) & Hzero).
      { rewrite Hl. pose proof (Nat.mul_le_mono_l (S m) j1 (m_nsp st) ltac:(lia)). lia. }
      exists fl'. split; [exact E|]. split; [congruence|]. split; [congruence|].
      intros j Hj HY. destruct (Nat.eq_dec j m) as [->|Hne]; [apply Hzero, HY|].
      rewrite (sumQ_ext _ (fun k => a2d_get fl k j)).
      + apply Hz; [lia|exact HY].
      + intros k Hk. rewrite Hfr by assumption. reflexivity. }
  destruct H as (fl & E & _ & _ & Hz). exists fl. split; [exact E|exact Hz].
Qed.

(** C1, amended.  Under mixture-averaged transport with Soret disabled,
    after [updateDiffFluxes] the fluxes of an interval sum to zero over
    the species, in exact arithmetic, provided the mass fractions at the
    left point of the interval sum to one: the corrective term is the
    negated sum of the uncorrected fluxes weighted by those mass
    fractions. *)
Theorem mixavg_fluxes_sum_to_zero :
  forall (hdr : Header) (x : nat -> Q) (j0 j1 : nat) (st : StFlow) (j : nat),
    m_do_multicomponent st = false -> m_do_soret st = false ->
    nRows (m_flux st) = m_nsp st ->
    m_nsp st * j1 <= length (a2d_data (m_flux st)) ->
    j0 <= j < j1 ->
    (sum_Y st x j == 1)%Q ->
    (sum_flux (updateDiffFluxes hdr x j0 j1 st) j == 0)%Q.
Proof.
  intros hdr x j0 j1 st j Hm Hs Hn Hlen Hj HY.
  destruct (updateDiffFluxes_mixavg_range hdr x j0 j1 st Hn Hlen) as (fl & E & Hz).
  unfold updateDiffFluxes. rewrite Hm, E. cbv zeta.
  change (m_do_soret (set_m_flux fl st)) with (m_do_soret st). rewrite Hs.
  unfold sum_flux. apply Hz; assumption.
Qed.

Lemma mixavg_fluxes_sum_to_zero_witness :
  (sum_flux (updateDiffFluxes sample_header sample_x 0 2 sample_axi) 1 == 0)%Q.
Proof.
  apply mixavg_fluxes_sum_to_zero.
  - reflexivity.
  - reflexivity.
  - reflexivity.
  - vm_compute. lia.
  - lia.
  - vm_compute. reflexivity.
Defined.

(** At the first interval of the sample domain the mass fractions of the
    left point are 1/2 and 1/4: the corrected fluxes sum to 7/64. *)
Lemma mixavg_fluxes_need_normalised_Y :
  ~ (sum_flux (updateDiffFluxes sample_header sample_x 0 2 sample_axi) 0 == 0)%Q.
Proof.
  assert (E : (sum_flux (updateDiffFluxes sample_header sample_x 0 2 sample_axi) 0
               == 7 # 64)%Q) by (vm_compute; reflexivity).
  rewrite E. intros H. vm_compute in H. discriminate.
Qed.

(** ** Evaluation as a function of the state vector and the configuration *)

(** *** Store loops on lists and tables *)

Lemma list_store_loop {A : Type} `{!Inhabited A} (f : nat -> nat) (g : nat -> A)
    (lo hi : nat) (l : list A) :
  (forall k k', lo <= k < hi -> lo <= k' < hi -> f k = f k' -> k = k') ->
  let l' := for_range lo hi (fun k l => <[f k := g k]> l) l in
  length l' = length l
  /\ (forall k, lo <= k < hi -> f k < length l -> l' !!! f k = g k)
  /\ (forall i, (forall k, lo <= k < hi -> i <> f k) -> l' !!! i = l !!! i).
Proof.
  intros Hinj l'. subst l'.
  destruct (Nat.le_gt_cases lo hi) as [Hle|Hgt].
  2:{ rewrite for_range_empty by lia. split; [reflexivity|].
      split; [intros k Hk; lia|reflexivity]. }
  apply (for_range_ind
           (fun n a => length a = length l
                       /\ (forall k, lo <= k < n -> f k < length l -> a !!! f k = g k)
                       /\ (forall i, (forall k, lo <= k < n -> i <> f k) -> a !!! i = l !!! i))).
  - exact Hle.
  - split; [reflexivity|]. split; [intros k Hk; lia|reflexivity].
  - intros n a Hn (Hlen & Hw & Hfr). split; [rewrite length_insert; exact Hlen|]. split.
    + intros k Hk Hin. destruct (Nat.eq_dec k n) as [->|Hne].
      * apply list_lookup_total_insert_eq. lia.
      * rewrite list_lookup_total_insert_ne; [apply Hw; [lia|exact Hin]|].
        intros E. apply Hne. symmetry. apply Hinj; [lia|lia|exact E].
    + intros i Hi. rewrite list_lookup_total_insert_ne.
      * apply Hfr. intros k Hk. apply Hi. lia.
      * intros E. apply (Hi n); [lia|]. symmetry. exact E.
Qed.

(** Storing [g k] in row [k] of column [j], for the rows [lo .. hi-1]. *)
Lemma a2d_column_loop (g : nat -> Q) (j lo hi : nat) (a : Array2D) :
  let a' := for_range lo hi (fun k a => a2d_set a k j (g k)) a in
  nRows a' = nRows a
  /\ nColumns a' = nColumns a
  /\ length (a2d_data a') = length (a2d_data a)
  /\ (forall k, lo <= k < hi -> nRows a * j + k < length (a2d_data a) ->
                a2d_get a' k j = g k)
  /\ (forall k j', (j' = j -> k < lo \/ hi <= k) ->
                   nRows a * j + hi <= nRows a * S j ->
                   k < nRows a ->
                   a2d_get a' k j' = a2d_get a k j').
Proof.
  intros a'. subst a'.
  assert (E : for_range lo hi (fun k a => a2d_set a k j (g k)) a
              = mkArray2D (nRows a) (nColumns a)
                  (for_range lo hi (fun k l => <[nRows a * j + k := g k]> l) (a2d_data a))).
  { destruct (Nat.le_gt_cases lo hi) as [Hle|Hgt].
    - apply (for_range_rel (fun _ (x : Array2D) (l : list Q) =>
                              x = mkArray2D (nRows a) (nColumns a) l)).
      + exact Hle.
      + destruct a; reflexivity.
      + intros k x l Hk ->. reflexivity.
    - rewrite !for_range_empty by lia. destruct a; reflexivity. }
  rewrite E. cbn [nRows nColumns a2d_data].
  destruct (list_store_loop (fun k => nRows a * j + k) g lo hi (a2d_data a))
    as (Hlen & Hw & Hfr).
  { intros k k' _ _ Hk. lia. }
  cbv zeta in Hlen, Hw, Hfr.
  split; [reflexivity|]. split; [reflexivity|]. split; [exact Hlen|]. split.
  - intros k Hk Hin. unfold a2d_get. cbn [nRows a2d_data]. apply Hw; assumption.
  - intros k j' Hj Hhi Hk. unfold a2d_get. cbn [nRows a2d_data]. apply Hfr.
    intros k' Hk' E'.
    apply cell_inj in E'; [|exact Hk|lia].
    destruct E' as [-> ->]. destruct (Hj eq_refl); lia.
Qed.

(** *** Fields of the domain *)

(** A loop that assigns one member pulls back to a loop on that member. *)
Lemma for_range_pull {A : Type} (F : field A) (lo hi : nat)
    (step : nat -> StFlow -> A -> A) (s : StFlow) :
  (forall k v s, step k (fset F v s) = step k s) ->
  for_range lo hi (fun k st => fset F (step k st (fget F st)) st) s
  = fset F (for_range lo hi (fun k a => step k s a) (fget F s)) s.
Proof.
  intros Hstep. destruct (Nat.le_gt_cases lo hi) as [Hle|Hgt].
  - apply (for_range_rel (fun _ (a : StFlow) (l : A) => a = fset F l s)).
    + exact Hle.
    + symmetry. apply fset_fget.
    + intros k a l Hk ->. rewrite fget_fset, fset_fset, Hstep. reflexivity.
  - rewrite !for_range_empty by lia. symmetry. apply fset_fget.
Qed.

(** *** Persistent configuration *)

Lemma same_config_fields (s1 s2 : StFlow) :
  same_config s1 s2 ->
  m_nsp s1 = m_nsp s2 /\ m_nv s1 = m_nv s2 /\ m_points s1 = m_points s2
  /\ m_iloc s1 = m_iloc s2 /\ m_jstart s1 = m_jstart s2
  /\ tp_speciesNames (m_thermo s1) = tp_speciesNames (m_thermo s2)
  /\ m_wt s1 = m_wt s2 /\ m_press s1 = m_press s2 /\ m_z s1 = m_z s2 /\ m_dz s1 = m_dz s2
  /\ m_kRadiating s1 = m_kRadiating s2 /\ m_epsilon_left s1 = m_epsilon_left s2
  /\ m_epsilon_right s1 = m_epsilon_right s2 /\ m_do_radiation s1 = m_do_radiation s2
  /\ m_do_energy s1 = m_do_energy s2 /\ m_fixedtemp s1 = m_fixedtemp s2
  /\ m_do_multicomponent s1 = m_do_multicomponent s2 /\ m_do_soret s1 = m_do_soret s2
  /\ m_usesLambda s1 = m_usesLambda s2 /\ m_isFree s1 = m_isFree s2
  /\ m_dovisc s1 = m_dovisc s2 /\ m_force_full_update s1 = m_force_full_update s2
  /\ m_zfixed s1 = m_zfixed s2 /\ m_tfixed s1 = m_tfixed s2.
Proof.
  unfold same_config, configuration. intros H. injection H. intros. repeat split; assumption.
Qed.

Lemma gas_at_config (s1 s2 : StFlow) (x : nat -> Q) (j : nat) :
  same_config s1 s2 -> gas_at s1 x j = gas_at s2 x j.
Proof.
  intros H. apply same_config_fields in H.
  destruct H as (E1 & E2 & _ & _ & _ & E6 & _ & E8 & _).
  unfold gas_at, T, index. rewrite E1, E2, E6, E8. reflexivity.
Qed.

(** *** Per-point properties *)

Lemma hk_loop_pull (ext : Collaborators) (j : nat) (st : StFlow) :
  for_range 0 (m_nsp st)
    (fun k st => set_m_hk (a2d_set (m_hk st) k j
                   (thermo_partialMolarEnthalpy ext (m_thermo st) k)) st) st
  = set_m_hk
      (for_range 0 (m_nsp st)
         (fun k a => a2d_set a k j (thermo_partialMolarEnthalpy ext (m_thermo st) k))
         (m_hk st)) st.
Proof.
  exact (for_range_pull F_hk 0 (m_nsp st)
           (fun k st a => a2d_set a k j (thermo_partialMolarEnthalpy ext (m_thermo st) k))
           st (fun _ _ _ => eq_refl)).
Qed.

Lemma wdot_loop_pull (ext : Collaborators) (j : nat) (st : StFlow) :
  for_range 0 (m_nsp st)
    (fun k st => set_m_wdot (a2d_set (m_wdot st) k j
                   (kin_netProductionRate ext (m_thermo st) k)) st) st
  = set_m_wdot
      (for_range 0 (m_nsp st)
         (fun k a => a2d_set a k j (kin_netProductionRate ext (m_thermo st) k))
         (m_wdot st)) st.
Proof.
  exact (for_range_pull F_wdot 0 (m_nsp st)
           (fun k st a => a2d_set a k j (kin_netProductionRate ext (m_thermo st) k))
           st (fun _ _ _ => eq_refl)).
Qed.

Lemma updateThermo_point_nf (ext : Collaborators) (x : nat -> Q) (j : nat) (st : StFlow) :
  updateThermo_point ext x j st
  = set_m_wdot
      (for_range 0 (m_nsp st)
         (fun k a => a2d_set a k j (kin_netProductionRate ext (gas_at st x j) k))
         (m_wdot st))
      (set_m_hk
         (for_range 0 (m_nsp st)
            (fun k a => a2d_set a k j (thermo_partialMolarEnthalpy ext (gas_at st x j) k))
            (m_hk st))
         (set_m_cp (<[j := thermo_cp_mass ext (gas_at st x j)]> (m_cp st))
            (set_m_wtm (<[j := thermo_meanMolecularWeight ext (gas_at st x j)]> (m_wtm st))
               (set_m_rho (<[j := thermo_density ext (gas_at st x j)]> (m_rho st))
                  (set_m_thermo (gas_at st x j) st))))).
Proof.
  unfold updateThermo_point. cbv zeta.
  change (setGas x j st) with (set_m_thermo (gas_at st x j) st).
  generalize (gas_at st x j). intros G.
  rewrite hk_loop_pull, wdot_loop_pull.
  cbn [m_thermo m_rho m_wtm m_cp m_hk m_wdot m_nsp
       set_m_thermo set_m_rho set_m_wtm set_m_cp set_m_hk set_m_wdot].
  reflexivity.
Qed.

Lemma thermo_nf_refl (s : StFlow) : thermo_nf s s.
Proof.
  exists (tp_temperature (m_thermo s)), (tp_massFractions (m_thermo s)),
         (tp_pressure (m_thermo s)), (m_rho s), (m_wtm s), (m_cp s), (m_hk s), (m_wdot s).
  split; [|repeat split]. destruct s as [? ? ? ? ? th]. destruct th. reflexivity.
Qed.

Lemma updateThermo_spec (ext : Collaborators) (x : nat -> Q) (s : StFlow) (hi : nat) :
  thermo_sized s -> hi <= m_points s ->
  let a := for_range 0 hi (updateThermo_point ext x) s in
  thermo_nf s a /\ forall j, j < hi -> point_is ext s x j a.
Proof.
  intros (S1 & S2 & S3 & S4 & S5 & S6 & S7) Hhi. cbv zeta.
  apply (for_range_ind
           (fun n a => thermo_nf s a /\ forall j, j < n -> point_is ext s x j a)).
  - lia.
  - split; [apply thermo_nf_refl|]. intros j Hj. lia.
  - intros n a Hn [Hnf Hpts].
    destruct Hnf as (t & ys & p & R & M & C & H & W & -> & LR & LM & LC & RH & LH & RW & LW).
    rewrite updateThermo_point_nf.
    match goal with |- context [gas_at ?st x n] =>
      change (gas_at st x n) with (gas_at s x n) end.
    cbn [m_rho m_wtm m_cp m_hk m_wdot m_nsp
         set_m_wdot set_m_hk set_m_cp set_m_wtm set_m_rho set_m_thermo].
    set (G := gas_at s x n).
    destruct (a2d_column_loop (fun k => thermo_partialMolarEnthalpy ext G k) n 0 (m_nsp s) H)
      as (H1 & _ & H3 & H4 & H5).
    destruct (a2d_column_loop (fun k => kin_netProductionRate ext G k) n 0 (m_nsp s) W)
      as (W1 & _ & W3 & W4 & W5).
    cbv zeta in H1, H3, H4, H5, W1, W3, W4, W5.
    assert (Hin : m_nsp s * n + m_nsp s <= m_nsp s * m_points s).
    { pose proof (Nat.mul_le_mono_l (S n) (m_points s) (m_nsp s) ltac:(lia)). lia. }
    split.
    + unfold thermo_nf.
      exists (T s x n),
             (map (fun k => x (m_nv s * n + c_offset_Y + k)) (seq 0 (m_nsp s))),
             (m_press s),
             (<[n := thermo_density ext G]> R),
             (<[n := thermo_meanMolecularWeight ext G]> M),
             (<[n := thermo_cp_mass ext G]> C),
             (for_range 0 (m_nsp s)
                (fun k a => a2d_set a k n (thermo_partialMolarEnthalpy ext G k)) H),
             (for_range 0 (m_nsp s)
                (fun k a => a2d_set a k n (kin_netProductionRate ext G k)) W).
      split; [reflexivity|].
      rewrite !length_insert. repeat split; congruence.
    + intros j Hj. unfold point_is in *.
      cbn [m_rho m_wtm m_cp m_hk m_wdot m_nsp
           set_m_wdot set_m_hk set_m_cp set_m_wtm set_m_rho set_m_thermo].
      destruct (Nat.eq_dec j n) as [->|Hne].
      * rewrite !list_lookup_total_insert_eq by lia.
        split; [reflexivity|]. split; [reflexivity|]. split; [reflexivity|].
        intros k Hk. split.
        -- apply H4; [lia|]. rewrite RH, LH, S4. lia.
        -- apply W4; [lia|]. rewrite RW, LW, S6. lia.
      * specialize (Hpts j ltac:(lia)).
        cbn [m_rho m_wtm m_cp m_hk m_wdot m_nsp
             set_m_wdot set_m_hk set_m_cp set_m_wtm set_m_rho set_m_thermo] in Hpts.
        destruct Hpts as (P1 & P2 & P3 & P4).
        rewrite !list_lookup_total_insert_ne by lia.
        split; [exact P1|]. split; [exact P2|]. split; [exact P3|].
        intros k Hk. destruct (P4 k Hk) as [P5 P6]. split.
        -- rewrite H5; [exact P5|intros E; lia|rewrite RH, S4; lia|rewrite RH, S4; lia].
        -- rewrite W5; [exact P6|intros E; lia|rewrite RW, S6; lia|rewrite RW, S6; lia].
Qed.

(** A loop that rewrites the entry at offset [f k] from its current
    value. *)
Lemma list_modify_loop {A : Type} `{!Inhabited A} (f : nat -> nat) (h : nat -> A -> A)
    (lo hi : nat) (l : list A) :
  (forall k k', lo <= k < hi -> lo <= k' < hi -> f k = f k' -> k = k') ->
  let l' := for_range lo hi (fun k l => <[f k := h k (l !!! f k)]> l) l in
  length l' = length l
  /\ (forall k, lo <= k < hi -> f k < length l -> l' !!! f k = h k (l !!! f k))
  /\ (forall i, (forall k, lo <= k < hi -> i <> f k) -> l' !!! i = l !!! i).
Proof.
  intros Hinj l'. subst l'.
  destruct (Nat.le_gt_cases lo hi) as [Hle|Hgt].
  2:{ rewrite for_range_empty by lia. split; [reflexivity|].
      split; [intros k Hk; lia|reflexivity]. }
  apply (for_range_ind
           (fun n a => length a = length l
                       /\ (forall k, lo <= k < n -> f k < length l ->
                                     a !!! f k = h k (l !!! f k))
                       /\ (forall i, (forall k, lo <= k < n -> i <> f k) ->
                                     a !!! i = l !!! i))).
  - exact Hle.
  - split; [reflexivity|]. split; [intros k Hk; lia|reflexivity].
  - intros n a Hn (Hlen & Hw & Hfr). split; [rewrite length_insert; exact Hlen|]. split.
    + intros k Hk Hin. destruct (Nat.eq_dec k n) as [->|Hne].
      * rewrite list_lookup_total_insert_eq by lia. f_equal. apply Hfr.
        intros k' Hk' E. assert (n = k') by (apply Hinj; [lia|lia|exact E]). lia.
      * rewrite list_lookup_total_insert_ne; [apply Hw; [lia|exact Hin]|].
        intros E. apply Hne. symmetry. apply Hinj; [lia|lia|exact E].
    + intros i Hi. rewrite list_lookup_total_insert_ne.
      * apply Hfr. intros k Hk. apply Hi. lia.
      * intros E. apply (Hi n); [lia|]. symmetry. exact E.
Qed.

(** *** Per-interval transport coefficients *)

Lemma gas_mid_config (s1 s2 : StFlow) (x : nat -> Q) (j : nat) :
  same_config s1 s2 -> gas_mid s1 x j = gas_mid s2 x j.
Proof.
  intros H. apply same_config_fields in H.
  destruct H as (E1 & E2 & _ & _ & _ & E6 & _ & E8 & _).
  unfold gas_mid, T, index. rewrite E1, E2, E6, E8. reflexivity.
Qed.

Lemma setGasAtMidpoint_nf (x : nat -> Q) (j : nat) (st : StFlow) :
  m_nsp st <= length (m_ybar st) ->
  exists yb, setGasAtMidpoint x j st = set_m_thermo (gas_mid st x j) (set_m_ybar yb st)
             /\ length yb = length (m_ybar st).
Proof.
  intros Hlen. unfold setGasAtMidpoint. cbv zeta.
  pose (ymid := fun k => Qmult (1#2) (Qplus (x (m_nv st * j + c_offset_Y + k))
                                             (x (m_nv st * (j + 1) + c_offset_Y + k)))).
  pose proof (for_range_pull F_ybar 0 (m_nsp st)
                (fun k (st0 : StFlow) a => <[k := ymid k]> a)
                st (fun _ _ _ => eq_refl)) as E.
  unfold ymid in E.
  cbn [fget fset F_ybar] in E. rewrite E. clear E.
  destruct (list_store_loop (fun k => k) ymid 0 (m_nsp st) (m_ybar st)) as (Hl & Hw & _).
  { intros k k' _ _ Hk. exact Hk. }
  cbv zeta in Hl, Hw. unfold ymid in Hl, Hw.
  eexists. split; [|exact Hl].
  cbn [m_nsp m_ybar m_press m_thermo set_m_ybar].
  unfold gas_mid. cbv zeta. f_equal. f_equal.
  apply map_ext_in. intros k Hk. apply in_seq in Hk. apply Hw; lia.
Qed.

Lemma updateTransport_mixavg_nf (ext : Collaborators) (x : nat -> Q) (j : nat)
    (st : StFlow) :
  updateTransport_mixavg ext x j st
  = let st1 := setGasAtMidpoint x j st in
    set_m_tcon (<[j := trans_thermalConductivity ext (m_thermo st1)]> (m_tcon st1))
      (set_m_diff (mix_diff_stored ext j st1)
         (set_m_visc
            (<[j := if m_dovisc st1 then trans_viscosity ext (m_thermo st1) else 0%Q]>
               (m_visc st1)) st1)).
Proof.
  unfold updateTransport_mixavg, mix_diff_stored. cbv zeta.
  generalize (setGasAtMidpoint x j st). intros st1.
  set (st2 := set_m_visc _ st1).
  pose proof (for_range_pull F_diff 0 (m_nsp st2)
                (fun k st a => <[j * m_nsp st + k := trans_mixDiffCoeff ext (m_thermo st) k]> a)
                st2 (fun _ _ _ => eq_refl)) as E1.
  cbn [fget fset F_diff] in E1. rewrite E1. clear E1.
  set (L1 := for_range 0 (m_nsp st2) _ (m_diff st2)).
  set (st3 := set_m_diff L1 st2).
  pose proof (for_range_pull F_diff 0 (m_nsp st3)
                (fun k st a =>
                   <[k + j * m_nsp st
                     := Qmult (a !!! (k + j * m_nsp st))
                          (Qdiv (Qmult (m_wt st !!! k) (thermo_density ext (m_thermo st3)))
                                (thermo_meanMolecularWeight ext (m_thermo st3)))]> a)
                st3 (fun _ _ _ => eq_refl)) as E2.
  cbn [fget fset F_diff] in E2. rewrite E2. clear E2.
  reflexivity.
Qed.

Lemma transport_nf_refl (s : StFlow) : transport_nf s s.
Proof.
  exists (tp_temperature (m_thermo s)), (tp_massFractions (m_thermo s)),
         (tp_pressure (m_thermo s)), (m_ybar s), (m_visc s), (m_tcon s), (m_diff s),
         (m_multidiff s), (m_dthermal s).
  split; [|repeat split]. destruct s as [? ? ? ? ? th]. destruct th. reflexivity.
Qed.

Lemma transport_nf_gas (s a : StFlow) (G : ThermoPhase) :
  tp_speciesNames G = tp_speciesNames (m_thermo s) ->
  transport_nf s a -> transport_nf s (set_m_thermo G a).
Proof.
  intros HG (t & ys & p & yb & V & TC & D & MD & DT & -> & L).
  exists (tp_temperature G), (tp_massFractions G), (tp_pressure G), yb, V, TC, D, MD, DT.
  split; [|exact L]. rewrite <- HG. destruct G. reflexivity.
Qed.

Lemma transport_nf_ybar (s a : StFlow) (v : list Q) :
  length v = length (m_ybar a) -> transport_nf s a -> transport_nf s (set_m_ybar v a).
Proof.
  intros Hv (t & ys & p & yb & V & TC & D & MD & DT & -> & L1 & L).
  exists t, ys, p, v, V, TC, D, MD, DT. split; [vm_compute; reflexivity|].
  split; [|exact L]. rewrite Hv. exact L1.
Qed.

Lemma transport_nf_visc (s a : StFlow) (v : list Q) :
  length v = length (m_visc a) -> transport_nf s a -> transport_nf s (set_m_visc v a).
Proof.
  intros Hv (t & ys & p & yb & V & TC & D & MD & DT & -> & L1 & L2 & L).
  exists t, ys, p, yb, v, TC, D, MD, DT. split; [vm_compute; reflexivity|].
  split; [exact L1|]. split; [|exact L]. rewrite Hv. exact L2.
Qed.

Lemma transport_nf_tcon (s a : StFlow) (v : list Q) :
  length v = length (m_tcon a) -> transport_nf s a -> transport_nf s (set_m_tcon v a).
Proof.
  intros Hv (t & ys & p & yb & V & TC & D & MD & DT & -> & L1 & L2 & L3 & L).
  exists t, ys, p, yb, V, v, D, MD, DT. split; [vm_compute; reflexivity|].
  split; [exact L1|]. split; [exact L2|]. split; [|exact L]. rewrite Hv. exact L3.
Qed.

Lemma transport_nf_diff (s a : StFlow) (v : list Q) :
  length v = length (m_diff a) -> transport_nf s a -> transport_nf s (set_m_diff v a).
Proof.
  intros Hv (t & ys & p & yb & V & TC & D & MD & DT & -> & L1 & L2 & L3 & L4 & L).
  exists t, ys, p, yb, V, TC, v, MD, DT. split; [vm_compute; reflexivity|].
  split; [exact L1|]. split; [exact L2|]. split; [exact L3|]. split; [|exact L].
  rewrite Hv. exact L4.
Qed.

Lemma transport_nf_multidiff (s a : StFlow) (v : list Q) :
  length v = length (m_multidiff a) -> transport_nf s a ->
  transport_nf s (set_m_multidiff v a).
Proof.
  intros Hv (t & ys & p & yb & V & TC & D & MD & DT & -> & L1 & L2 & L3 & L4 & L5 & L).
  exists t, ys, p, yb, V, TC, D, v, DT. split; [vm_compute; reflexivity|].
  split; [exact L1|]. split; [exact L2|]. split; [exact L3|]. split; [exact L4|].
  split; [|exact L]. rewrite Hv. exact L5.
Qed.

Lemma transport_nf_dthermal (s a : StFlow) (v : Array2D) :
  nRows v = nRows (m_dthermal a) ->
  length (a2d_data v) = length (a2d_data (m_dthermal a)) ->
  transport_nf s a -> transport_nf s (set_m_dthermal v a).
Proof.
  intros Hr Hv (t & ys & p & yb & V & TC & D & MD & DT & -> & L1 & L2 & L3 & L4 & L5 & L6 & L7).
  exists t, ys, p, yb, V, TC, D, MD, v. split; [vm_compute; reflexivity|].
  repeat split; try assumption.
  - rewrite Hr. exact L6.
  - rewrite Hv. exact L7.
Qed.

(** What a state in this form shares with [s]. *)
Lemma transport_nf_shared (s a : StFlow) :
  transport_nf s a ->
  same_config s a
  /\ length (m_ybar a) = length (m_ybar s)
  /\ length (m_visc a) = length (m_visc s)
  /\ length (m_tcon a) = length (m_tcon s)
  /\ length (m_diff a) = length (m_diff s)
  /\ length (m_multidiff a) = length (m_multidiff s)
  /\ nRows (m_dthermal a) = nRows (m_dthermal s)
  /\ length (a2d_data (m_dthermal a)) = length (a2d_data (m_dthermal s)).
Proof.
  intros (t & ys & p & yb & V & TC & D & MD & DT & -> & L).
  split; [reflexivity|exact L].
Qed.

Lemma block_bound (n j p k : nat) : j < p -> k < n -> j * n + k < n * p.
Proof.
  intros Hj Hk. pose proof (Nat.mul_le_mono_r (S j) p n Hj). lia.
Qed.

Lemma block_ne (n j j' k k' : nat) :
  j <> j' -> k < n -> k' < n -> k + j * n <> k' + j' * n.
Proof.
  intros Hj Hk Hk' E.
  destruct (Nat.lt_trichotomy j j') as [Hlt|[->|Hlt]]; [|lia|].
  - pose proof (Nat.mul_le_mono_r (S j) j' n Hlt). lia.
  - pose proof (Nat.mul_le_mono_r (S j') j n Hlt). lia.
Qed.

Lemma updateTransport_mixavg_spec (ext : Collaborators) (x : nat -> Q) (s : StFlow)
    (hi : nat) :
  transport_sized s -> m_do_multicomponent s = false -> hi <= m_points s - 1 ->
  let a := for_range 0 hi (updateTransport_mixavg ext x) s in
  transport_nf s a /\ forall j, j < hi -> interval_is ext s x j a.
Proof.
  intros (S1 & S2 & S3 & S4 & _) Hmix Hhi. cbv zeta.
  apply (for_range_ind
           (fun n a => transport_nf s a /\ forall j, j < n -> interval_is ext s x j a)).
  - lia.
  - split; [apply transport_nf_refl|]. intros j Hj. lia.
  - intros n a Hn [Hnf Hprev].
    destruct (transport_nf_shared s a Hnf) as (Hcfg & Lyb & LV & LTC & LD & _).
    pose proof (same_config_fields s a Hcfg) as HF.
    destruct HF as (En & _ & _ & _ & _ & Enames & Ewt & _ & _ & _ & _ & _ & _ & _ & _ & _
                    & _ & _ & _ & _ & Edv & _).
    destruct (setGasAtMidpoint_nf x n a) as (yb' & E & Lyb'); [lia|].
    rewrite updateTransport_mixavg_nf. cbv zeta. rewrite E. clear E.
    rewrite <- (gas_mid_config s a x n Hcfg).
    set (G := gas_mid s x n).
    unfold mix_diff_stored.
    cbn [m_thermo m_tcon m_visc m_dovisc m_diff m_nsp m_wt set_m_thermo set_m_ybar].
    rewrite <- En, <- Ewt, <- Edv.
    set (L1 := for_range 0 (m_nsp s)
                 (fun k l => <[n * m_nsp s + k := trans_mixDiffCoeff ext G k]> l) (m_diff a)).
    pose (c := fun k => (m_wt s !!! k * thermo_density ext G
                         / thermo_meanMolecularWeight ext G)%Q).
    set (L2 := for_range 0 (m_nsp s) _ L1).
    destruct (list_store_loop (fun k => n * m_nsp s + k)
                (fun k => trans_mixDiffCoeff ext G k) 0 (m_nsp s) (m_diff a))
      as (A1 & A2 & A3).
    { intros k k' _ _ Hk. lia. }
    fold L1 in A1, A2, A3. cbv zeta in A1, A2, A3.
    destruct (list_modify_loop (fun k => k + n * m_nsp s)
                (fun k v => (v * c k)%Q) 0 (m_nsp s) L1) as (B1 & B2 & B3).
    { intros k k' _ _ Hk. lia. }
    unfold c in B1, B2, B3. cbv beta zeta in B1, B2, B3. fold L2 in B1, B2, B3.
    split.
    + apply transport_nf_tcon; [apply length_insert|].
      apply transport_nf_diff;
        [cbn [m_diff set_m_visc set_m_thermo set_m_ybar]; rewrite B1, A1; reflexivity|].
      apply transport_nf_visc; [apply length_insert|].
      apply transport_nf_gas; [reflexivity|].
      apply transport_nf_ybar; [exact Lyb'|exact Hnf].
    + intros j Hj. unfold interval_is.
      cbn [m_visc m_tcon m_diff m_multidiff m_dthermal
           set_m_tcon set_m_diff set_m_visc set_m_thermo set_m_ybar].
      rewrite Hmix.
      destruct (Nat.eq_dec j n) as [->|Hne].
      * rewrite !list_lookup_total_insert_eq by lia.
        split; [reflexivity|]. split; [reflexivity|]. split; [|split; discriminate].
        intros k Hk. rewrite B2; [|lia|].
        -- rewrite (Nat.add_comm k). rewrite A2; [reflexivity|lia|].
           rewrite LD. pose proof (block_bound (m_nsp s) n (m_points s - 1) k). lia.
        -- rewrite A1, LD. pose proof (block_bound (m_nsp s) n (m_points s - 1) k). lia.
      * destruct (Hprev j ltac:(lia)) as (P1 & P2 & P3 & _). rewrite Hmix in P3.
        rewrite !list_lookup_total_insert_ne by lia.
        split; [exact P1|]. split; [exact P2|]. split; [|split; discriminate].
        intros k Hk. rewrite B3.
        -- rewrite A3; [apply P3; exact Hk|].
           intros k' Hk' E. rewrite (Nat.add_comm (n * m_nsp s)) in E.
           revert E. apply block_ne; [exact Hne|exact Hk|lia].
        -- intros k' Hk'. apply block_ne; [exact Hne|exact Hk|lia].
Qed.

(** A double loop that stores [g m k] at offset [f m k]. *)
Lemma list_store_loop2 {A : Type} `{!Inhabited A} (f : nat -> nat -> nat)
    (g : nat -> nat -> A) (mh kh : nat) (l : list A) :
  (forall m k m' k', m < mh -> k < kh -> m' < mh -> k' < kh ->
                     f m k = f m' k' -> m = m' /\ k = k') ->
  let l' := for_range 0 mh
              (fun m a => for_range 0 kh (fun k l => <[f m k := g m k]> l) a) l in
  length l' = length l
  /\ (forall m k, m < mh -> k < kh -> f m k < length l -> l' !!! f m k = g m k)
  /\ (forall i, (forall m k, m < mh -> k < kh -> i <> f m k) -> l' !!! i = l !!! i).
Proof.
  intros Hinj l'. subst l'.
  apply (for_range_ind
           (fun n a => length a = length l
                       /\ (forall m k, m < n -> k < kh -> f m k < length l ->
                                       a !!! f m k = g m k)
                       /\ (forall i, (forall m k, m < n -> k < kh -> i <> f m k) ->
                                     a !!! i = l !!! i))).
  - lia.
  - split; [reflexivity|]. split; [intros m k Hm; lia|reflexivity].
  - intros n a Hn (Hlen & Hw & Hfr).
    destruct (list_store_loop (f n) (g n) 0 kh a) as (A1 & A2 & A3).
    { intros k k' Hk Hk' E. apply (Hinj n k n k'); [lia|lia|lia|lia|exact E]. }
    cbv zeta in A1, A2, A3.
    split; [rewrite A1; exact Hlen|]. split.
    + intros m k Hm Hk Hin. destruct (Nat.eq_dec m n) as [->|Hne].
      * apply A2; [lia|rewrite Hlen; exact Hin].
      * rewrite A3; [apply Hw; [lia|exact Hk|exact Hin]|].
        intros k' Hk' E. apply Hinj in E; [lia|lia|lia|lia|lia].
    + intros i Hi. rewrite A3; [apply Hfr; intros m k Hm Hk; apply Hi; [lia|exact Hk]|].
      intros k Hk. apply Hi; [lia|lia].
Qed.

Lemma multidiff_loop_pull (ext : Collaborators) (j : nat) (st : StFlow) :
  for_range 0 (m_nsp st)
    (fun m st =>
       for_range 0 (m_nsp st)
         (fun k st =>
            set_m_multidiff
              (<[mindex st 0 0 j + (m_nsp st * m + k)
                 := trans_multiDiffCoeff ext (m_thermo st) k m]>
                 (m_multidiff st)) st) st) st
  = set_m_multidiff (multidiff_stored ext j st) st.
Proof.
  unfold multidiff_stored.
  etransitivity.
  - apply for_range_ext. intros m a _.
    exact (for_range_pull F_multidiff 0 (m_nsp a)
             (fun k st l => <[mindex st 0 0 j + (m_nsp st * m + k)
                              := trans_multiDiffCoeff ext (m_thermo st) k m]> l)
             a (fun _ _ _ => eq_refl)).
  - exact (for_range_pull F_multidiff 0 (m_nsp st)
             (fun m st a =>
                for_range 0 (m_nsp st)
                  (fun k l => <[mindex st 0 0 j + (m_nsp st * m + k)
                                := trans_multiDiffCoeff ext (m_thermo st) k m]> l) a)
             st (fun _ _ _ => eq_refl)).
Qed.

Lemma dthermal_loop_pull (ext : Collaborators) (j : nat) (st : StFlow) :
  for_range 0 (m_nsp st)
    (fun k st =>
       set_m_dthermal
         (mkArray2D (nRows (m_dthermal st)) (nColumns (m_dthermal st))
            (<[j * m_nsp st + k := trans_thermalDiffCoeff ext (m_thermo st) k]>
               (a2d_data (m_dthermal st)))) st) st
  = set_m_dthermal (dthermal_stored ext j st) st.
Proof.
  unfold dthermal_stored.
  etransitivity.
  - exact (for_range_pull F_dthermal 0 (m_nsp st)
             (fun k st a =>
                mkArray2D (nRows a) (nColumns a)
                  (<[j * m_nsp st + k := trans_thermalDiffCoeff ext (m_thermo st) k]>
                     (a2d_data a)))
             st (fun _ _ _ => eq_refl)).
  - cbn [fget fset F_dthermal]. f_equal.
    apply (for_range_rel
             (fun _ (a : Array2D) (l : list Q) =>
                a = mkArray2D (nRows (m_dthermal st)) (nColumns (m_dthermal st)) l)).
    + lia.
    + destruct (m_dthermal st); reflexivity.
    + intros k a l Hk ->. reflexivity.
Qed.

Lemma updateTransport_multi_nf (ext : Collaborators) (x : nat -> Q) (j : nat)
    (st : StFlow) :
  updateTransport_multi ext x j st
  = let st1 := setGasAtMidpoint x j st in
    let st5 :=
      set_m_tcon (<[j := trans_thermalConductivity ext (m_thermo st1)]> (m_tcon st1))
        (set_m_diff
           (for_range 0 (m_nsp st1)
              (fun k l => <[k + j * m_nsp st1
                            := (m_wt st1 !!! k * thermo_density ext (m_thermo st1)
                                / (thermo_meanMolecularWeight ext (m_thermo st1)
                                   * thermo_meanMolecularWeight ext (m_thermo st1)))%Q]> l)
              (m_diff st1))
           (set_m_multidiff (multidiff_stored ext j st1)
              (set_m_visc
                 (<[j := if m_dovisc st1 then trans_viscosity ext (m_thermo st1) else 0%Q]>
                    (m_visc st1)) st1))) in
    if m_do_soret st1 then set_m_dthermal (dthermal_stored ext j st1) st5 else st5.
Proof.
  unfold updateTransport_multi. cbv zeta.
  generalize (setGasAtMidpoint x j st). intros st1.
  set (st2 := set_m_visc _ st1).
  rewrite (multidiff_loop_pull ext j st2).
  set (st3 := set_m_multidiff (multidiff_stored ext j st2) st2).
  pose proof (for_range_pull F_diff 0 (m_nsp st3)
                (fun k st a =>
                   <[k + j * m_nsp st
                     := Qdiv (Qmult (m_wt st !!! k) (thermo_density ext (m_thermo st1)))
                             (Qmult (thermo_meanMolecularWeight ext (m_thermo st1))
                                    (thermo_meanMolecularWeight ext (m_thermo st1)))]> a)
                st3 (fun _ _ _ => eq_refl)) as E.
  cbn [fget fset F_diff] in E. rewrite E. clear E.
  set (st4 := set_m_diff _ st3).
  set (st5 := set_m_tcon _ st4).
  change (m_do_soret st5) with (m_do_soret st1).
  destruct (m_do_soret st1); [|reflexivity].
  rewrite (dthermal_loop_pull ext j st5). reflexivity.
Qed.

Lemma updateTransport_multi_spec (ext : Collaborators) (x : nat -> Q) (s : StFlow)
    (hi : nat) :
  transport_sized s -> m_do_multicomponent s = true -> hi <= m_points s - 1 ->
  let a := for_range 0 hi (updateTransport_multi ext x) s in
  transport_nf s a /\ forall j, j < hi -> interval_is ext s x j a.
Proof.
  intros (S1 & S2 & S3 & S4 & S5 & S6) Hmul Hhi. cbv zeta.
  specialize (S5 Hmul).
  apply (for_range_ind
           (fun n a => transport_nf s a /\ forall j, j < n -> interval_is ext s x j a)).
  - lia.
  - split; [apply transport_nf_refl|]. intros j Hj. lia.
  - intros n a Hn [Hnf Hprev].
    destruct (transport_nf_shared s a Hnf) as (Hcfg & Lyb & LV & LTC & LD & LMD & RDT & LDT).
    pose proof (same_config_fields s a Hcfg) as HF.
    destruct HF as (En & _ & _ & _ & _ & Enames & Ewt & _ & _ & _ & _ & _ & _ & _ & _ & _
                    & _ & Eso & _ & _ & Edv & _).
    destruct (setGasAtMidpoint_nf x n a) as (yb' & E & Lyb'); [lia|].
    rewrite updateTransport_multi_nf. cbv zeta. rewrite E. clear E.
    rewrite <- (gas_mid_config s a x n Hcfg).
    set (G := gas_mid s x n).
    unfold multidiff_stored, dthermal_stored, mindex.
    cbn [m_thermo m_tcon m_visc m_dovisc m_diff m_multidiff m_dthermal m_nsp m_wt m_do_soret
         set_m_thermo set_m_ybar].
    rewrite <- En, <- Ewt, <- Edv, <- Eso.
    set (N := m_nsp s) in *.
    set (D' := for_range 0 N _ (m_diff a)).
    set (MD' := for_range 0 N _ (m_multidiff a)).
    set (TD' := for_range 0 N _ (a2d_data (m_dthermal a))).
    destruct (list_store_loop (fun k => k + n * N)
                (fun k => (m_wt s !!! k * thermo_density ext G
                           / (thermo_meanMolecularWeight ext G
                              * thermo_meanMolecularWeight ext G))%Q)
                0 N (m_diff a)) as (A1 & A2 & A3).
    { intros k k' _ _ Hk. lia. }
    fold D' in A1, A2, A3. cbv zeta in A1, A2, A3.
    destruct (list_store_loop2 (fun m k => n * N * N + N * 0 + 0 + (N * m + k))
                (fun m k => trans_multiDiffCoeff ext G k m) N N (m_multidiff a))
      as (B1 & B2 & B3).
    { intros m k m' k' Hm Hk Hm' Hk' E.
      assert (E' : N * m + k = N * m' + k') by lia.
      apply cell_inj in E'; [lia|lia|lia]. }
    fold MD' in B1, B2, B3. cbv zeta in B1, B2, B3.
    destruct (list_store_loop (fun k => n * N + k)
                (fun k => trans_thermalDiffCoeff ext G k) 0 N (a2d_data (m_dthermal a)))
      as (C1 & C2 & C3).
    { intros k k' _ _ Hk. lia. }
    fold TD' in C1, C2, C3. cbv zeta in C1, C2, C3.
    assert (Hblk : forall m k, m < N -> k < N -> N * m + k < N * N).
    { intros m k Hm Hk. pose proof (block_bound N m N k Hm Hk). lia. }
    assert (Hint : forall c, c < N * N -> n * N * N + c < N * N * (m_points s - 1)).
    { intros c Hc. pose proof (block_bound (N * N) n (m_points s - 1) c ltac:(lia) Hc). lia. }
    split.
    + destruct (m_do_soret s).
      * apply transport_nf_dthermal; [reflexivity| |].
        { cbn [a2d_data m_dthermal set_m_tcon set_m_diff set_m_multidiff set_m_visc
               set_m_thermo set_m_ybar]. exact C1. }
        apply transport_nf_tcon; [apply length_insert|].
        apply transport_nf_diff; [exact A1|].
        apply transport_nf_multidiff; [exact B1|].
        apply transport_nf_visc; [apply length_insert|].
        apply transport_nf_gas; [reflexivity|].
        apply transport_nf_ybar; [exact Lyb'|exact Hnf].
      * apply transport_nf_tcon; [apply length_insert|].
        apply transport_nf_diff; [exact A1|].
        apply transport_nf_multidiff; [exact B1|].
        apply transport_nf_visc; [apply length_insert|].
        apply transport_nf_gas; [reflexivity|].
        apply transport_nf_ybar; [exact Lyb'|exact Hnf].
    + intros j Hj. unfold interval_is, mindex. fold N. rewrite Hmul.
      destruct (Nat.eq_dec j n) as [->|Hne].
      * assert (Hcommon :
          <[n := if m_dovisc s then trans_viscosity ext G else 0%Q]> (m_visc a) !!! n
          = (if m_dovisc s then trans_viscosity ext G else 0%Q)
          /\ <[n := trans_thermalConductivity ext G]> (m_tcon a) !!! n
             = trans_thermalConductivity ext G
          /\ (forall k, k < N ->
                D' !!! (k + n * N)
                = (m_wt s !!! k * thermo_density ext G
                   / (thermo_meanMolecularWeight ext G
                      * thermo_meanMolecularWeight ext G))%Q)
          /\ (true = true -> forall k m, k < N -> m < N ->
                MD' !!! (n * N * N + N * m + k) = trans_multiDiffCoeff ext G k m)).
        { rewrite !list_lookup_total_insert_eq by lia.
          split; [reflexivity|]. split; [reflexivity|]. split.
          - intros k Hk. apply A2; [lia|].
            rewrite LD. pose proof (block_bound N n (m_points s - 1) k). lia.
          - intros _ k m Hk Hm.
            replace (n * N * N + N * m + k) with (n * N * N + N * 0 + 0 + (N * m + k)) by lia.
            apply B2; [exact Hm|exact Hk|].
            rewrite LMD. specialize (Hint (N * m + k) (Hblk m k Hm Hk)). lia. }
        destruct Hcommon as (Q1 & Q2 & Q3 & Q4).
        destruct (m_do_soret s) eqn:Es;
          cbn [m_visc m_tcon m_diff m_multidiff m_dthermal
               set_m_dthermal set_m_tcon set_m_diff set_m_multidiff set_m_visc
               set_m_thermo set_m_ybar].
        -- split; [exact Q1|]. split; [exact Q2|]. split; [exact Q3|]. split; [exact Q4|].
           intros _ _ k Hk.
           assert (HS6 := S6); destruct HS6 as [R6 L6]; [first [reflexivity|exact Es]|].
           unfold a2d_get. cbn [nRows a2d_data].
           rewrite RDT, R6. fold N. rewrite (Nat.mul_comm N n).
           apply C2; [lia|]. rewrite LDT.
           pose proof (block_bound N n (m_points s - 1) k). fold N in L6. lia.
        -- split; [exact Q1|]. split; [exact Q2|]. split; [exact Q3|]. split; [exact Q4|].
           intros _ Hf. discriminate.
      * destruct (Hprev j ltac:(lia)) as (P1 & P2 & P3 & P4 & P5).
        rewrite Hmul in P3. unfold mindex in P4. fold N in P3, P4, P5.
        assert (Hcommon :
          <[n := if m_dovisc s then trans_viscosity ext G else 0%Q]> (m_visc a) !!! j
          = (if m_dovisc s then trans_viscosity ext (gas_mid s x j) else 0%Q)
          /\ <[n := trans_thermalConductivity ext G]> (m_tcon a) !!! j
             = trans_thermalConductivity ext (gas_mid s x j)
          /\ (forall k, k < N ->
                D' !!! (k + j * N)
                = (m_wt s !!! k * thermo_density ext (gas_mid s x j)
                   / (thermo_meanMolecularWeight ext (gas_mid s x j)
                      * thermo_meanMolecularWeight ext (gas_mid s x j)))%Q)
          /\ (true = true -> forall k m, k < N -> m < N ->
                MD' !!! (j * N * N + N * m + k)
                = trans_multiDiffCoeff ext (gas_mid s x j) k m)).
        { rewrite !list_lookup_total_insert_ne by lia.
          split; [exact P1|]. split; [exact P2|]. split.
          - intros k Hk. rewrite A3; [apply P3; exact Hk|].
            intros k' Hk'. apply block_ne; [exact Hne|exact Hk|lia].
          - intros _ k m Hk Hm. rewrite B3; [apply P4; [exact Hmul|exact Hk|exact Hm]|].
            intros m' k' Hm' Hk' E.
            pose proof (block_ne (N * N) j n (N * m + k) (N * m' + k') Hne
                          (Hblk m k Hm Hk) (Hblk m' k' Hm' Hk')) as Hb.
            apply Hb. lia. }
        destruct Hcommon as (Q1 & Q2 & Q3 & Q4).
        destruct (m_do_soret s) eqn:Es;
          cbn [m_visc m_tcon m_diff m_multidiff m_dthermal
               set_m_dthermal set_m_tcon set_m_diff set_m_multidiff set_m_visc
               set_m_thermo set_m_ybar].
        -- split; [exact Q1|]. split; [exact Q2|]. split; [exact Q3|]. split; [exact Q4|].
           intros _ _ k Hk.
           assert (HS6 := S6); destruct HS6 as [R6 L6]; [first [reflexivity|exact Es]|].
           assert (P5' := P5 Hmul); specialize (P5' ltac:(first [reflexivity|exact Es]) k Hk).
           unfold a2d_get in P5' |- *.
           cbn [nRows a2d_data].
           rewrite C3; [exact P5'|].
           intros k' Hk' E. rewrite RDT, R6 in E. fold N in E.
           pose proof (block_ne N j n k k' Hne Hk ltac:(lia)) as Hb. apply Hb. lia.
        -- split; [exact Q1|]. split; [exact Q2|]. split; [exact Q3|]. split; [exact Q4|].
           intros _ Hf. discriminate.
Qed.

(** *** Diffusive fluxes of two domains in step *)

Lemma flux_rel_refl (b1 b2 : StFlow) : flux_rel b1 b2 (fun _ _ => False) b1 b2.
Proof.
  exists (m_flux b1), (m_flux b2).
  split; [destruct b1; reflexivity|]. split; [destruct b2; reflexivity|].
  repeat split. intros k j [].
Qed.

Lemma flux_rel_weaken (b1 b2 : StFlow) (E E' : nat -> nat -> Prop) (a1 a2 : StFlow) :
  (forall k j, E' k j -> E k j) -> flux_rel b1 b2 E a1 a2 -> flux_rel b1 b2 E' a1 a2.
Proof.
  intros HE (fl1 & fl2 & H1 & H2 & H3 & H4 & H5 & H6 & H7).
  exists fl1, fl2. repeat split; try assumption. intros k j Hkj. apply H7, HE, Hkj.
Qed.

Lemma flux_rel_get (b1 b2 : StFlow) (E : nat -> nat -> Prop) (a1 a2 : StFlow) (k j : nat) :
  flux_rel b1 b2 E a1 a2 -> E k j -> flux a1 k j = flux a2 k j.
Proof.
  intros (fl1 & fl2 & -> & -> & _ & _ & _ & _ & H) Hkj. apply H, Hkj.
Qed.

Lemma flux_rel_set (b1 b2 : StFlow) (E : nat -> nat -> Prop) (a1 a2 : StFlow)
    (k j : nat) (v : Q) :
  flux_sized b1 -> flux_sized b2 -> m_nsp b1 = m_nsp b2 -> m_points b1 = m_points b2 ->
  k < m_nsp b1 -> j < m_points b1 - 1 ->
  (forall k' j', E k' j' -> k' < m_nsp b1) ->
  flux_rel b1 b2 E a1 a2 ->
  flux_rel b1 b2 (fun k' j' => E k' j' \/ (k' = k /\ j' = j))
           (set_flux k j v a1) (set_flux k j v a2).
Proof.
  intros [R1 L1] [R2 L2] En Ep Hk Hj HE (fl1 & fl2 & -> & -> & H3 & H4 & H5 & H6 & H7).
  exists (a2d_set fl1 k j v), (a2d_set fl2 k j v).
  split; [reflexivity|]. split; [reflexivity|].
  split; [exact H3|]. split; [exact H4|].
  split; [unfold a2d_set; cbn [a2d_data]; rewrite length_insert; exact H5|].
  split; [unfold a2d_set; cbn [a2d_data]; rewrite length_insert; exact H6|].
  assert (B1 : m_nsp b1 * j + k < length (a2d_data (m_flux b1))).
  { pose proof (block_bound (m_nsp b1) j (m_points b1 - 1) k Hj Hk). lia. }
  assert (B2 : m_nsp b2 * j + k < length (a2d_data (m_flux b2))).
  { rewrite <- En. pose proof (block_bound (m_nsp b1) j (m_points b1 - 1) k Hj Hk).
    rewrite <- Ep in L2. rewrite <- En in L2. lia. }
  intros k' j' [Hkj|[-> ->]].
  - destruct (Nat.eq_dec (m_nsp b1 * j + k) (m_nsp b1 * j' + k')) as [Ec|Ec].
    + apply cell_inj in Ec; [|exact Hk|exact (HE _ _ Hkj)]. destruct Ec as [-> ->].
      rewrite !a2d_get_set_eq; [reflexivity|rewrite H4, H6, R2; exact B2
                                |rewrite H3, H5, R1; exact B1].
    + rewrite !a2d_get_set_ne; [apply H7, Hkj|rewrite H4, R2, <- En; exact Ec
                                |rewrite H3, R1; exact Ec].
  - rewrite !a2d_get_set_eq; [reflexivity|rewrite H4, H6, R2; exact B2
                              |rewrite H3, H5, R1; exact B1].
Qed.

Lemma flux_rel_view (b1 b2 : StFlow) (E : nat -> nat -> Prop) (a1 a2 : StFlow) :
  header_view_eq b1 b2 -> flux_rel b1 b2 E a1 a2 -> header_view_eq a1 a2.
Proof.
  intros H (fl1 & fl2 & -> & -> & _). exact H.
Qed.

Lemma flux_rel_fields (b1 b2 : StFlow) (E : nat -> nat -> Prop) (a1 a2 : StFlow) :
  flux_rel b1 b2 E a1 a2 ->
  same_config a1 b1 /\ same_config a2 b2
  /\ m_diff a1 = m_diff b1 /\ m_diff a2 = m_diff b2
  /\ m_multidiff a1 = m_multidiff b1 /\ m_multidiff a2 = m_multidiff b2
  /\ m_dthermal a1 = m_dthermal b1 /\ m_dthermal a2 = m_dthermal b2.
Proof.
  intros (fl1 & fl2 & -> & -> & _). repeat split.
Qed.

Lemma config_reads (s1 s2 : StFlow) (x : nat -> Q) :
  same_config s1 s2 ->
  (forall n j, index s1 n j = index s2 n j)
  /\ (forall j, u s1 x j = u s2 x j)
  /\ (forall j, V s1 x j = V s2 x j)
  /\ (forall j, T s1 x j = T s2 x j)
  /\ (forall j, lambda s1 x j = lambda s2 x j)
  /\ (forall k j, Y s1 x k j = Y s2 x k j)
  /\ (forall j, z s1 j = z s2 j)
  /\ (forall j, grid s1 j = grid s2 j)
  /\ (forall j, T_fixed s1 j = T_fixed s2 j)
  /\ (forall k m j, mindex s1 k m j = mindex s2 k m j)
  /\ loc s1 = loc s2.
Proof.
  intros H. apply same_config_fields in H.
  destruct H as (En & Ev & Ep & Ei & Ej & _ & Ew & Epr & Ez & Edz & _ & _ & _ & _
                 & Ede & Eft & _).
  unfold index, u, V, T, lambda, Y, z, grid, T_fixed, mindex, loc, index.
  rewrite En, Ev, Ei, Ez, Eft. repeat split.
Qed.

Lemma flux_rel_store (b1 b2 : StFlow) (E E' : nat -> nat -> Prop) (a1 a2 : StFlow)
    (k j : nat) (v1 v2 : Q) :
  flux_sized b1 -> flux_sized b2 -> same_config b1 b2 ->
  k < m_nsp b1 -> j < m_points b1 - 1 ->
  (forall k' j', E k' j' -> k' < m_nsp b1) ->
  (forall k' j', E' k' j' -> E k' j' \/ (k' = k /\ j' = j)) ->
  v1 = v2 ->
  flux_rel b1 b2 E a1 a2 ->
  flux_rel b1 b2 E' (set_flux k j v1 a1) (set_flux k j v2 a2).
Proof.
  intros S1 S2 Hc Hk Hj HE HE' <- H.
  apply same_config_fields in Hc. destruct Hc as (En & _ & Ep & _).
  apply (flux_rel_weaken b1 b2 (fun k' j' => E k' j' \/ (k' = k /\ j' = j))); [exact HE'|].
  apply flux_rel_set; assumption.
Qed.

Section FluxLockstep.

Variables (hdr : Header) (x : nat -> Q) (b1 b2 : StFlow).
Hypothesis Hhdr : header_reads hdr.
Hypothesis Hview : header_view_eq b1 b2.
Hypothesis Hs1 : flux_sized b1.
Hypothesis Hs2 : flux_sized b2.

Lemma flux_rel_X (E : nat -> nat -> Prop) (a1 a2 : StFlow) (k j : nat) :
  flux_rel b1 b2 E a1 a2 -> j < m_points b1 -> X hdr a1 x k j = X hdr a2 x k j.
Proof.
  intros H Hj. pose proof (flux_rel_view _ _ _ _ _ Hview H) as Hv.
  destruct (Hhdr a1 a2 x Hv) as (HX & _). apply HX.
  destruct H as (fl1 & _ & -> & _). exact Hj.
Qed.

Lemma mixavg_related (E : nat -> nat -> Prop) (j : nat) (a1 a2 : StFlow) :
  (forall j k, j < m_points b1 - 1 -> k < m_nsp b1 ->
     m_diff b1 !!! (k + j * m_nsp b1) = m_diff b2 !!! (k + j * m_nsp b1)) ->
  j < m_points b1 - 1 ->
  (forall k' j', E k' j' -> k' < m_nsp b1) ->
  flux_rel b1 b2 E a1 a2 ->
  flux_rel b1 b2 (with_column (m_nsp b1) E j)
    (updateDiffFluxes_mixavg hdr x j a1) (updateDiffFluxes_mixavg hdr x j a2).
Proof.
  intros Hdiff Hj HE H.
  destruct Hview as (Hc & _).
  pose proof (same_config_fields _ _ Hc) as (En & _).
  pose proof (flux_rel_fields _ _ _ _ _ H) as (C1 & C2 & D1 & D2 & _).
  pose proof (same_config_fields _ _ C1) as (En1 & _).
  pose proof (same_config_fields _ _ C2) as (En2 & _).
  pose proof (config_reads _ _ x C1) as (_ & _ & _ & _ & _ & _ & Z1 & _).
  pose proof (config_reads _ _ x C2) as (_ & _ & _ & _ & _ & _ & Z2 & _).
  pose proof (config_reads _ _ x Hc) as (_ & _ & _ & _ & _ & _ & Z & _).
  unfold updateDiffFluxes_mixavg.
  rewrite !Z1, !Z2, <- !Z, En1, En2, <- En.
  set (dz := (z b1 (j + 1) - z b1 j)%Q). clearbody dz.
  set (l1 := for_range 0 (m_nsp b1) _ (0%Q, a1)).
  set (l2 := for_range 0 (m_nsp b1) _ (0%Q, a2)).
  assert (H1 : fst l1 = fst l2
               /\ flux_rel b1 b2 (with_column (m_nsp b1) E j) (snd l1) (snd l2)).
  { unfold l1, l2.
    apply (for_range_rel
             (fun n (p1 p2 : Q * StFlow) =>
                n <= m_nsp b1 ->
                fst p1 = fst p2
                /\ flux_rel b1 b2 (with_column n E j) (snd p1) (snd p2)));
      [lia| | |lia].
    - intros _. split; [reflexivity|]. cbn [snd].
      apply (flux_rel_weaken _ _ E); [|exact H].
      intros k' j' [Hkj|[Hlt _]]; [exact Hkj|lia].
    - intros k [s1 c1] [s2 c2] Hk IH Hle. destruct IH as [Es Hr]; [lia|].
      cbn [fst snd] in Es, Hr. subst s2. cbv beta iota zeta.
      pose proof (flux_rel_fields _ _ _ _ _ Hr) as (K1 & K2 & M1 & M2 & _).
      pose proof (same_config_fields _ _ K1) as (Kn1 & _).
      pose proof (same_config_fields _ _ K2) as (Kn2 & _).
      rewrite M1, M2, Kn1, Kn2, <- En.
      assert (R0 : flux_rel b1 b2 (with_column (S k) E j)
                     (set_flux k j (m_diff b1 !!! (k + m_nsp b1 * j)) c1)
                     (set_flux k j (m_diff b2 !!! (k + m_nsp b1 * j)) c2)).
      { apply (flux_rel_store b1 b2 (with_column k E j)); try assumption; try lia.
        - intros k' j' [Hkj|[Hlt _]]; [apply HE in Hkj; exact Hkj|lia].
        - intros k' j' [Hkj|[Hlt ->]]; [left; left; exact Hkj|].
          destruct (Nat.eq_dec k' k) as [->|Hne]; [right; split; reflexivity|].
          left. right. split; [lia|reflexivity].
        - rewrite (Nat.mul_comm (m_nsp b1) j). apply Hdiff; [exact Hj|lia]. }
      set (d1 := set_flux k j (m_diff b1 !!! (k + m_nsp b1 * j)) c1) in *.
      set (d2 := set_flux k j (m_diff b2 !!! (k + m_nsp b1 * j)) c2) in *.
      clearbody d1 d2.
      assert (In : with_column (S k) E j k j) by (right; split; [lia|reflexivity]).
      assert (R1 : flux_rel b1 b2 (with_column (S k) E j)
                     (set_flux k j
                        (flux d1 k j * ((X hdr d1 x k j - X hdr d1 x k (j + 1)%nat) / dz))%Q d1)
                     (set_flux k j
                        (flux d2 k j * ((X hdr d2 x k j - X hdr d2 x k (j + 1)%nat) / dz))%Q d2)).
      { apply (flux_rel_store b1 b2 (with_column (S k) E j)); try assumption; try lia.
        - intros k' j' [Hkj|[Hlt _]]; [apply HE in Hkj; exact Hkj|lia].
        - intros k' j' Hkj. left. exact Hkj.
        - rewrite (flux_rel_get _ _ _ _ _ k j R0 In).
          rewrite (flux_rel_X _ _ _ k j R0) by lia.
          rewrite (flux_rel_X _ _ _ k (j + 1) R0) by lia. reflexivity. }
      cbn [fst snd]. split; [|exact R1].
      rewrite (flux_rel_get _ _ _ _ _ k j R1 In). reflexivity. }
  clearbody l1 l2. destruct l1 as [sum1 c1]. destruct l2 as [sum2 c2].
  cbn [fst snd] in H1. destruct H1 as [<- Hr].
  pose proof (flux_rel_fields _ _ _ _ _ Hr) as (K1 & K2 & _).
  pose proof (same_config_fields _ _ K1) as (Kn1 & _).
  pose proof (same_config_fields _ _ K2) as (Kn2 & _).
  cbv beta iota. rewrite Kn1, Kn2, <- En.
  apply (for_range_rel (fun n c1 c2 => flux_rel b1 b2 (with_column (m_nsp b1) E j) c1 c2));
    [lia|exact Hr|].
  intros k c1' c2' Hk Hr'.
  assert (In : with_column (m_nsp b1) E j k j) by (right; split; [lia|reflexivity]).
  apply (flux_rel_store b1 b2 (with_column (m_nsp b1) E j)); try assumption; try lia.
  - intros k' j' [Hkj|[Hlt _]]; [apply HE in Hkj; exact Hkj|lia].
  - intros k' j' Hkj. left. exact Hkj.
  - rewrite (flux_rel_get _ _ _ _ _ k j Hr' In).
    pose proof (flux_rel_fields _ _ _ _ _ Hr') as (L1 & L2 & _).
    pose proof (config_reads _ _ x L1) as (_ & _ & _ & _ & _ & Y1 & _).
    pose proof (config_reads _ _ x L2) as (_ & _ & _ & _ & _ & Y2 & _).
    pose proof (config_reads _ _ x Hc) as (_ & _ & _ & _ & _ & Y0 & _).
    rewrite Y1, Y2, Y0. reflexivity.
Qed.

Lemma multi_related (E : nat -> nat -> Prop) (j : nat) (a1 a2 : StFlow) :
  (forall j k, j < m_points b1 - 1 -> k < m_nsp b1 ->
     m_diff b1 !!! (k + j * m_nsp b1) = m_diff b2 !!! (k + j * m_nsp b1)) ->
  (forall j k m, j < m_points b1 - 1 -> k < m_nsp b1 -> m < m_nsp b1 ->
     m_multidiff b1 !!! (mindex b1 k m j) = m_multidiff b2 !!! (mindex b1 k m j)) ->
  j < m_points b1 - 1 ->
  (forall k' j', E k' j' -> k' < m_nsp b1) ->
  flux_rel b1 b2 E a1 a2 ->
  flux_rel b1 b2 (with_column (m_nsp b1) E j)
    (updateDiffFluxes_multi hdr x j a1) (updateDiffFluxes_multi hdr x j a2).
Proof.
  intros Hdiff Hmulti Hj HE H.
  destruct Hview as (Hc & _).
  pose proof (same_config_fields _ _ Hc) as (En & _ & _ & _ & _ & _ & Ew & _).
  pose proof (flux_rel_fields _ _ _ _ _ H) as (C1 & C2 & _).
  pose proof (same_config_fields _ _ C1) as (En1 & _).
  pose proof (same_config_fields _ _ C2) as (En2 & _).
  pose proof (config_reads _ _ x C1) as (_ & _ & _ & _ & _ & _ & Z1 & _).
  pose proof (config_reads _ _ x C2) as (_ & _ & _ & _ & _ & _ & Z2 & _).
  pose proof (config_reads _ _ x Hc) as (_ & _ & _ & _ & _ & _ & Z & _ & _ & Mi & _).
  unfold updateDiffFluxes_multi.
  rewrite !Z1, !Z2, <- !Z, En1, En2, <- En.
  set (dz := (z b1 (j + 1) - z b1 j)%Q). clearbody dz.
  apply (for_range_rel
           (fun n c1 c2 => n <= m_nsp b1 -> flux_rel b1 b2 (with_column n E j) c1 c2));
    [lia| | |lia].
  - intros _. apply (flux_rel_weaken _ _ E); [|exact H].
    intros k' j' [Hkj|[Hlt _]]; [exact Hkj|lia].
  - intros k c1 c2 Hk IH Hle. assert (Hr := IH ltac:(lia)). clear IH.
    pose proof (flux_rel_fields _ _ _ _ _ Hr) as (K1 & K2 & D1 & D2 & M1 & M2 & _).
    pose proof (same_config_fields _ _ K1) as (Kn1 & _ & _ & _ & _ & _ & Kw1 & _).
    pose proof (same_config_fields _ _ K2) as (Kn2 & _ & _ & _ & _ & _ & Kw2 & _).
    pose proof (config_reads _ _ x K1) as (_ & _ & _ & _ & _ & _ & _ & _ & _ & Mi1 & _).
    pose proof (config_reads _ _ x K2) as (_ & _ & _ & _ & _ & _ & _ & _ & _ & Mi2 & _).
    apply (flux_rel_store b1 b2 (with_column k E j)); try assumption; try lia.
    + intros k' j' [Hkj|[Hlt _]]; [apply HE in Hkj; exact Hkj|lia].
    + intros k' j' [Hkj|[Hlt ->]]; [left; left; exact Hkj|].
      destruct (Nat.eq_dec k' k) as [->|Hne]; [right; split; reflexivity|].
      left. right. split; [lia|reflexivity].
    + rewrite D1, D2, Kn1, Kn2, <- En, (Hdiff j k Hj) by lia.
      f_equal. f_equal.
      apply (for_range_rel (fun _ (s1 s2 : Q) => s1 = s2)); [lia|reflexivity|].
      intros m s1 s2 Hm ->.
      rewrite M1, M2, Kw1, Kw2, <- Ew, Mi1, Mi2, <- Mi, (Hmulti j k m Hj) by lia.
      rewrite (flux_rel_X _ _ _ m j Hr) by lia.
      rewrite (flux_rel_X _ _ _ m (j + 1) Hr) by lia. reflexivity.
Qed.

Lemma soret_related (E : nat -> nat -> Prop) (j : nat) (a1 a2 : StFlow) :
  (forall j k, j < m_points b1 - 1 -> k < m_nsp b1 ->
     a2d_get (m_dthermal b1) k j = a2d_get (m_dthermal b2) k j) ->
  j < m_points b1 - 1 ->
  (forall k' j', E k' j' -> k' < m_nsp b1) ->
  (forall k, k < m_nsp b1 -> E k j) ->
  flux_rel b1 b2 E a1 a2 ->
  flux_rel b1 b2 E (updateDiffFluxes_soret x j a1) (updateDiffFluxes_soret x j a2).
Proof.
  intros Hdt Hj HE Hcol H.
  destruct Hview as (Hc & _).
  pose proof (same_config_fields _ _ Hc) as (En & _).
  pose proof (flux_rel_fields _ _ _ _ _ H) as (C1 & C2 & _).
  pose proof (same_config_fields _ _ C1) as (En1 & _).
  pose proof (same_config_fields _ _ C2) as (En2 & _).
  pose proof (config_reads _ _ x C1) as (_ & _ & _ & T1 & _ & _ & Z1 & _).
  pose proof (config_reads _ _ x C2) as (_ & _ & _ & T2 & _ & _ & Z2 & _).
  pose proof (config_reads _ _ x Hc) as (_ & _ & _ & T0 & _ & _ & Z & _).
  unfold updateDiffFluxes_soret.
  rewrite !Z1, !Z2, <- !Z, !T1, !T2, <- !T0, En1, En2, <- En.
  set (g := (2 * (T b1 x (j + 1) - T b1 x j)
             / ((T b1 x (j + 1) + T b1 x j) * (z b1 (j + 1) - z b1 j)))%Q). clearbody g.
  apply (for_range_rel (fun n c1 c2 => flux_rel b1 b2 E c1 c2)); [lia|exact H|].
  intros k c1 c2 Hk Hr.
  pose proof (flux_rel_fields _ _ _ _ _ Hr) as (_ & _ & _ & _ & _ & _ & D1 & D2).
  apply (flux_rel_store b1 b2 E); try assumption; try lia.
  - intros k' j' Hkj. left. exact Hkj.
  - rewrite (flux_rel_get _ _ _ _ _ k j Hr) by (apply Hcol; lia).
    rewrite D1, D2, (Hdt j k Hj) by lia. reflexivity.
Qed.

Lemma updateDiffFluxes_related :
  (forall j k, j < m_points b1 - 1 -> k < m_nsp b1 ->
     m_diff b1 !!! (k + j * m_nsp b1) = m_diff b2 !!! (k + j * m_nsp b1)) ->
  (m_do_multicomponent b1 = true ->
   forall j k m, j < m_points b1 - 1 -> k < m_nsp b1 -> m < m_nsp b1 ->
     m_multidiff b1 !!! (mindex b1 k m j) = m_multidiff b2 !!! (mindex b1 k m j)) ->
  (m_do_soret b1 = true ->
   forall j k, j < m_points b1 - 1 -> k < m_nsp b1 ->
     a2d_get (m_dthermal b1) k j = a2d_get (m_dthermal b2) k j) ->
  flux_rel b1 b2 (columns_before (m_nsp b1) (m_points b1 - 1))
    (updateDiffFluxes hdr x 0 (m_points b1 - 1) b1)
    (updateDiffFluxes hdr x 0 (m_points b1 - 1) b2).
Proof.
  intros Hdiff Hmulti Hsoret.
  pose proof Hview as (Hc & _).
  pose proof (same_config_fields _ _ Hc)
    as (En & _ & Ep & _ & _ & _ & _ & _ & _ & _ & _ & _ & _ & _ & _ & _ & Em & Es & _).
  unfold updateDiffFluxes. rewrite <- Em.
  assert (Hcols : forall n, columns_before (m_nsp b1) n
                            = fun k j => k < m_nsp b1 /\ j < n) by reflexivity.
  assert (Hstep : forall n k' j',
            columns_before (m_nsp b1) (S n) k' j' ->
            with_column (m_nsp b1) (columns_before (m_nsp b1) n) n k' j').
  { intros n k' j' [Hk' Hj']. destruct (Nat.eq_dec j' n) as [->|Hne].
    - right. split; [exact Hk'|reflexivity].
    - left. split; [exact Hk'|lia]. }
  assert (Hstart : flux_rel b1 b2 (columns_before (m_nsp b1) 0) b1 b2).
  { apply (flux_rel_weaken _ _ (fun _ _ => False)); [|apply flux_rel_refl].
    intros k j [_ Hj]. lia. }
  assert (Hmain :
    flux_rel b1 b2 (columns_before (m_nsp b1) (m_points b1 - 1))
      (if m_do_multicomponent b1
       then for_range 0 (m_points b1 - 1) (updateDiffFluxes_multi hdr x) b1
       else for_range 0 (m_points b1 - 1) (updateDiffFluxes_mixavg hdr x) b1)
      (if m_do_multicomponent b1
       then for_range 0 (m_points b1 - 1) (updateDiffFluxes_multi hdr x) b2
       else for_range 0 (m_points b1 - 1) (updateDiffFluxes_mixavg hdr x) b2)).
  { destruct (m_do_multicomponent b1) eqn:Emc.
    - apply (for_range_rel
               (fun n c1 c2 => flux_rel b1 b2 (columns_before (m_nsp b1) n) c1 c2));
        [lia|exact Hstart|].
      intros j c1 c2 Hj Hr.
      apply (flux_rel_weaken _ _ _ _ _ _ (Hstep j)).
      apply multi_related; [exact Hdiff|apply Hmulti; reflexivity|lia| |exact Hr].
      intros k' j' [Hk' _]. exact Hk'.
    - apply (for_range_rel
               (fun n c1 c2 => flux_rel b1 b2 (columns_before (m_nsp b1) n) c1 c2));
        [lia|exact Hstart|].
      intros j c1 c2 Hj Hr.
      apply (flux_rel_weaken _ _ _ _ _ _ (Hstep j)).
      apply mixavg_related; [exact Hdiff|lia| |exact Hr].
      intros k' j' [Hk' _]. exact Hk'. }
  set (c1 := if m_do_multicomponent b1 then _ else _) in *.
  set (c2 := if m_do_multicomponent b1 then _ else _) in *.
  clearbody c1 c2.
  pose proof (flux_rel_fields _ _ _ _ _ Hmain) as (K1 & K2 & _).
  pose proof (same_config_fields _ _ K1)
    as (_ & _ & _ & _ & _ & _ & _ & _ & _ & _ & _ & _ & _ & _ & _ & _ & _ & Ks1 & _).
  pose proof (same_config_fields _ _ K2)
    as (_ & _ & _ & _ & _ & _ & _ & _ & _ & _ & _ & _ & _ & _ & _ & _ & _ & Ks2 & _).
  rewrite Ks1, Ks2, <- Es.
  destruct (m_do_soret b1) eqn:Eso; [|exact Hmain].
  apply (for_range_rel
           (fun n c1 c2 =>
              flux_rel b1 b2 (columns_before (m_nsp b1) (m_points b1 - 1)) c1 c2));
    [lia|exact Hmain|].
  intros j d1 d2 Hj Hr.
  apply soret_related; [apply Hsoret; reflexivity|lia| | |exact Hr].
  - intros k' j' [Hk' _]. exact Hk'.
  - intros k Hk. split; [exact Hk|lia].
Qed.

End FluxLockstep.

(** *** What the assemblers read *)

Section AssemblyReads.

Variables (hdr : Header) (f1 f2 : StFlow) (x : nat -> Q).
Hypothesis Hhdr : header_reads hdr.
Hypothesis Ha : assembly_eq f1 f2.

Lemma ae_config : same_config f1 f2.
Proof. destruct Ha as ((Hc & _) & _). exact Hc. Qed.

Lemma ae_points : m_points f1 = m_points f2.
Proof. pose proof (same_config_fields _ _ ae_config) as H. tauto. Qed.

Lemma ae_nsp : m_nsp f1 = m_nsp f2.
Proof. pose proof (same_config_fields _ _ ae_config) as H. tauto. Qed.

Lemma ae_usesLambda : m_usesLambda f1 = m_usesLambda f2.
Proof. pose proof (same_config_fields _ _ ae_config) as H. tauto. Qed.

Lemma ae_isFree : m_isFree f1 = m_isFree f2.
Proof. pose proof (same_config_fields _ _ ae_config) as H. tauto. Qed.

Lemma ae_do_energy : m_do_energy f1 = m_do_energy f2.
Proof. pose proof (same_config_fields _ _ ae_config) as H. tauto. Qed.

Lemma ae_zfixed : m_zfixed f1 = m_zfixed f2.
Proof. pose proof (same_config_fields _ _ ae_config) as H. tauto. Qed.

Lemma ae_tfixed : m_tfixed f1 = m_tfixed f2.
Proof. pose proof (same_config_fields _ _ ae_config) as H. tauto. Qed.

Lemma ae_dz : m_dz f1 = m_dz f2.
Proof. pose proof (same_config_fields _ _ ae_config) as H. tauto. Qed.

Lemma ae_wt : m_wt f1 = m_wt f2.
Proof. pose proof (same_config_fields _ _ ae_config) as H. tauto. Qed.

Lemma ae_left : leftExcessSpecies f1 = leftExcessSpecies f2.
Proof. destruct Ha as (_ & _ & _ & H & _). exact H. Qed.

Lemma ae_right : rightExcessSpecies f1 = rightExcessSpecies f2.
Proof. destruct Ha as (_ & _ & _ & _ & H). exact H. Qed.

Lemma ae_index (n j : nat) : index f1 n j = index f2 n j.
Proof. apply (config_reads _ _ x ae_config). Qed.

Lemma ae_u (j : nat) : u f1 x j = u f2 x j.
Proof. apply (config_reads _ _ x ae_config). Qed.

Lemma ae_V (j : nat) : V f1 x j = V f2 x j.
Proof. apply (config_reads _ _ x ae_config). Qed.

Lemma ae_T (j : nat) : T f1 x j = T f2 x j.
Proof. apply (config_reads _ _ x ae_config). Qed.

Lemma ae_lambda (j : nat) : lambda f1 x j = lambda f2 x j.
Proof. apply (config_reads _ _ x ae_config). Qed.

Lemma ae_Y (k j : nat) : Y f1 x k j = Y f2 x k j.
Proof. apply (config_reads _ _ x ae_config). Qed.

Lemma ae_z (j : nat) : z f1 j = z f2 j.
Proof. apply (config_reads _ _ x ae_config). Qed.

Lemma ae_grid (j : nat) : grid f1 j = grid f2 j.
Proof. apply (config_reads _ _ x ae_config). Qed.

Lemma ae_T_fixed (j : nat) : T_fixed f1 j = T_fixed f2 j.
Proof. apply (config_reads _ _ x ae_config). Qed.

Lemma ae_point (j : nat) : j < m_points f2 -> point_eq j f1 f2.
Proof.
  intros Hj. destruct Ha as ((_ & Hp & _) & _). apply Hp. rewrite ae_points. exact Hj.
Qed.

Lemma ae_rho (j : nat) : j < m_points f2 -> m_rho f1 !!! j = m_rho f2 !!! j.
Proof. intros Hj. apply (ae_point j Hj). Qed.

Lemma ae_density (j : nat) : j < m_points f2 -> density f1 j = density f2 j.
Proof. apply ae_rho. Qed.

Lemma ae_rho_u (j : nat) : j < m_points f2 -> rho_u f1 x j = rho_u f2 x j.
Proof. intros Hj. unfold rho_u. rewrite ae_rho, ae_u by exact Hj. reflexivity. Qed.

Lemma ae_cp (j : nat) : j < m_points f2 -> m_cp f1 !!! j = m_cp f2 !!! j.
Proof. intros Hj. apply (ae_point j Hj). Qed.

Lemma ae_hk (k j : nat) :
  j < m_points f2 -> k < m_nsp f2 -> a2d_get (m_hk f1) k j = a2d_get (m_hk f2) k j.
Proof.
  intros Hj Hk. destruct (ae_point j Hj) as (_ & _ & _ & H).
  apply H. rewrite ae_nsp. exact Hk.
Qed.

Lemma ae_X (k j : nat) : j < m_points f2 -> X hdr f1 x k j = X hdr f2 x k j.
Proof.
  intros Hj. destruct Ha as (Hv & _). destruct (Hhdr f1 f2 x Hv) as (H & _).
  apply H. rewrite ae_points. exact Hj.
Qed.

Lemma ae_shear (j : nat) :
  1 <= j <= m_points f2 - 2 -> shear hdr f1 x j = shear hdr f2 x j.
Proof.
  intros Hj. destruct Ha as (Hv & _). destruct (Hhdr f1 f2 x Hv) as (_ & H & _).
  apply H. rewrite ae_points. exact Hj.
Qed.

Lemma ae_dVdz (j : nat) :
  1 <= j <= m_points f2 - 2 -> dVdz hdr f1 x j = dVdz hdr f2 x j.
Proof.
  intros Hj. destruct Ha as (Hv & _). destruct (Hhdr f1 f2 x Hv) as (_ & H & _).
  apply H. rewrite ae_points. exact Hj.
Qed.

Lemma ae_dTdz (j : nat) :
  1 <= j <= m_points f2 - 2 -> dTdz hdr f1 x j = dTdz hdr f2 x j.
Proof.
  intros Hj. destruct Ha as (Hv & _). destruct (Hhdr f1 f2 x Hv) as (_ & H & _).
  apply H. rewrite ae_points. exact Hj.
Qed.

Lemma ae_divHeatFlux (j : nat) :
  1 <= j <= m_points f2 - 2 -> divHeatFlux hdr f1 x j = divHeatFlux hdr f2 x j.
Proof.
  intros Hj. destruct Ha as (Hv & _). destruct (Hhdr f1 f2 x Hv) as (_ & H & _).
  apply H. rewrite ae_points. exact Hj.
Qed.

Lemma ae_dYdz (k j : nat) :
  1 <= j <= m_points f2 - 2 -> k < m_nsp f2 -> dYdz hdr f1 x k j = dYdz hdr f2 x k j.
Proof.
  intros Hj Hk. destruct Ha as (Hv & _). destruct (Hhdr f1 f2 x Hv) as (_ & _ & H & _).
  apply H; [rewrite ae_points; exact Hj|rewrite ae_nsp; exact Hk].
Qed.

Lemma ae_wdot (k j : nat) :
  j < m_points f2 -> k < m_nsp f2 -> wdot hdr f1 k j = wdot hdr f2 k j.
Proof.
  intros Hj Hk. destruct Ha as (Hv & _). destruct (Hhdr f1 f2 x Hv) as (_ & _ & _ & H).
  apply H; [rewrite ae_points; exact Hj|rewrite ae_nsp; exact Hk].
Qed.

Lemma ae_flux (k j : nat) :
  k < m_nsp f2 -> j < m_points f2 - 1 -> flux f1 k j = flux f2 k j.
Proof.
  intros Hk Hj. destruct Ha as (_ & H & _).
  apply H; [rewrite ae_nsp; exact Hk|rewrite ae_points; exact Hj].
Qed.

Lemma ae_qdot (j : nat) :
  1 <= j <= m_points f2 - 2 -> m_do_energy f2 !!! j = true ->
  m_qdotRadiation f1 !!! j = m_qdotRadiation f2 !!! j.
Proof.
  intros Hj He. destruct Ha as (_ & _ & H & _).
  apply H; [rewrite ae_points; exact Hj|rewrite ae_do_energy; exact He].
Qed.

End AssemblyReads.

Lemma for_range_ext2 {St : Type} (lo hi : nat) (body1 body2 : nat -> St -> St)
    (s1 s2 : St) :
  s1 = s2 ->
  (forall j a, lo <= j < hi -> body1 j a = body2 j a) ->
  for_range lo hi body1 s1 = for_range lo hi body2 s2.
Proof. intros -> H. apply for_range_ext, H. Qed.

(** Rewrite what the assemblers read of the first domain into what they
    read of the second. *)
Ltac ae_rewrite Hh H x :=
  repeat first
    [ rewrite (ae_points _ _ H)
    | rewrite (ae_nsp _ _ H)
    | rewrite (ae_usesLambda _ _ H)
    | rewrite (ae_isFree _ _ H)
    | rewrite (ae_do_energy _ _ H)
    | rewrite (ae_zfixed _ _ H)
    | rewrite (ae_tfixed _ _ H)
    | rewrite (ae_dz _ _ H)
    | rewrite (ae_wt _ _ H)
    | rewrite (ae_left _ _ H)
    | rewrite (ae_right _ _ H)
    | rewrite (ae_index _ _ x H)
    | rewrite (ae_u _ _ x H)
    | rewrite (ae_V _ _ x H)
    | rewrite (ae_T _ _ x H)
    | rewrite (ae_lambda _ _ x H)
    | rewrite (ae_Y _ _ x H)
    | rewrite (ae_z _ _ x H)
    | rewrite (ae_grid _ _ x H)
    | rewrite (ae_T_fixed _ _ x H)
    | rewrite (ae_rho_u _ _ x H) by lia
    | rewrite (ae_density _ _ H) by lia
    | rewrite (ae_rho _ _ H) by lia
    | rewrite (ae_cp _ _ H) by lia
    | rewrite (ae_hk _ _ H) by lia
    | rewrite (ae_X _ _ _ x Hh H) by lia
    | rewrite (ae_shear _ _ _ x Hh H) by lia
    | rewrite (ae_dVdz _ _ _ x Hh H) by lia
    | rewrite (ae_dTdz _ _ _ x Hh H) by lia
    | rewrite (ae_divHeatFlux _ _ _ x Hh H) by lia
    | rewrite (ae_dYdz _ _ _ x Hh H) by lia
    | rewrite (ae_wdot _ _ _ x Hh H) by lia
    | rewrite (ae_flux _ _ H) by lia ].

Section Assemblers.

Variables (hdr : Header) (f1 f2 : StFlow) (x : nat -> Q).
Hypothesis Hhdr : header_reads hdr.
Hypothesis Ha : assembly_eq f1 f2.

Lemma evalContinuity_eq (o : (nat -> Q) * (nat -> Z)) (rdt : Q) (jmin jmax : nat) :
  jmin < jmax <= m_points f2 - 1 ->
  evalContinuity f1 x o rdt jmin jmax = evalContinuity f2 x o rdt jmin jmax.
Proof.
  intros Hw. unfold evalContinuity, for_upto.
  ae_rewrite Hhdr Ha x.
  set (o1 := if jmin =? 0 then _ else o).
  set (o2 := if jmax =? m_points f2 - 1 then _ else o1). clearbody o2. clear o1.
  destruct (m_usesLambda f2); [|destruct (m_isFree f2)].
  - apply for_range_ext. intros j a Hj. ae_rewrite Hhdr Ha x. reflexivity.
  - apply for_range_ext. intros j a Hj. ae_rewrite Hhdr Ha x. reflexivity.
  - apply for_range_ext. intros j a Hj. ae_rewrite Hhdr Ha x. reflexivity.
Qed.

Lemma evalMomentum_eq (o : (nat -> Q) * (nat -> Z)) (rdt : Q) (jmin jmax : nat) :
  jmin < jmax <= m_points f2 - 1 ->
  evalMomentum hdr f1 x o rdt jmin jmax = evalMomentum hdr f2 x o rdt jmin jmax.
Proof.
  intros Hw. unfold evalMomentum, for_upto.
  ae_rewrite Hhdr Ha x.
  destruct (m_usesLambda f2); cbn [negb].
  - apply for_range_ext. intros j a Hj. ae_rewrite Hhdr Ha x. reflexivity.
  - apply for_range_ext. intros j a Hj. ae_rewrite Hhdr Ha x. reflexivity.
Qed.

Lemma evalLambda_eq (o : (nat -> Q) * (nat -> Z)) (rdt : Q) (jmin jmax : nat) :
  jmin < jmax <= m_points f2 - 1 ->
  evalLambda f1 x o rdt jmin jmax = evalLambda f2 x o rdt jmin jmax.
Proof.
  intros Hw. unfold evalLambda, for_upto.
  ae_rewrite Hhdr Ha x.
  destruct (m_usesLambda f2); cbn [negb].
  - destruct (jmin =? 0) eqn:E0.
    + apply Nat.eqb_eq in E0. ae_rewrite Hhdr Ha x.
      apply for_range_ext. intros j a Hj. ae_rewrite Hhdr Ha x. reflexivity.
    + apply for_range_ext. intros j a Hj. ae_rewrite Hhdr Ha x. reflexivity.
  - apply for_range_ext. intros j a Hj. ae_rewrite Hhdr Ha x. reflexivity.
Qed.

Lemma evalElectricField_eq (o : (nat -> Q) * (nat -> Z)) (rdt : Q) (jmin jmax : nat) :
  evalElectricField f1 x o rdt jmin jmax = evalElectricField f2 x o rdt jmin jmax.
Proof.
  unfold evalElectricField, for_upto.
  apply for_range_ext. intros j a Hj. ae_rewrite Hhdr Ha x. reflexivity.
Qed.

End Assemblers.

Lemma assembly_eq_dhk (f1 f2 : StFlow) (d1 d2 : Array2D) :
  assembly_eq f1 f2 -> assembly_eq (set_m_dhk_dz d1 f1) (set_m_dhk_dz d2 f2).
Proof. intros H. exact H. Qed.

Section Assemblers2.

Variables (hdr : Header) (f1 f2 : StFlow) (x : nat -> Q).
Hypothesis Hhdr : header_reads hdr.
Hypothesis Ha : assembly_eq f1 f2.

Lemma evalSpecies_eq (o : (nat -> Q) * (nat -> Z)) (rdt : Q) (jmin jmax : nat) :
  jmin < jmax <= m_points f2 - 1 ->
  evalSpecies hdr f1 x o rdt jmin jmax = evalSpecies hdr f2 x o rdt jmin jmax.
Proof.
  intros Hw. unfold evalSpecies, for_upto.
  ae_rewrite Hhdr Ha x.
  apply for_range_ext2.
  - set (o1 := if jmin =? 0 then _ else o).
    set (o1' := if jmin =? 0 then _ else o).
    assert (E1 : o1 = o1').
    { unfold o1, o1'. destruct (jmin =? 0); [|reflexivity].
      erewrite for_range_ext; [reflexivity|].
      intros k [s a] Hk. ae_rewrite Hhdr Ha x. reflexivity. }
    rewrite E1. clearbody o1'. clear o1 E1.
    destruct (jmax =? m_points f2 - 1); [|reflexivity].
    erewrite for_range_ext; [reflexivity|].
    intros k [s a] Hk. ae_rewrite Hhdr Ha x. reflexivity.
  - intros j a Hj. apply for_range_ext. intros k b Hk.
    cbv zeta. ae_rewrite Hhdr Ha x. reflexivity.
Qed.

End Assemblers2.

Lemma energy_sum_eq (hdr : Header) (A1 A2 : StFlow) (x : nat -> Q) (j : nat) :
  header_reads hdr -> assembly_eq A1 A2 ->
  1 <= j <= m_points A2 - 2 ->
  (forall k, k < m_nsp A2 -> a2d_get (m_dhk_dz A1) k j = a2d_get (m_dhk_dz A2) k j) ->
  energy_sum hdr A1 j = energy_sum hdr A2 j.
Proof.
  intros Hh H Hj Hd. unfold energy_sum. ae_rewrite Hh H x.
  apply for_range_ext. intros k s Hk. cbv zeta.
  ae_rewrite Hh H x. rewrite Hd by lia. reflexivity.
Qed.

Lemma energy_point_eq (hdr : Header) (A1 A2 : StFlow) (x : nat -> Q) (j : nat)
    (o : (nat -> Q) * (nat -> Z)) (rdt : Q) :
  header_reads hdr -> assembly_eq A1 A2 ->
  1 <= j <= m_points A2 - 2 -> m_do_energy A2 !!! j = true ->
  (forall k, k < m_nsp A2 -> a2d_get (m_dhk_dz A1) k j = a2d_get (m_dhk_dz A2) k j) ->
  (let sum := energy_sum hdr A1 j in
   let i := index A1 c_offset_T j in
   let o := set_rsd i (- m_cp A1 !!! j * rho_u A1 x j * dTdz hdr A1 x j
                       - divHeatFlux hdr A1 x j - sum)%Q o in
   let o := set_rsd i (fst o i / (m_rho A1 !!! j * m_cp A1 !!! j))%Q o in
   let o := set_rsd i (fst o i - rdt * (T A1 x j - T_prev hdr j))%Q o in
   let o := set_rsd i (fst o i - m_qdotRadiation A1 !!! j
                                 / (m_rho A1 !!! j * m_cp A1 !!! j))%Q o in
   set_diag i 1%Z o)
  = (let sum := energy_sum hdr A2 j in
     let i := index A2 c_offset_T j in
     let o := set_rsd i (- m_cp A2 !!! j * rho_u A2 x j * dTdz hdr A2 x j
                         - divHeatFlux hdr A2 x j - sum)%Q o in
     let o := set_rsd i (fst o i / (m_rho A2 !!! j * m_cp A2 !!! j))%Q o in
     let o := set_rsd i (fst o i - rdt * (T A2 x j - T_prev hdr j))%Q o in
     let o := set_rsd i (fst o i - m_qdotRadiation A2 !!! j
                                   / (m_rho A2 !!! j * m_cp A2 !!! j))%Q o in
     set_diag i 1%Z o).
Proof.
  intros Hh H Hj He Hd.
  rewrite (energy_sum_eq hdr A1 A2 x j Hh H Hj Hd).
  rewrite (ae_qdot _ _ H j Hj He).
  ae_rewrite Hh H x. reflexivity.
Qed.

Lemma enthalpy_gradient_eq (f1 f2 : StFlow) (x : nat -> Q) (k j : nat) :
  assembly_eq f1 f2 -> 1 <= j <= m_points f2 - 2 -> k < m_nsp f2 ->
  enthalpy_gradient f1 x k j = enthalpy_gradient f2 x k j.
Proof.
  intros H Hj Hk. unfold enthalpy_gradient.
  rewrite (ae_u _ _ x H), (ae_dz _ _ H).
  rewrite !(ae_hk _ _ H) by lia. reflexivity.
Qed.

Section EnergyAssembler.

Variables (hdr : Header) (f1 f2 : StFlow) (x : nat -> Q).
Hypothesis Hhdr : header_reads hdr.
Hypothesis Ha : assembly_eq f1 f2.
Hypothesis Hd1 : dhk_sized f1.
Hypothesis Hd2 : dhk_sized f2.

Lemma evalEnergy_eq (o : (nat -> Q) * (nat -> Z)) (rdt : Q) (jmin jmax : nat) :
  jmin < jmax <= m_points f2 - 1 ->
  snd (evalEnergy hdr f1 x o rdt jmin jmax) = snd (evalEnergy hdr f2 x o rdt jmin jmax)
  /\ exists d1 d2,
       fst (evalEnergy hdr f1 x o rdt jmin jmax) = set_m_dhk_dz d1 f1
       /\ fst (evalEnergy hdr f2 x o rdt jmin jmax) = set_m_dhk_dz d2 f2.
Proof.
  intros Hw. unfold evalEnergy, for_upto.
  ae_rewrite Hhdr Ha x.
  set (o1 := if jmin =? 0 then _ else o).
  set (o2 := if jmax =? m_points f2 - 1 then _ else o1). clearbody o2. clear o1.
  set (j0 := Nat.max jmin 1). set (j1 := Nat.min jmax (m_points f2 - 2)).
  assert (Hb0 : 1 <= j0) by (unfold j0; lia).
  assert (Hb1 : j1 <= m_points f2 - 2) by (unfold j1; lia).
  clearbody j0 j1.
  pose proof (ae_nsp _ _ Ha) as En. pose proof (ae_points _ _ Ha) as Ep.
  destruct Hd1 as [R1 L1]. destruct Hd2 as [R2 L2].
  destruct (Nat.le_gt_cases j0 (S j1)) as [Hle|Hgt].
  2:{ rewrite !for_range_empty by lia. cbn [fst snd]. split; [reflexivity|].
      exists (m_dhk_dz f1), (m_dhk_dz f2).
      split; [destruct f1; reflexivity|destruct f2; reflexivity]. }
  set (r1 := for_range j0 (S j1) _ (f1, o2)).
  set (r2 := for_range j0 (S j1) _ (f2, o2)).
  enough (H : snd r1 = snd r2
              /\ exists d1 d2,
                   fst r1 = set_m_dhk_dz d1 f1 /\ fst r2 = set_m_dhk_dz d2 f2
                   /\ nRows d1 = nRows (m_dhk_dz f1)
                   /\ length (a2d_data d1) = length (a2d_data (m_dhk_dz f1))
                   /\ nRows d2 = nRows (m_dhk_dz f2)
                   /\ length (a2d_data d2) = length (a2d_data (m_dhk_dz f2))).
  { destruct H as (E & d1 & d2 & E1 & E2 & _).
    split; [exact E|]. exists d1, d2. split; assumption. }
  unfold r1, r2. clear r1 r2.
  apply (for_range_rel
           (fun (n : nat) (r1 r2 : StFlow * ((nat -> Q) * (nat -> Z))) =>
              snd r1 = snd r2
              /\ exists d1 d2,
                   fst r1 = set_m_dhk_dz d1 f1 /\ fst r2 = set_m_dhk_dz d2 f2
                   /\ nRows d1 = nRows (m_dhk_dz f1)
                   /\ length (a2d_data d1) = length (a2d_data (m_dhk_dz f1))
                   /\ nRows d2 = nRows (m_dhk_dz f2)
                   /\ length (a2d_data d2) = length (a2d_data (m_dhk_dz f2)))).
  - exact Hle.
  - cbn [fst snd]. split; [reflexivity|].
    exists (m_dhk_dz f1), (m_dhk_dz f2).
    split; [destruct f1; reflexivity|]. split; [destruct f2; reflexivity|].
    repeat split.
  - intros j [a1 oa] [a2 ob] Hj (Eo & d1 & d2 & E1 & E2 & S1 & S2 & S3 & S4).
    cbn [fst snd] in Eo, E1, E2. subst ob a1 a2.
    change (m_do_energy (set_m_dhk_dz d1 f1)) with (m_do_energy f1).
    change (m_do_energy (set_m_dhk_dz d2 f2)) with (m_do_energy f2).
    rewrite (ae_do_energy _ _ Ha).
    destruct (m_do_energy f2 !!! j) eqn:Ee.
    + destruct (grad_hk_spec x j f1 d1) as (d1' & G1 & T1 & T2 & C1).
      destruct (grad_hk_spec x j f2 d2) as (d2' & G2 & T3 & T4 & C2).
      rewrite G1, G2. cbn [fst snd]. split.
      * apply (energy_point_eq hdr (set_m_dhk_dz d1' f1) (set_m_dhk_dz d2' f2) x j oa rdt
                 Hhdr (assembly_eq_dhk f1 f2 d1' d2' Ha)).
        -- change (m_points (set_m_dhk_dz d2' f2)) with (m_points f2). lia.
        -- exact Ee.
        -- change (m_nsp (set_m_dhk_dz d2' f2)) with (m_nsp f2).
           change (m_dhk_dz (set_m_dhk_dz d1' f1)) with d1'.
           change (m_dhk_dz (set_m_dhk_dz d2' f2)) with d2'.
           intros k Hk.
           assert (Hcol : m_nsp f2 * j + m_nsp f2 <= m_nsp f2 * (m_points f2 - 1)).
           { replace (m_nsp f2 * j + m_nsp f2) with (m_nsp f2 * S j) by lia.
             apply Nat.mul_le_mono_l. lia. }
           assert (In1 : dhk_column_in_range f1 d1 j).
           { unfold dhk_column_in_range. rewrite S1, S2, R1, En.
             rewrite En, Ep in L1. lia. }
           assert (In2 : dhk_column_in_range f2 d2 j).
           { unfold dhk_column_in_range. rewrite S3, S4, R2. lia. }
           rewrite (C1 In1 k) by (rewrite En; exact Hk).
           rewrite (C2 In2 k Hk).
           apply enthalpy_gradient_eq; [exact Ha|lia|exact Hk].
      * exists d1', d2'. repeat split; congruence.
    + cbn [fst snd].
      change (index (set_m_dhk_dz d1 f1)) with (index f1).
      change (index (set_m_dhk_dz d2 f2)) with (index f2).
      change (T (set_m_dhk_dz d1 f1)) with (T f1).
      change (T (set_m_dhk_dz d2 f2)) with (T f2).
      change (T_fixed (set_m_dhk_dz d1 f1)) with (T_fixed f1).
      change (T_fixed (set_m_dhk_dz d2 f2)) with (T_fixed f2).
      split.
      * ae_rewrite Hhdr Ha x. reflexivity.
      * exists d1, d2. repeat split; assumption.
Qed.

End EnergyAssembler.

(** *** The property refresh of two domains *)

Lemma thermo_nf_frame (s a : StFlow) :
  thermo_nf s a ->
  same_config s a
  /\ m_ybar a = m_ybar s /\ m_visc a = m_visc s /\ m_tcon a = m_tcon s
  /\ m_diff a = m_diff s /\ m_multidiff a = m_multidiff s
  /\ m_dthermal a = m_dthermal s /\ m_flux a = m_flux s
  /\ m_dhk_dz a = m_dhk_dz s /\ m_qdotRadiation a = m_qdotRadiation s.
Proof.
  intros (t & ys & p & R & M & C & H & W & -> & _). repeat split.
Qed.

Lemma transport_nf_frame (a b : StFlow) :
  transport_nf a b ->
  m_rho b = m_rho a /\ m_wtm b = m_wtm a /\ m_cp b = m_cp a
  /\ m_hk b = m_hk a /\ m_wdot b = m_wdot a /\ m_flux b = m_flux a
  /\ m_dhk_dz b = m_dhk_dz a /\ m_qdotRadiation b = m_qdotRadiation a.
Proof.
  intros (t & ys & p & yb & V & TC & D & MD & DT & -> & _). repeat split.
Qed.

Lemma same_config_trans (s1 s2 s3 : StFlow) :
  same_config s1 s2 -> same_config s2 s3 -> same_config s1 s3.
Proof. unfold same_config. congruence. Qed.

Lemma same_config_sym (s1 s2 : StFlow) : same_config s1 s2 -> same_config s2 s1.
Proof. unfold same_config. congruence. Qed.

Lemma updateThermo_related (ext : Collaborators) (x : nat -> Q) (s1 s2 : StFlow) :
  same_config s1 s2 -> thermo_sized s1 -> thermo_sized s2 -> 1 <= m_points s1 ->
  let a1 := updateThermo ext x 0 (m_points s1 - 1) s1 in
  let a2 := updateThermo ext x 0 (m_points s2 - 1) s2 in
  thermo_nf s1 a1 /\ thermo_nf s2 a2
  /\ forall j, j < m_points s1 -> point_eq j a1 a2.
Proof.
  intros Hc T1 T2 Hp.
  pose proof (same_config_fields _ _ Hc) as (En & _ & Ep & _).
  cbv zeta. unfold updateThermo, for_upto.
  assert (E1 : S (m_points s1 - 1) = m_points s1) by lia.
  assert (E2 : S (m_points s2 - 1) = m_points s2) by lia.
  rewrite E1, E2.
  destruct (updateThermo_spec ext x s1 (m_points s1) T1 (Nat.le_refl _)) as [N1 P1].
  destruct (updateThermo_spec ext x s2 (m_points s2) T2 (Nat.le_refl _)) as [N2 P2].
  set (a1 := for_range 0 (m_points s1) (updateThermo_point ext x) s1) in *.
  set (a2 := for_range 0 (m_points s2) (updateThermo_point ext x) s2) in *.
  clearbody a1 a2.
  split; [exact N1|]. split; [exact N2|].
  intros j Hj.
  destruct (P1 j) as (A1 & A2 & A3 & A4); [lia|].
  destruct (P2 j) as (B1 & B2 & B3 & B4); [lia|].
  pose proof (gas_at_config s1 s2 x j Hc) as G.
  pose proof (thermo_nf_frame _ _ N1) as (C1 & _).
  pose proof (same_config_fields _ _ C1) as (Fn & _).
  unfold point_eq. rewrite A1, A2, A3, B1, B2, B3, G.
  split; [reflexivity|]. split; [reflexivity|]. split; [reflexivity|].
  intros k Hk. rewrite <- Fn in Hk.
  destruct (A4 k Hk) as [H1 H2]. destruct (B4 k) as [H3 H4]; [lia|].
  rewrite H1, H2, H3, H4, G. split; reflexivity.
Qed.

Lemma interval_is_eq (ext : Collaborators) (x : nat -> Q) (a1 a2 b1 b2 : StFlow)
    (j : nat) :
  same_config a1 a2 ->
  interval_is ext a1 x j b1 -> interval_is ext a2 x j b2 -> interval_eq a1 j b1 b2.
Proof.
  intros Hc (A1 & A2 & A3 & A4 & A5) (B1 & B2 & B3 & B4 & B5).
  pose proof (gas_mid_config a1 a2 x j Hc) as G.
  pose proof (config_reads _ _ x Hc) as (_ & _ & _ & _ & _ & _ & _ & _ & _ & Mi & _).
  pose proof (same_config_fields _ _ Hc)
    as (En & _ & _ & _ & _ & _ & Ew & _ & _ & _ & _ & _ & _ & _ & _ & _ & Em & Es
        & _ & _ & Ev & _).
  unfold interval_eq.
  rewrite A1, A2, B1, B2, G, Ev.
  split; [reflexivity|]. split; [reflexivity|]. split; [|split].
  - intros k Hk. rewrite A3 by exact Hk. rewrite En, B3 by lia.
    rewrite G, Em, Ew. reflexivity.
  - intros Hm k m Hk Hk'. rewrite A4 by assumption.
    rewrite Mi, B4; [rewrite G; reflexivity|congruence|lia|lia].
  - intros Hm Hs k Hk. rewrite A5 by assumption.
    rewrite B5; [rewrite G; reflexivity|congruence|congruence|lia].
Qed.

Lemma updateTransport_related (ext : Collaborators) (x : nat -> Q) (a1 a2 : StFlow) :
  same_config a1 a2 -> transport_sized a1 -> transport_sized a2 ->
  let b1 := updateTransport ext x 0 (m_points a1 - 1) a1 in
  let b2 := updateTransport ext x 0 (m_points a2 - 1) a2 in
  transport_nf a1 b1 /\ transport_nf a2 b2
  /\ forall j, j < m_points a1 - 1 -> interval_eq a1 j b1 b2.
Proof.
  intros Hc T1 T2.
  pose proof (same_config_fields _ _ Hc)
    as (En & _ & Ep & _ & _ & _ & _ & _ & _ & _ & _ & _ & _ & _ & _ & _ & Em & _).
  cbv zeta. unfold updateTransport. rewrite <- Em.
  destruct (m_do_multicomponent a1) eqn:Emc.
  - destruct (updateTransport_multi_spec ext x a1 (m_points a1 - 1) T1 Emc (Nat.le_refl _))
      as [N1 P1].
    assert (Emc2 : m_do_multicomponent a2 = true) by congruence.
    destruct (updateTransport_multi_spec ext x a2 (m_points a2 - 1) T2 Emc2 (Nat.le_refl _))
      as [N2 P2].
    split; [exact N1|]. split; [exact N2|].
    intros j Hj. apply (interval_is_eq ext x a1 a2); [exact Hc|apply P1; lia|apply P2; lia].
  - destruct (updateTransport_mixavg_spec ext x a1 (m_points a1 - 1) T1 Emc (Nat.le_refl _))
      as [N1 P1].
    assert (Emc2 : m_do_multicomponent a2 = false) by congruence.
    destruct (updateTransport_mixavg_spec ext x a2 (m_points a2 - 1) T2 Emc2 (Nat.le_refl _))
      as [N2 P2].
    split; [exact N1|]. split; [exact N2|].
    intros j Hj. apply (interval_is_eq ext x a1 a2); [exact Hc|apply P1; lia|apply P2; lia].
Qed.

(** *** Radiation of two domains *)

Lemma radiative_heat_loss_eq (hdr : Header) (x : nat -> Q) (j : nat) (a1 a2 : StFlow) :
  header_reads hdr -> header_view_eq a1 a2 -> j < m_points a1 ->
  radiative_heat_loss hdr x j a1 = radiative_heat_loss hdr x j a2.
Proof.
  intros Hh Hv Hj. pose proof Hv as (Hc & _).
  destruct (Hh a1 a2 x Hv) as (HX & _).
  pose proof (same_config_fields _ _ Hc)
    as (_ & _ & Ep & _ & _ & _ & _ & Epr & _ & _ & Ek & El & Er & _).
  pose proof (config_reads _ _ x Hc) as (_ & _ & _ & ET & _).
  unfold radiative_heat_loss. rewrite !ET, Ep, Epr, Ek, El, Er.
  destruct (m_kRadiating a2 !!! 1) as [kH2O|]; destruct (m_kRadiating a2 !!! 0) as [kCO2|];
    rewrite ?HX by exact Hj; reflexivity.
Qed.

Lemma computeRadiation_related (hdr : Header) (x : nat -> Q) (d1 d2 : StFlow) (hi : nat) :
  header_reads hdr -> header_view_eq d1 d2 ->
  hi <= length (m_qdotRadiation d1) -> hi <= length (m_qdotRadiation d2) ->
  hi <= m_points d1 ->
  exists q1 q2,
    computeRadiation hdr x 0 hi d1 = set_m_qdotRadiation q1 d1
    /\ computeRadiation hdr x 0 hi d2 = set_m_qdotRadiation q2 d2
    /\ forall j, j < hi -> q1 !!! j = q2 !!! j.
Proof.
  intros Hh Hv L1 L2 Hp. unfold computeRadiation.
  enough (H : exists q1 q2,
             for_range 0 hi
               (fun j st => set_m_qdotRadiation
                              (<[j := radiative_heat_loss hdr x j st]> (m_qdotRadiation st)) st)
               d1 = set_m_qdotRadiation q1 d1
             /\ for_range 0 hi
                  (fun j st => set_m_qdotRadiation
                                 (<[j := radiative_heat_loss hdr x j st]> (m_qdotRadiation st))
                                 st)
                  d2 = set_m_qdotRadiation q2 d2
             /\ length q1 = length (m_qdotRadiation d1)
             /\ length q2 = length (m_qdotRadiation d2)
             /\ forall j, j < hi -> q1 !!! j = q2 !!! j).
  { destruct H as (q1 & q2 & E1 & E2 & _ & _ & H). exists q1, q2. repeat split; assumption. }
  apply (for_range_rel
           (fun n c1 c2 =>
              exists q1 q2,
                c1 = set_m_qdotRadiation q1 d1 /\ c2 = set_m_qdotRadiation q2 d2
                /\ length q1 = length (m_qdotRadiation d1)
                /\ length q2 = length (m_qdotRadiation d2)
                /\ forall j, j < n -> q1 !!! j = q2 !!! j)).
  - lia.
  - exists (m_qdotRadiation d1), (m_qdotRadiation d2).
    split; [destruct d1; reflexivity|]. split; [destruct d2; reflexivity|].
    repeat split. intros j Hj. lia.
  - intros n c1 c2 Hn (q1 & q2 & -> & -> & S1 & S2 & Hq).
    assert (Er : radiative_heat_loss hdr x n (set_m_qdotRadiation q1 d1)
                 = radiative_heat_loss hdr x n (set_m_qdotRadiation q2 d2)).
    { apply radiative_heat_loss_eq; [exact Hh|exact Hv|].
      change (m_points (set_m_qdotRadiation q1 d1)) with (m_points d1). lia. }
    rewrite Er.
    set (v := radiative_heat_loss hdr x n (set_m_qdotRadiation q2 d2)). clearbody v.
    exists (<[n := v]> q1), (<[n := v]> q2).
    split; [reflexivity|]. split; [reflexivity|].
    split; [rewrite length_insert; exact S1|]. split; [rewrite length_insert; exact S2|].
    intros j Hj. destruct (Nat.eq_dec j n) as [->|Hne].
    + rewrite !list_lookup_total_insert_eq by lia. reflexivity.
    + rewrite !list_lookup_total_insert_ne by lia. apply Hq. lia.
Qed.

(** *** A full refresh of two domains *)

Lemma updateProperties_full (ext : Collaborators) (hdr : Header) (x : nat -> Q)
    (st : StFlow) :
  updateProperties ext hdr None x 0 (m_points st - 1) st
  = let a := updateThermo ext x 0 (m_points st - 1) st in
    let b := updateTransport ext x 0 (m_points st - 1) a in
    let c := set_m_kExcessRight
               (max_element x (index b c_offset_Y (m_points st - 1)) (m_nsp b))
               (set_m_kExcessLeft (max_element x (index b c_offset_Y 0) (m_nsp b)) b) in
    updateDiffFluxes hdr x 0 (m_points st - 1) c.
Proof.
  unfold updateProperties.
  replace (Nat.min (m_points st - 1 + 1) (m_points st - 1)) with (m_points st - 1) by lia.
  reflexivity.
Qed.

Lemma updateProperties_related (ext : Collaborators) (hdr : Header) (x : nat -> Q)
    (s1 s2 : StFlow) :
  header_reads hdr -> same_config s1 s2 -> 1 <= m_points s1 ->
  buffers_sized s1 -> buffers_sized s2 ->
  (m_do_soret s1 = true -> m_do_multicomponent s1 = true) ->
  refreshed s1 s2
    (updateProperties ext hdr None x 0 (m_points s1 - 1) s1)
    (updateProperties ext hdr None x 0 (m_points s2 - 1) s2).
Proof.
  intros Hh Hc Hp (T1 & X1 & F1 & _) (T2 & X2 & F2 & _) Hsm.
  rewrite !updateProperties_full. cbv zeta.
  destruct (updateThermo_related ext x s1 s2 Hc T1 T2 Hp) as (Na1 & Na2 & Hpt).
  set (a1 := updateThermo ext x 0 (m_points s1 - 1) s1) in *.
  set (a2 := updateThermo ext x 0 (m_points s2 - 1) s2) in *.
  clearbody a1 a2.
  pose proof (thermo_nf_frame _ _ Na1)
    as (Ca1 & Yb1 & Vi1 & Tc1 & Di1 & Md1 & Dt1 & Fl1 & Dh1 & Qd1).
  pose proof (thermo_nf_frame _ _ Na2)
    as (Ca2 & Yb2 & Vi2 & Tc2 & Di2 & Md2 & Dt2 & Fl2 & Dh2 & Qd2).
  assert (Ca : same_config a1 a2).
  { apply (same_config_trans _ s1); [apply same_config_sym, Ca1|].
    apply (same_config_trans _ s2); [exact Hc|exact Ca2]. }
  pose proof (same_config_fields _ _ Ca1)
    as (An1 & _ & Ap1 & _ & _ & _ & _ & _ & _ & _ & _ & _ & _ & _ & _ & _ & Am1 & As1 & _).
  pose proof (same_config_fields _ _ Ca2)
    as (An2 & _ & Ap2 & _ & _ & _ & _ & _ & _ & _ & _ & _ & _ & _ & _ & _ & Am2 & As2 & _).
  pose proof (same_config_fields _ _ Hc) as (En & _ & Ep & _).
  assert (Xa1 : transport_sized a1).
  { unfold transport_sized in *. rewrite Yb1, Vi1, Tc1, Di1, Md1, Dt1, <- An1, <- Ap1,
      <- Am1, <- As1. exact X1. }
  assert (Xa2 : transport_sized a2).
  { unfold transport_sized in *. rewrite Yb2, Vi2, Tc2, Di2, Md2, Dt2, <- An2, <- Ap2,
      <- Am2, <- As2. exact X2. }
  destruct (updateTransport_related ext x a1 a2 Ca Xa1 Xa2) as (Nb1 & Nb2 & Hiv).
  rewrite <- Ap1 in Nb1, Hiv. rewrite <- Ap2 in Nb2, Hiv.
  set (b1 := updateTransport ext x 0 (m_points s1 - 1) a1) in *.
  set (b2 := updateTransport ext x 0 (m_points s2 - 1) a2) in *.
  clearbody b1 b2.
  pose proof (transport_nf_shared _ _ Nb1) as (Cb1 & _).
  pose proof (transport_nf_shared _ _ Nb2) as (Cb2 & _).
  pose proof (transport_nf_frame _ _ Nb1) as (Rh1 & Wt1 & Cp1 & Hk1 & Wd1 & Gl1 & Eh1 & Rd1).
  pose proof (transport_nf_frame _ _ Nb2) as (Rh2 & Wt2 & Cp2 & Hk2 & Wd2 & Gl2 & Eh2 & Rd2).
  assert (Cb : same_config b1 b2).
  { apply (same_config_trans _ a1); [apply same_config_sym, Cb1|].
    apply (same_config_trans _ a2); [exact Ca|exact Cb2]. }
  assert (Csb1 : same_config s1 b1) by (apply (same_config_trans _ a1); assumption).
  assert (Csb2 : same_config s2 b2) by (apply (same_config_trans _ a2); assumption).
  pose proof (same_config_fields _ _ Csb1)
    as (Bn1 & _ & Bp1 & _ & _ & _ & _ & _ & _ & _ & _ & _ & _ & _ & _ & _ & Bm1 & Bs1 & _).
  pose proof (same_config_fields _ _ Csb2)
    as (Bn2 & _ & Bp2 & _ & _ & _ & _ & _ & _ & _ & _ & _ & _ & _ & _ & _ & Bm2 & Bs2 & _).
  pose proof (config_reads _ _ x Cb) as (Ix & _).
  (* the excess species *)
  rewrite !(Ix c_offset_Y), <- Bn1, <- Bn2, <- En, <- Ep.
  set (kl := max_element x (index b2 c_offset_Y 0) (m_nsp s1)).
  set (kr := max_element x (index b2 c_offset_Y (m_points s1 - 1)) (m_nsp s1)).
  clearbody kl kr.
  set (c1 := set_m_kExcessRight kr (set_m_kExcessLeft kl b1)).
  set (c2 := set_m_kExcessRight kr (set_m_kExcessLeft kl b2)).
  assert (Hview : header_view_eq c1 c2).
  { split; [exact Cb|]. split.
    - intros j Hj. change (m_points c1) with (m_points b1) in Hj.
      unfold point_eq.
      change (m_rho c1) with (m_rho b1). change (m_rho c2) with (m_rho b2).
      change (m_wtm c1) with (m_wtm b1). change (m_wtm c2) with (m_wtm b2).
      change (m_cp c1) with (m_cp b1). change (m_cp c2) with (m_cp b2).
      change (m_hk c1) with (m_hk b1). change (m_hk c2) with (m_hk b2).
      change (m_wdot c1) with (m_wdot b1). change (m_wdot c2) with (m_wdot b2).
      change (m_nsp c1) with (m_nsp b1).
      rewrite Rh1, Rh2, Wt1, Wt2, Cp1, Cp2, Hk1, Hk2, Wd1, Wd2, <- Bn1, An1.
      apply Hpt. lia.
    - intros j Hj. change (m_points c1) with (m_points b1) in Hj.
      change (m_visc c1) with (m_visc b1). change (m_visc c2) with (m_visc b2).
      change (m_tcon c1) with (m_tcon b1). change (m_tcon c2) with (m_tcon b2).
      destruct (Hiv j) as (I1 & I2 & _); [lia|]. split; assumption. }
  assert (Fc1 : flux_sized c1).
  { unfold flux_sized. change (m_flux c1) with (m_flux b1).
    change (m_nsp c1) with (m_nsp b1). change (m_points c1) with (m_points b1).
    rewrite Gl1, Fl1, <- Bn1, <- Bp1. exact F1. }
  assert (Fc2 : flux_sized c2).
  { unfold flux_sized. change (m_flux c2) with (m_flux b2).
    change (m_nsp c2) with (m_nsp b2). change (m_points c2) with (m_points b2).
    rewrite Gl2, Fl2, <- Bn2, <- Bp2. exact F2. }
  pose proof (updateDiffFluxes_related hdr x c1 c2 Hh Hview Fc1 Fc2) as Hfl.
  change (m_points c1) with (m_points b1) in Hfl.
  change (m_nsp c1) with (m_nsp b1) in Hfl.
  change (m_diff c1) with (m_diff b1) in Hfl. change (m_diff c2) with (m_diff b2) in Hfl.
  change (m_multidiff c1) with (m_multidiff b1) in Hfl.
  change (m_multidiff c2) with (m_multidiff b2) in Hfl.
  change (m_dthermal c1) with (m_dthermal b1) in Hfl.
  change (m_dthermal c2) with (m_dthermal b2) in Hfl.
  change (m_do_multicomponent c1) with (m_do_multicomponent b1) in Hfl.
  change (m_do_soret c1) with (m_do_soret b1) in Hfl.
  change (mindex c1) with (mindex b1) in Hfl.
  rewrite <- Bn1, <- Bp1, <- Bm1, <- Bs1 in Hfl.
  pose proof (config_reads _ _ x Csb1) as (_ & _ & _ & _ & _ & _ & _ & _ & _ & Mi1 & _).
  pose proof (config_reads _ _ x Ca1) as (_ & _ & _ & _ & _ & _ & _ & _ & _ & Mia & _).
  assert (Hfl' : flux_rel c1 c2 (columns_before (m_nsp s1) (m_points s1 - 1))
                   (updateDiffFluxes hdr x 0 (m_points s1 - 1) c1)
                   (updateDiffFluxes hdr x 0 (m_points s1 - 1) c2)).
  { apply Hfl.
    - intros j k Hj Hk. destruct (Hiv j Hj) as (_ & _ & I3 & _).
      rewrite An1. apply I3. lia.
    - intros Hm j k m Hj Hk Hk'. destruct (Hiv j Hj) as (_ & _ & _ & I4 & _).
      rewrite <- Mi1, Mia. apply I4; [congruence|lia|lia].
    - intros Hs j k Hj Hk. destruct (Hiv j Hj) as (_ & _ & _ & _ & I5).
      apply I5; [rewrite <- Am1; apply Hsm, Hs|congruence|lia]. }
  clear Hfl.
  destruct Hfl' as (fl1 & fl2 & -> & -> & _ & _ & _ & _ & Hcells).
  unfold refreshed. split; [exact Csb1|]. split; [exact Csb2|].
  split; [exact Hview|].
  split; [intros k j Hk Hj; apply Hcells; split; assumption|].
  split; [reflexivity|]. split; [reflexivity|].
  change (m_qdotRadiation (set_m_flux fl1 c1)) with (m_qdotRadiation b1).
  change (m_qdotRadiation (set_m_flux fl2 c2)) with (m_qdotRadiation b2).
  change (m_dhk_dz (set_m_flux fl1 c1)) with (m_dhk_dz b1).
  change (m_dhk_dz (set_m_flux fl2 c2)) with (m_dhk_dz b2).
  rewrite Rd1, Rd2, Eh1, Eh2, Qd1, Qd2, Dh1, Dh2. repeat split.
Qed.

(** *** A full evaluation of two domains *)

Lemma qdot_frame (q : list Q) (p : StFlow) :
  same_config p (set_m_qdotRadiation q p)
  /\ m_dhk_dz (set_m_qdotRadiation q p) = m_dhk_dz p
  /\ m_flux (set_m_qdotRadiation q p) = m_flux p
  /\ m_kExcessLeft (set_m_qdotRadiation q p) = m_kExcessLeft p
  /\ m_kExcessRight (set_m_qdotRadiation q p) = m_kExcessRight p
  /\ m_qdotRadiation (set_m_qdotRadiation q p) = q.
Proof. repeat split. Qed.

Lemma header_view_eq_qdot (q1 q2 : list Q) (p1 p2 : StFlow) :
  header_view_eq p1 p2 ->
  header_view_eq (set_m_qdotRadiation q1 p1) (set_m_qdotRadiation q2 p2).
Proof. intros H. exact H. Qed.

Lemma radiation_related (hdr : Header) (x : nat -> Q) (s1 s2 p1 p2 : StFlow) :
  header_reads hdr -> same_config s1 s2 -> refreshed s1 s2 p1 p2 ->
  (m_do_radiation s1 = true -> qdot_sized s1) ->
  (m_do_radiation s2 = true -> qdot_sized s2) ->
  (m_do_radiation s1 = false ->
   forall j, 1 <= j <= m_points s1 - 2 -> m_do_energy s1 !!! j = true ->
             m_qdotRadiation s1 !!! j = m_qdotRadiation s2 !!! j) ->
  exists e1 e2,
    (if m_do_radiation p1 then computeRadiation hdr x 0 (m_points s1 - 1) p1 else p1) = e1
    /\ (if m_do_radiation p2 then computeRadiation hdr x 0 (m_points s1 - 1) p2 else p2) = e2
    /\ assembly_eq e1 e2
    /\ same_config s1 e1 /\ same_config s2 e2
    /\ m_dhk_dz e1 = m_dhk_dz s1 /\ m_dhk_dz e2 = m_dhk_dz s2.
Proof.
  intros Hh Hc (C1 & C2 & Hv & Hfl & Kl & Kr & Q1 & Q2 & D1 & D2) Qs1 Qs2 Hq.
  pose proof (same_config_fields _ _ Hc)
    as (En & _ & Ep & _ & _ & _ & _ & _ & _ & _ & _ & _ & _ & Er & Ee & _).
  pose proof (same_config_fields _ _ C1)
    as (Pn1 & _ & Pp1 & _ & _ & _ & _ & _ & _ & _ & _ & _ & _ & Pr1 & Pe1 & _).
  pose proof (same_config_fields _ _ C2)
    as (Pn2 & _ & Pp2 & _ & _ & _ & _ & _ & _ & _ & _ & _ & _ & Pr2 & Pe2 & _).
  assert (Hrad :
    exists q1 q2,
      (if m_do_radiation p1 then computeRadiation hdr x 0 (m_points s1 - 1) p1 else p1)
      = set_m_qdotRadiation q1 p1
      /\ (if m_do_radiation p2 then computeRadiation hdr x 0 (m_points s1 - 1) p2 else p2)
         = set_m_qdotRadiation q2 p2
      /\ forall j, 1 <= j <= m_points s1 - 2 -> m_do_energy s1 !!! j = true ->
                   q1 !!! j = q2 !!! j).
  { rewrite <- Pr1, <- Pr2, <- Er. destruct (m_do_radiation s1) eqn:Erad.
    - destruct (computeRadiation_related hdr x p1 p2 (m_points s1 - 1) Hh Hv)
        as (q1 & q2 & E1 & E2 & Hqq).
      + rewrite Q1. apply Qs1. reflexivity.
      + rewrite Q2, Ep. apply Qs2. congruence.
      + lia.
      + exists q1, q2. split; [exact E1|]. split; [exact E2|].
        intros j Hj _. apply Hqq. lia.
    - exists (m_qdotRadiation p1), (m_qdotRadiation p2).
      split; [destruct p1; reflexivity|]. split; [destruct p2; reflexivity|].
      rewrite Q1, Q2. apply Hq. reflexivity. }
  destruct Hrad as (q1 & q2 & -> & -> & Hqq).
  exists (set_m_qdotRadiation q1 p1), (set_m_qdotRadiation q2 p2).
  split; [reflexivity|]. split; [reflexivity|].
  destruct (qdot_frame q1 p1) as (F1 & F2 & F3 & F4 & F5 & F6).
  destruct (qdot_frame q2 p2) as (G1 & G2 & G3 & G4 & G5 & G6).
  pose proof (same_config_fields _ _ F1)
    as (Fn & _ & Fp & _ & _ & _ & _ & _ & _ & _ & _ & _ & _ & _ & Fe & _).
  split; [|split; [|split; [|split]]].
  - split; [apply header_view_eq_qdot, Hv|]. split; [|split; [|split]].
    + intros k j Hk Hj. unfold flux. rewrite F3, G3. apply Hfl; lia.
    + intros j Hj He. rewrite F6, G6. apply Hqq; [lia|congruence].
    + rewrite F4, G4. exact Kl.
    + rewrite F5, G5. exact Kr.
  - apply (same_config_trans _ p1); assumption.
  - apply (same_config_trans _ p2); assumption.
  - rewrite F2. exact D1.
  - rewrite G2. exact D2.
Qed.

Lemma same_config_dhk (d : Array2D) (e : StFlow) : same_config e (set_m_dhk_dz d e).
Proof. reflexivity. Qed.

Lemma assemblers_related (hdr : Header) (x : nat -> Q) (o : (nat -> Q) * (nat -> Z))
    (rdt : Q) (jmax : nat) (e1 e2 : StFlow) :
  header_reads hdr -> assembly_eq e1 e2 -> dhk_sized e1 -> dhk_sized e2 ->
  0 < jmax <= m_points e2 - 1 ->
  let run := fun e : StFlow =>
    let o := evalContinuity e x o rdt 0 jmax in
    let o := evalMomentum hdr e x o rdt 0 jmax in
    let '(st, o) := evalEnergy hdr e x o rdt 0 jmax in
    let o := evalLambda st x o rdt 0 jmax in
    let o := evalElectricField st x o rdt 0 jmax in
    let o := evalSpecies hdr st x o rdt 0 jmax in
    (st, o) in
  snd (run e1) = snd (run e2)
  /\ same_config e1 (fst (run e1)) /\ same_config e2 (fst (run e2)).
Proof.
  intros Hh Hae Hz1 Hz2 Hw. cbv zeta beta.
  rewrite (evalContinuity_eq e1 e2 x Hae o rdt 0 jmax Hw).
  set (o1 := evalContinuity e2 x o rdt 0 jmax). clearbody o1.
  rewrite (evalMomentum_eq hdr e1 e2 x Hh Hae o1 rdt 0 jmax Hw).
  set (o2 := evalMomentum hdr e2 x o1 rdt 0 jmax). clearbody o2.
  destruct (evalEnergy_eq hdr e1 e2 x Hh Hae Hz1 Hz2 o2 rdt 0 jmax Hw)
    as (Eo & d1 & d2 & G1 & G2).
  destruct (evalEnergy hdr e1 x o2 rdt 0 jmax) as [g1 o3].
  destruct (evalEnergy hdr e2 x o2 rdt 0 jmax) as [g2 o3'].
  cbn [fst snd] in Eo, G1, G2. subst o3' g1 g2.
  pose proof (assembly_eq_dhk e1 e2 d1 d2 Hae) as Hag.
  rewrite (evalLambda_eq _ _ x Hag o3 rdt 0 jmax Hw).
  rewrite (evalElectricField_eq _ _ x Hag).
  rewrite (evalSpecies_eq hdr _ _ x Hh Hag _ rdt 0 jmax Hw).
  cbn [fst snd]. split; [reflexivity|]. split; apply same_config_dhk.
Qed.

Lemma eval_window_related (ext : Collaborators) (hdr : Header) (x : nat -> Q)
    (o : (nat -> Q) * (nat -> Z)) (rdt : Q) (s1 s2 : StFlow) :
  header_reads hdr -> same_config s1 s2 -> 2 <= m_points s1 ->
  buffers_sized s1 -> buffers_sized s2 ->
  (m_do_soret s1 = true -> m_do_multicomponent s1 = true) ->
  (m_do_radiation s1 = false ->
   forall j, 1 <= j <= m_points s1 - 2 -> m_do_energy s1 !!! j = true ->
             m_qdotRadiation s1 !!! j = m_qdotRadiation s2 !!! j) ->
  snd (eval_window ext hdr None x o rdt 0 (m_points s1 - 1) s1)
  = snd (eval_window ext hdr None x o rdt 0 (m_points s2 - 1) s2)
  /\ same_config s1 (fst (eval_window ext hdr None x o rdt 0 (m_points s1 - 1) s1))
  /\ same_config s2 (fst (eval_window ext hdr None x o rdt 0 (m_points s2 - 1) s2)).
Proof.
  intros Hh Hc Hp B1 B2 Hsm Hq.
  pose proof (updateProperties_related ext hdr x s1 s2 Hh Hc ltac:(lia) B1 B2 Hsm) as Hr.
  destruct B1 as (_ & _ & _ & Dz1 & Qs1). destruct B2 as (_ & _ & _ & Dz2 & Qs2).
  pose proof (same_config_fields _ _ Hc) as (En & _ & Ep & _).
  unfold eval_window.
  set (p1 := updateProperties ext hdr None x 0 (m_points s1 - 1) s1) in *.
  set (p2 := updateProperties ext hdr None x 0 (m_points s2 - 1) s2) in *.
  clearbody p1 p2. rewrite <- Ep.
  destruct (radiation_related hdr x s1 s2 p1 p2 Hh Hc Hr Qs1 Qs2 Hq)
    as (e1 & e2 & -> & -> & Hae & Ce1 & Ce2 & D1 & D2).
  pose proof (same_config_fields _ _ Ce1) as (Pn1 & _ & Pp1 & _).
  pose proof (same_config_fields _ _ Ce2) as (Pn2 & _ & Pp2 & _).
  assert (Hz1 : dhk_sized e1).
  { unfold dhk_sized. rewrite D1, <- Pn1, <- Pp1. exact Dz1. }
  assert (Hz2 : dhk_sized e2).
  { unfold dhk_sized. rewrite D2, <- Pn2, <- Pp2. exact Dz2. }
  assert (Hw : 0 < m_points s1 - 1 <= m_points e2 - 1) by lia.
  destruct (assemblers_related hdr x o rdt (m_points s1 - 1) e1 e2 Hh Hae Hz1 Hz2 Hw)
    as (Eo & K1 & K2).
  split; [exact Eo|].
  split; [apply (same_config_trans _ e1); [exact Ce1|exact K1]|].
  apply (same_config_trans _ e2); [exact Ce2|exact K2].
Qed.

(** The sample header reads what [header_reads] allows. *)
Lemma sample_header_reads : header_reads sample_header.
Proof.
  intros s1 s2 x Hv. pose proof Hv as (Hc & Hpt & Hiv).
  pose proof (same_config_fields _ _ Hc)
    as (En & _ & Ep & _ & _ & _ & Ew & _ & _ & Edz & _).
  pose proof (config_reads _ _ x Hc) as (Ix & Eu & _ & _ & _ & EY & Ez & _).
  unfold sample_header. cbn [X shear dVdz dTdz dYdz divHeatFlux wdot].
  split; [|split; [|split]].
  - intros k j Hj. destruct (Hpt j Hj) as (_ & Ewtm & _).
    rewrite Ewtm, EY, Ew. reflexivity.
  - intros j Hj.
    destruct (Hiv (j - 1)) as (V0 & T0); [lia|].
    destruct (Hiv j) as (V1 & T1); [lia|].
    unfold centred, upwind. rewrite !Ix, !Ez, !Eu, Edz, V0, V1, T0, T1.
    repeat split.
  - intros k j Hj Hk. unfold upwind. rewrite !Ix, !Eu, Edz. reflexivity.
  - intros k j Hj Hk. destruct (Hpt j Hj) as (_ & _ & _ & H).
    apply (H k Hk).
Qed.


Ltac sized_by_computation :=
  repeat split; vm_compute; try lia; try discriminate; try (intros; discriminate).



(** The transport coefficients are cached as well: full evaluations at two
    temperature profiles leave the same configuration and the same excess
    species, and the banded evaluation of one state vector then gives two
    flux-balance residuals for the second species at the left boundary. *)
Lemma banded_eval_reads_cached_transport :
  same_config (after_full_eval warm_ext sample_x sample_axi)
              (after_full_eval warm_ext hot_x sample_axi)
  /\ m_kExcessLeft (after_full_eval warm_ext sample_x sample_axi)
     = m_kExcessLeft (after_full_eval warm_ext hot_x sample_axi)
  /\ m_kExcessRight (after_full_eval warm_ext sample_x sample_axi)
     = m_kExcessRight (after_full_eval warm_ext hot_x sample_axi)
  /\ ~ Qeq
         (fst (snd (eval warm_ext sample_header (Some 0) sample_x (fst sample_outputs)
                      (snd sample_outputs) 0%Q
                      (after_full_eval warm_ext sample_x sample_axi)))
              (index sample_axi (c_offset_Y + 1) 0))
         (fst (snd (eval warm_ext sample_header (Some 0) sample_x (fst sample_outputs)
                      (snd sample_outputs) 0%Q
                      (after_full_eval warm_ext hot_x sample_axi)))
              (index sample_axi (c_offset_Y + 1) 0)).
Proof.
  split; [vm_compute; reflexivity|].
  split; [vm_compute; reflexivity|].
  split; [vm_compute; reflexivity|].
  intros H. vm_compute in H. discriminate.
Qed.

(** With radiation disabled the energy equation still subtracts the stored
    radiative loss: two domains of one configuration that differ in one
    stored entry give two energy residuals at the interior point. *)
Lemma full_eval_reads_stored_radiation :
  same_config sample_energy (set_m_qdotRadiation [0%Q; 5%Q; 0%Q] sample_energy)
  /\ ~ Qeq
         (fst (snd (eval sample_ext sample_header None sample_x (fst sample_outputs)
                      (snd sample_outputs) 0%Q sample_energy))
              (index sample_energy c_offset_T 1))
         (fst (snd (eval sample_ext sample_header None sample_x (fst sample_outputs)
                      (snd sample_outputs) 0%Q
                      (set_m_qdotRadiation [0%Q; 5%Q; 0%Q] sample_energy)))
              (index sample_energy c_offset_T 1)).
Proof.
  split; [vm_compute; reflexivity|].
  intros H. vm_compute in H. discriminate.
Qed.

(** * Further properties of the code *)

(** ** Boundary emissivities *)

Lemma Qlt_bool_iff (a b : Q) : Qlt_bool a b = true <-> Qlt a b.
Proof.
  unfold Qlt_bool. rewrite negb_true_iff. split.
  - intros H. apply Qnot_le_lt. intros Hle. apply Qle_bool_iff in Hle. congruence.
  - intros H. destruct (Qle_bool b a) eqn:E; [|reflexivity].
    apply Qle_bool_iff in E. exfalso. apply (Qlt_not_le _ _ H E).
Qed.

Lemma in_unit_interval_iff (e : Q) :
  Qlt_bool e 0 || Qlt_bool 1 e = false <-> Qle 0 e /\ Qle e 1.
Proof.
  rewrite orb_false_iff. split.
  - intros [H0 H1]. split.
    + apply Qnot_lt_le. intros H. apply Qlt_bool_iff in H. congruence.
    + apply Qnot_lt_le. intros H. apply Qlt_bool_iff in H. congruence.
  - intros [H0 H1]. split.
    + destruct (Qlt_bool e 0) eqn:E; [|reflexivity].
      apply Qlt_bool_iff in E. exfalso. apply (Qlt_not_le _ _ E H0).
    + destruct (Qlt_bool 1 e) eqn:E; [|reflexivity].
      apply Qlt_bool_iff in E. exfalso. apply (Qlt_not_le _ _ E H1).
Qed.



(** ** Resizing *)

Lemma vresize_lookup_total {A : Type} `{!Inhabited A} (n : nat) (v : A) (l : list A)
    (j : nat) :
  j < n -> vresize n v l !!! j = if decide (j < length l) then l !!! j else v.
Proof.
  intros Hj. unfold vresize. destruct (decide (j < length l)) as [Hl|Hl].
  - rewrite lookup_total_app_l by (rewrite length_take; lia).
    rewrite lookup_total_take. destruct (decide (j < n)); [reflexivity|lia].
  - rewrite lookup_total_app_r by (rewrite length_take; lia).
    rewrite length_take. apply lookup_total_replicate_2. lia.
Qed.

(** The members of the domain after [resize]. *)
Lemma resize_fields (nv n : nat) (st : StFlow) :
  let r := resize nv n st in
  (m_nsp r = m_nsp st /\ m_nv r = nv /\ m_points r = n
   /\ m_do_multicomponent r = m_do_multicomponent st
   /\ m_do_soret r = m_do_soret st /\ m_do_radiation r = m_do_radiation st
   /\ m_ybar r = m_ybar st)
  /\ (m_rho r = vresize n 0%Q (m_rho st)
      /\ m_wtm r = vresize n 0%Q (m_wtm st)
      /\ m_cp r = vresize n 0%Q (m_cp st)
      /\ m_visc r = vresize n 0%Q (m_visc st)
      /\ m_tcon r = vresize n 0%Q (m_tcon st)
      /\ m_diff r = vresize (m_nsp st * n) 0%Q (m_diff st))
  /\ (m_multidiff r
      = (if m_do_multicomponent st
         then vresize (m_nsp st * m_nsp st * n) 0%Q (m_multidiff st)
         else m_multidiff st)
      /\ m_dthermal r
         = (if m_do_multicomponent st
            then a2d_resize (m_nsp st) n 0%Q (m_dthermal st)
            else m_dthermal st))
  /\ (m_flux r = a2d_resize (m_nsp st) n 0%Q (m_flux st)
      /\ m_wdot r = a2d_resize (m_nsp st) n 0%Q (m_wdot st)
      /\ m_hk r = a2d_resize (m_nsp st) n 0%Q (m_hk st)
      /\ m_dhk_dz r = a2d_resize (m_nsp st) (n - 1) 0%Q (m_dhk_dz st))
  /\ (m_do_energy r = vresize n false (m_do_energy st)
      /\ m_qdotRadiation r = vresize n 0%Q (m_qdotRadiation st)
      /\ m_fixedtemp r = vresize n 0%Q (m_fixedtemp st)
      /\ m_dz r = vresize (n - 1) 0%Q (m_dz st)
      /\ m_z r = vresize n 0%Q (m_z st)).
Proof.
  destruct (m_do_multicomponent st) eqn:E; destruct st;
    simpl in E; subst; repeat split.
Qed.

Lemma a2d_resize_shape (n m : nat) (v : Q) (a : Array2D) :
  nRows (a2d_resize n m v a) = n /\ length (a2d_data (a2d_resize n m v a)) = n * m.
Proof. unfold a2d_resize. cbn [nRows a2d_data]. rewrite length_vresize. split; reflexivity. Qed.

Lemma mul_pred_le (a n : nat) : a * (n - 1) <= a * n.
Proof. apply Nat.mul_le_mono_l. lia. Qed.

Lemma resize_buffers_sized (nv n : nat) (st : StFlow) :
  m_nsp st <= length (m_ybar st) ->
  (m_do_soret st = true -> m_do_multicomponent st = true) ->
  buffers_sized (resize nv n st).
Proof.
  intros Hy Hsm.
  destruct (resize_fields nv n st)
    as ((En & Ev & Ep & Em & Es & Er & Ey)
        & (Rh & Wt & Cp & Vi & Tc & Di) & (Md & Dt) & (Fl & Wd & Hk & Dh)
        & (De & Qd & Ft & Dz & Zz)).
  set (r := resize nv n st) in *. clearbody r.
  unfold buffers_sized, thermo_sized, transport_sized, flux_sized, dhk_sized, qdot_sized.
  rewrite En, Ep, Em, Es, Er, Ey, Rh, Wt, Cp, Vi, Tc, Di, Md, Dt, Fl, Wd, Hk, Dh, Qd.
  rewrite !length_vresize.
  destruct (a2d_resize_shape (m_nsp st) n 0%Q (m_hk st)) as [-> ->].
  destruct (a2d_resize_shape (m_nsp st) n 0%Q (m_wdot st)) as [-> ->].
  destruct (a2d_resize_shape (m_nsp st) n 0%Q (m_flux st)) as [-> ->].
  destruct (a2d_resize_shape (m_nsp st) (n - 1) 0%Q (m_dhk_dz st)) as [-> ->].
  pose proof (mul_pred_le (m_nsp st) n).
  pose proof (mul_pred_le (m_nsp st * m_nsp st) n).
  split; [repeat split; lia|]. split.
  - split; [exact Hy|]. split; [lia|]. split; [lia|]. split; [lia|]. split.
    + intros Hm. rewrite Hm. rewrite length_vresize. lia.
    + intros Hs. rewrite (Hsm Hs).
      destruct (a2d_resize_shape (m_nsp st) n 0%Q (m_dthermal st)) as [-> ->].
      split; [reflexivity|lia].
  - split; [split; [reflexivity|lia]|]. split; [split; [reflexivity|lia]|].
    intros _. lia.
Qed.





(** ** The grid after setupGrid *)

Lemma buffers_sized_grid (zs dzs : list Q) (s : StFlow) :
  buffers_sized s -> buffers_sized (set_m_z zs (set_m_dz dzs s)).
Proof. intros H. exact H. Qed.

(** Whatever the coordinates, [setupGrid] ends in a state that is the
    resized domain with a grid written up to some index. *)
Lemma setupGrid_outcome (n : nat) (zin : nat -> Q) (st : StFlow) :
  let st0 := resize (m_nv st) n st in
  (strictly_increasing n zin
   /\ exists st', setupGrid n zin st = (Normal tt, st')
                  /\ grid_written zin st0 (Nat.max n 1) st')
  \/ (~ strictly_increasing n zin
      /\ exists st' j0,
           setupGrid n zin st
           = (Thrown (CanteraError "StFlow::setupGrid"
                        "grid points must be monotonically increasing"), st')
           /\ grid_written zin st0 j0 st').
Proof.
  intros st0.
  assert (Lz : length (m_z st0) = n) by (unfold st0; rewrite resize_m_z; apply length_vresize).
  assert (Ld : length (m_dz st0) = length (m_z st0) - 1).
  { rewrite Lz. unfold st0. rewrite resize_m_dz. apply length_vresize. }
  rewrite setupGrid_unfold. fold st0.
  pose proof (setupGrid_start zin st0) as Hstart.
  destruct (first_offender n zin) as [Hinc|(j0 & Hj0 & Hbad & Hpre)].
  - left. split; [exact Hinc|].
    destruct (Nat.eq_dec n 0) as [->|Hn].
    + eexists. split; [reflexivity|exact Hstart].
    + destruct (setupGrid_loop_succeeds zin st0 (n - 1) 1 _ (Nat.le_refl 1)
                  ltac:(lia) Ld ltac:(intros j Hj; apply Hinc; lia) Hstart)
        as (st' & E & W).
      exists st'. split; [exact E|].
      replace (Nat.max n 1) with (1 + (n - 1)) by lia. exact W.
  - right. split.
    + intros Hinc. apply (Qlt_not_le _ _ (Hinc j0 Hj0) Hbad).
    + destruct (setupGrid_loop_throws zin st0 (n - 1) 1 j0 _ (Nat.le_refl 1)
                  ltac:(lia) Ld ltac:(lia) Hbad Hpre Hstart) as (st' & E & W).
      exists st', j0. split; [exact E|exact W].
Qed.

Lemma grid_written_shape (zin : nat -> Q) (R st' : StFlow) (j0 n nv : nat) :
  buffers_sized R -> m_points R = n -> m_nv R = nv ->
  length (m_z R) = n -> length (m_dz R) = n - 1 ->
  grid_written zin R j0 st' ->
  buffers_sized st' /\ m_points st' = n /\ m_nv st' = nv
  /\ length (m_z st') = n /\ length (m_dz st') = n - 1.
Proof.
  intros Hb Hp Hv Lz Ld ((zs & dzs & ->) & L1 & L2 & _).
  split; [apply buffers_sized_grid, Hb|].
  split; [exact Hp|]. split; [exact Hv|]. split; congruence.
Qed.



(** ** Switching the energy equation *)

(** The loop of [solveEnergyEqn] and of [fixTemperature] over all points:
    [test] decides whether a flag counts as a change and [v] is the value
    stored. *)
Lemma switch_loop (test : bool -> bool) (v : bool) (st : StFlow) (n : nat) :
  let r := for_range 0 n
             (fun (i : nat) '(changed, st0) =>
                (if test (m_do_energy st0 !!! i) then true else changed : bool,
                 set_m_do_energy (<[i := v]> (m_do_energy st0)) st0))
             (false, st) in
  exists e,
    snd r = set_m_do_energy e st
    /\ length e = length (m_do_energy st)
    /\ (forall i, i < n -> i < length (m_do_energy st) -> e !!! i = v)
    /\ (forall i, n <= i -> e !!! i = m_do_energy st !!! i)
    /\ (fst r = true <-> exists i, i < n /\ test (m_do_energy st !!! i) = true).
Proof.
  cbv zeta.
  apply (for_range_ind
           (fun n (r : bool * StFlow) =>
              exists e,
                snd r = set_m_do_energy e st
                /\ length e = length (m_do_energy st)
                /\ (forall i, i < n -> i < length (m_do_energy st) -> e !!! i = v)
                /\ (forall i, n <= i -> e !!! i = m_do_energy st !!! i)
                /\ (fst r = true <-> exists i, i < n /\ test (m_do_energy st !!! i) = true))).
  - lia.
  - exists (m_do_energy st). split; [destruct st; reflexivity|].
    split; [reflexivity|]. split; [intros i Hi; lia|]. split; [reflexivity|].
    cbn [fst]. split; [discriminate|]. intros (i & Hi & _). lia.
  - intros k [c a] Hk (e & Ha & Hl & Hdone & Hrest & Hc). cbn [fst snd] in *. subst a.
    cbn [m_do_energy set_m_do_energy].
    exists (<[k := v]> e). split; [reflexivity|].
    split; [rewrite length_insert; exact Hl|]. split; [|split].
    + intros i Hi Hin. destruct (Nat.eq_dec i k) as [->|Hne].
      * apply list_lookup_total_insert_eq. lia.
      * rewrite list_lookup_total_insert_ne by lia. apply Hdone; [lia|exact Hin].
    + intros i Hi. rewrite list_lookup_total_insert_ne by lia. apply Hrest. lia.
    + rewrite (Hrest k) by lia. destruct (test (m_do_energy st !!! k)) eqn:Et.
      * split; [|reflexivity]. intros _. exists k. split; [lia|exact Et].
      * rewrite Hc. split.
        -- intros (i & Hi & Ei). exists i. split; [lia|exact Ei].
        -- intros (i & Hi & Ei). destruct (Nat.eq_dec i k) as [->|Hne]; [congruence|].
           exists i. split; [lia|exact Ei].
Qed.

(** The refinement flags after the three [setActive] calls. *)
Lemma refiner_three (b : bool) (st : StFlow) (c : nat) :
  m_refiner_active
    (refiner_setActive c_offset_T b
       (refiner_setActive c_offset_V b (refiner_setActive c_offset_U b st))) c
  = if (c =? c_offset_U) || (c =? c_offset_V) || (c =? c_offset_T)
    then b else m_refiner_active st c.
Proof.
  unfold refiner_setActive. cbn [m_refiner_active set_m_refiner_active].
  unfold c_offset_U, c_offset_V, c_offset_T.
  destruct c as [|[|[|c]]]; reflexivity.
Qed.

Lemma switched_fields (b changed : bool) (e : list bool) (st : StFlow) :
  m_do_energy (switched b changed e st) = e
  /\ m_jacUpdates (switched b changed e st)
     = (if changed then S (m_jacUpdates st) else m_jacUpdates st)
  /\ (forall c, m_refiner_active (switched b changed e st) c
                = if (c =? c_offset_U) || (c =? c_offset_V) || (c =? c_offset_T)
                  then b else m_refiner_active st c)
  /\ same_config (set_m_do_energy (m_do_energy st) (switched b changed e st)) st.
Proof.
  unfold switched. destruct changed.
  - repeat split. intros c. unfold needJacUpdate.
    change (m_refiner_active (set_m_jacUpdates ?n ?s)) with (m_refiner_active s).
    rewrite refiner_three. reflexivity.
  - repeat split. intros c. rewrite refiner_three. reflexivity.
Qed.

Lemma solveEnergyEqn_all_switched (st : StFlow) :
  exists e changed,
    solveEnergyEqn None st = switched true changed e st
    /\ length e = length (m_do_energy st)
    /\ (forall i, i < m_points st -> i < length (m_do_energy st) -> e !!! i = true)
    /\ (forall i, m_points st <= i -> e !!! i = m_do_energy st !!! i)
    /\ (changed = true <-> exists i, i < m_points st /\ m_do_energy st !!! i = false).
Proof.
  destruct (switch_loop negb true st (m_points st)) as (e & E & Hl & Hd & Hr & Hc).
  unfold solveEnergyEqn.
  destruct (for_range 0 (m_points st) _ (false, st)) as [c a].
  cbn [fst snd] in E, Hc. subst a.
  exists e, c. split; [reflexivity|]. split; [exact Hl|]. split; [exact Hd|].
  split; [exact Hr|]. rewrite Hc. split.
  - intros (i & Hi & Ei). exists i. split; [exact Hi|].
    destruct (m_do_energy st !!! i); [discriminate|reflexivity].
  - intros (i & Hi & Ei). exists i. split; [exact Hi|]. rewrite Ei. reflexivity.
Qed.

Lemma fixTemperature_all_switched (st : StFlow) :
  exists e changed,
    fixTemperature None st = switched false changed e st
    /\ length e = length (m_do_energy st)
    /\ (forall i, i < m_points st -> i < length (m_do_energy st) -> e !!! i = false)
    /\ (forall i, m_points st <= i -> e !!! i = m_do_energy st !!! i)
    /\ (changed = true <-> exists i, i < m_points st /\ m_do_energy st !!! i = true).
Proof.
  destruct (switch_loop (fun b => b) false st (m_points st)) as (e & E & Hl & Hd & Hr & Hc).
  unfold fixTemperature.
  destruct (for_range 0 (m_points st) _ (false, st)) as [c a].
  cbn [fst snd] in E, Hc. subst a.
  exists e, c. split; [reflexivity|]. split; [exact Hl|]. split; [exact Hd|].
  split; [exact Hr|]. exact Hc.
Qed.

Lemma list_eq_lookup_total {A : Type} `{!Inhabited A} (l1 l2 : list A) :
  length l1 = length l2 ->
  (forall i, i < length l1 -> l1 !!! i = l2 !!! i) -> l1 = l2.
Proof.
  intros Hl H. apply list_eq. intros i.
  destruct (Nat.lt_ge_cases i (length l1)) as [Hi|Hi].
  - rewrite (list_lookup_lookup_total_lt l1 i Hi).
    rewrite (list_lookup_lookup_total_lt l2 i) by lia. f_equal. apply H, Hi.
  - rewrite !lookup_ge_None_2 by lia. reflexivity.
Qed.

(** X5.  [solveEnergyEqn()] for all points enables the energy equation at
    every point of the domain, turns grid refinement on for velocity,
    spread rate and temperature and leaves the other refinement flags
    alone.  It raises the Jacobian signal exactly when some point was
    disabled: on a domain that already solves the energy equation
    everywhere the flags stay as they are and no signal is raised. *)
Theorem solveEnergyEqn_all_points :
  forall (st : StFlow),
    m_points st <= length (m_do_energy st) ->
    let st' := solveEnergyEqn None st in
    (forall i, i < m_points st -> m_do_energy st' !!! i = true)
    /\ (forall i, m_points st <= i -> m_do_energy st' !!! i = m_do_energy st !!! i)
    /\ (forall c, m_refiner_active st' c
                  = if (c =? c_offset_U) || (c =? c_offset_V) || (c =? c_offset_T)
                    then true else m_refiner_active st c)
    /\ ((exists i, i < m_points st /\ m_do_energy st !!! i = false) ->
        m_jacUpdates st' = S (m_jacUpdates st))
    /\ ((forall i, i < m_points st -> m_do_energy st !!! i = true) ->
        m_jacUpdates st' = m_jacUpdates st /\ m_do_energy st' = m_do_energy st).
Proof.
  intros st Hlen st'.
  destruct (solveEnergyEqn_all_switched st) as (e & c & E & Hl & Hd & Hr & Hc).
  unfold st'. rewrite E.
  destruct (switched_fields true c e st) as (Fe & Fj & Fr & _).
  rewrite Fe, Fj. split; [|split; [|split; [|split]]].
  - intros i Hi. apply Hd; lia.
  - exact Hr.
  - exact Fr.
  - intros Hex. rewrite (proj2 Hc Hex). reflexivity.
  - intros Hall. assert (Ec : c = false).
    { destruct c; [|reflexivity]. destruct (proj1 Hc eq_refl) as (i & Hi & Ei).
      rewrite (Hall i Hi) in Ei. discriminate. }
    rewrite Ec. split; [reflexivity|].
    apply list_eq_lookup_total; [exact Hl|]. intros i Hi.
    destruct (Nat.lt_ge_cases i (m_points st)) as [Hp|Hp].
    + rewrite Hd by lia. symmetry. apply Hall, Hp.
    + apply Hr, Hp.
Qed.

Lemma solveEnergyEqn_all_points_witness :
  m_do_energy (solveEnergyEqn None sample_axi) !!! 1 = true.
Proof.
  destruct (solveEnergyEqn_all_points sample_axi) as (H & _).
  - vm_compute. lia.
  - apply H. vm_compute. lia.
Defined.

(** X6.  [fixTemperature] is the mirror image: for one point it disables
    the flag of that point, for all points every flag of the domain; it
    turns grid refinement off for velocity, spread rate and temperature;
    and it raises the Jacobian signal exactly when a flag it visits was
    enabled. *)
Theorem fixTemperature_disables :
  forall (st : StFlow),
    m_points st <= length (m_do_energy st) ->
    (let st' := fixTemperature None st in
     (forall i, i < m_points st -> m_do_energy st' !!! i = false)
     /\ (forall i, m_points st <= i -> m_do_energy st' !!! i = m_do_energy st !!! i)
     /\ (forall c, m_refiner_active st' c
                   = if (c =? c_offset_U) || (c =? c_offset_V) || (c =? c_offset_T)
                     then false else m_refiner_active st c)
     /\ ((exists i, i < m_points st /\ m_do_energy st !!! i = true) ->
         m_jacUpdates st' = S (m_jacUpdates st))
     /\ ((forall i, i < m_points st -> m_do_energy st !!! i = false) ->
         m_jacUpdates st' = m_jacUpdates st /\ m_do_energy st' = m_do_energy st))
    /\ (forall j, j < m_points st ->
          let st' := fixTemperature (Some j) st in
          m_do_energy st' = <[j := false]> (m_do_energy st)
          /\ m_do_energy st' !!! j = false
          /\ m_jacUpdates st'
             = (if (m_do_energy st !!! j : bool) then S (m_jacUpdates st)
                else m_jacUpdates st)
          /\ (forall c, m_refiner_active st' c
                        = if (c =? c_offset_U) || (c =? c_offset_V) || (c =? c_offset_T)
                          then false else m_refiner_active st c)).
Proof.
  intros st Hlen. split.
  - intros st'.
    destruct (fixTemperature_all_switched st) as (e & c & E & Hl & Hd & Hr & Hc).
    unfold st'. rewrite E.
    destruct (switched_fields false c e st) as (Fe & Fj & Fr & _).
    rewrite Fe, Fj. split; [|split; [|split; [|split]]].
    + intros i Hi. apply Hd; lia.
    + exact Hr.
    + exact Fr.
    + intros Hex. rewrite (proj2 Hc Hex). reflexivity.
    + intros Hall. assert (Ec : c = false).
      { destruct c; [|reflexivity]. destruct (proj1 Hc eq_refl) as (i & Hi & Ei).
        rewrite (Hall i Hi) in Ei. discriminate. }
      rewrite Ec. split; [reflexivity|].
      apply list_eq_lookup_total; [exact Hl|]. intros i Hi.
      destruct (Nat.lt_ge_cases i (m_points st)) as [Hp|Hp].
      * rewrite Hd by lia. symmetry. apply Hall, Hp.
      * apply Hr, Hp.
  - intros j Hj st'.
    assert (E : st' = switched false (m_do_energy st !!! j)
                        (<[j := false]> (m_do_energy st)) st).
    { unfold st', fixTemperature, switched.
      destruct (m_do_energy st !!! j); reflexivity. }
    rewrite E.
    destruct (switched_fields false (m_do_energy st !!! j)
                (<[j := false]> (m_do_energy st)) st) as (Fe & Fj & Fr & _).
    rewrite Fe, Fj. split; [reflexivity|]. split; [|split; [reflexivity|exact Fr]].
    apply list_lookup_total_insert_eq. lia.
Qed.

Lemma fixTemperature_disables_witness :
  m_do_energy (fixTemperature None sample_radiating) !!! 1 = false
  /\ m_jacUpdates (fixTemperature (Some 1) sample_radiating)
     = S (m_jacUpdates sample_radiating).
Proof.
  destruct (fixTemperature_disables sample_radiating) as ((H & _) & Hp).
  - vm_compute. lia.
  - split; [apply H; vm_compute; lia|].
    destruct (Hp 1) as (_ & _ & Hj & _); [vm_compute; lia|]. exact Hj.
Defined.

(** X7.  Enabling the energy equation at a point where it was off and
    then fixing the temperature there again restores the energy flags of
    the domain, at the price of two Jacobian signals; enabling it a second
    time changes no flag and raises no further signal. *)
Theorem energy_switch_round_trip :
  forall (st : StFlow) (j : nat),
    j < length (m_do_energy st) -> m_do_energy st !!! j = false ->
    m_do_energy (fixTemperature (Some j) (solveEnergyEqn (Some j) st)) = m_do_energy st
    /\ m_jacUpdates (fixTemperature (Some j) (solveEnergyEqn (Some j) st))
       = S (S (m_jacUpdates st))
    /\ m_do_energy (solveEnergyEqn (Some j) (solveEnergyEqn (Some j) st))
       = m_do_energy (solveEnergyEqn (Some j) st)
    /\ m_jacUpdates (solveEnergyEqn (Some j) (solveEnergyEqn (Some j) st))
       = m_jacUpdates (solveEnergyEqn (Some j) st).
Proof.
  intros st j Hj Hoff.
  assert (E1 : solveEnergyEqn (Some j) st
               = switched true true (<[j := true]> (m_do_energy st)) st).
  { unfold solveEnergyEqn, switched. rewrite Hoff. reflexivity. }
  destruct (switched_fields true true (<[j := true]> (m_do_energy st)) st)
    as (Fe & Fj & _).
  set (s1 := solveEnergyEqn (Some j) st) in *. rewrite <- E1 in Fe, Fj. clearbody s1.
  assert (On : m_do_energy s1 !!! j = true).
  { rewrite Fe. apply list_lookup_total_insert_eq. exact Hj. }
  assert (E2 : fixTemperature (Some j) s1
               = switched false true (<[j := false]> (m_do_energy s1)) s1).
  { unfold fixTemperature, switched. rewrite On. reflexivity. }
  assert (E3 : solveEnergyEqn (Some j) s1
               = switched true false (<[j := true]> (m_do_energy s1)) s1).
  { unfold solveEnergyEqn, switched. rewrite On. reflexivity. }
  rewrite E2, E3.
  destruct (switched_fields false true (<[j := false]> (m_do_energy s1)) s1)
    as (Ge & Gj & _).
  destruct (switched_fields true false (<[j := true]> (m_do_energy s1)) s1)
    as (He & Hj' & _).
  rewrite Ge, Gj, He, Hj', Fe, Fj.
  rewrite !list_insert_insert_eq.
  split; [|split; [reflexivity|split; reflexivity]].
  apply list_insert_id. rewrite <- Hoff. apply list_lookup_lookup_total_lt. exact Hj.
Qed.

Lemma energy_switch_round_trip_witness :
  m_do_energy (fixTemperature (Some 1) (solveEnergyEqn (Some 1) sample_axi))
  = m_do_energy sample_axi.
Proof.
  destruct (energy_switch_round_trip sample_axi 1) as (H & _).
  - vm_compute. lia.
  - reflexivity.
  - exact H.
Defined.

(** ** _finalize *)

Lemma finalize_unfold (hdr : Header) (x : nat -> Q) (st : StFlow) :
  negb (m_do_multicomponent st) && m_do_soret st = false ->
  _finalize hdr x st
  = finalize_fixed_point hdr x
      (if (m_do_energy st !!! 0 : bool)
       then solveEnergyEqn None (finalize_temps hdr x st)
       else finalize_temps hdr x st).
Proof.
  intros H. unfold _finalize. rewrite H. reflexivity.
Qed.

Lemma finalize_temps_spec (hdr : Header) (x : nat -> Q) (st : StFlow) :
  exists F,
    finalize_temps hdr x st = set_m_fixedtemp F st
    /\ length F = length (m_fixedtemp st)
    /\ forall j, j < m_points st -> j < length (m_fixedtemp st) ->
         F !!! j
         = if (m_do_energy st !!! 0) || (length (m_zfix st) =? 0)
           then T st x j
           else linearInterp hdr ((z st j - z st 0) / (z st (m_points st - 1) - z st 0))%Q
                  (m_zfix st) (m_tfix st).
Proof.
  unfold finalize_temps. cbv zeta.
  set (c := (m_do_energy st !!! 0) || (length (m_zfix st) =? 0)).
  enough (H : forall n,
             exists F,
               for_range 0 n
                 (fun j st0 =>
                    if c then set_m_fixedtemp (<[j := T st0 x j]> (m_fixedtemp st0)) st0
                    else set_m_fixedtemp
                           (<[j := linearInterp hdr
                                     ((z st0 j - z st0 0)
                                      / (z st0 (m_points st0 - 1) - z st0 0))%Q
                                     (m_zfix st0) (m_tfix st0)]> (m_fixedtemp st0)) st0) st
               = set_m_fixedtemp F st
               /\ length F = length (m_fixedtemp st)
               /\ forall j, j < n -> j < length (m_fixedtemp st) ->
                    F !!! j
                    = if c then T st x j
                      else linearInterp hdr
                             ((z st j - z st 0) / (z st (m_points st - 1) - z st 0))%Q
                             (m_zfix st) (m_tfix st)).
  { apply H. }
  intros n.
  apply (for_range_ind
           (fun n a =>
              exists F,
                a = set_m_fixedtemp F st
                /\ length F = length (m_fixedtemp st)
                /\ forall j, j < n -> j < length (m_fixedtemp st) ->
                     F !!! j
                     = if c then T st x j
                       else linearInterp hdr
                              ((z st j - z st 0) / (z st (m_points st - 1) - z st 0))%Q
                              (m_zfix st) (m_tfix st))).
  - lia.
  - exists (m_fixedtemp st). split; [destruct st; reflexivity|].
    split; [reflexivity|]. intros j Hj. lia.
  - intros k a Hk (F & -> & Hl & HF).
    set (v := if c then T st x k
              else linearInterp hdr
                     ((z st k - z st 0) / (z st (m_points st - 1) - z st 0))%Q
                     (m_zfix st) (m_tfix st)).
    exists (<[k := v]> F). split; [|split].
    + unfold v. destruct c; reflexivity.
    + rewrite length_insert. exact Hl.
    + intros j Hj Hin. destruct (Nat.eq_dec j k) as [->|Hne].
      * rewrite list_lookup_total_insert_eq by lia. reflexivity.
      * rewrite list_lookup_total_insert_ne by lia. apply HF; [lia|exact Hin].
Qed.

Lemma finalize_fixed_point_normal (hdr : Header) (x : nat -> Q) (st : StFlow) :
  fst (finalize_fixed_point hdr x st) = Normal tt
  /\ exists zf tf, snd (finalize_fixed_point hdr x st) = set_m_zfixed zf (set_m_tfixed tf st).
Proof.
  unfold finalize_fixed_point.
  assert (Hid : st = set_m_zfixed (m_zfixed st) (set_m_tfixed (m_tfixed st) st))
    by (destruct st; reflexivity).
  destruct (m_isFree st && negb (Qeq_bool (m_tfixed st) (Undef hdr))).
  - destruct (existsb _ _).
    + split; [reflexivity|]. eexists _, _. exact Hid.
    + destruct (find _ _).
      * split; [reflexivity|]. eexists _, _. reflexivity.
      * split; [reflexivity|]. eexists _, _. exact Hid.
  - split; [reflexivity|]. eexists _, _. exact Hid.
Qed.

(** X8.  When the Soret check passes, [_finalize] returns normally.  If
    the energy equation is solved at the first point, or no reference
    profile is stored, it captures the temperatures of the supplied
    solution as the fixed temperatures of all points; in the first case it
    also enables the energy equation at every point, in the second it
    leaves flags and Jacobian signal alone. *)
Theorem finalize_captures_temperatures :
  forall (hdr : Header) (x : nat -> Q) (st : StFlow),
    negb (m_do_multicomponent st) && m_do_soret st = false ->
    m_do_energy st !!! 0 = true \/ m_zfix st = [] ->
    m_points st <= length (m_fixedtemp st) ->
    let r := _finalize hdr x st in
    fst r = Normal tt
    /\ (forall j, j < m_points st -> T_fixed (snd r) j = T st x j)
    /\ (m_do_energy st !!! 0 = true -> m_points st <= length (m_do_energy st) ->
        forall i, i < m_points st -> m_do_energy (snd r) !!! i = true)
    /\ (m_do_energy st !!! 0 = false ->
        m_do_energy (snd r) = m_do_energy st /\ m_jacUpdates (snd r) = m_jacUpdates st).
Proof.
  intros hdr x st Hok Hcap Hlen r. unfold r. rewrite (finalize_unfold hdr x st Hok).
  destruct (finalize_temps_spec hdr x st) as (F & E1 & Hl & HF).
  rewrite E1.
  assert (Hc : (m_do_energy st !!! 0) || (length (m_zfix st) =? 0) = true).
  { destruct Hcap as [He|Hz]; [rewrite He; reflexivity|].
    rewrite Hz. apply orb_true_r. }
  rewrite Hc in HF.
  destruct (m_do_energy st !!! 0) eqn:Ee.
  - destruct (solveEnergyEqn_all_switched (set_m_fixedtemp F st))
      as (e & c & E2 & Hel & Hed & _).
    rewrite E2.
    destruct (finalize_fixed_point_normal hdr x (switched true c e (set_m_fixedtemp F st)))
      as (Hn & zf & tf & E3).
    rewrite E3. split; [exact Hn|].
    destruct (switched_fields true c e (set_m_fixedtemp F st)) as (Fe & _).
    split; [|split].
    + intros j Hj. unfold T_fixed.
      change (m_fixedtemp (set_m_zfixed zf (set_m_tfixed tf
                (switched true c e (set_m_fixedtemp F st)))))
        with (m_fixedtemp (switched true c e (set_m_fixedtemp F st))).
      replace (m_fixedtemp (switched true c e (set_m_fixedtemp F st))) with F
        by (unfold switched; destruct c; reflexivity).
      apply HF; lia.
    + intros _ Hle i Hi.
      change (m_do_energy (set_m_zfixed zf (set_m_tfixed tf
                (switched true c e (set_m_fixedtemp F st)))))
        with (m_do_energy (switched true c e (set_m_fixedtemp F st))).
      rewrite Fe. apply Hed; [exact Hi|].
      change (m_do_energy (set_m_fixedtemp F st)) with (m_do_energy st). lia.
    + intros Habs. discriminate Habs.
  - destruct (finalize_fixed_point_normal hdr x (set_m_fixedtemp F st))
      as (Hn & zf & tf & E3).
    rewrite E3. split; [exact Hn|]. split; [|split].
    + intros j Hj. unfold T_fixed. cbn [m_fixedtemp set_m_zfixed set_m_tfixed set_m_fixedtemp].
      apply HF; lia.
    + intros Habs. discriminate Habs.
    + intros _. split; reflexivity.
Qed.

Lemma finalize_captures_temperatures_witness :
  fst (_finalize sample_header sample_x sample_axi) = Normal tt
  /\ T_fixed (snd (_finalize sample_header sample_x sample_axi)) 1
     = T sample_axi sample_x 1.
Proof.
  destruct (finalize_captures_temperatures sample_header sample_x sample_axi)
    as (Hn & HT & _).
  - reflexivity.
  - right. reflexivity.
  - vm_compute. lia.
  - split; [exact Hn|]. apply HT. vm_compute. lia.
Defined.

Lemma finalize_state (hdr : Header) (x : nat -> Q) (st : StFlow) :
  negb (m_do_multicomponent st) && m_do_soret st = false ->
  exists st2 F,
    _finalize hdr x st = finalize_fixed_point hdr x st2
    /\ (forall j, j < m_points st -> j < length (m_fixedtemp st) ->
          F !!! j
          = if (m_do_energy st !!! 0) || (length (m_zfix st) =? 0)
            then T st x j
            else linearInterp hdr
                   ((z st j - z st 0) / (z st (m_points st - 1) - z st 0))%Q
                   (m_zfix st) (m_tfix st))
    /\ m_fixedtemp st2 = F
    /\ ((m_do_energy st !!! 0 = false -> m_do_energy st2 = m_do_energy st))
    /\ m_nv st2 = m_nv st /\ m_points st2 = m_points st /\ m_z st2 = m_z st
    /\ m_isFree st2 = m_isFree st /\ m_tfixed st2 = m_tfixed st
    /\ m_zfixed st2 = m_zfixed st.
Proof.
  intros Hok. rewrite (finalize_unfold hdr x st Hok).
  destruct (finalize_temps_spec hdr x st) as (F & E1 & Hl & HF).
  rewrite E1. destruct (m_do_energy st !!! 0) eqn:Ee.
  - destruct (solveEnergyEqn_all_switched (set_m_fixedtemp F st)) as (e & c & E2 & _).
    rewrite E2. exists (switched true c e (set_m_fixedtemp F st)), F.
    split; [reflexivity|]. split; [exact HF|].
    unfold switched. destruct c; repeat split; discriminate.
  - exists (set_m_fixedtemp F st), F.
    split; [reflexivity|]. split; [exact HF|]. repeat split.
Qed.

(** X9.  [_finalize] and [evalEnergy] compose: on a domain that keeps the
    temperature fixed and stores no reference profile, the solution
    passed to [_finalize] satisfies the fixed-temperature equations, so
    the temperature residual of every interior point at which the energy
    equation is off is zero, and the entry is marked algebraic. *)
Theorem finalize_then_temperature_residual_zero :
  forall (hdr : Header) (x : nat -> Q) (st : StFlow) (o : (nat -> Q) * (nat -> Z))
         (rdt : Q) (jmin jmax j : nat),
    negb (m_do_multicomponent st) && m_do_soret st = false ->
    m_do_energy st !!! 0 = false -> m_zfix st = [] ->
    m_points st <= length (m_fixedtemp st) -> 0 < m_nv st ->
    1 <= j <= m_points st - 2 -> jmin <= j <= jmax ->
    m_do_energy st !!! j = false ->
    let st' := snd (_finalize hdr x st) in
    let r := evalEnergy hdr st' x o rdt jmin jmax in
    Qeq (fst (snd r) (index st c_offset_T j)) 0
    /\ snd (snd r) (index st c_offset_T j) = 0%Z.
Proof.
  intros hdr x st o rdt jmin jmax j Hok He Hz Hlen Hnv Hj Hw Hoff st' r.
  destruct (finalize_state hdr x st Hok)
    as (st2 & F & E & HF & EF & Een & Env & Ep & Ezz & _).
  destruct (finalize_fixed_point_normal hdr x st2) as (_ & zf & tf & E3).
  assert (Est : st' = set_m_zfixed zf (set_m_tfixed tf st2)).
  { unfold st'. rewrite E. exact E3. }
  assert (Nv : m_nv st' = m_nv st) by (rewrite Est; exact Env).
  assert (Pt : m_points st' = m_points st) by (rewrite Est; exact Ep).
  assert (Ft : m_fixedtemp st' = F) by (rewrite Est; exact EF).
  assert (En : m_do_energy st' = m_do_energy st) by (rewrite Est; exact (Een He)).
  clearbody st'.
  destruct (evalEnergy_interior hdr st' x o rdt jmin jmax) as (_ & Hdis & _);
    [rewrite Nv; exact Hnv|].
  fold r in Hdis. destruct (Hdis j) as (Hr & Hd).
  - rewrite Pt. lia.
  - rewrite En. exact Hoff.
  - assert (Ix : index st' c_offset_T j = index st c_offset_T j)
      by (unfold index; rewrite Nv; reflexivity).
    rewrite Ix in Hr, Hd. split; [|exact Hd].
    rewrite Hr. unfold T_fixed, T. rewrite Ix, Ft, HF by lia.
    rewrite He, Hz. cbn [length Nat.eqb orb]. unfold T. ring.
Qed.

Lemma finalize_then_temperature_residual_zero_witness :
  Qeq (fst (snd (evalEnergy sample_header
                   (snd (_finalize sample_header sample_x sample_axi))
                   sample_x sample_outputs 0%Q 0 2))
           (index sample_axi c_offset_T 1)) 0.
Proof.
  destruct (finalize_then_temperature_residual_zero sample_header sample_x sample_axi
              sample_outputs 0%Q 0 2 1) as (H & _).
  - reflexivity.
  - reflexivity.
  - reflexivity.
  - vm_compute. lia.
  - vm_compute. lia.
  - vm_compute. lia.
  - lia.
  - reflexivity.
  - exact H.
Defined.

Lemma existsb_seq_iff (P : nat -> bool) (n : nat) :
  existsb P (seq 0 n) = true <-> exists j, j < n /\ P j = true.
Proof.
  rewrite existsb_exists. split.
  - intros (j & Hin & Hp). apply in_seq in Hin. exists j. split; [lia|exact Hp].
  - intros (j & Hj & Hp). exists j. split; [apply in_seq; lia|exact Hp].
Qed.

Lemma finalize_fixed_point_spec (hdr : Header) (x : nat -> Q) (st : StFlow) :
  m_isFree st = true -> Qeq_bool (m_tfixed st) (Undef hdr) = false ->
  let st' := snd (finalize_fixed_point hdr x st) in
  (fixed_point_on_grid st -> st' = st)
  /\ (~ fixed_point_on_grid st ->
      forall j0, j0 < m_points st - 1 -> crosses_fixed_temperature st x j0 ->
        (forall j, j < j0 -> ~ crosses_fixed_temperature st x j) ->
        st' = set_m_zfixed (z st (j0 + 1)) (set_m_tfixed (T st x (j0 + 1)) st))
  /\ (~ fixed_point_on_grid st ->
      (forall j, j < m_points st - 1 -> ~ crosses_fixed_temperature st x j) ->
      st' = st).
Proof.
  intros Hf Ht. cbv zeta. unfold finalize_fixed_point. rewrite Hf, Ht. cbn [andb negb].
  assert (Hgrid : existsb (fun j => Qeq_bool (z st j) (m_zfixed st)) (seq 0 (m_points st))
                  = true <-> fixed_point_on_grid st).
  { rewrite existsb_seq_iff. unfold fixed_point_on_grid.
    split; intros (j & Hj & H); exists j; (split; [exact Hj|]).
    - apply Qeq_bool_iff, H.
    - apply Qeq_bool_iff, H. }
  destruct (existsb _ (seq 0 (m_points st))) eqn:Eg.
  - split; [reflexivity|]. split; intros Hn; exfalso; apply Hn, Hgrid; reflexivity.
  - assert (Hng : ~ fixed_point_on_grid st) by (intros H; apply Hgrid in H; discriminate).
    split; [intros H; contradiction|]. split.
    + intros _ j0 Hj0 Hc Hfirst.
      rewrite (find_seq_first _ 0 (m_points st - 1) j0).
      * reflexivity.
      * lia.
      * apply Qle_bool_iff, Hc.
      * intros i Hi. destruct (Qle_bool _ 0) eqn:Ec; [|reflexivity].
        exfalso. apply (Hfirst i); [lia|]. apply Qle_bool_iff, Ec.
    + intros _ Hnone. rewrite find_seq_none; [reflexivity|].
      intros i Hi. destruct (Qle_bool _ 0) eqn:Ec; [|reflexivity].
      exfalso. apply (Hnone i); [lia|]. apply Qle_bool_iff, Ec.
Qed.

(** X10.  On a free flow with a defined fixed temperature, [_finalize]
    keeps the fixed point when it already lies on the grid.  Otherwise it
    moves it to the right end of the first interval on which the
    temperature profile crosses the fixed temperature, taking the
    temperature of that grid point, so that the fixed point lies on the
    grid afterwards; when the profile never crosses, the fixed point stays
    where it was, off the grid. *)
Theorem finalize_anchors_fixed_point :
  forall (hdr : Header) (x : nat -> Q) (st : StFlow),
    negb (m_do_multicomponent st) && m_do_soret st = false ->
    m_isFree st = true -> Qeq_bool (m_tfixed st) (Undef hdr) = false ->
    let st' := snd (_finalize hdr x st) in
    (fixed_point_on_grid st ->
       m_zfixed st' = m_zfixed st /\ m_tfixed st' = m_tfixed st)
    /\ (~ fixed_point_on_grid st ->
        forall j0, j0 < m_points st - 1 -> crosses_fixed_temperature st x j0 ->
          (forall j, j < j0 -> ~ crosses_fixed_temperature st x j) ->
          m_tfixed st' = T st x (j0 + 1) /\ m_zfixed st' = z st (j0 + 1)
          /\ fixed_point_on_grid st')
    /\ (~ fixed_point_on_grid st ->
        (forall j, j < m_points st - 1 -> ~ crosses_fixed_temperature st x j) ->
        m_zfixed st' = m_zfixed st /\ m_tfixed st' = m_tfixed st).
Proof.
  intros hdr x st Hok Hfree Hdef st'.
  destruct (finalize_state hdr x st Hok)
    as (st2 & F & E & _ & _ & _ & Env & Ep & Ezz & Ef & Et & Ez).
  unfold st'. rewrite E. clear st' E.
  assert (ET : forall j, T st2 x j = T st x j)
    by (intros j; unfold T, index; rewrite Env; reflexivity).
  assert (EZ : forall j, z st2 j = z st j) by (intros j; unfold z; rewrite Ezz; reflexivity).
  assert (Eg : fixed_point_on_grid st2 <-> fixed_point_on_grid st).
  { unfold fixed_point_on_grid. rewrite Ep, Ez.
    split; intros (j & Hj & H); exists j; (split; [exact Hj|]).
    - rewrite <- EZ. exact H.
    - rewrite EZ. exact H. }
  assert (Ec : forall j, crosses_fixed_temperature st2 x j
                         <-> crosses_fixed_temperature st x j).
  { intros j. unfold crosses_fixed_temperature. rewrite !ET, Et. reflexivity. }
  destruct (finalize_fixed_point_spec hdr x st2) as (H1 & H2 & H3);
    [congruence|congruence|].
  set (st' := snd (finalize_fixed_point hdr x st2)) in *. clearbody st'.
  split; [|split].
  - intros Hg. rewrite (H1 (proj2 Eg Hg)). split; assumption.
  - intros Hng j0 Hj0 Hc Hfirst.
    rewrite (H2 (fun H => Hng (proj1 Eg H)) j0).
    + cbn [m_tfixed m_zfixed set_m_zfixed set_m_tfixed].
      rewrite ET, EZ. split; [reflexivity|]. split; [reflexivity|].
      exists (j0 + 1). split.
      * change (m_points (set_m_zfixed (z st (j0 + 1)) (set_m_tfixed (T st x (j0 + 1)) st2)))
          with (m_points st2). lia.
      * unfold z at 1. cbn [m_z m_zfixed set_m_zfixed set_m_tfixed].
        rewrite Ezz. reflexivity.
    + lia.
    + apply Ec, Hc.
    + intros j Hj H. apply (Hfirst j Hj), Ec, H.
  - intros Hng Hnone.
    rewrite (H3 (fun H => Hng (proj1 Eg H))).
    + split; assumption.
    + intros j Hj H. apply (Hnone j); [lia|]. apply Ec, H.
Qed.

Lemma finalize_anchors_fixed_point_witness :
  m_tfixed (snd (_finalize sample_header sample_x sample_free)) = T sample_free sample_x 2
  /\ m_zfixed (snd (_finalize sample_header sample_x sample_free)) = z sample_free 2
  /\ fixed_point_on_grid (snd (_finalize sample_header sample_x sample_free)).
Proof.
  destruct (finalize_anchors_fixed_point sample_header sample_x sample_free)
    as (_ & H & _).
  - reflexivity.
  - reflexivity.
  - reflexivity.
  - apply (H ltac:(intros (j & Hj & Hq); vm_compute in Hj;
                   destruct j as [|[|[|j]]]; vm_compute in Hq; try discriminate; lia) 1).
    + vm_compute. lia.
    + vm_compute. discriminate.
    + intros j Hj. assert (j = 0) by lia. subst j. intros Hc. vm_compute in Hc.
      apply Hc. reflexivity.
Defined.

(** ** Residuals of components that are not solved for *)

(** A loop that stores one residual and one diag entry per point. *)
Lemma point_loop (f : nat -> nat) (g : nat -> Q) (d : Z) (lo hi : nat)
    (o : (nat -> Q) * (nat -> Z)) :
  (forall j j', lo <= j < hi -> lo <= j' < hi -> f j = f j' -> j = j') ->
  let o' := for_range lo hi (fun j o => set_diag (f j) d (set_rsd (f j) (g j) o)) o in
  (forall j, lo <= j < hi -> fst o' (f j) = g j /\ snd o' (f j) = d)
  /\ (forall i, (forall j, lo <= j < hi -> i <> f j) ->
                fst o' i = fst o i /\ snd o' i = snd o i).
Proof.
  intros Hinj. cbv zeta.
  destruct (Nat.le_gt_cases lo hi) as [Hle|Hgt].
  2:{ rewrite for_range_empty by lia. split; [intros j Hj; lia|]. intros i _. split; reflexivity. }
  apply (for_range_ind
           (fun n (a : (nat -> Q) * (nat -> Z)) =>
              (forall j, lo <= j < n -> fst a (f j) = g j /\ snd a (f j) = d)
              /\ (forall i, (forall j, lo <= j < n -> i <> f j) ->
                            fst a i = fst o i /\ snd a i = snd o i))).
  - exact Hle.
  - split; [intros j Hj; lia|]. intros i _. split; reflexivity.
  - intros n a Hn [Hw Hfr]. unfold set_diag, set_rsd. cbn [fst snd]. split.
    + intros j Hj. destruct (Nat.eq_dec j n) as [->|Hne].
      * rewrite !fn_lookup_insert. split; reflexivity.
      * assert (Hf : f n <> f j).
        { intros E. apply Hne. symmetry. apply Hinj; [lia|lia|exact E]. }
        rewrite !fn_lookup_insert_ne by exact Hf. apply Hw. lia.
    + intros i Hi. assert (Hf : f n <> i).
      { intros E. apply (Hi n); [lia|]. symmetry. exact E. }
      rewrite !fn_lookup_insert_ne by exact Hf. apply Hfr. intros j Hj. apply Hi. lia.
Qed.

(** X11.  When the domain does not use lambda (free and unstrained
    flows), the spread-rate and lambda components are not solved for: at
    every point of the window [evalMomentum] stores the spread rate itself
    and [evalLambda] stores lambda itself as the residual, both marked
    algebraic, and neither touches any other entry of the buffers. *)
Theorem unused_components_are_forced_to_zero :
  forall (hdr : Header) (st : StFlow) (x : nat -> Q) (o : (nat -> Q) * (nat -> Z))
         (rdt : Q) (jmin jmax : nat),
    m_usesLambda st = false -> 0 < m_nv st ->
    let om := evalMomentum hdr st x o rdt jmin jmax in
    let ol := evalLambda st x o rdt jmin jmax in
    (forall j, jmin <= j <= jmax ->
       fst om (index st c_offset_V j) = V st x j /\ snd om (index st c_offset_V j) = 0%Z)
    /\ (forall j, jmin <= j <= jmax ->
          fst ol (index st c_offset_L j) = lambda st x j
          /\ snd ol (index st c_offset_L j) = 0%Z)
    /\ (forall i, (forall j, jmin <= j <= jmax -> i <> index st c_offset_V j) ->
          fst om i = fst o i /\ snd om i = snd o i)
    /\ (forall i, (forall j, jmin <= j <= jmax -> i <> index st c_offset_L j) ->
          fst ol i = fst o i /\ snd ol i = snd o i).
Proof.
  intros hdr st x o rdt jmin jmax Hl Hnv om ol.
  unfold om, ol, evalMomentum, evalLambda, for_upto. rewrite Hl. cbn [negb].
  destruct (point_loop (fun j => index st c_offset_V j) (fun j => V st x j) 0%Z
              jmin (S jmax) o) as [Vin Vout].
  { intros j j' _ _ E. eapply index_inj_point; eauto. }
  destruct (point_loop (fun j => index st c_offset_L j) (fun j => lambda st x j) 0%Z
              jmin (S jmax) o) as [Lin Lout].
  { intros j j' _ _ E. eapply index_inj_point; eauto. }
  cbv zeta in Vin, Vout, Lin, Lout.
  split; [|split; [|split]].
  - intros j Hj. apply Vin. lia.
  - intros j Hj. apply Lin. lia.
  - intros i Hi. apply Vout. intros j Hj. apply Hi. lia.
  - intros i Hi. apply Lout. intros j Hj. apply Hi. lia.
Qed.

Lemma unused_components_are_forced_to_zero_witness :
  fst (evalMomentum sample_header sample_free sample_x sample_outputs 0%Q 0 2)
      (index sample_free c_offset_V 1) = V sample_free sample_x 1
  /\ snd (evalMomentum sample_header sample_free sample_x sample_outputs 0%Q 0 2)
         (index sample_free c_offset_V 1) = 0%Z.
Proof.
  destruct (unused_components_are_forced_to_zero sample_header sample_free sample_x
              sample_outputs 0%Q 0 2) as (H & _).
  - reflexivity.
  - vm_compute. lia.
  - apply H. lia.
Defined.

(** ** What eval leaves alone *)

Lemma same_settings_trans (s1 s2 s3 : StFlow) :
  same_settings s1 s2 -> same_settings s2 s3 -> same_settings s1 s3.
Proof. unfold same_settings. congruence. Qed.

Lemma same_settings_config (s a : StFlow) : same_settings s a -> same_config s a.
Proof. unfold same_settings, settings, same_config. congruence. Qed.

Lemma same_frame_settings (s a : StFlow) : same_frame s a -> same_settings s a.
Proof. unfold same_frame, frame, same_settings. congruence. Qed.

Lemma same_frame_fields (s a : StFlow) :
  same_frame s a ->
  m_nv a = m_nv s /\ m_nsp a = m_nsp s /\ m_points a = m_points s
  /\ m_kExcessLeft a = m_kExcessLeft s /\ m_kExcessRight a = m_kExcessRight s.
Proof.
  unfold same_frame, frame, settings, configuration. intros H.
  injection H as H1 H2 H3 H4 H5 H6 H7 H8 H9 H10 H11 H12 H13 H14 H15 H16 H17 H18 H19 H20
    H21 H22 H23 H24 H25 H26 H27 H28 H29 H30. repeat split; congruence.
Qed.

Lemma same_frame_trans (s1 s2 s3 : StFlow) :
  same_frame s1 s2 -> same_frame s2 s3 -> same_frame s1 s3.
Proof. unfold same_frame. congruence. Qed.

Lemma for_range_frame (lo hi : nat) (body : nat -> StFlow -> StFlow) (s : StFlow) :
  (forall j a, same_frame a (body j a)) ->
  same_frame s (for_range lo hi body s).
Proof.
  intros H. destruct (Nat.le_gt_cases lo hi) as [Hle|Hgt].
  - apply (for_range_ind (fun _ a => same_frame s a)); [exact Hle|reflexivity|].
    intros j a _ Ha. exact (same_frame_trans _ _ _ Ha (H j a)).
  - rewrite for_range_empty by lia. reflexivity.
Qed.

Lemma for_range_frame_snd {A : Type} (lo hi : nat)
    (body : nat -> A * StFlow -> A * StFlow) (q : A) (s : StFlow) :
  (forall j q a, same_frame a (snd (body j (q, a)))) ->
  same_frame s (snd (for_range lo hi body (q, s))).
Proof.
  intros H. destruct (Nat.le_gt_cases lo hi) as [Hle|Hgt].
  - apply (for_range_ind (fun _ (a : A * StFlow) => same_frame s (snd a)));
      [exact Hle|reflexivity|].
    intros j [q' a] _ Ha. exact (same_frame_trans _ _ _ Ha (H j q' a)).
  - rewrite for_range_empty by lia. reflexivity.
Qed.

Lemma for_range_frame_fst {A : Type} (lo hi : nat)
    (body : nat -> StFlow * A -> StFlow * A) (q : A) (s : StFlow) :
  (forall j a q, same_frame a (fst (body j (a, q)))) ->
  same_frame s (fst (for_range lo hi body (s, q))).
Proof.
  intros H. destruct (Nat.le_gt_cases lo hi) as [Hle|Hgt].
  - apply (for_range_ind (fun _ (a : StFlow * A) => same_frame s (fst a)));
      [exact Hle|reflexivity|].
    intros j [a q'] _ Ha. exact (same_frame_trans _ _ _ Ha (H j a q')).
  - rewrite for_range_empty by lia. reflexivity.
Qed.

Lemma updateThermo_point_frame (ext : Collaborators) (x : nat -> Q) (j : nat)
    (st : StFlow) :
  same_frame st (updateThermo_point ext x j st).
Proof. rewrite updateThermo_point_nf. reflexivity. Qed.

Lemma setGasAtMidpoint_frame (x : nat -> Q) (j : nat) (st : StFlow) :
  same_frame st (setGasAtMidpoint x j st).
Proof.
  unfold setGasAtMidpoint. cbv zeta.
  set (l := for_range 0 (m_nsp st) _ st).
  assert (H : same_frame st l).
  { apply for_range_frame. intros k a. reflexivity. }
  clearbody l. apply (same_frame_trans _ l); [exact H|]. reflexivity.
Qed.

Lemma updateTransport_mixavg_frame (ext : Collaborators) (x : nat -> Q) (j : nat)
    (st : StFlow) :
  same_frame st (updateTransport_mixavg ext x j st).
Proof.
  rewrite updateTransport_mixavg_nf. cbv zeta.
  pose proof (setGasAtMidpoint_frame x j st) as H.
  set (st1 := setGasAtMidpoint x j st) in *. clearbody st1.
  apply (same_frame_trans _ st1); [exact H|]. reflexivity.
Qed.

Lemma updateTransport_multi_frame (ext : Collaborators) (x : nat -> Q) (j : nat)
    (st : StFlow) :
  same_frame st (updateTransport_multi ext x j st).
Proof.
  rewrite updateTransport_multi_nf. cbv zeta.
  pose proof (setGasAtMidpoint_frame x j st) as H.
  set (st1 := setGasAtMidpoint x j st) in *. clearbody st1.
  apply (same_frame_trans _ st1); [exact H|].
  destruct (m_do_soret st1); reflexivity.
Qed.

Lemma set_flux_frame (k j : nat) (v : Q) (st : StFlow) :
  same_frame st (set_flux k j v st).
Proof. reflexivity. Qed.

Lemma updateDiffFluxes_frame (hdr : Header) (x : nat -> Q) (j0 j1 : nat) (st : StFlow) :
  same_frame st (updateDiffFluxes hdr x j0 j1 st).
Proof.
  unfold updateDiffFluxes. cbv zeta.
  set (a := if m_do_multicomponent st then _ else _).
  assert (Ha : same_frame st a).
  { unfold a. destruct (m_do_multicomponent st).
    - apply for_range_frame. intros j s. unfold updateDiffFluxes_multi. cbv zeta.
      apply for_range_frame. intros k s'. apply set_flux_frame.
    - apply for_range_frame. intros j s. unfold updateDiffFluxes_mixavg. cbv zeta.
      set (l := for_range 0 (m_nsp s) _ (0%Q, s)).
      assert (Hl : same_frame s (snd l)).
      { apply for_range_frame_snd. intros k q s'. reflexivity. }
      destruct l as [sum s1]. cbn [snd] in Hl.
      apply (same_frame_trans _ s1); [exact Hl|].
      apply for_range_frame. intros k s'. apply set_flux_frame. }
  clearbody a. apply (same_frame_trans _ a); [exact Ha|].
  destruct (m_do_soret a); [|reflexivity].
  apply for_range_frame. intros j s. unfold updateDiffFluxes_soret. cbv zeta.
  apply for_range_frame. intros k s'. apply set_flux_frame.
Qed.

Lemma updateProperties_frame (ext : Collaborators) (hdr : Header) (jg : option nat)
    (x : nat -> Q) (jmin jmax : nat) (st : StFlow) :
  let p := updateProperties ext hdr jg x jmin jmax st in
  same_settings st p
  /\ match jg with
     | Some _ => m_kExcessLeft p = m_kExcessLeft st /\ m_kExcessRight p = m_kExcessRight st
     | None => m_kExcessLeft p = max_element x (index st c_offset_Y jmin) (m_nsp st)
               /\ m_kExcessRight p = max_element x (index st c_offset_Y jmax) (m_nsp st)
     end.
Proof.
  unfold updateProperties. cbv zeta.
  set (j0 := Nat.max jmin 1 - 1). set (j1 := Nat.min (jmax + 1) (m_points st - 1)).
  clearbody j0 j1.
  assert (H1 : same_frame st (updateThermo ext x j0 j1 st)).
  { unfold updateThermo, for_upto. apply for_range_frame.
    intros j a. apply updateThermo_point_frame. }
  set (a := updateThermo ext x j0 j1 st) in *. clearbody a.
  set (b := if _ || m_force_full_update a then updateTransport ext x j0 j1 a else a).
  assert (H2 : same_frame a b).
  { unfold b. destruct (_ || m_force_full_update a); [|reflexivity].
    unfold updateTransport. destruct (m_do_multicomponent a).
    - apply for_range_frame. intros j s. apply updateTransport_multi_frame.
    - apply for_range_frame. intros j s. apply updateTransport_mixavg_frame. }
  clearbody b.
  pose proof (same_frame_trans _ _ _ H1 H2) as H12.
  destruct (same_frame_fields _ _ H12) as (Env & Ens & _ & Ekl & Ekr).
  set (c := match jg with None => _ | Some _ => b end).
  assert (H3 : same_settings b c) by (unfold c; destruct jg; reflexivity).
  pose proof (updateDiffFluxes_frame hdr x j0 j1 c) as H4.
  destruct (same_frame_fields _ _ H4) as (_ & _ & _ & Fkl & Fkr).
  split.
  - apply (same_settings_trans _ b); [apply same_frame_settings, H12|].
    apply (same_settings_trans _ c); [exact H3|]. apply same_frame_settings, H4.
  - rewrite Fkl, Fkr. unfold c. destruct jg.
    + split; assumption.
    + cbn [m_kExcessLeft m_kExcessRight set_m_kExcessLeft set_m_kExcessRight m_nsp].
      unfold index. cbn [m_nv set_m_kExcessLeft]. rewrite Env, Ens. split; reflexivity.
Qed.

Lemma computeRadiation_frame (hdr : Header) (x : nat -> Q) (jmin jmax : nat)
    (st : StFlow) :
  same_frame st (computeRadiation hdr x jmin jmax st).
Proof.
  unfold computeRadiation. apply for_range_frame. intros j a. reflexivity.
Qed.

Lemma grad_hk_frame (x : nat -> Q) (j : nat) (st : StFlow) :
  same_frame st (grad_hk x j st).
Proof.
  unfold grad_hk. apply for_range_frame. intros k a.
  destruct (Qlt_bool 0 (u a x j)); reflexivity.
Qed.

Lemma evalEnergy_frame (hdr : Header) (st : StFlow) (x : nat -> Q)
    (o : (nat -> Q) * (nat -> Z)) (rdt : Q) (jmin jmax : nat) :
  same_frame st (fst (evalEnergy hdr st x o rdt jmin jmax)).
Proof.
  unfold evalEnergy, for_upto. cbv zeta.
  apply for_range_frame_fst. intros j a q.
  destruct (m_do_energy a !!! j); cbn [fst]; [apply grad_hk_frame|reflexivity].
Qed.

Lemma eval_window_frame (ext : Collaborators) (hdr : Header) (jg : option nat)
    (x : nat -> Q) (o : (nat -> Q) * (nat -> Z)) (rdt : Q) (jmin jmax : nat)
    (st : StFlow) :
  same_settings st (fst (eval_window ext hdr jg x o rdt jmin jmax st)).
Proof.
  unfold eval_window. cbv zeta.
  destruct (updateProperties_frame ext hdr jg x jmin jmax st) as (H1 & _).
  set (p := updateProperties ext hdr jg x jmin jmax st) in *. clearbody p.
  set (e := if m_do_radiation p then computeRadiation hdr x jmin jmax p else p).
  assert (H2 : same_frame p e).
  { unfold e. destruct (m_do_radiation p); [apply computeRadiation_frame|reflexivity]. }
  clearbody e.
  set (o2 := evalMomentum hdr e x (evalContinuity e x o rdt jmin jmax) rdt jmin jmax).
  clearbody o2.
  pose proof (evalEnergy_frame hdr e x o2 rdt jmin jmax) as H3.
  destruct (evalEnergy hdr e x o2 rdt jmin jmax) as [g o3]. cbn [fst] in *.
  apply (same_settings_trans _ p); [exact H1|].
  apply same_frame_settings. apply (same_frame_trans _ e); [exact H2|exact H3].
Qed.

(** X12.  Whatever the point argument and the buffers, [eval] changes
    nothing of the domain but its caches (the per-point and per-interval
    properties, fluxes, enthalpy gradients, radiative loss, the state of
    the phase object, the excess species): the configuration, the stored
    reference profile, the refinement flags and the count of Jacobian
    signals are as before. *)
Theorem eval_changes_only_caches :
  forall (ext : Collaborators) (hdr : Header) (jGlobal : option nat)
         (xGlobal rsdGlobal : nat -> Q) (diagGlobal : nat -> Z) (rdt : Q) (st : StFlow),
    same_settings st (fst (eval ext hdr jGlobal xGlobal rsdGlobal diagGlobal rdt st)).
Proof.
  intros ext hdr jg xG rG dG rdt st. unfold eval. cbv zeta.
  set (x := local_part xG (loc st)).
  set (o := (local_part rG (loc st), local_part dG (loc st))).
  clearbody x o.
  destruct jg as [g|].
  - destruct ((g + 1 <? firstPoint st) || (lastPoint st + 1 <? g)); [reflexivity|].
    destruct ((g =? 0) || (firstPoint st <=? g)); [|reflexivity].
    set (jmin := Nat.max _ 1 - 1). set (jmax := Nat.min _ (m_points st - 1)).
    clearbody jmin jmax.
    pose proof (eval_window_frame ext hdr (Some g) x o rdt jmin jmax st) as H.
    destruct (eval_window ext hdr (Some g) x o rdt jmin jmax st) as [a oa]. exact H.
  - pose proof (eval_window_frame ext hdr None x o rdt 0 (m_points st - 1) st) as H.
    destruct (eval_window ext hdr None x o rdt 0 (m_points st - 1) st) as [a oa]. exact H.
Qed.

(** ** Where eval writes *)

Lemma agree_at_refl (i : nat) (o : (nat -> Q) * (nat -> Z)) : agree_at i o o.
Proof. split; reflexivity. Qed.

Lemma agree_at_trans (i : nat) (o1 o2 o3 : (nat -> Q) * (nat -> Z)) :
  agree_at i o1 o2 -> agree_at i o2 o3 -> agree_at i o1 o3.
Proof. unfold agree_at. intros [H1 H2] [H3 H4]. split; congruence. Qed.

Lemma agree_set_rsd (i k : nat) (v : Q) (o : (nat -> Q) * (nat -> Z)) :
  i <> k -> agree_at i o (set_rsd k v o).
Proof.
  intros H. unfold agree_at, set_rsd. cbn [fst snd].
  rewrite fn_lookup_insert_ne by congruence. split; reflexivity.
Qed.

Lemma agree_set_diag (i k : nat) (v : Z) (o : (nat -> Q) * (nat -> Z)) :
  i <> k -> agree_at i o (set_diag k v o).
Proof.
  intros H. unfold agree_at, set_diag. cbn [fst snd].
  rewrite fn_lookup_insert_ne by congruence. split; reflexivity.
Qed.

Lemma agree_for_range (i lo hi : nat)
    (body : nat -> (nat -> Q) * (nat -> Z) -> (nat -> Q) * (nat -> Z))
    (o : (nat -> Q) * (nat -> Z)) :
  (forall j a, lo <= j < hi -> agree_at i a (body j a)) ->
  agree_at i o (for_range lo hi body o).
Proof.
  intros H. destruct (Nat.le_gt_cases lo hi) as [Hle|Hgt].
  - apply (for_range_ind (fun _ a => agree_at i o a)); [exact Hle|apply agree_at_refl|].
    intros j a Hj Ha. exact (agree_at_trans _ _ _ _ Ha (H j a Hj)).
  - rewrite for_range_empty by lia. apply agree_at_refl.
Qed.

Lemma agree_for_range_snd {A : Type} (i lo hi : nat)
    (body : nat -> A * ((nat -> Q) * (nat -> Z)) -> A * ((nat -> Q) * (nat -> Z)))
    (q : A) (o : (nat -> Q) * (nat -> Z)) :
  (forall j q a, lo <= j < hi -> agree_at i a (snd (body j (q, a)))) ->
  agree_at i o (snd (for_range lo hi body (q, o))).
Proof.
  intros H. destruct (Nat.le_gt_cases lo hi) as [Hle|Hgt].
  - apply (for_range_ind (fun _ (a : A * ((nat -> Q) * (nat -> Z))) => agree_at i o (snd a)));
      [exact Hle|apply agree_at_refl|].
    intros j [q' a] Hj Ha. exact (agree_at_trans _ _ _ _ Ha (H j q' a Hj)).
  - rewrite for_range_empty by lia. apply agree_at_refl.
Qed.

Lemma outside_window_index (st : StFlow) (jmin jmax i c j : nat) :
  outside_window (m_nv st) jmin jmax i -> jmin <= j <= jmax -> c < m_nv st ->
  i <> index st c j.
Proof.
  intros Ho Hj Hc E. apply (Ho j Hj). unfold index in E. subst i.
  rewrite Nat.mul_add_distr_l. lia.
Qed.

(** Storing residual and diag of component [c] at a point of the window. *)
Ltac window_store Ho :=
  repeat first
    [ apply agree_at_refl
    | eapply agree_at_trans; [|apply agree_set_diag; apply (outside_window_index _ _ _ _ _ _ Ho);
                                 [lia|unfold c_offset_U, c_offset_V, c_offset_T, c_offset_L,
                                        c_offset_E, c_offset_Y in *; lia]]
    | eapply agree_at_trans; [|apply agree_set_rsd; apply (outside_window_index _ _ _ _ _ _ Ho);
                                 [lia|unfold c_offset_U, c_offset_V, c_offset_T, c_offset_L,
                                        c_offset_E, c_offset_Y in *; lia]] ].

Section Window.

Variables (hdr : Header) (st : StFlow) (x : nat -> Q) (rdt : Q) (jmin jmax i : nat).
Hypothesis Hfit : components_fit st.
Hypothesis Ho : outside_window (m_nv st) jmin jmax i.
Hypothesis Hw : jmin <= jmax.

Lemma evalContinuity_window (o : (nat -> Q) * (nat -> Z)) :
  agree_at i o (evalContinuity st x o rdt jmin jmax).
Proof.
  destruct Hfit as (Hnv & _). unfold evalContinuity, for_upto. cbv zeta.
  set (o1 := if jmin =? 0 then _ else o).
  assert (H1 : agree_at i o o1).
  { unfold o1. destruct (jmin =? 0) eqn:E; [|apply agree_at_refl].
    apply Nat.eqb_eq in E. window_store Ho. }
  set (o2 := if jmax =? m_points st - 1 then _ else o1).
  assert (H2 : agree_at i o1 o2).
  { unfold o2. destruct (jmax =? m_points st - 1) eqn:E; [|apply agree_at_refl].
    apply Nat.eqb_eq in E. destruct (m_usesLambda st); window_store Ho. }
  clearbody o1 o2.
  apply (agree_at_trans _ _ o1); [exact H1|].
  apply (agree_at_trans _ _ o2); [exact H2|].
  destruct (m_usesLambda st); [|destruct (m_isFree st)].
  - apply agree_for_range. intros j a Hj. window_store Ho.
  - apply agree_for_range. intros j a Hj.
    destruct (Qlt_bool (m_zfixed st) (grid st j));
      [|destruct (Qeq_bool (grid st j) (m_zfixed st));
        [destruct (m_do_energy st !!! j)|]]; window_store Ho.
  - apply agree_for_range. intros j a Hj. window_store Ho.
Qed.

Lemma evalMomentum_window (o : (nat -> Q) * (nat -> Z)) :
  agree_at i o (evalMomentum hdr st x o rdt jmin jmax).
Proof.
  destruct Hfit as (Hnv & _). unfold evalMomentum, for_upto. cbv zeta.
  destruct (m_usesLambda st); cbn [negb].
  - set (o1 := if jmin =? 0 then _ else o).
    assert (H1 : agree_at i o o1).
    { unfold o1. destruct (jmin =? 0) eqn:E; [|apply agree_at_refl].
      apply Nat.eqb_eq in E. window_store Ho. }
    set (o2 := if jmax =? m_points st - 1 then _ else o1).
    assert (H2 : agree_at i o1 o2).
    { unfold o2. destruct (jmax =? m_points st - 1) eqn:E; [|apply agree_at_refl].
      apply Nat.eqb_eq in E. window_store Ho. }
    clearbody o1 o2.
    apply (agree_at_trans _ _ o1); [exact H1|].
    apply (agree_at_trans _ _ o2); [exact H2|].
    apply agree_for_range. intros j a Hj. window_store Ho.
  - apply agree_for_range. intros j a Hj. window_store Ho.
Qed.

Lemma evalLambda_window (o : (nat -> Q) * (nat -> Z)) :
  agree_at i o (evalLambda st x o rdt jmin jmax).
Proof.
  destruct Hfit as (Hnv & _). unfold evalLambda, for_upto. cbv zeta.
  destruct (m_usesLambda st); cbn [negb].
  - set (o1 := if jmin =? 0 then _ else o).
    assert (H1 : agree_at i o o1).
    { unfold o1. destruct (jmin =? 0) eqn:E; [|apply agree_at_refl].
      apply Nat.eqb_eq in E. window_store Ho. }
    set (o2 := if jmax =? m_points st - 1 then _ else o1).
    assert (H2 : agree_at i o1 o2).
    { unfold o2. destruct (jmax =? m_points st - 1) eqn:E; [|apply agree_at_refl].
      apply Nat.eqb_eq in E. window_store Ho. }
    clearbody o1 o2.
    apply (agree_at_trans _ _ o1); [exact H1|].
    apply (agree_at_trans _ _ o2); [exact H2|].
    apply agree_for_range. intros j a Hj. window_store Ho.
  - apply agree_for_range. intros j a Hj. window_store Ho.
Qed.

Lemma evalElectricField_window (o : (nat -> Q) * (nat -> Z)) :
  agree_at i o (evalElectricField st x o rdt jmin jmax).
Proof.
  destruct Hfit as (Hnv & _). unfold evalElectricField, for_upto.
  apply agree_for_range. intros j a Hj. window_store Ho.
Qed.

Lemma evalSpecies_window (o : (nat -> Q) * (nat -> Z)) :
  agree_at i o (evalSpecies hdr st x o rdt jmin jmax).
Proof.
  destruct Hfit as (Hnv & Hkl & Hkr). unfold evalSpecies, for_upto. cbv zeta.
  unfold leftExcessSpecies, rightExcessSpecies.
  set (o1 := if jmin =? 0 then _ else o).
  assert (H1 : agree_at i o o1).
  { unfold o1. destruct (jmin =? 0) eqn:E; [|apply agree_at_refl].
    apply Nat.eqb_eq in E.
    set (l := for_range 0 (m_nsp st) _ (0%Q, o)).
    assert (Hl : agree_at i o (snd l)).
    { apply agree_for_range_snd. intros k q a Hk. cbn [snd]. window_store Ho. }
    destruct l as [sum a]. cbn [snd] in Hl.
    apply (agree_at_trans _ _ a); [exact Hl|]. window_store Ho. }
  set (o2 := if jmax =? m_points st - 1 then _ else o1).
  assert (H2 : agree_at i o1 o2).
  { unfold o2. destruct (jmax =? m_points st - 1) eqn:E; [|apply agree_at_refl].
    apply Nat.eqb_eq in E.
    set (l := for_range 0 (m_nsp st) _ (0%Q, o1)).
    assert (Hl : agree_at i o1 (snd l)).
    { apply agree_for_range_snd. intros k q a Hk. cbn [snd]. window_store Ho. }
    destruct l as [sum a]. cbn [snd] in Hl.
    apply (agree_at_trans _ _ a); [exact Hl|]. window_store Ho. }
  clearbody o1 o2.
  apply (agree_at_trans _ _ o1); [exact H1|].
  apply (agree_at_trans _ _ o2); [exact H2|].
  apply agree_for_range. intros j a Hj.
  apply agree_for_range. intros k b Hk. window_store Ho.
Qed.

End Window.

Lemma components_fit_frame (s a : StFlow) :
  same_frame s a -> components_fit s -> components_fit a.
Proof.
  intros H. destruct (same_frame_fields _ _ H) as (E1 & E2 & _ & E3 & E4).
  unfold components_fit. rewrite E1, E2, E3, E4. tauto.
Qed.

Lemma evalEnergy_window (hdr : Header) (st : StFlow) (x : nat -> Q) (rdt : Q)
    (jmin jmax i : nat) (o : (nat -> Q) * (nat -> Z)) :
  components_fit st -> outside_window (m_nv st) jmin jmax i -> jmin <= jmax ->
  agree_at i o (snd (evalEnergy hdr st x o rdt jmin jmax)).
Proof.
  intros (Hnv & _) Ho Hw. unfold evalEnergy, for_upto. cbv zeta.
  set (o1 := if jmin =? 0 then _ else o).
  assert (H1 : agree_at i o o1).
  { unfold o1. destruct (jmin =? 0) eqn:E; [|apply agree_at_refl].
    apply Nat.eqb_eq in E. window_store Ho. }
  set (o2 := if jmax =? m_points st - 1 then _ else o1).
  assert (H2 : agree_at i o1 o2).
  { unfold o2. destruct (jmax =? m_points st - 1) eqn:E; [|apply agree_at_refl].
    apply Nat.eqb_eq in E. window_store Ho. }
  clearbody o1 o2.
  apply (agree_at_trans _ _ o1); [exact H1|].
  apply (agree_at_trans _ _ o2); [exact H2|].
  set (j0 := Nat.max jmin 1). set (j1 := Nat.min jmax (m_points st - 2)).
  assert (Hj0 : jmin <= j0) by (unfold j0; lia).
  assert (Hj1 : j1 <= jmax) by (unfold j1; lia).
  clearbody j0 j1.
  destruct (Nat.le_gt_cases j0 (S j1)) as [Hle|Hgt].
  2:{ rewrite for_range_empty by lia. apply agree_at_refl. }
  apply (for_range_ind
           (fun _ (a : StFlow * ((nat -> Q) * (nat -> Z))) =>
              same_frame st (fst a) /\ agree_at i o2 (snd a))).
  - exact Hle.
  - split; [reflexivity|apply agree_at_refl].
  - intros j [a oa] Hj [Hf Ha]. cbn [fst snd] in Hf, Ha.
    destruct (same_frame_fields _ _ Hf) as (Env & _).
    assert (Hoa : outside_window (m_nv a) jmin jmax i) by (rewrite Env; exact Ho).
    destruct (m_do_energy a !!! j).
    + pose proof (grad_hk_frame x j a) as Hg.
      set (g := grad_hk x j a) in *. clearbody g.
      destruct (same_frame_fields _ _ Hg) as (Eg & _).
      assert (Hog : outside_window (m_nv g) jmin jmax i) by (rewrite Eg; exact Hoa).
      cbn [fst snd]. split; [exact (same_frame_trans _ _ _ Hf Hg)|].
      apply (agree_at_trans _ _ oa); [exact Ha|].
      assert (Hnvg : c_offset_Y + m_nsp st <= m_nv g) by (rewrite Eg, Env; exact Hnv).
      clear Ho Hoa. window_store Hog.
    + cbn [fst snd]. split; [exact Hf|].
      apply (agree_at_trans _ _ oa); [exact Ha|].
      assert (Hnva : c_offset_Y + m_nsp st <= m_nv a) by (rewrite Env; exact Hnv).
      clear Ho. window_store Hoa.
Qed.

Lemma eval_window_window (ext : Collaborators) (hdr : Header) (jg : option nat)
    (x : nat -> Q) (o : (nat -> Q) * (nat -> Z)) (rdt : Q) (jmin jmax i : nat)
    (st : StFlow) :
  components_fit (updateProperties ext hdr jg x jmin jmax st) ->
  outside_window (m_nv st) jmin jmax i -> jmin <= jmax ->
  agree_at i o (snd (eval_window ext hdr jg x o rdt jmin jmax st)).
Proof.
  intros Hfit Ho Hw. unfold eval_window. cbv zeta.
  destruct (updateProperties_frame ext hdr jg x jmin jmax st) as (H1 & _).
  set (p := updateProperties ext hdr jg x jmin jmax st) in *. clearbody p.
  pose proof (same_config_fields _ _ (same_settings_config _ _ H1)) as (_ & Env & _).
  set (e := if m_do_radiation p then computeRadiation hdr x jmin jmax p else p).
  assert (H2 : same_frame p e).
  { unfold e. destruct (m_do_radiation p); [apply computeRadiation_frame|reflexivity]. }
  clearbody e.
  pose proof (components_fit_frame _ _ H2 Hfit) as Hfe.
  destruct (same_frame_fields _ _ H2) as (Ee & _).
  assert (Hoe : outside_window (m_nv e) jmin jmax i) by (rewrite Ee, <- Env; exact Ho).
  pose proof (evalContinuity_window e x rdt jmin jmax i Hfe Hoe Hw o) as A1.
  set (o1 := evalContinuity e x o rdt jmin jmax) in *. clearbody o1.
  pose proof (evalMomentum_window hdr e x rdt jmin jmax i Hfe Hoe Hw o1) as A2.
  set (o2 := evalMomentum hdr e x o1 rdt jmin jmax) in *. clearbody o2.
  pose proof (evalEnergy_window hdr e x rdt jmin jmax i o2 Hfe Hoe Hw) as A3.
  pose proof (evalEnergy_frame hdr e x o2 rdt jmin jmax) as H3.
  destruct (evalEnergy hdr e x o2 rdt jmin jmax) as [g o3]. cbn [fst snd] in *.
  pose proof (components_fit_frame _ _ H3 Hfe) as Hfg.
  destruct (same_frame_fields _ _ H3) as (Eg & _).
  assert (Hog : outside_window (m_nv g) jmin jmax i) by (rewrite Eg; exact Hoe).
  pose proof (evalLambda_window g x rdt jmin jmax i Hfg Hog Hw o3) as A4.
  set (o4 := evalLambda g x o3 rdt jmin jmax) in *. clearbody o4.
  pose proof (evalElectricField_window g x rdt jmin jmax i Hfg Hog Hw o4) as A5.
  set (o5 := evalElectricField g x o4 rdt jmin jmax) in *. clearbody o5.
  pose proof (evalSpecies_window hdr g x rdt jmin jmax i Hfg Hog Hw o5) as A6.
  apply (agree_at_trans _ _ o1); [exact A1|].
  apply (agree_at_trans _ _ o2); [exact A2|].
  apply (agree_at_trans _ _ o3); [exact A3|].
  apply (agree_at_trans _ _ o4); [exact A4|].
  apply (agree_at_trans _ _ o5); [exact A5|exact A6].
Qed.

Lemma max_element_lt (x : nat -> Q) (first n : nat) : 0 < n -> max_element x first n < n.
Proof.
  intros Hn. unfold max_element.
  destruct (Nat.le_gt_cases 1 n) as [Hle|Hgt]; [|lia].
  apply (for_range_ind (fun m (best : nat) => best < Nat.max m 1 /\ best < n)); [exact Hle| |].
  - split; lia.
  - intros k best Hk [Hb Hbn].
    destruct (Qlt_bool (x (first + best)) (x (first + k))); split; lia.
Qed.

Lemma updateProperties_fit (ext : Collaborators) (hdr : Header) (jg : option nat)
    (x : nat -> Q) (jmin jmax : nat) (st : StFlow) :
  c_offset_Y + m_nsp st <= m_nv st -> 1 <= m_nsp st ->
  m_kExcessLeft st < m_nsp st -> m_kExcessRight st < m_nsp st ->
  let p := updateProperties ext hdr jg x jmin jmax st in
  components_fit p /\ m_kExcessLeft p < m_nsp p /\ m_kExcessRight p < m_nsp p.
Proof.
  intros Hnv Hn Hl Hr. cbv zeta.
  destruct (updateProperties_frame ext hdr jg x jmin jmax st) as (Hs & Hk).
  set (p := updateProperties ext hdr jg x jmin jmax st) in *. clearbody p.
  pose proof (same_config_fields _ _ (same_settings_config _ _ Hs)) as (En & Ev & _).
  assert (Hb : m_kExcessLeft p < m_nsp st /\ m_kExcessRight p < m_nsp st).
  { destruct jg; destruct Hk as [-> ->]; split;
      try assumption; apply max_element_lt; lia. }
  unfold components_fit. rewrite <- En, <- Ev. lia.
Qed.

Lemma global_of_agree (rG : nat -> Q) (dG : nat -> Z) (off n : nat)
    (o' : (nat -> Q) * (nat -> Z)) :
  (off <= n -> agree_at (n - off) (local_part rG off, local_part dG off) o') ->
  global_of rG off (fst o') n = rG n /\ global_of dG off (snd o') n = dG n.
Proof.
  intros H. unfold global_of. destruct (n <? off) eqn:E.
  - split; reflexivity.
  - apply Nat.ltb_ge in E. destruct (H E) as [H1 H2]. cbn [fst snd] in H1, H2.
    rewrite H1, H2. unfold local_part. replace (off + (n - off)) with n by lia.
    split; reflexivity.
Qed.

(** X13.  [eval] writes residual and diag entries only for the points it
    evaluates: below the offset of the domain, and in the blocks of all
    points other than the evaluated ones (every point for a full
    evaluation, the point [jGlobal] and its two neighbours for a banded
    one), the global buffers come back as they were supplied.  This needs
    the components of a point to fit into its block, at least one species
    and excess-species indices that are species indices; the last
    condition holds again after the call. *)
Theorem eval_writes_only_evaluated_points :
  forall (ext : Collaborators) (hdr : Header) (jGlobal : option nat)
         (xGlobal rsdGlobal : nat -> Q) (diagGlobal : nat -> Z) (rdt : Q) (st : StFlow),
    c_offset_Y + m_nsp st <= m_nv st -> 1 <= m_nsp st ->
    m_kExcessLeft st < m_nsp st -> m_kExcessRight st < m_nsp st ->
    2 <= m_points st ->
    let r := eval ext hdr jGlobal xGlobal rsdGlobal diagGlobal rdt st in
    (forall n,
       n < loc st
       \/ outside_window (m_nv st) (fst (eval_points jGlobal st))
            (snd (eval_points jGlobal st)) (n - loc st) ->
       fst (snd r) n = rsdGlobal n /\ snd (snd r) n = diagGlobal n)
    /\ m_kExcessLeft (fst r) < m_nsp (fst r)
    /\ m_kExcessRight (fst r) < m_nsp (fst r).
Proof.
  intros ext hdr jg xG rG dG rdt st Hnv Hn Hl Hr Hp r.
  assert (Hwin : forall jmin jmax,
            jmin <= jmax ->
            let w := eval_window ext hdr jg (local_part xG (loc st))
                       (local_part rG (loc st), local_part dG (loc st)) rdt jmin jmax st in
            (forall n, n < loc st \/ outside_window (m_nv st) jmin jmax (n - loc st) ->
               global_of rG (loc (fst w)) (fst (snd w)) n = rG n
               /\ global_of dG (loc (fst w)) (snd (snd w)) n = dG n)
            /\ m_kExcessLeft (fst w) < m_nsp (fst w)
            /\ m_kExcessRight (fst w) < m_nsp (fst w)).
  { intros jmin jmax Hw w.
    pose proof (eval_window_frame ext hdr jg (local_part xG (loc st))
                  (local_part rG (loc st), local_part dG (loc st)) rdt jmin jmax st) as Hs.
    fold w in Hs.
    pose proof (same_config_fields _ _ (same_settings_config _ _ Hs))
      as (_ & _ & _ & El & _).
    destruct (updateProperties_fit ext hdr jg (local_part xG (loc st)) jmin jmax st
                Hnv Hn Hl Hr) as (Hfit & Kl & Kr).
    split.
    - intros n Hcase.
      assert (Eloc : loc (fst w) = loc st) by (unfold loc; symmetry; exact El).
      rewrite Eloc.
      apply global_of_agree. intros Hge.
      destruct Hcase as [Hlt|Hout]; [lia|].
      apply eval_window_window; assumption.
    - unfold w, eval_window. cbv zeta.
      set (p := updateProperties ext hdr jg (local_part xG (loc st)) jmin jmax st) in *.
      clearbody p.
      set (e := if m_do_radiation p then _ else p).
      assert (H2 : same_frame p e).
      { unfold e. destruct (m_do_radiation p); [apply computeRadiation_frame|reflexivity]. }
      clearbody e.
      set (o2 := evalMomentum hdr e _ _ rdt jmin jmax). clearbody o2.
      pose proof (evalEnergy_frame hdr e (local_part xG (loc st)) o2 rdt jmin jmax) as H3.
      destruct (evalEnergy hdr e (local_part xG (loc st)) o2 rdt jmin jmax) as [g o3].
      cbn [fst] in *.
      destruct (same_frame_fields _ _ (same_frame_trans _ _ _ H2 H3))
        as (_ & E2 & _ & E3 & E4).
      rewrite E2, E3, E4. split; assumption. }
  unfold r, eval. cbv zeta. destruct jg as [g|].
  - destruct ((g + 1 <? firstPoint st) || (lastPoint st + 1 <? g)) eqn:Eout.
    { cbn [fst snd]. split; [|split; assumption]. intros n _. split; reflexivity. }
    destruct ((g =? 0) || (firstPoint st <=? g)) eqn:Ein.
    2:{ cbn [fst snd]. split; [|split; assumption]. intros n _. split; reflexivity. }
    apply orb_false_iff in Eout. destruct Eout as [E1 E2].
    apply Nat.ltb_ge in E1, E2. unfold lastPoint, firstPoint in *.
    cbn [eval_points fst snd]. unfold firstPoint.
    set (jpt := if g =? 0 then 0 else g - m_jstart st).
    assert (Hjpt : jpt <= m_points st).
    { unfold jpt. destruct (g =? 0); lia. }
    clearbody jpt.
    specialize (Hwin (Nat.max jpt 1 - 1) (Nat.min (jpt + 1) (m_points st - 1)) ltac:(lia)).
    cbv zeta in Hwin.
    destruct (eval_window ext hdr (Some g) _ _ rdt _ _ st) as [a oa].
    cbn [fst snd] in Hwin |- *. exact Hwin.
  - cbn [eval_points fst snd].
    specialize (Hwin 0 (m_points st - 1) ltac:(lia)). cbv zeta in Hwin.
    destruct (eval_window ext hdr None _ _ rdt _ _ st) as [a oa].
    cbn [fst snd] in Hwin |- *. exact Hwin.
Qed.

Lemma eval_writes_only_evaluated_points_witness :
  fst (snd (eval sample_ext sample_header (Some 0) sample_x (fst sample_outputs)
              (snd sample_outputs) 0%Q sample_axi)) 16
  = fst sample_outputs 16.
Proof.
  destruct (eval_writes_only_evaluated_points sample_ext sample_header (Some 0) sample_x
              (fst sample_outputs) (snd sample_outputs) 0%Q sample_axi) as (H & _).
  - vm_compute. lia.
  - vm_compute. lia.
  - vm_compute. lia.
  - vm_compute. lia.
  - vm_compute. lia.
  - destruct (H 16) as (H1 & _); [|exact H1].
    right. intros j Hj. change (0 <= j <= 1) in Hj.
    change (~ (7 * j <= 16 < 7 * (j + 1))). lia.
Defined.

(** ** Radiation without radiating species *)

Lemma radiative_heat_loss_none (hdr : Header) (x : nat -> Q) (j : nat) (st : StFlow) :
  m_kRadiating st !!! 0 = None -> m_kRadiating st !!! 1 = None ->
  Qeq (radiative_heat_loss hdr x j st) 0.
Proof.
  intros H0 H1. unfold radiative_heat_loss. cbv zeta. rewrite H0, H1. ring.
Qed.

(** X14.  When the phase contains neither CO2 nor H2O (both radiating
    indices are [npos]), the radiative loss that [computeRadiation] stores
    is zero at every point of its range, whatever the temperatures and
    emissivities. *)
Theorem no_radiating_species_no_loss :
  forall (hdr : Header) (x : nat -> Q) (jmin jmax : nat) (st : StFlow) (j : nat),
    m_kRadiating st !!! 0 = None -> m_kRadiating st !!! 1 = None ->
    jmin <= j < jmax -> j < length (m_qdotRadiation st) ->
    Qeq (m_qdotRadiation (computeRadiation hdr x jmin jmax st) !!! j) 0.
Proof.
  intros hdr x jmin jmax st j H0 H1 Hj Hlen.
  destruct (computeRadiation_inv hdr x jmin jmax st) as (_ & _ & _ & Hv).
  destruct (Hv j Hj Hlen) as (q & ->).
  apply radiative_heat_loss_none; assumption.
Qed.

Lemma no_radiating_species_no_loss_witness :
  Qeq (m_qdotRadiation (computeRadiation sample_header sample_x 0 2 sample_inert) !!! 1) 0.
Proof.
  apply (no_radiating_species_no_loss sample_header sample_x 0 2 sample_inert 1).
  - reflexivity.
  - reflexivity.
  - lia.
  - vm_compute. lia.
Defined.

(** ** The phase at the midpoint of an interval *)

Lemma sumQ_half (f g : nat -> Q) (n : nat) :
  Qeq (sumQ (fun k => Qmult (1#2) (Qplus (f k) (g k))) n)
      (Qmult (1#2) (Qplus (sumQ f n) (sumQ g n))).
Proof.
  induction n as [|n IH].
  - rewrite !sumQ_0. ring.
  - rewrite !sumQ_S, IH. ring.
Qed.

(** X15.  [setGasAtMidpoint] sets the phase to the arithmetic mean of the
    two ends of the interval: its temperature is the mean temperature, and
    its mass fractions sum to the mean of the two sums.  So when the mass
    fractions are normalised at both points they are normalised at the
    midpoint, which is what setting them without normalisation relies on.
    The scratch vector must hold one entry per species. *)
Theorem midpoint_composition_is_normalised :
  forall (x : nat -> Q) (j : nat) (st : StFlow),
    m_nsp st <= length (m_ybar st) ->
    let th := m_thermo (setGasAtMidpoint x j st) in
    tp_temperature th = Qmult (1#2) (Qplus (T st x j) (T st x (j + 1)))
    /\ length (tp_massFractions th) = m_nsp st
    /\ Qeq (sumQ (fun k => tp_massFractions th !!! k) (m_nsp st))
           (Qmult (1#2) (Qplus (sum_Y st x j) (sum_Y st x (j + 1))))
    /\ (Qeq (sum_Y st x j) 1 -> Qeq (sum_Y st x (j + 1)) 1 ->
        Qeq (sumQ (fun k => tp_massFractions th !!! k) (m_nsp st)) 1).
Proof.
  intros x j st Hlen th.
  destruct (setGasAtMidpoint_nf x j st Hlen) as (yb & E & _).
  assert (Eth : th = gas_mid st x j) by (unfold th; rewrite E; reflexivity).
  rewrite Eth. clear th Eth E.
  assert (Hsum : Qeq (sumQ (fun k => tp_massFractions (gas_mid st x j) !!! k) (m_nsp st))
                     (Qmult (1#2) (Qplus (sum_Y st x j) (sum_Y st x (j + 1))))).
  { rewrite !sum_Y_sumQ, <- sumQ_half.
    apply sumQ_ext. intros k Hk. unfold gas_mid. cbv zeta. cbn [tp_massFractions].
    rewrite (list_lookup_total_alt _ k).
    rewrite list_lookup_fmap, lookup_seq_lt by exact Hk. cbn [fmap option_fmap option_map default].
    unfold Y, index, id. rewrite !Nat.add_assoc, !Nat.add_0_r. reflexivity. }
  split; [reflexivity|]. split; [|split; [exact Hsum|]].
  - unfold gas_mid. cbv zeta. cbn [tp_massFractions]. rewrite length_map, length_seq.
    reflexivity.
  - intros H1 H2. rewrite Hsum, H1, H2. reflexivity.
Qed.

Lemma midpoint_composition_is_normalised_witness :
  length (tp_massFractions (m_thermo (setGasAtMidpoint sample_x 0 sample_axi)))
  = m_nsp sample_axi.
Proof.
  destruct (midpoint_composition_is_normalised sample_x 0 sample_axi) as (_ & H & _).
  - vm_compute. lia.
  - exact H.
Defined.

(** ** Component names *)

(** X16.  Whenever [componentIndex] returns an index, that index is within
    the components of the domain and [componentName] gives the requested
    name back for it, also when species share names with each other or
    with the fixed components; a fixed name always resolves to its fixed
    offset. *)
Theorem componentIndex_names_the_component :
  forall (st : StFlow) (name : string) (n : nat),
    componentIndex st name = Normal n ->
    componentName st n = name
    /\ n < c_offset_Y + m_nsp st
    /\ (In name fixed_names -> n < c_offset_Y).
Proof.
  intros st name n H. unfold componentIndex in H.
  destruct (String.eqb name "velocity") eqn:E1.
  { apply String.eqb_eq in E1. inversion H. subst. repeat split; unfold c_offset_Y, c_offset_U; lia. }
  destruct (String.eqb name "spread_rate") eqn:E2.
  { apply String.eqb_eq in E2. inversion H. subst. repeat split; unfold c_offset_Y, c_offset_V; lia. }
  destruct (String.eqb name "T") eqn:E3.
  { apply String.eqb_eq in E3. inversion H. subst. repeat split; unfold c_offset_Y, c_offset_T; lia. }
  destruct (String.eqb name "lambda") eqn:E4.
  { apply String.eqb_eq in E4. inversion H. subst. repeat split; unfold c_offset_Y, c_offset_L; lia. }
  destruct (String.eqb name "eField") eqn:E5.
  { apply String.eqb_eq in E5. inversion H. subst. repeat split; unfold c_offset_Y, c_offset_E; lia. }
  destruct (find _ _) as [m|] eqn:F; [|discriminate].
  inversion H. subst m. apply find_some in F. destruct F as [Hin Hname].
  apply String.eqb_eq in Hname. apply in_seq in Hin.
  split; [exact Hname|]. split; [lia|].
  intros Hfix. exfalso.
  apply String.eqb_neq in E1, E2, E3, E4, E5.
  unfold fixed_names in Hfix. cbn [In] in Hfix.
  destruct Hfix as [<-|[<-|[<-|[<-|[<-|[]]]]]]; congruence.
Qed.

Lemma componentIndex_names_the_component_witness :
  componentName sample_axi 6 = "O2"%string.
Proof.
  apply (componentIndex_names_the_component sample_axi "O2" 6).
  vm_compute. reflexivity.
Defined.

(** ** Transport coefficients of the intervals *)

(** X17.  After [updateTransport] over the intervals [0 .. hi), the
    coefficients cached for every one of them are those of the phase at
    the midpoint of that interval (mean temperature, mean mass fractions):
    viscosity (zero when viscosity is switched off), conductivity, the
    diffusion coefficients scaled by density and molecular weights, and
    with multicomponent transport the diffusion matrix and, with Soret,
    the thermal diffusion coefficients.  Later intervals of the loop do
    not disturb earlier ones. *)
Theorem updateTransport_caches_midpoint_coefficients :
  forall (ext : Collaborators) (x : nat -> Q) (st : StFlow) (hi j : nat),
    transport_sized st -> hi <= m_points st - 1 -> j < hi ->
    interval_is ext st x j (updateTransport ext x 0 hi st).
Proof.
  intros ext x st hi j Hs Hhi Hj. unfold updateTransport.
  destruct (m_do_multicomponent st) eqn:Hm.
  - exact (proj2 (updateTransport_multi_spec ext x st hi Hs Hm Hhi) j Hj).
  - exact (proj2 (updateTransport_mixavg_spec ext x st hi Hs Hm Hhi) j Hj).
Qed.

Lemma updateTransport_caches_midpoint_coefficients_witness :
  interval_is sample_ext sample_axi sample_x 1
    (updateTransport sample_ext sample_x 0 2 sample_axi).
Proof.
  apply updateTransport_caches_midpoint_coefficients.
  - unfold transport_sized. vm_compute. repeat split; try lia; discriminate.
  - vm_compute. lia.
  - lia.
Defined.

(** ** Fluxes of a uniform composition *)

Lemma Qzero_quot (a b d dz : Q) : Qeq a b -> Qeq (d * ((a - b) / dz)) 0.
Proof. intros ->. unfold Qdiv. ring. Qed.

Lemma mixavg_uniform_interval (hdr : Header) (x : nat -> Q) (j : nat)
    (st : StFlow) (fl : Array2D) :
  nRows fl = m_nsp st -> m_nsp st * S j <= length (a2d_data fl) ->
  uniform_composition hdr x st j ->
  exists fl',
    updateDiffFluxes_mixavg hdr x j (set_m_flux fl st) = set_m_flux fl' st
    /\ flux_step (m_nsp st) j fl fl'
    /\ forall k, k < m_nsp st -> Qeq (a2d_get fl' k j) 0.
Proof.
  intros Hn Hlen Hu. unfold updateDiffFluxes_mixavg.
  change (m_nsp (set_m_flux fl st)) with (m_nsp st).
  set (dz := (z (set_m_flux fl st) (j + 1) - z (set_m_flux fl st) j)%Q). clearbody dz.
  set (loop1 := for_range 0 (m_nsp st) _ (0%Q, set_m_flux fl st)).
  assert (H1 : exists fl1,
             snd loop1 = set_m_flux fl1 st
             /\ flux_step (m_nsp st) j fl fl1
             /\ (forall k, k < m_nsp st -> Qeq (a2d_get fl1 k j) 0)
             /\ Qeq (fst loop1) 0).
  { assert (G : forall n, n <= m_nsp st ->
               exists fl1,
                 snd (for_range 0 n
                        (fun k '(sum, st0) =>
                           let st1 := set_flux k j (m_diff st0 !!! (k + m_nsp st0 * j)) st0 in
                           let st2 := set_flux k j
                                        (flux st1 k j
                                         * ((X hdr st1 x k j - X hdr st1 x k (j + 1)%nat) / dz))%Q
                                        st1 in
                           ((sum - flux st2 k j)%Q, st2))
                        (0%Q, set_m_flux fl st)) = set_m_flux fl1 st
                 /\ flux_step (m_nsp st) j fl fl1
                 /\ (forall k, k < n -> Qeq (a2d_get fl1 k j) 0)
                 /\ Qeq (fst (for_range 0 n
                        (fun k '(sum, st0) =>
                           let st1 := set_flux k j (m_diff st0 !!! (k + m_nsp st0 * j)) st0 in
                           let st2 := set_flux k j
                                        (flux st1 k j
                                         * ((X hdr st1 x k j - X hdr st1 x k (j + 1)%nat) / dz))%Q
                                        st1 in
                           ((sum - flux st2 k j)%Q, st2))
                        (0%Q, set_m_flux fl st))) 0).
    { intros n Hle.
      apply (for_range_ind
               (fun n (a : Q * StFlow) =>
                  exists fl1,
                    snd a = set_m_flux fl1 st
                    /\ flux_step (m_nsp st) j fl fl1
                    /\ (forall k, k < n -> Qeq (a2d_get fl1 k j) 0)
                    /\ Qeq (fst a) 0)).
      - lia.
      - exists fl. split; [reflexivity|]. split; [apply flux_step_refl|].
        split; [intros k Hk; lia|reflexivity].
      - intros k [s a] Hk (fl1 & Ha & Hst & Hz & Hs). cbn [fst snd] in Ha, Hs. subst a.
        unfold set_flux, flux. cbn [m_flux set_m_flux m_nsp m_diff fst snd].
        pose proof Hst as (Hr & Hl & _).
        eexists. split; [reflexivity|]. split; [|split].
        + apply flux_step_set; [exact Hn|lia|].
          apply flux_step_set; [exact Hn|lia|exact Hst].
        + intros k' Hk'. destruct (Nat.eq_dec k' k) as [->|Hne].
          * rewrite a2d_get_set_eq
              by (unfold a2d_set; cbn [nRows a2d_data]; rewrite length_insert, Hr, Hl, Hn; lia).
            apply Qzero_quot. apply Hu. lia.
          * rewrite !a2d_get_set_ne by (cbn [nRows a2d_set]; lia). apply Hz. lia.
        + rewrite a2d_get_set_eq
            by (unfold a2d_set; cbn [nRows a2d_data]; rewrite length_insert, Hr, Hl, Hn; lia).
          rewrite Qzero_quot by (apply Hu; lia). rewrite Hs. ring. }
    exact (G (m_nsp st) (Nat.le_refl _)). }
  destruct loop1 as [sum st1]. cbn [fst snd] in H1.
  destruct H1 as (fl1 & -> & Hst1 & Hz1 & Hsum).
  change (m_nsp (set_m_flux fl1 st)) with (m_nsp st).
  apply (for_range_ind
           (fun (n : nat) a =>
              exists fl2,
                a = set_m_flux fl2 st
                /\ flux_step (m_nsp st) j fl fl2
                /\ forall k, k < m_nsp st -> Qeq (a2d_get fl2 k j) 0)).
  - lia.
  - exists fl1. repeat split; try apply Hst1. exact Hz1.
  - intros k a Hk (fl2 & -> & Hst2 & Hz2).
    unfold set_flux, flux. cbn [m_flux set_m_flux].
    pose proof Hst2 as (Hr & Hl & _).
    eexists. split; [reflexivity|]. split.
    + apply flux_step_set; [exact Hn|lia|exact Hst2].
    + intros k' Hk'. destruct (Nat.eq_dec k' k) as [->|Hne].
      * rewrite a2d_get_set_eq by (rewrite Hr, Hl, Hn; lia).
        rewrite (Hz2 k) by lia. rewrite Hsum. ring.
      * rewrite a2d_get_set_ne by lia. apply Hz2. exact Hk'.
Qed.

(** X18.  Under mixture-averaged transport with Soret disabled, an
    interval whose two ends have the same mole fractions carries no
    diffusive flux after [updateDiffFluxes]: every species flux of that
    interval is zero, whatever the diffusion coefficients and the mass
    fractions, and whatever the other intervals of the window hold. *)
Theorem uniform_composition_has_no_flux :
  forall (hdr : Header) (x : nat -> Q) (j0 j1 : nat) (st : StFlow) (j k : nat),
    m_do_multicomponent st = false -> m_do_soret st = false ->
    nRows (m_flux st) = m_nsp st ->
    m_nsp st * j1 <= length (a2d_data (m_flux st)) ->
    j0 <= j < j1 -> k < m_nsp st ->
    uniform_composition hdr x st j ->
    Qeq (flux (updateDiffFluxes hdr x j0 j1 st) k j) 0.
Proof.
  intros hdr x j0 j1 st j k Hm Hs Hn Hlen Hj Hk Hu.
  assert (H : exists fl,
             for_range j0 j1 (updateDiffFluxes_mixavg hdr x) st = set_m_flux fl st
             /\ nRows fl = m_nsp st
             /\ length (a2d_data fl) = length (a2d_data (m_flux st))
             /\ (j < j1 -> Qeq (a2d_get fl k j) 0)).
  { apply (for_range_ind
             (fun m a =>
                exists fl,
                  a = set_m_flux fl st
                  /\ nRows fl = m_nsp st
                  /\ length (a2d_data fl) = length (a2d_data (m_flux st))
                  /\ (j < m -> Qeq (a2d_get fl k j) 0))).
    - lia.
    - exists (m_flux st). split; [destruct st; reflexivity|].
      split; [exact Hn|]. split; [reflexivity|]. intros Hlt. lia.
    - intros m a Hmr (fl & -> & Hr & Hl & Hz).
      assert (Hroom : m_nsp st * S m <= length (a2d_data fl)).
      { rewrite Hl. pose proof (Nat.mul_le_mono_l (S m) j1 (m_nsp st) ltac:(lia)). lia. }
      destruct (Nat.eq_dec j m) as [->|Hne].
      + destruct (mixavg_uniform_interval hdr x m st fl Hr Hroom Hu)
          as (fl' & E & (Hr' & Hl' & _) & Hzero).
        exists fl'. split; [exact E|]. split; [congruence|]. split; [congruence|].
        intros _. apply Hzero. exact Hk.
      + destruct (updateDiffFluxes_mixavg_spec hdr x m st fl Hr Hroom)
          as (fl' & E & (Hr' & Hl' & Hfr) & _).
        exists fl'. split; [exact E|]. split; [congruence|]. split; [congruence|].
        intros Hlt. rewrite Hfr by assumption. apply Hz. lia. }
  destruct H as (fl & E & _ & _ & Hz).
  unfold updateDiffFluxes. rewrite Hm, E. cbv zeta.
  change (m_do_soret (set_m_flux fl st)) with (m_do_soret st). rewrite Hs.
  unfold flux. cbn [m_flux set_m_flux]. apply Hz. lia.
Qed.

Lemma uniform_composition_has_no_flux_witness :
  Qeq (flux (updateDiffFluxes sample_header sample_x 0 2 sample_axi) 0 1) 0.
Proof.
  apply uniform_composition_has_no_flux.
  - reflexivity.
  - reflexivity.
  - reflexivity.
  - vm_compute. lia.
  - lia.
  - vm_compute. lia.
  - intros fl k Hk. change (m_nsp sample_axi) with 2 in Hk.
    destruct k as [|[|k]]; [vm_compute; reflexivity|vm_compute; reflexivity|lia].
Defined.

(** ** The initial solution *)

Lemma getMassFractions_spec (th : ThermoPhase) (x : nat -> Q) (first : nat) :
  (forall k, k < length (tp_massFractions th) ->
     getMassFractions th x first (first + k) = tp_massFractions th !!! k)
  /\ (forall i, (forall k, k < length (tp_massFractions th) -> i <> first + k) ->
        getMassFractions th x first i = x i).
Proof.
  unfold getMassFractions.
  destruct (store_loop (fun k => first + k) (fun k => tp_massFractions th !!! k)
              0 (length (tp_massFractions th)) x) as [Hw Hf].
  { intros j j' _ _ E. lia. }
  split.
  - intros k Hk. apply Hw. lia.
  - intros i Hi. apply Hf. intros k Hk. apply Hi. lia.
Qed.

(** X19.  [_getInitialSoln] fills the state vector with a uniform profile:
    at every grid point the temperature and the mass fractions become
    those the phase object currently holds, and the cached density becomes
    the density of the phase.  Velocity, spread rate, lambda and electric
    field entries, and everything beyond the points of the domain, keep
    their values, and of the domain only the density cache changes. *)
Theorem initial_solution_is_uniform :
  forall (ext : Collaborators) (x : nat -> Q) (st : StFlow),
    length (tp_massFractions (m_thermo st)) = m_nsp st ->
    c_offset_Y + m_nsp st <= m_nv st ->
    m_points st <= length (m_rho st) ->
    let r := _getInitialSoln ext x st in
    (forall j, j < m_points st ->
       T st (fst r) j = tp_temperature (m_thermo st)
       /\ (forall k, k < m_nsp st ->
             Y st (fst r) k j = tp_massFractions (m_thermo st) !!! k)
       /\ m_rho (snd r) !!! j = thermo_density ext (m_thermo st))
    /\ (forall j c, c < c_offset_Y -> c <> c_offset_T ->
          fst r (index st c j) = x (index st c j))
    /\ (forall i, m_nv st * m_points st <= i -> fst r i = x i)
    /\ snd r = set_m_rho (m_rho (snd r)) st.
Proof.
  intros ext x st Hmf Hnv Hrho r.
  set (th := m_thermo st) in *.
  set (written := fun (n i : nat) =>
         exists j c, j < n /\ (c = c_offset_T \/ c_offset_Y <= c < c_offset_Y + m_nsp st)
                     /\ i = m_nv st * j + c).
  assert (H : exists R,
             snd r = set_m_rho R st
             /\ length R = length (m_rho st)
             /\ (forall j, j < m_points st ->
                   fst r (m_nv st * j + c_offset_T) = tp_temperature th
                   /\ (forall k, k < m_nsp st ->
                         fst r (m_nv st * j + (c_offset_Y + k)) = tp_massFractions th !!! k)
                   /\ R !!! j = thermo_density ext th)
             /\ (forall i, ~ written (m_points st) i -> fst r i = x i)).
  { unfold r, _getInitialSoln.
    apply (for_range_ind
             (fun n (a : (nat -> Q) * StFlow) =>
                exists R,
                  snd a = set_m_rho R st
                  /\ length R = length (m_rho st)
                  /\ (forall j, j < n ->
                        fst a (m_nv st * j + c_offset_T) = tp_temperature th
                        /\ (forall k, k < m_nsp st ->
                              fst a (m_nv st * j + (c_offset_Y + k))
                              = tp_massFractions th !!! k)
                        /\ R !!! j = thermo_density ext th)
                  /\ (forall i, ~ written n i -> fst a i = x i))).
    - lia.
    - exists (m_rho st). split; [destruct st; reflexivity|]. split; [reflexivity|].
      split; [intros j Hj; lia|]. intros i _. reflexivity.
    - intros n [x' a] Hn (R & Ha & HR & Hdone & Hfr). cbn [fst snd] in Ha, Hdone, Hfr.
      subst a. cbn [fst snd].
      change (m_thermo (set_m_rho R st)) with th.
      change (m_rho (set_m_rho R st)) with R.
      unfold index. change (m_nv (set_m_rho R st)) with (m_nv st).
      set (x1 := <[m_nv st * n + c_offset_T := tp_temperature th]> x').
      destruct (getMassFractions_spec th x1 (m_nv st * n + (c_offset_Y + 0))) as [Gw Gf].
      rewrite Hmf in Gw, Gf.
      assert (Hother : forall i,
                 i <> m_nv st * n + c_offset_T ->
                 (forall k, k < m_nsp st -> i <> m_nv st * n + (c_offset_Y + k)) ->
                 getMassFractions th x1 (m_nv st * n + (c_offset_Y + 0)) i = x' i).
      { intros i Hi1 Hi2. rewrite Gf.
        - unfold x1. apply fn_lookup_insert_ne. auto.
        - intros k Hk E. apply (Hi2 k Hk). lia. }
      exists (<[n := thermo_density ext th]> R).
      split; [reflexivity|]. split; [rewrite length_insert; exact HR|]. split.
      + intros j Hj. destruct (Nat.eq_dec j n) as [->|Hne].
        * split; [|split].
          -- rewrite Gf.
             ++ unfold x1. apply fn_lookup_insert.
             ++ intros k Hk. unfold c_offset_T, c_offset_Y. lia.
          -- intros k Hk. rewrite <- (Gw k Hk). f_equal. lia.
          -- apply list_lookup_total_insert_eq. lia.
        * destruct (Hdone j ltac:(lia)) as (D1 & D2 & D3).
          assert (Hcell : forall c c', c < m_nv st -> c' < m_nv st ->
                     m_nv st * j + c <> m_nv st * n + c').
          { intros c c' Hc Hc' E. apply cell_inj in E; [lia|lia|lia]. }
          split; [|split].
          -- rewrite Hother; [exact D1| |].
             ++ apply Hcell; unfold c_offset_T, c_offset_Y in *; lia.
             ++ intros k Hk. apply Hcell; unfold c_offset_T, c_offset_Y in *; lia.
          -- intros k Hk. rewrite Hother; [exact (D2 k Hk)| |].
             ++ apply Hcell; unfold c_offset_T, c_offset_Y in *; lia.
             ++ intros k' Hk'. apply Hcell; unfold c_offset_T, c_offset_Y in *; lia.
          -- rewrite list_lookup_total_insert_ne by lia. exact D3.
      + intros i Hi. rewrite Hother.
        * apply Hfr. intros (j & c & Hj & Hc & E). apply Hi. exists j, c.
          split; [lia|]. split; assumption.
        * intros E. apply Hi. exists n, c_offset_T. split; [lia|]. split; [left; reflexivity|exact E].
        * intros k Hk E. apply Hi. exists n, (c_offset_Y + k).
          split; [lia|]. split; [right; lia|exact E]. }
  destruct H as (R & ER & HR & Hdone & Hfr).
  split; [|split; [|split]].
  - intros j Hj. destruct (Hdone j Hj) as (D1 & D2 & D3).
    split; [exact D1|]. split; [exact D2|]. rewrite ER. exact D3.
  - intros j c Hc HcT. apply Hfr. intros (j' & c' & Hj' & Hc' & E).
    unfold index in E. apply cell_inj in E; [|lia|unfold c_offset_T, c_offset_Y in *; lia].
    unfold c_offset_T, c_offset_Y in *. lia.
  - intros i Hi. apply Hfr. intros (j' & c' & Hj' & Hc' & E).
    pose proof (Nat.mul_le_mono_l (S j') (m_points st) (m_nv st) ltac:(lia)) as Hm.
    rewrite Nat.mul_succ_r in Hm. unfold c_offset_T, c_offset_Y in *. lia.
  - rewrite ER. reflexivity.
Qed.

Lemma initial_solution_is_uniform_witness :
  T sample_axi (fst (_getInitialSoln sample_ext sample_x sample_axi)) 1 = 300%Q.
Proof.
  destruct (initial_solution_is_uniform sample_ext sample_x sample_axi) as (H & _).
  - reflexivity.
  - vm_compute. lia.
  - vm_compute. lia.
  - exact (proj1 (H 1 ltac:(vm_compute; lia))).
Defined.

(** ** The continuity equation *)

(** A loop whose every iteration stores 0 in the diag entry [f j]. *)
Lemma diag_zero_loop (f : nat -> nat) (body : nat -> outputs -> outputs) (lo hi : nat)
    (o : outputs) :
  (forall j a, snd (body j a) = <[f j := 0%Z]> (snd a)) ->
  (forall i, snd o i = 0%Z -> snd (for_range lo hi body o) i = 0%Z)
  /\ (forall j, lo <= j < hi -> snd (for_range lo hi body o) (f j) = 0%Z).
Proof.
  intros Hb.
  destruct (Nat.le_gt_cases lo hi) as [Hle|Hgt].
  2:{ rewrite for_range_empty by lia. split; [auto|]. intros j Hj. lia. }
  apply (for_range_ind
           (fun n a => (forall i, snd o i = 0%Z -> snd a i = 0%Z)
                       /\ (forall j, lo <= j < n -> snd a (f j) = 0%Z))).
  - exact Hle.
  - split; [auto|]. intros j Hj. lia.
  - intros n a Hn [Hz Hw]. rewrite Hb. split.
    + intros i Hi. destruct (Nat.eq_dec (f n) i) as [<-|Hne].
      * apply fn_lookup_insert.
      * rewrite fn_lookup_insert_ne by exact Hne. apply Hz, Hi.
    + intros j Hj. destruct (Nat.eq_dec (f n) (f j)) as [E|Hne].
      * rewrite E. apply fn_lookup_insert.
      * rewrite fn_lookup_insert_ne by exact Hne. apply Hw.
        assert (j <> n) by (intros ->; apply Hne; reflexivity). lia.
Qed.

(** X20.  In every mode (axisymmetric, freely propagating, unstrained)
    [evalContinuity] marks the continuity equation algebraic at every
    point of its window, boundary and interior alike: the diag entry of
    the velocity component is 0 there, whatever the caller supplied. *)
Theorem continuity_is_algebraic_at_every_point :
  forall (st : StFlow) (x : nat -> Q) (o : outputs) (rdt : Q) (jmin jmax j : nat),
    2 <= m_points st -> jmax <= m_points st - 1 -> jmin <= j <= jmax ->
    snd (evalContinuity st x o rdt jmin jmax) (index st c_offset_U j) = 0%Z.
Proof.
  intros st x o rdt jmin jmax j Hp Hmax Hj. unfold evalContinuity.
  set (o1 := if jmin =? 0 then _ else o).
  set (o2 := if jmax =? m_points st - 1 then _ else o1).
  set (j0 := Nat.max jmin 1). set (j1 := Nat.min jmax (m_points st - 2)).
  assert (H1 : j = 0 -> snd o1 (index st c_offset_U j) = 0%Z).
  { intros ->. unfold o1. replace jmin with 0 by lia. cbn [Nat.eqb set_diag snd].
    apply fn_lookup_insert. }
  assert (H2 : j = 0 \/ j = m_points st - 1 -> snd o2 (index st c_offset_U j) = 0%Z).
  { intros Hb. unfold o2. destruct (jmax =? m_points st - 1) eqn:E.
    - apply Nat.eqb_eq in E.
      assert (Hd : forall r, snd (set_diag (index st c_offset_U jmax) 0%Z r)
                             (index st c_offset_U j) = 0%Z
                             \/ (j = 0 /\ snd (set_diag (index st c_offset_U jmax) 0%Z r)
                                              (index st c_offset_U j)
                                          = snd r (index st c_offset_U j))).
      { intros r. unfold set_diag. cbn [snd].
        destruct (Nat.eq_dec (index st c_offset_U jmax) (index st c_offset_U j)) as [E'|Hne].
        - left. rewrite E'. apply fn_lookup_insert.
        - destruct Hb as [Hb|Hb].
          + right. split; [exact Hb|]. apply fn_lookup_insert_ne. exact Hne.
          + exfalso. apply Hne. f_equal. lia. }
      destruct (m_usesLambda st).
      + destruct (Hd (set_rsd (index st c_offset_U jmax) (rho_u st x jmax) o1))
          as [Hz|[Hz0 Hz]]; [exact Hz|].
        rewrite Hz. unfold set_rsd. cbn [snd]. apply H1, Hz0.
      + destruct (Hd (set_rsd (index st c_offset_U jmax)
                        (rho_u st x jmax - rho_u st x (jmax - 1))%Q o1))
          as [Hz|[Hz0 Hz]]; [exact Hz|].
        rewrite Hz. unfold set_rsd. cbn [snd]. apply H1, Hz0.
    - apply Nat.eqb_neq in E. apply H1. lia. }
  assert (Hloop : forall body,
             (forall j' a, snd (body j' a) = <[index st c_offset_U j' := 0%Z]> (snd a)) ->
             snd (for_upto j0 j1 body o2) (index st c_offset_U j) = 0%Z).
  { intros body Hb. unfold for_upto.
    destruct (diag_zero_loop (fun j' => index st c_offset_U j') body j0 (S j1) o2 Hb)
      as [Hz Hw].
    destruct (Nat.eq_dec j 0) as [E0|N0]; [apply Hz, H2; left; exact E0|].
    destruct (Nat.eq_dec j (m_points st - 1)) as [E1|N1]; [apply Hz, H2; right; exact E1|].
    apply Hw. unfold j0, j1. lia. }
  destruct (m_usesLambda st).
  - apply Hloop. intros j' a. reflexivity.
  - destruct (m_isFree st).
    + apply Hloop. intros j' a.
      destruct (Qlt_bool (m_zfixed st) (grid st j')); [reflexivity|].
      destruct (Qeq_bool (grid st j') (m_zfixed st)); [|reflexivity].
      destruct (m_do_energy st !!! j'); reflexivity.
    + apply Hloop. intros j' a. reflexivity.
Qed.

Lemma continuity_is_algebraic_at_every_point_witness :
  snd (evalContinuity sample_free sample_x sample_outputs 0 0 2)
      (index sample_free c_offset_U 1) = 0%Z.
Proof.
  apply continuity_is_algebraic_at_every_point.
  - vm_compute. lia.
  - vm_compute. lia.
  - lia.
Defined.
